(* ===== verification/_CoqProject ===== *)
-Q . S2P
Prelude.v
Bytes.v
VcProtocol.v
Socket.v
SocketSetup.v
TcpConnection.v
SharedConnection.v
Seqlock.v
StreamParser.v
IoThread.v
ReadThread.v
Fifo.v
SpscQueue.v
BlockingQueue.v
SentCache.v
Reorder.v
SendThread.v
SendSound.v
SendWait.v
Threads.v
Channel.v
EndToEnd.v
Tunnel.v
SenderSound.v
Recovery.v
Double.v
NetworkScore.v
Diagnostics.v
Config.v
Log.v
Protocol.v
Peers.v
Server.v
Client.v
Handshake.v
Datagrams.v
Utilities.v
Programs.v
