(* ===== verification/Prelude.v ===== *)
(** * A verification library for tcpudp

    ** The program

    tcpudp carries UDP datagrams between a client and a server over a virtual
    channel made of 32 TCP connections.  Every datagram becomes a DATA packet
    with a consecutive message id; the sender puts it on the connection it
    scores best, the receiver reads all connections, puts the packets back in
    order and hands the payloads to a callback.  Connections 24 to 31 carry
    only resends, asked for by RESEND_REQUEST and MISSING_NOTIFY packets.  A
    dead connection is replaced in its slot while the channel stays up: the
    client's watchdog reconnects the slot and tells the server which one with a
    bind message.

    Paths below are relative to src/src/.

    ** Files

    - Prelude: this header, machine integers as [Z] with their wrap-around, step
      relations with their invariant rule, a lemma on lists.
    - Bytes: bytes, little-endian encoding and reads from a buffer.
    - VcProtocol (common/VcProtocol.h): packet types, sizes, encodings.
    - Socket (common/Socket.cpp): what the code makes of the results of send,
      recv, poll and connect, with the error codes the threads branch on.  The
      results themselves are arguments everywhere.
    - SocketSetup (the rest of common/Socket.cpp): creation, the blocking flag,
      polling and the socket options on Linux, macOS and Windows.
    - TcpConnection (common/TcpConnection.cpp): one connection, its operations
      and the system calls they make; sampling of TCP_INFO.
    - SharedConnection (disconnect() of common/TcpConnection.cpp): a connection
      used by several threads, its descriptor against the rest of the process.
    - Seqlock (TcpConnection.h getLastRuntimeInfo against
      refreshRuntimeInfoIfStale): word by word, as a step relation, in a memory
      of views with the release and acquire orders of the code.
    - StreamParser: the interface of an incremental packet parser, a class with
      its laws, and the theorem all parsers share: the events do not depend on how
      the stream is cut.
    - IoThread (common/TcpVCIoThread.cpp) and ReadThread
      (common/TcpVCReadThread.cpp, legacy): the two receivers; both are
      instances of StreamParser, and ReadThread proves them equivalent on the
      packets both understand.
    - Fifo: the interface of a bounded FIFO, a class with its laws.
    - SpscQueue (common/SpscQueue.h): the ring buffer, an instance of Fifo, and its
      two threads with stale reads of each other's index.
    - BlockingQueue (common/BlockingQueue.cpp): the locked queue with its
      unlocked counter.
    - SentCache (SentDataCache of common/TcpVirtualChannel.cpp, and
      common/TcpVCWriteThread.h): the resend cache, the message tracker, send
      statistics and degradation status.
    - Reorder (reorderThreadFunc, drainReceivedDataMap,
      sendMissingNotifications, processReceivedData of
      common/TcpVirtualChannel.cpp): the reorder thread.
    - SendThread (common/TcpVCSendThread.cpp): scoring, ordering, sending,
      resends, step by step ([thread_op]); other threads disconnect and replace
      connections between the steps and in the middle of a send, also after
      getSocketFd() gave a number that is then closed or reused ([moment]).
    - SendSound: a step of the send thread never leaves defined behaviour, and
      its flush loops end ([flush_ends], from the budget and the packet size).
    - SendWait (the waits of TcpVCSendThread::run): the send thread against the
      threads that enqueue, stop it or replace connections.
    - Threads: StopableThread (common/StopableThread.cpp), start, stop, join and
      destruction against the worker; Lifetime, the shared pointers open() ties
      between a channel and its threads.
    - Channel (common/TcpVirtualChannel.cpp): the channel object itself.
    - EndToEnd: IO thread, receive queues (through Fifo) and reorder thread
      composed as TcpVirtualChannel::open wires them.
    - Tunnel: both ends around a lossy network, channel, send thread, IO thread
      and reorder thread as one step relation, and its specification, a queue
      that may drop.  Reused descriptor numbers are steps too; the refinement
      is for the runs in which none mixed two streams ([clean]).
    - SenderSound: the sending end as a program of operations in any order.
    - Recovery: a lost message, from the gap at the receiver to the notification,
      the resend and the delivery.
    - Double: binary64 numbers and their order.
    - NetworkScore (common/NetworkScoreCalculator.cpp): the quality score, in
      IEEE binary64 arithmetic.
    - Diagnostics (the reports of reorderThreadFunc, common/NetworkScore.cpp): the
      warning of a reorder timeout, the health log, the text of a score.
    - Config (client/ClientConfiguration.cpp, server/ServerConfiguration.cpp, the
      argument loops of both main.cpp, the levels of common/Log.cpp): settings,
      over a class of JSON libraries with its laws.
    - Log (common/Log.cpp): the lines and where they go.
    - Protocol (common/Protocol.h): UVT framing, the bind message, the
      connection registry.
    - Peers (server/Peer.cpp, VcManager.cpp, ReplaceSlotPolicy.h): the server's
      registries and the choice of the slot to replace.
    - Server (server/Server.cpp): the accept loop and the callbacks it installs.
    - Client (client/Client.cpp): establishing, tearing down and reconnecting
      the channel and its slots.
    - Handshake: client and server composed through the binds in flight.
    - Datagrams: the loops between the UDP sockets and the channel, on the client
      and on the server.
    - Utilities (common/PerformanceCounter.cpp, Counter.h, QueueManager.cpp,
      DataNotifier.cpp, DataProcessorContext.cpp, DataProcessorThread.cpp,
      VirtualChannel.cpp and the factories): small components, most of them
      unused by the tunnel.
    - Programs (Server::Listen, start, stop, server/main.cpp, client/main.cpp): the
      server process with its signal handler; of the client process two
      PrepareVC at once, one connect at a time.

    ** How state and effects are represented

    A C++ object is a record of its members and a method a function from the
    record to the new record and its results, named as in the source.  Objects
    shared through pointers (connections, channels) live in maps from addresses
    to records, so replacing an object and changing it are different.  What the
    operating system, the clock, rand() and other threads contribute is an
    argument; what the code does to the system (closing a descriptor, writing
    bytes, sending a bind) is part of the result, in order.  A function that
    can fall outside defined behaviour (a read beyond a buffer, a division by
    zero shards, a failed assertion) or that waits returns [None] then, and the
    theorems prove where it does not.  Code run by several threads at once
    without a lock is a step relation; its theorems hold in every reachable
    state.

    ** Fuel

    Loops that consume their input are structural.  drain_loop has one more
    step than the map has entries, each step erasing one; parse_loop and
    process_loop have one more than the buffer has bytes, each packet being at
    least 11 bytes long; drain_queue has one more than the queue's capacity.
    The theorems on those functions state that they return a result, never that
    a result is right if there is one.  flush_loop recurses on the list of what
    its passes meet and has no result when the list ends first; [attempt_timed]
    says that the clock of such a list passes the budget, and then [flush_ends]
    bounds the passes.

    ** What the theorems show

    - The tunnel: both ends together refine a lossy queue; whatever the network,
      dying connections, duplicates, resends and overflows do, what comes out is a
      subsequence of what was accepted, in order, each message at most once and
      unchanged, unless a reused descriptor number mixed streams (Tunnel).  The
      sending end has no stuck state (SenderSound), and a message lost on a
      connection, and not asked for before, is recovered through the resend path
      (Recovery).
    - Datagrams: none is forwarded in part, and those that are get consecutive ids
      in the order of their arrival, up to the first empty one (Datagrams).
    - Receiving: framing is independent of how TCP cuts the stream, the parsers
      never read outside their buffer, both readers see the same packets,
      delivery is strictly increasing, a gap delays it for at most the reorder
      timeout, and the whole path delivers what was sent, complete and in order,
      as long as the gap timer does not expire (IoThread, ReadThread, Reorder,
      EndToEnd).
    - Queues: both queues are FIFOs under every interleaving, the ring without a
      race on a slot (SpscQueue, BlockingQueue).
    - Sending: ids are consecutive, streams carry whole packets, the order of
      connections is by score with ties taking turns, resends are the original
      bytes and are bounded (Channel, SendThread, SentCache).
    - Threads: the send thread's wait for work loses no wake-up, stop() is final,
      a channel is destroyed only if it was closed while open (SendWait,
      Threads).
    - Connections and slots: a descriptor is closed exactly once, also when
      several threads disconnect at once, replacement repairs exactly one slot,
      the disconnect callback runs at most once (TcpConnection,
      SharedConnection, Channel, IoThread).
    - Establishing: PrepareVC is all or nothing, a slot reconnect settles its
      socket in every interleaving, the watchdog repairs a channel, the server's
      state stays within its bounds, its slots are those of the client from the
      first handshake on, and stay so (Client, Server, Handshake).
    - Programs and platforms: two PrepareVC that overlap end the client, one
      client without a UDP socket ends the server, what the three poll
      implementations make of the kernel's answer, the log is complete and in
      order, a client keeps its queue (Programs, SocketSetup, Log, Utilities).
    - Where the code departs from its comments or intent, a theorem or an
      example exhibits it: torn runtime infos, wedged streams, reused
      descriptors, lost wake-ups, a restarting client that is locked out, a channel
      that is never freed, a missing configuration file.

    ** Not modelled

    The Windows and macOS branches outside Socket.cpp (sampling of TCP_INFO);
    which log calls a function makes, except the reports of Diagnostics; the
    usage texts of the two main programs and the client's restart loop;
    TcpVCReadThreadFactory, which only calls make_shared and is used nowhere;
    the C++ memory model below sequential consistency, except for the stale
    index reads of SpscQueue and the views of Seqlock; the JSON library, of
    which Config states what the getters rely on; the tests.
*)

From stdpp Require Export base tactics numbers list relations gmap sets strings.
From Stdlib Require Export ZArith Lia.

(** ** Notation scope of the development *)

Declare Scope vc_scope.
Delimit Scope vc_scope with vc.
Open Scope Z_scope.

(** ** Machine integers

    A [w]-bit unsigned integer is a [Z] kept in [0 .. 2^w - 1]; each operation
    of the code that may wrap is followed by one of these. *)

Definition u8 (z : Z) : Z := z mod 2 ^ 8.
Definition u16 (z : Z) : Z := z mod 2 ^ 16.
Definition u32 (z : Z) : Z := z mod 2 ^ 32.
Definition u64 (z : Z) : Z := z mod 2 ^ 64.

(** Two's complement reading of the low bits (int8_t and int). *)
Definition i8 (z : Z) : Z := (z + 2 ^ 7) mod 2 ^ 8 - 2 ^ 7.
Definition i32 (z : Z) : Z := (z + 2 ^ 31) mod 2 ^ 32 - 2 ^ 31.

Definition is_u8 (z : Z) : Prop := 0 <= z < 2 ^ 8.
Definition is_u16 (z : Z) : Prop := 0 <= z < 2 ^ 16.
Definition is_u32 (z : Z) : Prop := 0 <= z < 2 ^ 32.
Definition is_u64 (z : Z) : Prop := 0 <= z < 2 ^ 64.
Definition is_i8 (z : Z) : Prop := - 2 ^ 7 <= z < 2 ^ 7.
Definition is_i32 (z : Z) : Prop := - 2 ^ 31 <= z < 2 ^ 31.

Create HintDb vc discriminated.
Create Rewrite HintDb vc.

Lemma u8_range z : is_u8 (u8 z).
Proof. apply Z.mod_pos_bound; lia. Qed.

Lemma u16_range z : is_u16 (u16 z).
Proof. apply Z.mod_pos_bound; lia. Qed.

Lemma u32_range z : is_u32 (u32 z).
Proof. apply Z.mod_pos_bound; lia. Qed.

Lemma u64_range z : is_u64 (u64 z).
Proof. apply Z.mod_pos_bound; lia. Qed.

Lemma u8_small z : is_u8 z -> u8 z = z.
Proof. apply Z.mod_small. Qed.

Lemma u16_small z : is_u16 z -> u16 z = z.
Proof. apply Z.mod_small. Qed.

Lemma u32_small z : is_u32 z -> u32 z = z.
Proof. apply Z.mod_small. Qed.

Lemma u64_small z : is_u64 z -> u64 z = z.
Proof. apply Z.mod_small. Qed.

Lemma i8_small z : is_i8 z -> i8 z = z.
Proof. unfold is_i8, i8. intros. rewrite Z.mod_small; lia. Qed.

Lemma i32_small z : is_i32 z -> i32 z = z.
Proof. unfold is_i32, i32. intros. rewrite Z.mod_small; lia. Qed.

Lemma i32_range z : is_i32 (i32 z).
Proof. unfold is_i32, i32. pose proof (Z.mod_pos_bound (z + 2 ^ 31) (2 ^ 32)). lia. Qed.

Lemma i8_u8 z : is_i8 z -> i8 (u8 z) = z.
Proof.
  unfold is_i8, i8, u8. intros Hz.
  rewrite Zplus_mod_idemp_l, Z.mod_small; lia.
Qed.

Lemma i32_u32 z : is_i32 z -> i32 (z mod 2 ^ 32) = z.
Proof.
  unfold is_i32, i32. intros Hz. rewrite Zplus_mod_idemp_l, Z.mod_small; lia.
Qed.

#[export] Hint Resolve u8_range u16_range u32_range u64_range i32_range : vc.
#[export] Hint Rewrite u8_small u16_small u32_small u64_small i8_small i32_small
  using assumption : vc.

(** ** Step relations

    A component whose threads interleave is a transition relation; a property
    of all its runs is an invariant of the states reachable from an initial
    one. *)

Section reachability.
Context {S : Type} (init : S -> Prop) (step : S -> S -> Prop).

Definition reachable (s : S) : Prop := exists s0, init s0 /\ rtc step s0 s.

Lemma reachable_init s : init s -> reachable s.
Proof. intros. exists s. split; [done | apply rtc_refl]. Qed.

Lemma reachable_step s s' : reachable s -> step s s' -> reachable s'.
Proof. intros (s0 & ? & ?) ?. exists s0. split; [done | by eapply rtc_r]. Qed.

(** The invariant rule: true initially and kept by every step. *)
Lemma invariant_reachable (P : S -> Prop) :
  (forall s, init s -> P s) ->
  (forall s s', P s -> step s s' -> P s') ->
  forall s, reachable s -> P s.
Proof.
  intros Hi Hs s (s0 & H0 & Hr).
  assert (H : P s0) by auto. clear H0.
  induction Hr; eauto.
Qed.
End reachability.

#[export] Hint Resolve reachable_init reachable_step : vc.

Lemma list_filter_all {A} (P : A -> Prop) `{forall x, Decision (P x)} (l : list A) :
  Forall P l -> filter P l = l.
Proof. induction 1 as [|x l Hx _ IH]; [done|]. by rewrite filter_cons_True, IH. Qed.
