(* ===== verification/Bytes.v ===== *)
(** * Bytes and little-endian fields

    The structs of the protocol are copied to and from the wire as they lie in
    memory, on a little-endian host: [le_split n z] are the [n] bytes of the
    unsigned field [z] and [le_combine] reads such a field back.  Reading past
    the end of a buffer is [None]. *)

From Stdlib.Strings Require Import Byte.
From S2P Require Import Prelude.

Abbreviation byte := Byte.byte.

#[export] Instance byte_eq_dec : EqDecision byte := Byte.byte_eq_dec.

Definition byte_val (b : byte) : Z := Z.of_N (Byte.to_N b).

Definition byte_of_Z (z : Z) : byte :=
  match Byte.of_N (Z.to_N (u8 z)) with Some b => b | None => Byte.x00 end.

Lemma byte_val_range b : is_u8 (byte_val b).
Proof.
  unfold is_u8, byte_val. pose proof (Byte.to_N_bounded b). lia.
Qed.

Lemma byte_val_of_Z z : byte_val (byte_of_Z z) = u8 z.
Proof.
  unfold byte_of_Z, byte_val. pose proof (u8_range z) as [H1 H2].
  destruct (Byte.of_N (Z.to_N (u8 z))) eqn:E.
  - apply Byte.to_of_N in E. rewrite E, Z2N.id; lia.
  - apply Byte.of_N_None_iff in E. lia.
Qed.

Lemma byte_of_val b : byte_of_Z (byte_val b) = b.
Proof.
  unfold byte_of_Z. rewrite u8_small by apply byte_val_range.
  unfold byte_val. rewrite N2Z.id, Byte.of_to_N. done.
Qed.

Lemma byte_val_inj b1 b2 : byte_val b1 = byte_val b2 -> b1 = b2.
Proof. intros H. rewrite <- (byte_of_val b1), <- (byte_of_val b2). by f_equal. Qed.

Fixpoint le_split (n : nat) (z : Z) : list byte :=
  match n with
  | O => []
  | S n => byte_of_Z z :: le_split n (z / 2 ^ 8)
  end.

Fixpoint le_combine (bs : list byte) : Z :=
  match bs with
  | [] => 0
  | b :: bs => byte_val b + 2 ^ 8 * le_combine bs
  end.

Lemma length_le_split n z : length (le_split n z) = n.
Proof. revert z; induction n; intros; simpl; auto. Qed.

Lemma le_combine_range bs : 0 <= le_combine bs < 2 ^ (8 * Z.of_nat (length bs)).
Proof.
  induction bs as [|b bs IH]; simpl; [lia|].
  pose proof (byte_val_range b) as Hb. unfold is_u8 in Hb.
  replace (8 * Z.of_nat (S (length bs))) with (8 + 8 * Z.of_nat (length bs)) by lia.
  rewrite Z.pow_add_r by lia. lia.
Qed.

Lemma le_combine_split n z : le_combine (le_split n z) = z mod 2 ^ (8 * Z.of_nat n).
Proof.
  revert z; induction n; intros z; simpl; [by rewrite Z.mod_1_r|].
  rewrite IHn, byte_val_of_Z. unfold u8.
  replace (8 * Z.of_nat (S n)) with (8 + 8 * Z.of_nat n) by lia.
  rewrite Z.pow_add_r by lia. rewrite Z.rem_mul_r; lia.
Qed.

Lemma le_split_combine bs : le_split (length bs) (le_combine bs) = bs.
Proof.
  induction bs as [|b bs IH]; simpl; [done|].
  pose proof (byte_val_range b) as Hb. unfold is_u8 in Hb. f_equal.
  - apply byte_val_inj. rewrite byte_val_of_Z. unfold u8.
    rewrite (Z.mul_comm (2 ^ 8)), Z.mod_add, Z.mod_small; lia.
  - replace ((byte_val b + 2 ^ 8 * le_combine bs) / 2 ^ 8) with (le_combine bs); [done|].
    rewrite (Z.mul_comm (2 ^ 8)), Z.div_add, Z.div_small; lia.
Qed.

(** [sub_bytes off n bs]: the [n] bytes at offset [off], [None] if any of them
    lies outside the buffer. *)
Definition sub_bytes (off n : nat) (bs : list byte) : option (list byte) :=
  if decide (off + n <= length bs)%nat then Some (take n (drop off bs)) else None.

(** Read an unsigned [n]-byte field at [off]. *)
Definition read_le (off n : nat) (bs : list byte) : option Z :=
  le_combine <$> sub_bytes off n bs.

Lemma sub_bytes_Some off n bs :
  (off + n <= length bs)%nat -> sub_bytes off n bs = Some (take n (drop off bs)).
Proof. intros. unfold sub_bytes. by rewrite decide_True. Qed.

Lemma sub_bytes_app_r pre mid post :
  sub_bytes (length pre) (length mid) (pre ++ mid ++ post) = Some mid.
Proof.
  rewrite sub_bytes_Some by (rewrite !length_app; lia).
  by rewrite drop_app_length, take_app_length.
Qed.

Lemma sub_bytes_app off n bs post :
  (off + n <= length bs)%nat -> sub_bytes off n (bs ++ post) = sub_bytes off n bs.
Proof.
  intros H. rewrite !sub_bytes_Some by (rewrite ?length_app; lia).
  rewrite drop_app_le by lia. rewrite take_app_le; [done | rewrite length_drop; lia].
Qed.

Lemma read_le_app off n bs post :
  (off + n <= length bs)%nat -> read_le off n (bs ++ post) = read_le off n bs.
Proof. intros. unfold read_le. by rewrite sub_bytes_app. Qed.

Lemma read_le_is_Some off n bs :
  (off + n <= length bs)%nat -> is_Some (read_le off n bs).
Proof. intros. unfold read_le. rewrite sub_bytes_Some by lia. eauto. Qed.

Lemma read_le_range off n bs z :
  read_le off n bs = Some z -> 0 <= z < 2 ^ (8 * Z.of_nat n).
Proof.
  unfold read_le, sub_bytes. case_decide; simpl; [|done]. intros [= <-].
  pose proof (le_combine_range (take n (drop off bs))) as Hr.
  rewrite length_take, length_drop in Hr. by replace (n `min` (length bs - off))%nat with n in Hr by lia.
Qed.

(** A field written by [le_split] in the middle of a buffer reads back. *)
Lemma read_le_split pre n z post :
  0 <= z < 2 ^ (8 * Z.of_nat n) ->
  read_le (length pre) n (pre ++ le_split n z ++ post) = Some z.
Proof.
  intros Hz. unfold read_le.
  rewrite <- (length_le_split n z) at 1. rewrite sub_bytes_app_r. simpl.
  rewrite le_combine_split, Z.mod_small; done.
Qed.

#[export] Hint Rewrite length_le_split : vc.
#[export] Hint Resolve byte_val_range : vc.

Arguments le_split : simpl never.
Arguments le_combine : simpl never.
