(* ===== verification/VcProtocol.v ===== *)
(** * The virtual channel's packets (src/common/VcProtocol.h)

    The packet types, the sizes of the packed structs, the connection
    constants, and the byte layout of the packets that TcpVirtualChannel.cpp
    writes: [encode_data] (in [send] and in the default resend callback) and
    [encode_missing_notify] (in the default missing-notify callback). *)

From S2P Require Import Prelude Bytes.

(** enum class VcPacketType : uint8_t *)
Inductive VcPacketType : Type :=
| DATA
| RESEND_REQUEST
| RESEND_RESPONSE
| MISSING_NOTIFY.

#[export] Instance VcPacketType_eq_dec : EqDecision VcPacketType.
Proof. solve_decision. Defined.

Definition packet_type_code (t : VcPacketType) : Z :=
  match t with
  | DATA => 0
  | RESEND_REQUEST => 1
  | RESEND_RESPONSE => 2
  | MISSING_NOTIFY => 3
  end.

(** The values of the first byte for which the switch has an enumerator. *)
Definition packet_type_of_code (z : Z) : option VcPacketType :=
  match z with
  | 0 => Some DATA
  | 1 => Some RESEND_REQUEST
  | 2 => Some RESEND_RESPONSE
  | 3 => Some MISSING_NOTIFY
  | _ => None
  end.

(** Sizes of the structs under [#pragma pack(push, 1)]: a uint8_t type and a
    uint64_t messageId make the header. *)
Definition sizeof_VCHeader : nat := 1 + 8.
Definition sizeof_VCDataPacket : nat := sizeof_VCHeader + 2.
Definition sizeof_VCResendRequest : nat := sizeof_VCHeader + 8.
Definition sizeof_VCResendResponse : nat := sizeof_VCHeader + 2.
Definition VC_MAX_MISSING_IDS_PER_NOTIFY : nat := 64.
Definition sizeof_VCMissingNotify : nat :=
  sizeof_VCHeader + 1 + 8 * VC_MAX_MISSING_IDS_PER_NOTIFY.

Definition VC_MIN_DATA_PACKET_SIZE : nat := sizeof_VCDataPacket.
Definition VC_MIN_RESEND_REQUEST_SIZE : nat := sizeof_VCResendRequest.
Definition VC_MIN_RESEND_RESPONSE_SIZE : nat := sizeof_VCResendResponse.
Definition VC_MIN_MISSING_NOTIFY_SIZE : nat := sizeof_VCMissingNotify.
Definition VC_MAX_DATA_PAYLOAD_SIZE : nat := 2000.

Definition VC_TCP_CONNECTIONS : nat := 32.
Definition VC_RESEND_CONN_COUNT : nat := 8.
Definition VC_FIRST_RESEND_CONN_INDEX : nat := VC_TCP_CONNECTIONS - VC_RESEND_CONN_COUNT.
Definition SEND_QUEUE_DROP_THRESHOLD : Z := 1000.

Definition IsResendConnectionIndex (index : Z) : bool :=
  (Z.of_nat VC_FIRST_RESEND_CONN_INDEX <=? index) && (index <? Z.of_nat VC_TCP_CONNECTIONS).

(** VCHeader as written: the type byte, then the messageId in host (little
    endian) order. *)
Definition encode_header (t : VcPacketType) (messageId : Z) : list byte :=
  byte_of_Z (packet_type_code t) :: le_split 8 messageId.

(** A DATA packet: header, [static_cast<uint16_t>(size)], the payload. *)
Definition encode_data (messageId : Z) (payload : list byte) : list byte :=
  encode_header DATA messageId ++ le_split 2 (u16 (Z.of_nat (length payload))) ++ payload.

(** A MISSING_NOTIFY packet: header with messageId 0, the count byte, and at
    most [VC_MAX_MISSING_IDS_PER_NOTIFY] ids of eight bytes each. *)
Definition encode_missing_notify (missingIds : list Z) : list byte :=
  let count := (length missingIds `min` VC_MAX_MISSING_IDS_PER_NOTIFY)%nat in
  encode_header MISSING_NOTIFY 0 ++ [byte_of_Z (Z.of_nat count)]
    ++ concat (le_split 8 <$> take count missingIds).

(** A RESEND_REQUEST as the receiving threads expect it; no code of the
    repository writes one. *)
Definition encode_resend_request (messageId missingMessageId : Z) : list byte :=
  encode_header RESEND_REQUEST messageId ++ le_split 8 missingMessageId.

Arguments encode_header : simpl never.
Arguments encode_data : simpl never.
Arguments encode_missing_notify : simpl never.
Arguments encode_resend_request : simpl never.

Lemma length_encode_header t id : length (encode_header t id) = sizeof_VCHeader.
Proof. done. Qed.

Lemma length_encode_data id p : length (encode_data id p) = (sizeof_VCDataPacket + length p)%nat.
Proof.
  unfold encode_data. rewrite !length_app, length_encode_header, length_le_split.
  unfold sizeof_VCDataPacket. lia.
Qed.

Lemma length_concat_le_split (n : nat) (ids : list Z) :
  length (concat (le_split n <$> ids)) = (n * length ids)%nat.
Proof.
  induction ids as [|i ids IH]; csimpl; [lia|].
  rewrite length_app, length_le_split, IH. lia.
Qed.

Lemma length_encode_missing_notify ids :
  length (encode_missing_notify ids)
  = (sizeof_VCHeader + 1 + 8 * (length ids `min` VC_MAX_MISSING_IDS_PER_NOTIFY))%nat.
Proof.
  unfold encode_missing_notify.
  rewrite !length_app, length_encode_header, length_concat_le_split, length_take. simpl. lia.
Qed.

Lemma length_encode_resend_request id missing :
  length (encode_resend_request id missing) = sizeof_VCResendRequest.
Proof. done. Qed.

Lemma packet_type_of_to_code t : packet_type_of_code (packet_type_code t) = Some t.
Proof. by destruct t. Qed.

Lemma first_byte_header t id post :
  byte_val <$> head (encode_header t id ++ post) = Some (packet_type_code t).
Proof. unfold encode_header. simpl. rewrite byte_val_of_Z. by destruct t. Qed.

(** ** Packets as values

    What a sender of this repository may put on a connection, with its bytes
    and the bounds it keeps. *)

Inductive packet : Type :=
| PktData (messageId : Z) (payload : list byte)
| PktResendRequest (messageId missingMessageId : Z)
| PktMissingNotify (missingIds : list Z).

Definition encode_packet (p : packet) : list byte :=
  match p with
  | PktData id payload => encode_data id payload
  | PktResendRequest id missing => encode_resend_request id missing
  | PktMissingNotify ids => encode_missing_notify ids
  end.

Definition packet_ok (p : packet) : Prop :=
  match p with
  | PktData id payload => is_u64 id /\ (length payload <= VC_MAX_DATA_PAYLOAD_SIZE)%nat
  | PktResendRequest id missing => is_u64 id /\ is_u64 missing
  | PktMissingNotify ids =>
      (1 <= length ids <= VC_MAX_MISSING_IDS_PER_NOTIFY)%nat /\ Forall is_u64 ids
  end.

Definition packet_type (p : packet) : VcPacketType :=
  match p with
  | PktData _ _ => DATA
  | PktResendRequest _ _ => RESEND_REQUEST
  | PktMissingNotify _ => MISSING_NOTIFY
  end.

Lemma encode_packet_header p :
  exists id body, encode_packet p = encode_header (packet_type p) id ++ body.
Proof. destruct p; simpl; unfold encode_data, encode_missing_notify, encode_resend_request; eauto. Qed.

Lemma encode_packet_min p :
  packet_ok p -> (VC_MIN_DATA_PACKET_SIZE <= length (encode_packet p))%nat.
Proof.
  destruct p; unfold packet_ok, encode_packet; intros Hok.
  - rewrite length_encode_data. unfold VC_MIN_DATA_PACKET_SIZE. lia.
  - rewrite length_encode_resend_request. unfold sizeof_VCResendRequest.
    unfold VC_MIN_DATA_PACKET_SIZE, sizeof_VCDataPacket. lia.
  - rewrite length_encode_missing_notify.
    unfold VC_MIN_DATA_PACKET_SIZE, sizeof_VCDataPacket. lia.
Qed.

(** The fields of an encoded packet read back, whatever follows it. *)
Lemma read_type p rest :
  read_le 0 1 (encode_packet p ++ rest) = Some (packet_type_code (packet_type p)).
Proof.
  destruct (encode_packet_header p) as (id & body & ->). unfold encode_header.
  change (byte_of_Z (packet_type_code (packet_type p)) :: le_split 8 id)
    with (le_split 1 (packet_type_code (packet_type p)) ++ le_split 8 id).
  rewrite <- !app_assoc. apply (read_le_split [] 1). by destruct p.
Qed.

Lemma encode_data_fields id payload rest :
  encode_data id payload ++ rest
  = [byte_of_Z 0] ++ le_split 8 id ++ le_split 2 (u16 (Z.of_nat (length payload))) ++ payload ++ rest.
Proof. unfold encode_data, encode_header. by rewrite <- !app_assoc. Qed.

Lemma read_data_id id payload rest :
  is_u64 id -> read_le 1 8 (encode_data id payload ++ rest) = Some id.
Proof. intros. rewrite encode_data_fields. by apply (read_le_split [_] 8). Qed.

Lemma read_data_length id payload rest :
  (length payload <= VC_MAX_DATA_PAYLOAD_SIZE)%nat ->
  read_le sizeof_VCHeader 2 (encode_data id payload ++ rest) = Some (Z.of_nat (length payload)).
Proof.
  unfold VC_MAX_DATA_PAYLOAD_SIZE. intros Hl. rewrite encode_data_fields, app_assoc.
  replace (u16 (Z.of_nat (length payload))) with (Z.of_nat (length payload))
    by (rewrite u16_small; [done | unfold is_u16; lia]).
  replace sizeof_VCHeader with (length ([byte_of_Z 0] ++ le_split 8 id))
    by (rewrite length_app, length_le_split; done).
  apply read_le_split. lia.
Qed.

Lemma sub_data_payload id payload rest :
  sub_bytes sizeof_VCDataPacket (length payload) (encode_data id payload ++ rest) = Some payload.
Proof.
  rewrite encode_data_fields, !app_assoc, <- app_assoc.
  replace sizeof_VCDataPacket
    with (length (([byte_of_Z 0] ++ le_split 8 id) ++ le_split 2 (u16 (Z.of_nat (length payload)))))
    by (rewrite !length_app, !length_le_split; done).
  apply sub_bytes_app_r.
Qed.

Lemma read_missing_id id missing rest :
  is_u64 missing ->
  read_le sizeof_VCHeader 8 (encode_resend_request id missing ++ rest) = Some missing.
Proof.
  intros. unfold encode_resend_request. rewrite <- app_assoc, <- (length_encode_header RESEND_REQUEST id).
  by apply read_le_split.
Qed.

Lemma read_notify_count ids rest :
  (length ids <= VC_MAX_MISSING_IDS_PER_NOTIFY)%nat ->
  read_le sizeof_VCHeader 1 (encode_missing_notify ids ++ rest) = Some (Z.of_nat (length ids)).
Proof.
  unfold VC_MAX_MISSING_IDS_PER_NOTIFY. intros. unfold encode_missing_notify. rewrite <- !app_assoc.
  rewrite <- (length_encode_header MISSING_NOTIFY 0).
  replace (length ids `min` VC_MAX_MISSING_IDS_PER_NOTIFY)%nat with (length ids)
    by (unfold VC_MAX_MISSING_IDS_PER_NOTIFY; lia).
  change [byte_of_Z (Z.of_nat (length ids))] with (le_split 1 (Z.of_nat (length ids))).
  apply read_le_split. lia.
Qed.
