(* ===== verification/Socket.v ===== *)
(** * Socket results (src/common/Socket.h, Socket.cpp, the POSIX branches)

    The system calls are not code of the repository: what a call returns is an
    argument.  The definitions here are what Socket.cpp makes of those
    results, in particular the error codes the threads branch on. *)

From S2P Require Import Prelude Bytes.

Abbreviation SocketFd := Z (only parsing).

(** The errno values the code distinguishes. *)
Inductive errno : Type :=
| EAGAIN | EWOULDBLOCK | EINTR | EINPROGRESS | ETIMEDOUT | ECONNRESET | EPIPE | EBADF
| EOTHER (code : Z).

#[export] Instance errno_eq_dec : EqDecision errno.
Proof. solve_decision. Defined.

(** What send(2), recv(2), connect(2), poll(2) report. *)
Inductive os_send : Type := SendOk (n : nat) | SendErr (e : errno).
Inductive os_recv : Type := RecvOk (bytes : list byte) | RecvErr (e : errno).

(** enum SocketError *)
Definition SOCKET_ERROR_NONE : Z := 0.
Definition SOCKET_ERROR_WOULD_BLOCK : Z := -1.
Definition SOCKET_ERROR_TIMEOUT : Z := -2.
Definition SOCKET_ERROR_CLOSED : Z := -3.
Definition SOCKET_ERROR_INTERRUPTED : Z := -4.
Definition SOCKET_ERROR_OTHER : Z := -5.

(** The errno classification shared by the two direct calls. *)
Definition classify_errno (e : errno) : Z :=
  match e with
  | EAGAIN | EWOULDBLOCK => SOCKET_ERROR_WOULD_BLOCK
  | EINTR => SOCKET_ERROR_INTERRUPTED
  | _ => SOCKET_ERROR_CLOSED
  end.

Definition SendTcpDirect (r : os_send) : Z :=
  match r with
  | SendOk n => Z.of_nat n
  | SendErr e => classify_errno e
  end.

Definition RecvTcpDirect (r : os_recv) : Z :=
  match r with
  | RecvOk [] => SOCKET_ERROR_CLOSED
  | RecvOk bs => Z.of_nat (length bs)
  | RecvErr e => classify_errno e
  end.

(** SendTcpData and RecvTcpData return the raw value of the system call. *)
Definition SendTcpData (r : os_send) : Z :=
  match r with SendOk n => Z.of_nat n | SendErr _ => -1 end.

Definition RecvTcpData (r : os_recv) : Z :=
  match r with RecvOk bs => Z.of_nat (length bs) | RecvErr _ => -1 end.

(** The loop of RecvTcpDataWithSize: [bytesToRead] bytes, an error, or the
    bytes so far when the peer closes.  [rs] are the results of the
    successive recv calls; [None] when they run out. *)
Fixpoint RecvTcpDataWithSize_loop (rs : list os_recv) (got : list byte) (bytesToRead : nat)
  : option (Z * list byte) :=
  if (bytesToRead <=? length got)%nat then Some (Z.of_nat (length got), got)
  else match rs with
       | [] => None
       | RecvErr _ :: _ => Some (-1, got)
       | RecvOk [] :: _ => Some (Z.of_nat (length got), got)
       | RecvOk bs :: rs => RecvTcpDataWithSize_loop rs (got ++ bs) bytesToRead
       end.

Definition RecvTcpDataWithSize (rs : list os_recv) (bytesToRead : nat) : option (Z * list byte) :=
  RecvTcpDataWithSize_loop rs [] bytesToRead.

(** SocketPoll on one descriptor: poll(2)'s result and the returned events. *)
Definition POLLIN : Z := 1.
Definition POLLOUT : Z := 4.
Definition POLLERR : Z := 8.
Definition POLLHUP : Z := 16.

Definition SocketPoll (result revents : Z) : Z := if 0 <? result then revents else result.

Definition IsSocketReadable (result revents : Z) : bool :=
  negb (Z.land (SocketPoll result revents) POLLIN =? 0).

Definition IsSocketWritable (result revents : Z) : bool :=
  negb (Z.land (SocketPoll result revents) POLLOUT =? 0).

Definition SocketBytesAvailable (fd : SocketFd) (ioctl_rc bytes : Z) : Z :=
  if fd =? -1 then -1 else if ioctl_rc =? 0 then bytes else -1.

(** SocketConnectNonBlocking: [connect_rc] and [connect_err] from connect(2),
    the poll for writability, then getsockopt(SO_ERROR).  Returns the result
    and the errno it leaves. *)
Definition SocketConnectNonBlocking (connect_rc : Z) (connect_err : errno) (writable : bool)
  (getsockopt_rc optval : Z) : Z * errno :=
  if connect_rc <? 0 then
    if decide (connect_err = EINPROGRESS) then
      if writable then
        if getsockopt_rc =? 0 then
          if optval =? 0 then (0, connect_err) else (-1, EOTHER optval)
        else (connect_rc, connect_err)
      else (-1, ETIMEDOUT)
    else (connect_rc, connect_err)
  else (connect_rc, connect_err).

(** The direct calls never report a hard error as backpressure: the code is
    WOULD_BLOCK exactly for EAGAIN and EWOULDBLOCK. *)
Lemma classify_would_block e :
  classify_errno e = SOCKET_ERROR_WOULD_BLOCK <-> e = EAGAIN \/ e = EWOULDBLOCK.
Proof. destruct e; unfold classify_errno; split; intros; simplify_eq; auto; by destruct_or?. Qed.

Lemma RecvTcpDirect_pos r : 0 < RecvTcpDirect r -> exists b bs, r = RecvOk (b :: bs).
Proof.
  destruct r as [[|b bs]|e]; simpl; [done| eauto |]. destruct e; done.
Qed.
