(* ===== verification/SocketSetup.v ===== *)
(** * Socket creation, options and readiness (src/common/Socket.cpp, Socket.h)

    The rest of Socket.cpp on its three platforms: creation and the blocking
    flag, SocketPoll and SocketPollMany with poll, WSAPoll and select, the
    keepalive and buffer options.  What the operating system answers is an
    argument, as in Socket.v. *)

From S2P Require Import Prelude Bytes Socket.

Inductive platform : Type := Linux | MacOS | Windows.

(** ** Creation and the calls that are passed through *)

(** The flag tells whether SocketLogLastError() is called. *)
Definition SocketCreate (p : platform) (result : SocketFd) : SocketFd * bool :=
  match p with
  | Windows => if result =? -1 then (-1, true) else (result, false)   (* INVALID_SOCKET *)
  | _ => if result <? 0 then (-1, true) else (result, false)
  end.

Definition SocketConnect (result : Z) : Z * bool := (result, result <? 0).
Definition SocketBind (result : Z) : Z * bool := (result, negb (result =? 0)).
Definition SocketListen (result : Z) : Z := result.

Definition SendUdpData (r : os_send) : Z := SendTcpData r.
Definition RecvUdpData (r : os_recv) : Z := RecvTcpData r.

(** ** The blocking flag *)

Section blocking.
(** O_NONBLOCK is one bit of the status flags of a descriptor. *)
Context (bit : Z) (Hbit : 0 <= bit).

Definition O_NONBLOCK : Z := 2 ^ bit.

(** The flags handed to F_SETFL; [flags] is what F_GETFL returned, and there is
    no call when that failed. *)
Definition SetSocketNonBlocking (flags : Z) : option Z :=
  if flags =? -1 then None else Some (Z.lor flags O_NONBLOCK).

Definition SetSocketBlocking (flags : Z) : option Z :=
  if flags =? -1 then None else Some (Z.land flags (Z.lnot O_NONBLOCK)).

Definition IsSocketNonBlocking (flags : Z) : bool :=
  if flags =? -1 then false else negb (Z.land flags O_NONBLOCK =? 0).

Lemma land_bit flags : (Z.land flags O_NONBLOCK =? 0) = negb (Z.testbit flags bit).
Proof.
  unfold O_NONBLOCK. destruct (Z.eqb_spec (Z.land flags (2 ^ bit)) 0) as [E|E].
  - apply (f_equal (fun z => Z.testbit z bit)) in E. rewrite Z.land_spec, Z.pow2_bits_true, andb_true_r, Z.bits_0 in E by done.
    by rewrite E.
  - destruct (Z.testbit flags bit) eqn:Hb; [done|]. exfalso. apply E. apply Z.bits_inj'. intros n Hn.
    rewrite Z.land_spec, Z.bits_0, Z.pow2_bits_eqb by done. destruct (Z.eqb_spec bit n) as [<-|]; [by rewrite Hb | apply andb_false_r].
Qed.

(** Setting and clearing act on the one bit: what is set reads back as set,
    what is cleared as cleared, and every other flag stays. *)
Lemma blocking_flags flags nb b :
  0 <= flags -> SetSocketNonBlocking flags = Some nb -> SetSocketBlocking flags = Some b ->
  IsSocketNonBlocking nb = true /\ IsSocketNonBlocking b = false
  /\ forall n, n <> bit -> 0 <= n -> Z.testbit nb n = Z.testbit flags n /\ Z.testbit b n = Z.testbit flags n.
Proof.
  intros Hf. unfold SetSocketNonBlocking, SetSocketBlocking, IsSocketNonBlocking.
  destruct (Z.eqb_spec flags (-1)); [done|]. intros [= <-] [= <-].
  assert (Hlor : 0 <= Z.lor flags O_NONBLOCK) by (apply Z.lor_nonneg; split; [done | unfold O_NONBLOCK; apply Z.pow_nonneg; lia]).
  assert (Hland : 0 <= Z.land flags (Z.lnot O_NONBLOCK)) by (apply Z.land_nonneg; by left).
  rewrite !land_bit. destruct (Z.eqb_spec (Z.lor flags O_NONBLOCK) (-1)); [lia|].
  destruct (Z.eqb_spec (Z.land flags (Z.lnot O_NONBLOCK)) (-1)); [lia|].
  rewrite Z.lor_spec, Z.land_spec, Z.lnot_spec by done. unfold O_NONBLOCK. rewrite Z.pow2_bits_true by done.
  rewrite orb_true_r, andb_false_r. split_and!; [done | done |]. intros m Hm Hm0.
  rewrite Z.lor_spec, Z.land_spec, Z.lnot_spec, Z.pow2_bits_false by done. by rewrite orb_false_r, andb_true_r.
Qed.
End blocking.

(** ** Readiness *)

(** What select left in the three sets for a descriptor. *)
Record readiness : Type := mkReadiness { rd : bool; wr : bool; ex : bool }.

(** Descriptors FD_SET and FD_ISSET are defined for. *)
Definition FD_SETSIZE : Z := 1024.
Definition fd_set_ok (fd : SocketFd) : bool := (0 <=? fd) && (fd <? FD_SETSIZE).

Definition wants (events flag : Z) : bool := negb (Z.land events flag =? 0).

(** [revents |= flag] for every set the descriptor is in; it is in the first
    two only if it was put there. *)
Definition revents_of (events : Z) (r : readiness) : Z :=
  Z.lor (Z.lor (if wants events POLLIN && rd r then POLLIN else 0)
               (if wants events POLLOUT && wr r then POLLOUT else 0))
        (if ex r then POLLERR else 0).

(** WSAGetLastError() values the code distinguishes. *)
Inductive wsa_error : Type := WSAENOTSOCK | WSAEINTR | WSAEINVAL | WSAEWOULDBLOCK | WSAEINPROGRESS | WSAOTHER (code : Z).

Definition wsa_transient (e : wsa_error) : bool :=
  match e with WSAENOTSOCK | WSAEINTR | WSAEINVAL => true | _ => false end.

Definition errno_transient (e : errno) : bool :=
  match e with EBADF | EINTR => true | _ => false end.

(** SocketPoll with select; [None] where FD_SET is undefined. *)
Definition SocketPoll_macos (fd : SocketFd) (events result : Z) (r : readiness) (e : errno) : option Z :=
  if negb (fd_set_ok fd) then None
  else Some (if 0 <? result then revents_of events r
             else if (result <? 0) && errno_transient e then 0 else result).

Definition SocketPoll_windows (events result : Z) (r : readiness) (e : wsa_error) : Z :=
  if 0 <? result then revents_of events r
  else if (result =? -1) && wsa_transient e then 0 else result.

Lemma revents_bits events r :
  Z.land (revents_of events r) POLLIN = (if wants events POLLIN && rd r then POLLIN else 0)
  /\ Z.land (revents_of events r) POLLOUT = (if wants events POLLOUT && wr r then POLLOUT else 0).
Proof. unfold revents_of. destruct (wants events POLLIN && rd r), (wants events POLLOUT && wr r), (ex r); split; reflexivity. Qed.

(** IsSocketReadable and IsSocketWritable on a platform. *)
Definition ready_for (flag : Z) (poll_value : Z) : bool := negb (Z.land poll_value flag =? 0).

(** A select that succeeds or times out answers what poll answers. *)
Lemma readiness_agrees fd flag revents result r e we :
  fd_set_ok fd = true -> (flag = POLLIN \/ flag = POLLOUT) -> 0 <= result ->
  ready_for flag revents = (if flag =? POLLIN then rd r else wr r) ->
  ready_for flag (SocketPoll result revents) = ready_for flag (SocketPoll_windows flag result r we)
  /\ ready_for flag <$> SocketPoll_macos fd flag result r e = Some (ready_for flag (SocketPoll result revents)).
Proof.
  intros Hfd Hflag Hres Hr. unfold SocketPoll_macos, SocketPoll_windows, SocketPoll. rewrite Hfd. cbn [negb].
  destruct (revents_bits flag r) as [Hi Ho].
  destruct (Z.ltb_spec 0 result) as [Hpos|Hle].
  - assert (Hk : ready_for flag (revents_of flag r) = ready_for flag revents).
    { rewrite Hr. unfold ready_for. destruct Hflag as [-> | ->]; [rewrite Hi | rewrite Ho]; cbn [Z.eqb wants]; by destruct (rd r), (wr r). }
    cbn. by rewrite Hk.
  - assert (result = 0) as -> by lia. done.
Qed.

(** A failed poll answers -1, all bits set: on Linux IsSocketReadable and
    IsSocketWritable then say yes, where the other two platforms say no for an
    interrupted call. *)
Lemma failed_poll_reads_as_ready revents :
  IsSocketReadable (-1) revents = true /\ IsSocketWritable (-1) revents = true
  /\ (forall fd r, fd_set_ok fd = true -> ready_for POLLOUT <$> SocketPoll_macos fd POLLOUT (-1) r EINTR = Some false)
  /\ (forall r, ready_for POLLOUT (SocketPoll_windows POLLOUT (-1) r WSAEINTR) = false).
Proof.
  split_and!; [done | done | | done]. intros fd r Hfd. unfold SocketPoll_macos. by rewrite Hfd.
Qed.

(** SocketConnectNonBlocking on Linux reports a connection that does not
    exist: when the poll that waits for the handshake is interrupted, its -1 is
    taken for "writable", SO_ERROR is still 0, and the result is 0, success, with
    the handshake under way; the same interruption on macOS is a time-out. *)
Theorem interrupted_connect_reports_success (fd : SocketFd) (revents : Z) (r : readiness) :
  fd_set_ok fd = true ->
  (SocketConnectNonBlocking (-1) EINPROGRESS (IsSocketWritable (-1) revents) 0 0).1 = 0
  /\ forall w, ready_for POLLOUT <$> SocketPoll_macos fd POLLOUT (-1) r EINTR = Some w ->
       SocketConnectNonBlocking (-1) EINPROGRESS w 0 0 = (-1, ETIMEDOUT).
Proof.
  intros Hfd. destruct (failed_poll_reads_as_ready revents) as (_ & Hw & Hm & _). rewrite Hw. split; [done|].
  intros w Hv. rewrite Hm in Hv by done. by injection Hv as <-.
Qed.

(** ** Polling all connections *)

Record pollfd : Type := mkPollfd { pf_fd : SocketFd; pf_events : Z; pf_revents : Z }.

Definition set_revents (v : Z) (p : pollfd) : pollfd := mkPollfd (pf_fd p) (pf_events p) v.

(** poll(2) and WSAPoll: the returned value, and the array after the call. *)
Definition poll_call : Type := list pollfd -> Z * list pollfd.

Definition SocketPollMany_linux (poll : poll_call) (fds : list pollfd) : Z * list pollfd := poll fds.

Definition SocketPollMany_windows (wsapoll : poll_call) (e : wsa_error) (fds : list pollfd) : Z * list pollfd :=
  let fds1 := set_revents 0 <$> fds in
  if forallb (fun p => pf_fd p =? -1) fds1 then (0, fds1)   (* after sleeping out the timeout *)
  else
    let '(result, fds2) := wsapoll fds1 in
    if (result =? -1) && wsa_transient e then (0, fds2) else (result, fds2).

(** select: its value and what it left in the sets. *)
Definition SocketPollMany_macos (result : Z) (sets : SocketFd -> readiness) (e : errno) (fds : list pollfd)
  : option (Z * list pollfd) :=
  let valid := filter (fun p => pf_fd p <> -1) fds in
  if negb (forallb (fun p => fd_set_ok (pf_fd p)) valid) then None
  else if bool_decide (valid = []) then Some (0, fds)
  else
    let fds1 :=
      if 0 <? result then
        (fun p => if pf_fd p =? -1 then set_revents 0 p
                  else set_revents (revents_of (pf_events p) (sets (pf_fd p))) p) <$> fds
      else fds in
    Some (if (result <? 0) && errno_transient e then 0 else result, fds1).

(** The array run() of TcpVCIoThread builds: one entry per slot, -1 for a dead
    connection. *)
Definition poll_set (fds : list SocketFd) : list pollfd :=
  (fun fd => if fd =? -1 then mkPollfd (-1) 0 0 else mkPollfd fd POLLIN 0) <$> fds.

(** Which slots its second loop reads. *)
Definition slots_read (fds : list pollfd) : list bool :=
  (fun p => negb (pf_fd p =? -1) && negb (Z.land (pf_revents p) (Z.lor POLLIN (Z.lor POLLERR POLLHUP)) =? 0)) <$> fds.

(** A negative value makes run() sleep and poll again. *)
Definition slots_polled (r : Z * list pollfd) : list bool :=
  if r.1 <? 0 then (fun _ => false) <$> r.2 else slots_read r.2.

(** The live slots that select reports readable or exceptional. *)
Definition ready_slots (sets : SocketFd -> readiness) (fds : list SocketFd) : list bool :=
  (fun fd => negb (fd =? -1) && (rd (sets fd) || ex (sets fd))) <$> fds.

Lemma revents_in r : negb (Z.land (revents_of POLLIN r) (Z.lor POLLIN (Z.lor POLLERR POLLHUP)) =? 0) = rd r || ex r.
Proof. destruct r as [[] w []]; unfold revents_of; cbn [rd wr ex wants]; by destruct w. Qed.

Lemma slots_read_fresh fds : slots_read (poll_set fds) = (fun _ => false) <$> fds.
Proof.
  unfold slots_read, poll_set. rewrite <- list_fmap_compose. apply list_fmap_ext. intros i fd _. cbn.
  destruct (Z.eqb_spec fd (-1)); [done|]. cbn. by destruct (Z.eqb_spec fd (-1)).
Qed.

Lemma macos_valid fds :
  Forall (fun fd => fd = -1 \/ fd_set_ok fd = true) fds ->
  forallb (fun p => fd_set_ok (pf_fd p)) (filter (fun p => pf_fd p <> -1) (poll_set fds)) = true.
Proof.
  intros Hf. apply forallb_forall. intros p Hp%list_elem_of_In. apply list_elem_of_filter in Hp as [Hne Hp].
  unfold poll_set in Hp. apply list_elem_of_fmap in Hp as (fd & -> & Hin). rewrite Forall_forall in Hf.
  destruct (Z.eqb_spec fd (-1)); [done|]. cbn. destruct (Hf fd Hin) as [|Hok]; [done|]. by rewrite Hok.
Qed.

(** The select emulation of poll on macOS, as run() uses its value and its array:
    when select finds something, the slots read are those it reports readable or
    exceptional; on a time-out, an interruption or an error no slot is read. *)
Theorem macos_reads_ready_slots (sets : SocketFd -> readiness) (result : Z) (e : errno) (fds : list SocketFd) :
  Forall (fun fd => fd = -1 \/ fd_set_ok fd = true) fds -> Exists (fun fd => fd <> -1) fds ->
  slots_polled <$> SocketPollMany_macos result sets e (poll_set fds)
  = Some (if 0 <? result then ready_slots sets fds else (fun _ => false) <$> fds).
Proof.
  intros Hfds Hlive. unfold SocketPollMany_macos. rewrite macos_valid by done. cbn [negb].
  rewrite bool_decide_false.
  2: { apply Exists_exists in Hlive as (fd & Hin & Hne). intros Hv.
       apply (not_elem_of_nil (mkPollfd fd POLLIN 0)). rewrite <- Hv. apply list_elem_of_filter. split; [done|].
       unfold poll_set. apply list_elem_of_fmap. exists fd. split; [|done]. by destruct (Z.eqb_spec fd (-1)). }
  cbn [fmap option_fmap option_map]. unfold slots_polled. cbn [fst snd]. f_equal.
  destruct (Z.ltb_spec 0 result) as [Hpos|Hle].
  - assert (E : (result <? 0) = false) by lia. rewrite E. cbn [andb]. rewrite E.
    unfold slots_read, ready_slots, poll_set. rewrite <- !list_fmap_compose. apply list_fmap_ext. intros i fd _.
    cbn. destruct (Z.eqb_spec fd (-1)) as [->|Hne]; [done|]. cbn [pf_fd pf_events].
    destruct (Z.eqb_spec fd (-1)); [done|]. cbn [pf_fd pf_revents set_revents negb andb].
    destruct (Z.eqb_spec fd (-1)); [done|]. cbn [negb andb]. apply revents_in.
  - rewrite slots_read_fresh. unfold poll_set. rewrite <- list_fmap_compose. by case_match.
Qed.

(** One descriptor too large for an fd_set and the macOS branch is undefined,
    whatever the others are; the other two are not limited. *)
Lemma macos_large_fd result sets e fds fd :
  fd ∈ fds -> FD_SETSIZE <= fd -> SocketPollMany_macos result sets e (poll_set fds) = None.
Proof.
  intros Hin Hfd. unfold FD_SETSIZE in Hfd. unfold SocketPollMany_macos.
  destruct (forallb _ _) eqn:E; [|done]. exfalso.
  assert (Hp : mkPollfd fd POLLIN 0 ∈ filter (fun p => pf_fd p <> -1) (poll_set fds)).
  { apply list_elem_of_filter. split; [cbn; lia|]. unfold poll_set. apply list_elem_of_fmap. exists fd. split; [|done].
    destruct (Z.eqb_spec fd (-1)); [lia | done]. }
  rewrite forallb_forall in E. apply list_elem_of_In in Hp. specialize (E _ Hp). cbn in E.
  unfold fd_set_ok, FD_SETSIZE in E. destruct (Z.ltb_spec fd 1024); [lia|]. by rewrite andb_false_r in E.
Qed.

(** ** Options *)

(** The setsockopt and WSAIoctl calls, in order. *)
Inductive sockopt_call : Type :=
| SetNoDelay (on : bool)
| SetSendBuffer (size : Z)
| SetReceiveBuffer (size : Z)
| SetReuseAddr
| SetKeepAlive (on : bool)
| SetKeepIdle (sec : Z)              (* TCP_KEEPIDLE, or TCP_KEEPALIVE on macOS *)
| SetKeepInterval (sec : Z)
| SetKeepCount (n : Z)
| KeepAliveVals (timeMs intervalMs : Z).   (* SIO_KEEPALIVE_VALS *)

Definition SocketSetTcpNoDelay (noDelay : bool) : list sockopt_call := [SetNoDelay noDelay].
Definition SocketSetSendBufferSize (size : Z) : list sockopt_call := [SetSendBuffer size].
Definition SocketSetReceiveBufferSize (size : Z) : list sockopt_call := [SetReceiveBuffer size].
Definition SocketReuseAddress : list sockopt_call := [SetReuseAddr].

(** [rc] is the result of the first call; the results of the others are
    ignored. *)
Definition SocketSetKeepAlive (p : platform) (rc : Z) (enable : bool) (idleSec intervalSec count : Z)
  : Z * list sockopt_call :=
  if negb (rc =? 0) then (-1, [SetKeepAlive enable])
  else
    (0, SetKeepAlive enable ::
        match p with
        | Windows =>
            if enable && (0 <? idleSec) && (0 <? intervalSec)
            then [KeepAliveVals (u32 (u32 idleSec * 1000)) (u32 (u32 intervalSec * 1000))] else []
        | _ =>
            if enable then
              (if 0 <? idleSec then [SetKeepIdle idleSec] else [])
              ++ (if 0 <? intervalSec then [SetKeepInterval intervalSec] else [])
              ++ (if 0 <? count then [SetKeepCount count] else [])
            else []
        end).

Definition VC_KEEPALIVE_IDLE_SEC : Z := 15.
Definition VC_KEEPALIVE_INTERVAL_SEC : Z := 15.
Definition VC_KEEPALIVE_PROBE_COUNT : Z := 8.

(** Seconds without an answer after which the kernel gives a connection up, as
    far as the calls say. *)
Definition dead_after (calls : list sockopt_call) : option Z :=
  match calls with
  | [SetKeepAlive true; SetKeepIdle idle; SetKeepInterval interval; SetKeepCount n] => Some (idle + interval * n)
  | _ => None
  end.

(** The timing the header documents: probes every 15 s, dead after 135 s; on
    Windows the same cadence in milliseconds, without wrap-around. *)
Lemma keepalive_timing p :
  p <> Windows ->
  dead_after (SocketSetKeepAlive p 0 true VC_KEEPALIVE_IDLE_SEC VC_KEEPALIVE_INTERVAL_SEC VC_KEEPALIVE_PROBE_COUNT).2
  = Some 135
  /\ (SocketSetKeepAlive Windows 0 true VC_KEEPALIVE_IDLE_SEC VC_KEEPALIVE_INTERVAL_SEC VC_KEEPALIVE_PROBE_COUNT).2
     = [SetKeepAlive true; KeepAliveVals 15000 15000].
Proof. by destruct p. Qed.

(** ** Witnesses *)

(** Two connections, one with data, and a dead slot. *)
Definition example_sets (fd : SocketFd) : readiness := mkReadiness (fd =? 6) true false.

Lemma macos_reads_ready_slots_witness :
  slots_polled <$> SocketPollMany_macos 1 example_sets EINTR (poll_set [5; -1; 6]) = Some [false; false; true]
  /\ slots_polled <$> SocketPollMany_macos (-1) example_sets EINTR (poll_set [5; -1; 6]) = Some [false; false; false].
Proof.
  assert (Hf : Forall (fun fd => fd = -1 \/ fd_set_ok fd = true) [5; -1; 6])
    by (repeat constructor; by (left; done) || (right; reflexivity)).
  assert (He : Exists (fun fd => fd <> -1) [5; -1; 6]) by (by left).
  split; exact (macos_reads_ready_slots example_sets _ EINTR [5; -1; 6] Hf He).
Defined.

Lemma interrupted_connect_reports_success_witness :
  (SocketConnectNonBlocking (-1) EINPROGRESS (IsSocketWritable (-1) 0) 0 0).1 = 0.
Proof. apply (interrupted_connect_reports_success 5 0 (mkReadiness false false false)). reflexivity. Defined.
