(* ===== verification/TcpConnection.v ===== *)
(** * One TCP connection (src/common/TcpConnection.h, TcpConnection.cpp)

    The connection's state, its constructor, destructor and operations with
    the system calls they make as a list of events, and the sampling and
    caching of the kernel's TCP_INFO (the Linux branch).  Times are in
    nanoseconds of the steady clock and are arguments. *)

From S2P Require Import Prelude Bytes Socket.

(** std::chrono::milliseconds as nanoseconds. *)
Definition ms (n : Z) : Z := n * 1000000.

(** struct TcpConnectionRuntimeInfo *)
Record RuntimeInfo : Type := mkRuntimeInfo {
  supported : bool;
  valid : bool;
  isInExponentialBackoff : bool;
  retransmissionIndicatorIsBytes : bool;
  rtoUs : Z;
  smoothedRttUs : Z;
  congestionWindowBytes : Z;
  bytesInFlight : Z;
  retransmissionIndicator : Z;
  timeoutEpisodes : Z;
}.

Definition emptyRuntimeInfo : RuntimeInfo :=
  mkRuntimeInfo false false false false 0 0 0 0 0 0.

(** The fields of the kernel's tcp_info that the code reads. *)
Record tcp_info : Type := mkTcpInfo {
  tcpi_snd_cwnd : Z;
  tcpi_snd_mss : Z;
  tcpi_rtt : Z;
  tcpi_rto : Z;
  tcpi_unacked : Z;
  tcpi_retransmits : Z;
  tcpi_backoff : Z;
}.

(** sampleRuntimeInfo, Linux branch; [sockopt] is [None] when getsockopt fails. *)
Definition sampleRuntimeInfo (connected : bool) (sockopt : option tcp_info) : RuntimeInfo :=
  if negb connected then emptyRuntimeInfo
  else match sockopt with
       | None => emptyRuntimeInfo
       | Some t =>
           {| supported := true;
              valid := true;
              isInExponentialBackoff := 1 <? tcpi_backoff t;
              retransmissionIndicatorIsBytes := false;
              rtoUs := u32 (tcpi_rto t * 1000);
              smoothedRttUs := tcpi_rtt t;
              congestionWindowBytes := u32 (tcpi_snd_cwnd t * tcpi_snd_mss t);
              bytesInFlight := u32 (tcpi_unacked t * tcpi_snd_mss t);
              retransmissionIndicator := 0;
              timeoutEpisodes := tcpi_retransmits t |}
       end.

Record TcpConnection : Type := mkTcpConnection {
  connected : bool;
  socketFd : SocketFd;
  disconnectCallback : bool; (* whether the std::function is set *)
  diagSendInFlight : bool;
  diagInFlightMessageIdVal : Z;
  diagInFlightStartMsVal : Z;
  diagLastSendCompletedMessageIdVal : Z;
  diagLastSendEndMsVal : Z;
  lastRefreshTime : Z;
  lastRuntimeInfo : RuntimeInfo;
  runtimeInfoGeneration : Z;
  runtimeInfoStale : bool;
}.

(** What the operations ask of the system. *)
Inductive conn_event : Type :=
| EvSetSndTimeo (fd : SocketFd)
| EvShutdown (fd : SocketFd)
| EvClose (fd : SocketFd)
| EvDisconnectCallback.

#[export] Instance conn_event_eq_dec : EqDecision conn_event.
Proof. solve_decision. Defined.

(** The constructor: connected, with the send timeout set on the socket. *)
Definition newTcpConnection (fd : SocketFd) : TcpConnection * list conn_event :=
  ({| connected := true; socketFd := fd; disconnectCallback := false;
      diagSendInFlight := false; diagInFlightMessageIdVal := 0;
      diagInFlightStartMsVal := 0; diagLastSendCompletedMessageIdVal := 0;
      diagLastSendEndMsVal := 0; lastRefreshTime := 0;
      lastRuntimeInfo := emptyRuntimeInfo; runtimeInfoGeneration := 0;
      runtimeInfoStale := false |},
   [EvSetSndTimeo fd]).

(** ~TcpConnection *)
Definition destroyTcpConnection (c : TcpConnection) : list conn_event :=
  if negb (socketFd c =? -1) then [EvClose (socketFd c)] else [].

Definition set_link (c : TcpConnection) (up : bool) (fd : SocketFd) : TcpConnection :=
  {| connected := up; socketFd := fd; disconnectCallback := disconnectCallback c;
     diagSendInFlight := diagSendInFlight c;
     diagInFlightMessageIdVal := diagInFlightMessageIdVal c;
     diagInFlightStartMsVal := diagInFlightStartMsVal c;
     diagLastSendCompletedMessageIdVal := diagLastSendCompletedMessageIdVal c;
     diagLastSendEndMsVal := diagLastSendEndMsVal c;
     lastRefreshTime := lastRefreshTime c; lastRuntimeInfo := lastRuntimeInfo c;
     runtimeInfoGeneration := runtimeInfoGeneration c;
     runtimeInfoStale := runtimeInfoStale c |}.

Definition set_diag (c : TcpConnection) (inflight : bool) (infId infStart lastId lastEnd : Z)
  : TcpConnection :=
  {| connected := connected c; socketFd := socketFd c;
     disconnectCallback := disconnectCallback c; diagSendInFlight := inflight;
     diagInFlightMessageIdVal := infId; diagInFlightStartMsVal := infStart;
     diagLastSendCompletedMessageIdVal := lastId; diagLastSendEndMsVal := lastEnd;
     lastRefreshTime := lastRefreshTime c; lastRuntimeInfo := lastRuntimeInfo c;
     runtimeInfoGeneration := runtimeInfoGeneration c;
     runtimeInfoStale := runtimeInfoStale c |}.

Definition diagMarkSendStart (messageId nowMs : Z) (c : TcpConnection) : TcpConnection :=
  set_diag c true messageId nowMs (diagLastSendCompletedMessageIdVal c) (diagLastSendEndMsVal c).

Definition diagMarkSendEnd (messageId nowMs : Z) (c : TcpConnection) : TcpConnection :=
  set_diag c false (diagInFlightMessageIdVal c) (diagInFlightStartMsVal c) messageId nowMs.

(** disconnect: nothing when already disconnected; otherwise shut down and
    close the descriptor, mark the connection dead, and run the callback that
    was captured under the lock. *)
Definition disconnect (c : TcpConnection) : TcpConnection * list conn_event :=
  if negb (connected c) then (c, [])
  else
    let closing := if negb (socketFd c =? -1)
                   then [EvShutdown (socketFd c); EvClose (socketFd c)] else [] in
    let callback := if disconnectCallback c then [EvDisconnectCallback] else [] in
    (set_link c false (-1), closing ++ callback).

(** receive: the bytes and the returned count (0 on error or peer close). *)
Definition receive (r : os_recv) (c : TcpConnection) : TcpConnection * list conn_event * Z :=
  if connected c && negb (socketFd c =? -1) then
    if RecvTcpData r =? -1
    then let '(c', evs) := disconnect c in (c', evs, 0)
    else (c, [], RecvTcpData r)
  else (c, [], 0).

(** The loop of send over the results of the successive send(2) calls;
    [sent] counts the bytes written.  [None] when the results run out. *)
Fixpoint send_loop (rs : list os_send) (sent size : nat) (c : TcpConnection)
  : option (TcpConnection * list conn_event * nat) :=
  if (size <=? sent)%nat then Some (c, [], sent)
  else match rs with
       | [] => None
       | r :: rs =>
           if SendTcpData r <=? 0
           then let '(c', evs) := disconnect c in Some (c', evs, sent)
           else send_loop rs (sent + Z.to_nat (SendTcpData r)) size c
       end.

Definition send (rs : list os_send) (size : nat) (c : TcpConnection)
  : option (TcpConnection * list conn_event * nat) :=
  if connected c && negb (socketFd c =? -1) then send_loop rs 0 size c
  else Some (c, [], 0%nat).

(** refreshRuntimeInfoIfStale, run to completion: the refresh time, the two
    generation bumps (uint32_t) and whether a refresh happened. *)
Definition refreshRuntimeInfoIfStale (now refreshInterval : Z) (sockopt : option tcp_info)
  (c : TcpConnection) : TcpConnection * bool :=
  if now - lastRefreshTime c <? refreshInterval then (c, false)
  else
    ({| connected := connected c; socketFd := socketFd c;
        disconnectCallback := disconnectCallback c;
        diagSendInFlight := diagSendInFlight c;
        diagInFlightMessageIdVal := diagInFlightMessageIdVal c;
        diagInFlightStartMsVal := diagInFlightStartMsVal c;
        diagLastSendCompletedMessageIdVal := diagLastSendCompletedMessageIdVal c;
        diagLastSendEndMsVal := diagLastSendEndMsVal c;
        lastRefreshTime := now;
        lastRuntimeInfo := sampleRuntimeInfo (connected c) sockopt;
        runtimeInfoGeneration := u32 (u32 (runtimeInfoGeneration c + 1) + 1);
        runtimeInfoStale := false |}, true).

(** ** Lifetime: every descriptor is closed exactly once *)

Inductive conn_op : Type :=
| OpSetCallback (set : bool)
| OpDisconnect
| OpReceive (r : os_recv)
| OpSend (rs : list os_send) (size : nat)
| OpMarkStart (id now : Z)
| OpMarkEnd (id now : Z)
| OpRefresh (now interval : Z) (sockopt : option tcp_info).

Definition set_callback (c : TcpConnection) (b : bool) : TcpConnection :=
  {| connected := connected c; socketFd := socketFd c; disconnectCallback := b;
     diagSendInFlight := diagSendInFlight c;
     diagInFlightMessageIdVal := diagInFlightMessageIdVal c;
     diagInFlightStartMsVal := diagInFlightStartMsVal c;
     diagLastSendCompletedMessageIdVal := diagLastSendCompletedMessageIdVal c;
     diagLastSendEndMsVal := diagLastSendEndMsVal c;
     lastRefreshTime := lastRefreshTime c; lastRuntimeInfo := lastRuntimeInfo c;
     runtimeInfoGeneration := runtimeInfoGeneration c;
     runtimeInfoStale := runtimeInfoStale c |}.

Definition run_op (o : conn_op) (c : TcpConnection) : TcpConnection * list conn_event :=
  match o with
  | OpSetCallback b => (set_callback c b, [])
  | OpDisconnect => disconnect c
  | OpReceive r => (receive r c).1
  | OpSend rs size => match send rs size c with Some (c', evs, _) => (c', evs) | None => (c, []) end
  | OpMarkStart id now => (diagMarkSendStart id now c, [])
  | OpMarkEnd id now => (diagMarkSendEnd id now c, [])
  | OpRefresh now iv so => ((refreshRuntimeInfoIfStale now iv so c).1, [])
  end.

Fixpoint run_ops (os : list conn_op) (c : TcpConnection) : TcpConnection * list conn_event :=
  match os with
  | [] => (c, [])
  | o :: os => let '(c1, e1) := run_op o c in
               let '(c2, e2) := run_ops os c1 in (c2, e1 ++ e2)
  end.

(** Everything a connection does to its descriptor from construction to
    destruction. *)
Definition lifetime_events (fd : SocketFd) (os : list conn_op) : list conn_event :=
  let '(c0, e0) := newTcpConnection fd in
  let '(c1, e1) := run_ops os c0 in
  e0 ++ e1 ++ destroyTcpConnection c1.

Definition closes (fd : SocketFd) (evs : list conn_event) : nat :=
  length (filter (fun e => e = EvClose fd) evs).

(** The connection is either up on its own descriptor or down with none. *)
Definition conn_ok (fd : SocketFd) (c : TcpConnection) : Prop :=
  (connected c = true /\ socketFd c = fd) \/ (connected c = false /\ socketFd c = -1).

Lemma closes_app fd e1 e2 : closes fd (e1 ++ e2) = (closes fd e1 + closes fd e2)%nat.
Proof. unfold closes. by rewrite filter_app, length_app. Qed.

Lemma closes_close fd evs : closes fd (EvClose fd :: evs) = S (closes fd evs).
Proof. unfold closes. by rewrite filter_cons, decide_True. Qed.

Lemma closes_other fd e evs : e <> EvClose fd -> closes fd (e :: evs) = closes fd evs.
Proof. intros. unfold closes. by rewrite filter_cons, decide_False. Qed.

Lemma closes_nil fd : closes fd [] = 0%nat.
Proof. done. Qed.

(** Closes still owed by a connection in state [c]. *)
Definition owed (c : TcpConnection) : nat := if connected c then 1 else 0.

(** No descriptor but [fd] is closed. *)
Definition closes_only (fd : SocketFd) : list conn_event -> Prop :=
  Forall (fun e => forall fd', e = EvClose fd' -> fd' = fd).

(** A run from [c] to [c'] with events [evs] accounts for its closes: the
    connection stays well formed, [fd] is closed as often as the debt falls,
    and nothing else is closed. *)
Definition accounts (fd : SocketFd) (c c' : TcpConnection) (evs : list conn_event) : Prop :=
  conn_ok fd c' /\ (closes fd evs + owed c' = owed c)%nat
  /\ closes_only fd evs.

Lemma accounts_same fd c c' :
  conn_ok fd c -> connected c' = connected c -> socketFd c' = socketFd c -> accounts fd c c' [].
Proof.
  intros Hok H1 H2. unfold accounts, conn_ok, owed in *. rewrite H1, H2.
  split; [done | split; [done | constructor]].
Qed.

Lemma disconnect_accounts fd c :
  fd <> -1 -> conn_ok fd c -> accounts fd c (disconnect c).1 (disconnect c).2.
Proof.
  intros Hfd [[Hc Hs]|[Hc Hs]]; unfold disconnect; rewrite Hc; simpl.
  - unfold accounts, owed. rewrite Hs, Hc.
    destruct (Z.eqb_spec fd (-1)); [lia|]. simpl.
    split; [by right|].
    rewrite closes_other, closes_close by done.
    destruct (disconnectCallback c); rewrite ?closes_other, closes_nil by done;
      (split; [done | repeat constructor; naive_solver]).
  - apply accounts_same; try done. by right.
Qed.

Lemma send_loop_accounts fd rs sent size c c' evs n :
  fd <> -1 -> conn_ok fd c -> send_loop rs sent size c = Some (c', evs, n) ->
  accounts fd c c' evs.
Proof.
  intros Hfd Hok. revert sent.
  induction rs as [|x rs IH]; intros sent; simpl; case_match; try done.
  - intros [= <- <- <-]. by apply accounts_same.
  - intros [= <- <- <-]. by apply accounts_same.
  - case_match; [|apply IH].
    pose proof (disconnect_accounts fd c Hfd Hok) as Hd.
    destruct (disconnect c). intros [= <- <- <-]. done.
Qed.

Lemma run_op_accounts fd o c :
  fd <> -1 -> conn_ok fd c -> accounts fd c (run_op o c).1 (run_op o c).2.
Proof.
  intros Hfd Hok. pose proof (disconnect_accounts fd c Hfd Hok) as Hd.
  destruct o; simpl; try (by apply accounts_same); try done.
  - unfold receive. destruct (disconnect c).
    repeat case_match; simplify_eq/=; first [done | by apply accounts_same].
  - unfold send. destruct (connected c && _); [|by apply accounts_same].
    destruct (send_loop rs 0 size c) as [[[c' evs] n]|] eqn:E; simpl.
    + by eapply send_loop_accounts.
    + by apply accounts_same.
  - unfold refreshRuntimeInfoIfStale. case_match; by apply accounts_same.
Qed.

Lemma run_ops_accounts fd os c :
  fd <> -1 -> conn_ok fd c -> accounts fd c (run_ops os c).1 (run_ops os c).2.
Proof.
  intros Hfd. revert c. induction os as [|o os IH]; intros c Hok; simpl.
  - by apply accounts_same.
  - pose proof (run_op_accounts fd o c Hfd Hok) as H1. destruct (run_op o c) as [c1 e1].
    destruct H1 as (Hok1 & Hc1 & Hf1). specialize (IH c1 Hok1).
    destruct (run_ops os c1) as [c2 e2]. destruct IH as (Hok2 & Hc2 & Hf2).
    unfold accounts in *. simpl in *. rewrite closes_app.
    split; [done | split; [lia | by apply Forall_app]].
Qed.

Lemma destroy_closes fd c :
  fd <> -1 -> conn_ok fd c ->
  closes fd (destroyTcpConnection c) = owed c
  /\ closes_only fd (destroyTcpConnection c).
Proof.
  intros Hfd [[Hu Hs]|[Hu Hs]]; unfold destroyTcpConnection, owed; rewrite Hu, Hs; simpl.
  - destruct (Z.eqb_spec fd (-1)); [lia|]. simpl. rewrite closes_close, closes_nil.
    split; [done | repeat constructor; naive_solver].
  - split; [done | constructor].
Qed.

(** C19. Whatever operations run on a connection, and in whatever order, from
    its construction on descriptor [fd] to its destruction [fd] is closed
    exactly once, and no other descriptor is ever closed. *)
Theorem fd_closed_exactly_once (fd : SocketFd) (os : list conn_op) :
  fd <> -1 ->
  closes fd (lifetime_events fd os) = 1%nat
  /\ closes_only fd (lifetime_events fd os).
Proof.
  intros Hfd. unfold lifetime_events. simpl. set (c0 := mkTcpConnection _ _ _ _ _ _ _ _ _ _ _ _).
  assert (Hok : conn_ok fd c0) by (by left).
  pose proof (run_ops_accounts fd os c0 Hfd Hok) as (Hok1 & Hc & Hf).
  destruct (run_ops os c0) as [c1 e1]; simpl in *.
  destruct (destroy_closes fd c1 Hfd Hok1) as [Hd1 Hd2].
  split; [|constructor; [naive_solver | by apply Forall_app]].
  change (closes fd ([EvSetSndTimeo fd] ++ (e1 ++ destroyTcpConnection c1)) = 1%nat).
  rewrite !closes_app, Hd1, closes_other, closes_nil by done. exact Hc.
Qed.

Lemma fd_closed_exactly_once_witness :
  7 <> -1 /\
  closes 7 (lifetime_events 7 [OpReceive (RecvErr ECONNRESET); OpDisconnect]) = 1%nat.
Proof.
  split; [lia|].
  exact (proj1 (fd_closed_exactly_once 7 [OpReceive (RecvErr ECONNRESET); OpDisconnect]
                  ltac:(lia))).
Defined.
