(* ===== verification/SharedConnection.v ===== *)
(** * A connection used by several threads (src/common/TcpConnection.cpp)

    disconnect() statement by statement under its mutex, against other threads
    that call it, threads that check isConnected(), read getSocketFd() and make a
    system call on the number they got, and the rest of the process, which
    opens and closes other descriptors.  A disconnect callback has been set.
    TcpConnection.v has the same operations one after another. *)

From S2P Require Import Prelude Socket TcpConnection.

(** The open file a descriptor stands for; the connection's own is [own]. *)
Definition file : Type := nat.
Definition own : file := 0%nat.

(** Where the holder of disconnectMutex is. *)
Inductive disconnect_pc : Type :=
| DCheck        (* before [if (!connected.load())] *)
| DTest         (* before [if (socketFd != -1)] *)
| DClose        (* shut down, before SocketClose *)
| DClear        (* before [socketFd = -1] *)
| DStore        (* before [connected.store(false)] *)
| DCopy.        (* before copying the callback and releasing the mutex *)

(** Where any other thread is. *)
Inductive thread_pc : Type :=
| TIdle
| TWaiting               (* in disconnect(), at the mutex or holding it *)
| TCalling               (* has released it, before callbackToInvoke() *)
| TChecked               (* has seen isConnected() *)
| TUsing (fd : SocketFd). (* has read getSocketFd(), before the system call *)

(** System calls and the callback, with the file the descriptor stood for. *)
Inductive shared_event : Type :=
| SeShutdown (f : option file)
| SeClose (f : option file)
| SeIo (f : option file)
| SeCallback.

#[export] Instance shared_event_eq_dec : EqDecision shared_event.
Proof. solve_decision. Defined.

Record shared : Type := mkShared {
  sh_connected : bool;
  sh_socketFd : SocketFd;
  descriptors : gmap Z file;
  holder : option (nat * disconnect_pc);
  threads : gmap nat thread_pc;
  events : list shared_event;
}.

Inductive shared_step : shared -> shared -> Prop :=
(* disconnect() *)
| s_call c fd d h th ev t :
    th !! t = Some TIdle ->
    shared_step (mkShared c fd d h th ev) (mkShared c fd d h (<[t := TWaiting]> th) ev)
| s_lock c fd d th ev t :
    th !! t = Some TWaiting ->
    shared_step (mkShared c fd d None th ev) (mkShared c fd d (Some (t, DCheck)) th ev)
| s_already fd d th ev t :
    shared_step (mkShared false fd d (Some (t, DCheck)) th ev) (mkShared false fd d None (<[t := TIdle]> th) ev)
| s_connected fd d th ev t :
    shared_step (mkShared true fd d (Some (t, DCheck)) th ev) (mkShared true fd d (Some (t, DTest)) th ev)
| s_shutdown c fd d th ev t :
    fd <> -1 ->
    shared_step (mkShared c fd d (Some (t, DTest)) th ev)
                (mkShared c fd d (Some (t, DClose)) th (ev ++ [SeShutdown (d !! fd)]))
| s_no_fd c d th ev t :
    shared_step (mkShared c (-1) d (Some (t, DTest)) th ev) (mkShared c (-1) d (Some (t, DStore)) th ev)
| s_close c fd d th ev t :
    shared_step (mkShared c fd d (Some (t, DClose)) th ev)
                (mkShared c fd (delete fd d) (Some (t, DClear)) th (ev ++ [SeClose (d !! fd)]))
| s_clear c fd d th ev t :
    shared_step (mkShared c fd d (Some (t, DClear)) th ev) (mkShared c (-1) d (Some (t, DStore)) th ev)
| s_store c fd d th ev t :
    shared_step (mkShared c fd d (Some (t, DStore)) th ev) (mkShared false fd d (Some (t, DCopy)) th ev)
| s_unlock c fd d th ev t :
    shared_step (mkShared c fd d (Some (t, DCopy)) th ev) (mkShared c fd d None (<[t := TCalling]> th) ev)
| s_callback c fd d h th ev t :
    th !! t = Some TCalling ->
    shared_step (mkShared c fd d h th ev) (mkShared c fd d h (<[t := TIdle]> th) (ev ++ [SeCallback]))
(* send and recv: [if (conn->isConnected()) ... SendTcpDirect(conn->getSocketFd(), ...)] *)
| s_check fd d h th ev t :
    th !! t = Some TIdle ->
    shared_step (mkShared true fd d h th ev) (mkShared true fd d h (<[t := TChecked]> th) ev)
| s_get_fd c fd d h th ev t :
    th !! t = Some TChecked ->
    shared_step (mkShared c fd d h th ev) (mkShared c fd d h (<[t := TUsing fd]> th) ev)
| s_io c fd d h th ev t f :
    th !! t = Some (TUsing f) ->
    shared_step (mkShared c fd d h th ev) (mkShared c fd d h (<[t := TIdle]> th) (ev ++ [SeIo (d !! f)]))
(* the rest of the process *)
| s_open c fd d h th ev f x :
    d !! f = None -> 0 <= f -> x <> own ->
    shared_step (mkShared c fd d h th ev) (mkShared c fd (<[f := x]> d) h th ev)
| s_close_other c fd d h th ev f x :
    d !! f = Some x -> x <> own ->
    shared_step (mkShared c fd d h th ev) (mkShared c fd (delete f d) h th ev).

(** A connection just made on [fd], used by the threads of [th]. *)
Definition shared_init (s : shared) : Prop :=
  exists fd d th, 0 <= fd /\ d !! fd = Some own /\ (forall f, d !! f = Some own -> f = fd)
    /\ (forall t p, th !! t = Some p -> p = TIdle)
    /\ s = mkShared true fd d None th [].

Definition shared_reachable : shared -> Prop := reachable shared_init shared_step.

Definition closed_files (ev : list shared_event) : list (option file) :=
  omap (fun e => match e with SeClose f => Some f | _ => None end) ev.

Definition callback_count (ev : list shared_event) : nat :=
  length (filter (fun e => e = SeCallback) ev).

#[local] Arguments closed_files : simpl never.
#[local] Arguments callback_count : simpl never.

(** ** The invariant *)

Definition nobody_calls (th : gmap nat thread_pc) : Prop := forall t, th !! t <> Some TCalling.

(** The connection is open, on its own file. *)
Definition still_open (s : shared) : Prop :=
  0 <= sh_socketFd s /\ descriptors s !! sh_socketFd s = Some own
  /\ closed_files (events s) = [] /\ callback_count (events s) = 0%nat /\ nobody_calls (threads s).

(** Its file is closed. *)
Definition file_closed (s : shared) : Prop :=
  (forall f, descriptors s !! f <> Some own) /\ closed_files (events s) = [Some own].

(** The callback has been called, or one thread is about to. *)
Definition called_once (s : shared) : Prop :=
  (callback_count (events s) = 1%nat /\ nobody_calls (threads s))
  \/ (callback_count (events s) = 0%nat
      /\ exists t, threads s !! t = Some TCalling /\ forall t', threads s !! t' = Some TCalling -> t' = t).

Definition not_called (s : shared) : Prop := callback_count (events s) = 0%nat /\ nobody_calls (threads s).

Definition holder_pc (s : shared) : option disconnect_pc := snd <$> holder s.

Inductive stage : Type := Open | Closing | Closed | Impossible.

Definition stage_of (s : shared) : stage :=
  match sh_connected s, holder_pc s with
  | true, (None | Some DCheck | Some DTest | Some DClose) => Open
  | true, (Some DClear | Some DStore) | false, Some DCopy => Closing
  | false, (None | Some DCheck) => Closed
  | _, _ => Impossible
  end.

Definition phase_ok (s : shared) : Prop :=
  match stage_of s with
  | Open => still_open s
  | Closing => file_closed s /\ not_called s
  | Closed => file_closed s /\ called_once s
  | Impossible => False
  end.

(** Own file is only where it was; the holder waits in disconnect(). *)
Record shared_inv (s : shared) : Prop := {
  si_phase : phase_ok s;
  si_unique : forall f f', descriptors s !! f = Some own -> descriptors s !! f' = Some own -> f = f';
  si_holder : forall t p, holder s = Some (t, p) -> threads s !! t = Some TWaiting;
}.

Lemma closed_files_snoc ev e :
  closed_files (ev ++ [e]) = closed_files ev ++ match e with SeClose f => [f] | _ => [] end.
Proof. unfold closed_files. rewrite omap_app. by destruct e. Qed.

Lemma callback_count_snoc ev e : e <> SeCallback -> callback_count (ev ++ [e]) = callback_count ev.
Proof. intros He. unfold callback_count. rewrite filter_app, length_app, (filter_cons_False _ e) by done. cbn. lia. Qed.

Lemma callback_count_call ev : callback_count (ev ++ [SeCallback]) = S (callback_count ev).
Proof. unfold callback_count. rewrite filter_app, length_app, (filter_cons_True _ SeCallback) by done. cbn. lia. Qed.

(** A thread that neither starts nor stops calling. *)
Lemma callers_insert (th : gmap nat thread_pc) t p q :
  th !! t = Some p -> p <> TCalling -> q <> TCalling ->
  forall t', <[t := q]> th !! t' = Some TCalling <-> th !! t' = Some TCalling.
Proof. intros Hp Hn Hq t'. rewrite lookup_insert_Some. split; [naive_solver|]. destruct (decide (t = t')); naive_solver. Qed.

(** Steps that change nothing the phase speaks of. *)
Lemma phase_transport s s' :
  stage_of s' = stage_of s -> sh_socketFd s' = sh_socketFd s ->
  (forall f, descriptors s' !! f = Some own <-> descriptors s !! f = Some own) ->
  closed_files (events s') = closed_files (events s) -> callback_count (events s') = callback_count (events s) ->
  (forall t, threads s' !! t = Some TCalling <-> threads s !! t = Some TCalling) ->
  phase_ok s -> phase_ok s'.
Proof.
  intros Hst Hfd Hd Hc Hk Ht. unfold phase_ok. rewrite Hst.
  assert (Hn : nobody_calls (threads s) <-> nobody_calls (threads s')) by (unfold nobody_calls; by setoid_rewrite Ht).
  assert (Hf : file_closed s -> file_closed s').
  { intros [H1 H2]. split; [|by rewrite Hc]. intros f Hf. by apply (H1 f), Hd. }
  destruct (stage_of s).
  - intros (H0 & H1 & H2 & H3 & H4). unfold still_open. rewrite Hfd, Hc, Hk. split_and!; [done | by apply Hd | done | done | by apply Hn].
  - intros (H1 & H2 & H3). split; [by apply Hf|]. split; [by rewrite Hk | by apply Hn].
  - intros (H1 & [[H2 H3]|(H2 & t & H3 & H4)]).
    + split; [by apply Hf|]. left. split; [by rewrite Hk | by apply Hn].
    + split; [by apply Hf|]. right. split; [by rewrite Hk|]. exists t. split; [by apply Ht|]. intros t' Hc'%Ht. by apply H4.
  - done.
Qed.

(** The waiting holder is not the thread that moves. *)
Lemma holder_insert (th : gmap nat thread_pc) t q (h : option (nat * disconnect_pc)) p0 :
  (forall t0 p, h = Some (t0, p) -> th !! t0 = Some TWaiting) -> th !! t = Some p0 -> p0 <> TWaiting ->
  forall t0 p, h = Some (t0, p) -> <[t := q]> th !! t0 = Some TWaiting.
Proof. intros H Ht Hp t0 p Hh. rewrite lookup_insert_ne; [by eapply H|]. intros ->. pose proof (H _ _ Hh). congruence. Qed.

Lemma quiet_inv s s' :
  shared_inv s -> stage_of s' = stage_of s -> sh_socketFd s' = sh_socketFd s ->
  (forall f, descriptors s' !! f = Some own <-> descriptors s !! f = Some own) ->
  closed_files (events s') = closed_files (events s) -> callback_count (events s') = callback_count (events s) ->
  (forall t, threads s' !! t = Some TCalling <-> threads s !! t = Some TCalling) ->
  (forall t p, holder s' = Some (t, p) -> threads s' !! t = Some TWaiting) ->
  shared_inv s'.
Proof.
  intros [Hp Hu Hh] Hst Hfd Hd Hc Hk Ht Hh'. constructor; [by eapply phase_transport | | done].
  intros f f' H1%Hd H2%Hd. by eapply Hu.
Qed.

(** The steps of disconnect() that change the phase. *)
Lemma close_step_inv c fd d th ev t :
  shared_inv (mkShared c fd d (Some (t, DClose)) th ev) ->
  shared_inv (mkShared c fd (delete fd d) (Some (t, DClear)) th (ev ++ [SeClose (d !! fd)])).
Proof.
  intros [Hp Hu Hh]. destruct c; [|done]. destruct Hp as (H0 & H1 & H2 & H3 & H4). cbn in *. constructor; cbn.
  - split; [split; cbn|split; cbn]; [|by rewrite closed_files_snoc, H2, H1 | by rewrite callback_count_snoc | done].
    intros f [Hne Hf]%lookup_delete_Some. apply Hne. by eapply Hu.
  - intros f f' [_ Hf]%lookup_delete_Some [_ Hf']%lookup_delete_Some. by eapply Hu.
  - intros t0 p [= <- <-]. by eapply Hh.
Qed.

Lemma unlock_step_inv c fd d th ev t :
  shared_inv (mkShared c fd d (Some (t, DCopy)) th ev) ->
  shared_inv (mkShared c fd d None (<[t := TCalling]> th) ev).
Proof.
  intros [Hp Hu Hh]. destruct c; [done|]. destruct Hp as (Hf & Hc & Hn). cbn in *. constructor; cbn; [|done|done].
  split; [done|]. right. split; [done|]. exists t. cbn. split; [apply lookup_insert_eq|].
  intros t' [[<- _]|[_ Ht']]%lookup_insert_Some; [done|]. by destruct (Hn t').
Qed.

Lemma callback_step_inv c fd d h th ev t :
  th !! t = Some TCalling -> shared_inv (mkShared c fd d h th ev) ->
  shared_inv (mkShared c fd d h (<[t := TIdle]> th) (ev ++ [SeCallback])).
Proof.
  intros Ht [Hp Hu Hh]. constructor; [|done|by eapply holder_insert].
  unfold phase_ok in *. change (stage_of (mkShared c fd d h (<[t := TIdle]> th) (ev ++ [SeCallback])))
    with (stage_of (mkShared c fd d h th ev)).
  destruct (stage_of _).
  - destruct Hp as (_ & _ & _ & _ & Hn). by destruct (Hn t).
  - destruct Hp as (_ & _ & Hn). by destruct (Hn t).
  - destruct Hp as ([Hf Hc] & [[_ Hn]|(Hk & t0 & H0 & Hall)]); [by destruct (Hn t)|]. cbn in *. split.
    + split; cbn; [done | by rewrite closed_files_snoc, app_nil_r].
    + left. cbn. rewrite callback_count_call, Hk. split; [done|].
      intros t' [[_ ?]|[Hne Ht']]%lookup_insert_Some; [done|]. apply Hne. rewrite (Hall t Ht). symmetry. by apply Hall.
  - done.
Qed.

Lemma shared_inv_step s s' : shared_inv s -> shared_step s s' -> shared_inv s'.
Proof.
  intros Hi Hstep. assert (Hi' := Hi). destruct Hi' as [Hp Hu Hh].
  destruct Hstep as [c fd d h th ev t Ht|c fd d th ev t Ht|fd d th ev t|fd d th ev t|c fd d th ev t Hfd|c d th ev t
                    |c fd d th ev t|c fd d th ev t|c fd d th ev t|c fd d th ev t|c fd d h th ev t Ht|fd d h th ev t Ht
                    |c fd d h th ev t Ht|c fd d h th ev t f Ht|c fd d h th ev f x Hf H0 Hx|c fd d h th ev f x Hf Hx];
    cbn [sh_connected sh_socketFd descriptors holder threads events] in *.
  - apply (quiet_inv _ _ Hi); [done..| |]; [by eapply callers_insert | by eapply holder_insert].
  - apply (quiet_inv _ _ Hi); [by destruct c | done..|]. by intros ? ? [= <- _].
  - apply (quiet_inv _ _ Hi); [done..| |done]. eapply callers_insert; [by eapply Hh | done | done].
  - apply (quiet_inv _ _ Hi); [done..|]. intros ? ? [= <- _]. by eapply Hh.
  - apply (quiet_inv _ _ Hi); [by destruct c | done | done | cbn; by rewrite closed_files_snoc, app_nil_r
      | by apply callback_count_snoc | done |]. intros ? ? [= <- _]. by eapply Hh.
  - destruct c; [destruct Hp as (? & _); cbn in *; lia | done].
  - by apply close_step_inv.
  - destruct c; [|done]. constructor; [exact Hp | done |]. intros ? ? [= <- _]. by eapply Hh.
  - destruct c; [|done]. constructor; [exact Hp | done |]. intros ? ? [= <- _]. by eapply Hh.
  - by apply (unlock_step_inv c).
  - by apply callback_step_inv.
  - apply (quiet_inv _ _ Hi); [done..| |]; [by eapply callers_insert | by eapply holder_insert].
  - apply (quiet_inv _ _ Hi); [done..| |]; [by eapply callers_insert | by eapply holder_insert].
  - apply (quiet_inv _ _ Hi); [done | done | done | cbn; by rewrite closed_files_snoc, app_nil_r | by apply callback_count_snoc
      | by eapply callers_insert | by eapply holder_insert].
  - apply (quiet_inv _ _ Hi); try done. intros f'. cbn. rewrite lookup_insert_Some. split; [intros [[_ ?]|[_ ?]]; done|].
    intros Hf'. right. split; [congruence | done].
  - apply (quiet_inv _ _ Hi); try done. intros f'. cbn. rewrite lookup_delete_Some. split; [by intros [_ ?]|].
    intros Hf'. split; [congruence | done].
Qed.

Lemma shared_inv_reachable s : shared_reachable s -> shared_inv s.
Proof.
  apply invariant_reachable; [|intros; by eapply shared_inv_step].
  intros ? (fd & d & th & H0 & Hd & Hu & Ht & ->). constructor; cbn.
  - split_and!; [done | done | done | done |]. intros t Hc. by specialize (Ht _ _ Hc).
  - intros f f' H1 H2. by rewrite (Hu _ H1), (Hu _ H2).
  - done.
Qed.

(** C18. Threads may disconnect at once: however their calls, other uses of the
    connection and the rest of the process interleave, every close is of the
    connection's own file, there is at most one, and exactly one as soon as the
    connection is marked as down; the callback runs at most once, and has run
    once when the connection is down and no thread is left in disconnect. *)
Theorem concurrent_disconnect_closes_once (s : shared) :
  shared_reachable s ->
  (closed_files (events s) = [] \/ closed_files (events s) = [Some own])
  /\ (callback_count (events s) <= 1)%nat
  /\ (sh_connected s = false -> closed_files (events s) = [Some own])
  /\ (sh_connected s = false -> holder s = None -> nobody_calls (threads s) -> callback_count (events s) = 1%nat).
Proof.
  intros [Hp _ _]%shared_inv_reachable. unfold phase_ok, stage_of, holder_pc in Hp.
  destruct s as [c fd d h th ev]. cbn [sh_connected holder] in *.
  assert (Hcall : called_once (mkShared c fd d h th ev) ->
    (callback_count ev <= 1)%nat /\ (nobody_calls th -> callback_count ev = 1%nat)).
  { intros [[H1 _]|(H1 & t & H2 & _)]; cbn in *; [lia|]. split; [lia|]. intros Hn. by destruct (Hn t). }
  destruct c, h as [[t []]|]; cbn [fmap option_fmap option_map snd] in Hp; try done;
    cbn [events threads]; unfold still_open, file_closed, not_called in Hp; cbn [events threads] in Hp;
    destruct_and? Hp; split_and!; try done; try (by left); try (by right); try lia; try (by apply Hcall);
    try (intros _ _ Hn; by apply Hcall).
Qed.

(** ** A descriptor outlives its connection *)

(** One thread has read the number and has not used it yet, the other disconnects,
    and the process opens another connection, which gets the number. *)
Definition two_users : gmap nat thread_pc := {[1%nat := TIdle; 2%nat := TIdle]}.

Definition fresh_connection : shared := mkShared true 5 {[5 := own]} None two_users [].

Lemma fresh_connection_init : shared_init fresh_connection.
Proof.
  exists 5, {[5 := own]}, two_users. split_and!; [lia | done | | | done].
  - intros f Hf. by apply lookup_singleton_Some in Hf as [? _].
  - intros t p Ht. unfold two_users in Ht. apply lookup_insert_Some in Ht as [[_ <-]|[_ Ht]]; [done|].
    by apply lookup_singleton_Some in Ht as [_ <-].
Qed.

(** Both threads of [fresh_connection] disconnect; the second finds it done. *)
Lemma concurrent_disconnect_closes_once_witness :
  let s := mkShared false (-1) ∅ None two_users [SeShutdown (Some own); SeClose (Some own); SeCallback] in
  shared_reachable s
  /\ ((closed_files (events s) = [] \/ closed_files (events s) = [Some own])
      /\ (callback_count (events s) <= 1)%nat
      /\ (sh_connected s = false -> closed_files (events s) = [Some own])
      /\ (sh_connected s = false -> holder s = None -> nobody_calls (threads s) -> callback_count (events s) = 1%nat)).
Proof.
  intros s. assert (Hs : shared_reachable s).
  { exists fresh_connection. split; [apply fresh_connection_init|].
    eapply rtc_l; [apply (s_call _ _ _ _ _ _ 1); reflexivity|].
    eapply rtc_l; [apply (s_call _ _ _ _ _ _ 2); reflexivity|].
    eapply rtc_l; [apply (s_lock _ _ _ _ _ 1); reflexivity|].
    eapply rtc_l; [apply s_connected|].
    eapply rtc_l; [apply s_shutdown; discriminate|].
    eapply rtc_l; [apply s_close|].
    eapply rtc_l; [apply s_clear|].
    eapply rtc_l; [apply s_store|].
    eapply rtc_l; [apply s_unlock|].
    eapply rtc_l; [apply (s_lock _ _ _ _ _ 2); reflexivity|].
    eapply rtc_l; [apply s_already|].
    eapply rtc_l; [apply (s_callback _ _ _ _ _ _ 1); reflexivity|].
    apply rtc_refl. }
  split; [exact Hs | exact (concurrent_disconnect_closes_once s Hs)].
Defined.

(** The number getSocketFd() returned may stand for another connection by the
    time send or recv is called with it: bytes of one connection are read from or
    written to another. *)
Theorem stale_descriptor_io :
  exists s f, shared_reachable s /\ SeIo (Some f) ∈ events s /\ f <> own.
Proof.
  eexists _, 7%nat. split; [|split; [|discriminate]].
  - exists fresh_connection. split; [apply fresh_connection_init|].
    eapply rtc_l; [apply (s_check _ _ _ _ _ 1); reflexivity|].
    eapply rtc_l; [apply (s_get_fd _ _ _ _ _ _ 1); reflexivity|].
    eapply rtc_l; [apply (s_call _ _ _ _ _ _ 2); reflexivity|].
    eapply rtc_l; [apply (s_lock _ _ _ _ _ 2); reflexivity|].
    eapply rtc_l; [apply s_connected|].
    eapply rtc_l; [apply s_shutdown; discriminate|].
    eapply rtc_l; [apply s_close|].
    eapply rtc_l; [apply (s_open _ _ _ _ _ _ 5 7%nat); [reflexivity | lia | discriminate]|].
    eapply rtc_l; [apply (s_io _ _ _ _ _ _ 1 5); reflexivity|].
    apply rtc_refl.
  - cbn. set_solver.
Qed.
