(* ===== verification/Seqlock.v ===== *)
(** * The lock-free read of the runtime info

    TcpConnection::getLastRuntimeInfo (reader) against the write section of
    TcpConnection::refreshRuntimeInfoIfStale (writer, serialised by
    runtimeInfoMutex), one atomic operation or one word at a time, with the
    memory orders of the code: fetch_add is release only, the loads are acquire,
    the words of lastRuntimeInfo are ordered by nothing else.

    The memory is the usual one of views.  A location is the list of its stores
    in modification order; a reader may take any store not older than the one
    its view has for the location; a release operation carries the view of its
    thread and an acquire load that takes it joins that view.  The words are
    accessed without atomics in the code, which is a data race for C++; here
    they are relaxed accesses, which is what the compilers make of them. *)

From S2P Require Import Prelude Socket TcpConnection.

Definition bool_word (b : bool) : Z := if b then 1 else 0.

(** The words of a RuntimeInfo in declaration order. *)
Definition info_words (i : RuntimeInfo) : list Z :=
  [bool_word (supported i); bool_word (valid i); bool_word (isInExponentialBackoff i);
   bool_word (retransmissionIndicatorIsBytes i); rtoUs i; smoothedRttUs i;
   congestionWindowBytes i; bytesInFlight i; retransmissionIndicator i; timeoutEpisodes i].

Definition info_size : nat := 10.

(** A view: for every word the position of the newest store known. *)
#[local] Abbreviation view := (list nat).
#[local] Arguments Nat.div : simpl never.

Definition view_le (v w : view) : Prop := Forall2 (fun a b => (a <= b)%nat) v w.

Definition view_join (v w : view) : view := zip_with Nat.max v w.

Inductive writer_pc : Type :=
| WIdle
| WWriting (new : list Z) (k : nat). (* words [0..k) of [new] are stored *)

(** [at_load] is ghost: the position of the store the load took. *)
Inductive reader_pc : Type :=
| RIdle
| RCopying (g : Z) (at_load : nat) (copy : list Z)
| RDone (g : Z) (at_load : nat) (copy : list Z).

Record seq_state : Type := mkSeq {
  gens : list (Z * view);        (* the stores to runtimeInfoGeneration, each with the view it released *)
  words : list (list Z);         (* the stores to every word of lastRuntimeInfo *)
  wpc : writer_pc;
  rpc : reader_pc;
  seen_gen : nat;                (* the reader's view *)
  seen : view;
  begun : list (list Z);         (* ghost: the values of the refreshes begun, the initial one first *)
}.

Definition initial_words : list Z := info_words emptyRuntimeInfo.

Definition seq_init (s : seq_state) : Prop :=
  s = mkSeq [(0, replicate info_size 0%nat)] ((fun w => [w]) <$> initial_words) WIdle RIdle 0
            (replicate info_size 0%nat) [initial_words].

(** The view of the writer, which knows the newest store everywhere: every
    refresh holds runtimeInfoMutex. *)
Definition newest (ws : list (list Z)) : view := (fun h => pred (length h)) <$> ws.

(** The read-modify-write fetch_add(1, release). *)
Definition bump (gs : list (Z * view)) (ws : list (list Z)) : list (Z * view) :=
  gs ++ [(u32 (default 0 (fst <$> last gs) + 1), newest ws)].

Inductive seq_step : seq_state -> seq_state -> Prop :=
(* refreshRuntimeInfoIfStale *)
| step_write_begin gs ws r sg sv b info :
    seq_step (mkSeq gs ws WIdle r sg sv b)
             (mkSeq (bump gs ws) ws (WWriting (info_words info) 0) r sg sv (b ++ [info_words info]))
| step_write_word gs ws r sg sv b new k w :
    (* one word of [lastRuntimeInfo = info] *)
    new !! k = Some w ->
    seq_step (mkSeq gs ws (WWriting new k) r sg sv b)
             (mkSeq gs (alter (.++ [w]) k ws) (WWriting new (S k)) r sg sv b)
| step_write_end gs ws r sg sv b new :
    seq_step (mkSeq gs ws (WWriting new info_size) r sg sv b)
             (mkSeq (bump gs ws) ws WIdle r sg sv b)
(* getLastRuntimeInfo *)
| step_read_load gs ws w sg sv b t g v :
    (* [gen = runtimeInfoGeneration.load(acquire)] of one pass *)
    gs !! t = Some (g, v) -> (sg <= t)%nat ->
    seq_step (mkSeq gs ws w RIdle sg sv b) (mkSeq gs ws w (RCopying g t []) t (view_join sv v) b)
| step_read_word gs ws w sg sv b g n c h p t x :
    (* one word of [copy = lastRuntimeInfo] *)
    ws !! length c = Some h -> sv !! length c = Some p -> (p <= t)%nat -> h !! t = Some x ->
    seq_step (mkSeq gs ws w (RCopying g n c) sg sv b)
             (mkSeq gs ws w (RCopying g n (c ++ [x])) sg (<[length c := t]> sv) b)
| step_read_test gs ws w sg sv b g n c t g' v :
    (* the loop condition *)
    length c = info_size -> gs !! t = Some (g', v) -> (sg <= t)%nat ->
    seq_step (mkSeq gs ws w (RCopying g n c) sg sv b)
             (mkSeq gs ws w (if g =? g' then RDone g n c else RIdle) t (view_join sv v) b)
| step_read_again gs ws w sg sv b g n c :
    seq_step (mkSeq gs ws w (RDone g n c) sg sv b) (mkSeq gs ws w RIdle sg sv b)
(* whatever else the reader synchronises with: the load before the loop, a refresh of its own *)
| step_reader_syncs gs ws w r sg sv b sg' sv' :
    (sg <= sg')%nat -> view_le sv sv' ->
    seq_step (mkSeq gs ws w r sg sv b) (mkSeq gs ws w r sg' sv' b).

Definition seq_reachable := reachable seq_init seq_step.

(** ** What the histories hold *)

(** The stores to word [k] are those of the refreshes begun, in order. *)
Definition word_ok (b : list (list Z)) (k : nat) (h : list Z) : Prop :=
  forall t x, h !! t = Some x -> exists i, b !! t = Some i /\ i !! k = Some x.

Definition words_ok (s : seq_state) : Prop :=
  length (words s) = info_size /\ forall k h, words s !! k = Some h -> word_ok (begun s) k h.

(** Generation [n] was stored when [n / 2] refreshes were complete, and releases
    their words. *)
Definition gens_ok (s : seq_state) : Prop :=
  forall n g v, gens s !! n = Some (g, v) -> g = u32 (Z.of_nat n) /\ v = replicate info_size (n / 2)%nat.

(** How far the writer is: [m] refreshes are complete. *)
Definition writer_ok (s : seq_state) : Prop :=
  exists m, Forall (fun i => length i = info_size) (begun s) /\
  match wpc s with
  | WIdle =>
      length (gens s) = S (2 * m) /\ length (begun s) = S m
      /\ forall k h, words s !! k = Some h -> length h = S m
  | WWriting new j =>
      length (gens s) = S (S (2 * m)) /\ length (begun s) = S (S m) /\ begun s !! S m = Some new
      /\ forall k h, words s !! k = Some h -> length h = if decide (k < j)%nat then S (S m) else S m
  end.

(** Every word of the copy is of a refresh not older than the generation. *)
Definition copy_from (b : list (list Z)) (n : nat) (c : list Z) : Prop :=
  forall k x, c !! k = Some x -> exists j i, (n / 2 <= j)%nat /\ b !! j = Some i /\ i !! k = Some x.

Definition reader_ok (s : seq_state) : Prop :=
  length (seen s) = info_size
  /\ match rpc s with
     | RIdle => True
     | RCopying g n c =>
         (n < length (gens s))%nat /\ g = u32 (Z.of_nat n) /\ copy_from (begun s) n c
         /\ Forall (fun p => (n / 2 <= p)%nat) (seen s)
     | RDone g n c =>
         (n < length (gens s))%nat /\ g = u32 (Z.of_nat n) /\ copy_from (begun s) n c /\ length c = info_size
     end.

Record seq_inv (s : seq_state) : Prop := {
  si_words : words_ok s;
  si_gens : gens_ok s;
  si_writer : writer_ok s;
  si_reader : reader_ok s;
}.

Lemma u32_succ n : u32 (u32 (Z.of_nat n) + 1) = u32 (Z.of_nat (S n)).
Proof. unfold u32. rewrite Zplus_mod_idemp_l. f_equal. lia. Qed.

Lemma word_ok_grow b l k h : word_ok b k h -> word_ok (b ++ l) k h.
Proof. intros H t x Hx. destruct (H t x Hx) as (i & Hi & ?). exists i. split; [by apply lookup_app_l_Some | done]. Qed.

Lemma copy_from_grow b l n c : copy_from b n c -> copy_from (b ++ l) n c.
Proof. intros H k x Hx. destruct (H k x Hx) as (j & i & ? & ? & ?). exists j, i. split_and!; [done | by apply lookup_app_l_Some | done]. Qed.

(** A release by the writer, when every word has [m + 1] stores. *)
Lemma bump_ok gs ws m n :
  (forall n g v, gs !! n = Some (g, v) -> g = u32 (Z.of_nat n) /\ v = replicate info_size (n / 2)%nat) ->
  length gs = S n -> length ws = info_size -> (forall k h, ws !! k = Some h -> length h = S m) -> (S n / 2 = m)%nat ->
  forall i g v, bump gs ws !! i = Some (g, v) -> g = u32 (Z.of_nat i) /\ v = replicate info_size (i / 2)%nat.
Proof.
  intros Hg Hl Hw Hh Hm i g v [Hi|[Hge Hi]]%lookup_app_Some; [by apply Hg|].
  rewrite Hl in Hge, Hi. apply list_lookup_singleton_Some in Hi as [Hi [= <- <-]]. assert (i = S n) as -> by lia.
  split.
  - rewrite last_lookup, Hl. cbn [pred]. destruct (lookup_lt_is_Some_2 gs n) as [[g0 v0] H0]; [lia|].
    rewrite H0. cbn. destruct (Hg _ _ _ H0) as [-> _]. apply u32_succ.
  - rewrite Hm. apply list_eq. intros k. unfold newest. rewrite list_lookup_fmap. destruct (ws !! k) as [h|] eqn:E.
    + cbn [fmap option_fmap option_map]. rewrite (Hh _ _ E). symmetry. apply lookup_replicate_2. rewrite <- Hw. by eapply lookup_lt_Some.
    + cbn [fmap option_fmap option_map]. symmetry. apply lookup_replicate_None. rewrite <- Hw. by apply lookup_ge_None.
Qed.

Lemma length_bump gs ws : length (bump gs ws) = S (length gs).
Proof. unfold bump. rewrite length_app. cbn. lia. Qed.

Lemma half_double m : ((2 * m) / 2 = m /\ S (2 * m) / 2 = m /\ S (S (2 * m)) / 2 = S m)%nat.
Proof.
  split_and!.
  - rewrite Nat.mul_comm. by apply Nat.div_mul.
  - replace (S (2 * m)) with (1 + m * 2)%nat by lia. by rewrite Nat.div_add.
  - replace (S (S (2 * m))) with (0 + S m * 2)%nat by lia. by rewrite Nat.div_add.
Qed.

(** The writer's steps leave what the reader knows. *)
Lemma reader_ok_writer gs ws w r sg sv b gs' ws' w' l :
  (length gs <= length gs')%nat ->
  reader_ok (mkSeq gs ws w r sg sv b) -> reader_ok (mkSeq gs' ws' w' r sg sv (b ++ l)).
Proof.
  intros Hl [Hs Hr]. split; [done|]. cbn in *. destruct r as [|g n c|g n c]; [done| |];
    destruct Hr as (H1 & H2 & H3 & H4); (split_and!; [lia | done | by apply copy_from_grow | done]).
Qed.

Lemma inv_write_begin gs ws r sg sv b info :
  seq_inv (mkSeq gs ws WIdle r sg sv b) ->
  seq_inv (mkSeq (bump gs ws) ws (WWriting (info_words info) 0) r sg sv (b ++ [info_words info])).
Proof.
  intros [[Hw1 Hw2] Hg (m & Hb & Hlg & Hlb & Hlw) Hr]. cbn in Hw1, Hw2, Hb, Hlg, Hlb, Hlw.
  destruct (half_double m) as (_ & Hm & _). constructor.
  - split; [done|]. intros k h Hh. by apply word_ok_grow, Hw2.
  - unfold gens_ok. cbn [gens]. by apply (bump_ok gs ws m (2 * m)).
  - exists m. cbn [wpc begun gens words]. rewrite length_bump, Hlg, length_app, Hlb. split.
    + apply Forall_app. split; [done|]. by repeat constructor.
    + split_and!; [lia | cbn; lia | rewrite lookup_app_r, Hlb by lia; by rewrite Nat.sub_diag |].
      intros k h Hh. rewrite decide_False by lia. by eapply Hlw.
  - eapply reader_ok_writer; [|exact Hr]. rewrite length_bump. lia.
Qed.

Lemma inv_write_word gs ws r sg sv b new k w :
  new !! k = Some w -> seq_inv (mkSeq gs ws (WWriting new k) r sg sv b) ->
  seq_inv (mkSeq gs (alter (.++ [w]) k ws) (WWriting new (S k)) r sg sv b).
Proof.
  intros Hk [[Hw1 Hw2] Hg (m & Hb & Hlg & Hlb & Hn & Hlw) Hr]. cbn in Hw1, Hw2, Hb, Hlg, Hlb, Hn, Hlw.
  constructor; [|exact Hg| |].
  - split; cbn [words begun]; [by rewrite length_alter|]. intros j h Hj. destruct (decide (k = j)) as [->|Hne].
    + rewrite list_lookup_alter_eq in Hj. apply fmap_Some in Hj as (h0 & H0 & ->).
      pose proof (Hlw _ _ H0) as Hl0. rewrite decide_False in Hl0 by lia.
      intros t x [Ht|[Hge Ht]]%lookup_app_Some; [by apply (Hw2 _ _ H0)|].
      apply list_lookup_singleton_Some in Ht as [Ht <-]. assert (t = S m) as -> by lia. by exists new.
    + rewrite list_lookup_alter_ne in Hj by done. by apply Hw2.
  - exists m. cbn [wpc begun gens words]. split_and!; try done. intros j h Hj. destruct (decide (k = j)) as [->|Hne].
    + rewrite list_lookup_alter_eq in Hj. apply fmap_Some in Hj as (h0 & H0 & ->).
      pose proof (Hlw _ _ H0) as Hl0. rewrite decide_False in Hl0 by lia. rewrite decide_True by lia.
      rewrite length_app, Hl0. cbn. lia.
    + rewrite list_lookup_alter_ne in Hj by done. rewrite (Hlw _ _ Hj). repeat case_decide; lia.
  - pose proof (reader_ok_writer gs ws (WWriting new k) r sg sv b gs (alter (.++ [w]) k ws) (WWriting new (S k)) []
                  ltac:(lia) Hr) as H. by rewrite app_nil_r in H.
Qed.

Lemma inv_write_end gs ws r sg sv b new :
  seq_inv (mkSeq gs ws (WWriting new info_size) r sg sv b) -> seq_inv (mkSeq (bump gs ws) ws WIdle r sg sv b).
Proof.
  intros [[Hw1 Hw2] Hg (m & Hb & Hlg & Hlb & Hn & Hlw) Hr]. cbn in Hw1, Hw2, Hb, Hlg, Hlb, Hn, Hlw.
  destruct (half_double m) as (_ & _ & Hm).
  assert (Hfull : forall k h, ws !! k = Some h -> length h = S (S m)).
  { intros k h Hk. rewrite (Hlw _ _ Hk). apply decide_True. rewrite <- Hw1. by eapply lookup_lt_Some. }
  constructor; [by split| | |].
  - unfold gens_ok. cbn [gens]. apply (bump_ok gs ws (S m) (S (2 * m))); done.
  - exists (S m). cbn [wpc begun gens words]. rewrite length_bump, Hlg. split_and!; [done | lia | done | done].
  - pose proof (reader_ok_writer gs ws (WWriting new info_size) r sg sv b (bump gs ws) ws WIdle []
                  ltac:(rewrite length_bump; lia) Hr) as H. by rewrite app_nil_r in H.
Qed.

Lemma view_join_ge n sv v :
  length sv = info_size -> v = replicate info_size n ->
  length (view_join sv v) = info_size /\ Forall (fun p => (n <= p)%nat) (view_join sv v).
Proof.
  intros Hl ->. unfold view_join. rewrite length_zip_with, length_replicate, Hl. split; [done|].
  apply Forall_lookup. intros k p Hk. apply lookup_zip_with_Some in Hk as (a & c & -> & _ & Hc).
  apply lookup_replicate in Hc as [-> _]. lia.
Qed.

Lemma view_le_ge n sv sv' :
  view_le sv sv' -> Forall (fun p => (n <= p)%nat) sv -> Forall (fun p => (n <= p)%nat) sv'.
Proof. unfold view_le. induction 1; intros Hf; [done|]. apply Forall_cons in Hf as [? ?]. constructor; [lia | auto]. Qed.

Lemma view_le_length sv sv' : view_le sv sv' -> length sv' = length sv.
Proof. intros H. symmetry. by eapply Forall2_length. Qed.

Lemma seq_inv_step s s' : seq_inv s -> seq_step s s' -> seq_inv s'.
Proof.
  intros Hi Hs. destruct Hs as [| | |gs ws w sg sv b t g v Ht Hle|gs ws w sg sv b g n c h p t x Hh Hp Hle Hx
    |gs ws w sg sv b g n c t g' v Hc Ht Hle|gs ws w sg sv b g n c|gs ws w r sg sv b sg' sv' Hsg Hsv].
  - by apply inv_write_begin.
  - by apply inv_write_word.
  - by eapply inv_write_end.
  - destruct Hi as [Hw Hg Hwr [Hs Hr]]. destruct (Hg _ _ _ Ht) as [Eg Ev]. cbn in Hs.
    destruct (view_join_ge _ sv v Hs Ev) as [Hl Hf]. constructor; try done. split; [done|]. cbn.
    split_and!; [by eapply lookup_lt_Some | done | | done]. intros k x Hk. by rewrite lookup_nil in Hk.
  - destruct Hi as [Hw Hg Hwr [Hs (H1 & H2 & H3 & H4)]]. cbn in Hs, H1, H2, H3, H4. constructor; try done.
    split; [by cbn; rewrite length_insert|]. cbn.
    assert (Hn : (n / 2 <= t)%nat) by (rewrite Forall_lookup in H4; specialize (H4 _ _ Hp); cbn in H4; lia).
    split_and!; [done | done | |by apply Forall_insert].
    intros k y [Hk|[Hge Hk]]%lookup_app_Some; [by apply H3|].
    apply list_lookup_singleton_Some in Hk as [Hk <-]. assert (k = length c) as -> by lia.
    destruct (proj2 Hw _ _ Hh _ _ Hx) as (i & Hi & Hix). by exists t, i.
  - destruct Hi as [Hw Hg Hwr [Hs (H1 & H2 & H3 & H4)]]. cbn in Hs, H1, H2, H3, H4. destruct (Hg _ _ _ Ht) as [_ Ev].
    destruct (view_join_ge _ sv v Hs Ev) as [Hl _]. constructor; try done. split; [done|]. cbn. by destruct (g =? g').
  - destruct Hi as [Hw Hg Hwr [Hs Hr]]. constructor; try done.
  - destruct Hi as [Hw Hg Hwr [Hs Hr]]. cbn in Hs, Hr. pose proof (view_le_length _ _ Hsv) as Hl.
    constructor; try done. split; cbn; [by rewrite Hl|]. destruct r; [done| |done].
    destruct Hr as (H1 & H2 & H3 & H4). split_and!; [done | done | done | by eapply view_le_ge].
Qed.

Lemma seq_inv_reachable s : seq_reachable s -> seq_inv s.
Proof.
  apply invariant_reachable; [|intros; by eapply seq_inv_step].
  intros ? ->. constructor.
  - split; [done|]. intros k h Hk t x Hx. cbn [words] in Hk. rewrite list_lookup_fmap in Hk.
    apply fmap_Some in Hk as (w & Hk & ->). apply list_lookup_singleton_Some in Hx as [-> <-].
    exists initial_words. by split.
  - intros n g v Hn. apply list_lookup_singleton_Some in Hn as [-> [= <- <-]]. by split.
  - exists 0%nat. split; [by repeat constructor|]. cbn [wpc words begun gens]. split_and!; [done | done |].
    intros k h Hk. rewrite list_lookup_fmap in Hk. by apply fmap_Some in Hk as (w & _ & ->).
  - by split.
Qed.

(** C17. The copy getLastRuntimeInfo returns, under the memory orders of the
    code: every word of it was stored by some refresh, never by one older than
    the generation the reader accepted (g / 2 refreshes were complete at
    generation g), and if no later refresh has begun the copy is exactly what
    that refresh stored; as long as the 32-bit generation has not wrapped.  The
    words may be of different refreshes when one is under way. *)
Theorem accepted_words_not_older (s : seq_state) (g : Z) (n : nat) (copy : list Z) :
  seq_reachable s -> rpc s = RDone g n copy -> Z.of_nat (length (gens s)) <= 2 ^ 32 ->
  length copy = info_size
  /\ (forall k x, copy !! k = Some x ->
        exists j i, (Z.to_nat (g / 2) <= j)%nat /\ begun s !! j = Some i /\ i !! k = Some x)
  /\ ((length (begun s) <= S (Z.to_nat (g / 2)))%nat -> begun s !! Z.to_nat (g / 2) = Some copy).
Proof.
  intros Hr Hd Hb. destruct (seq_inv_reachable s Hr) as [_ _ (m & Hall & _) [_ Hrd]].
  rewrite Hd in Hrd. destruct Hrd as (H1 & Eg & H3 & H4).
  assert (Hn : Z.to_nat (g / 2) = (n / 2)%nat).
  { rewrite Eg, u32_small by (unfold is_u32; lia). rewrite <- (Nat2Z.id (n / 2)), Nat2Z.inj_div. done. }
  rewrite Hn. split_and!; [done | done |]. intros Hlast.
  assert (Hsome : is_Some (begun s !! (n / 2)%nat)).
  { destruct (lookup_lt_is_Some_2 copy 0) as [x Hx]; [rewrite H4; unfold info_size; lia|].
    destruct (H3 _ _ Hx) as (j & i & Hj & Hi & _). apply lookup_lt_is_Some. apply lookup_lt_Some in Hi. lia. }
  destruct Hsome as [i Hi]. rewrite Hi. f_equal. symmetry. apply list_eq_same_length with info_size.
  - rewrite Forall_lookup in Hall. by eapply Hall.
  - done.
  - intros k x y Hk Hx Hy. destruct (H3 _ _ Hx) as (j & i' & Hj & Hi' & Hx').
    assert (j = (n / 2)%nat) as -> by (apply lookup_lt_Some in Hi'; lia). congruence.
Qed.

(** ** What the memory orders do not give *)

Definition torn_info : RuntimeInfo := mkRuntimeInfo true true true false 1 1 1 1 0 1.

(** The memory when a refresh has announced itself and stored its first word. *)
Definition half_written (r : reader_pc) (sv : view) : seq_state :=
  mkSeq [(0, replicate info_size 0%nat); (1, replicate info_size 0%nat)]
        (alter (.++ [1]) 0%nat ((fun w => [w]) <$> initial_words)) (WWriting (info_words torn_info) 1) r 0 sv
        [initial_words; info_words torn_info].

Definition torn_copy : list Z := <[0%nat := 1]> initial_words.

Lemma torn_not_begun : ~ torn_copy ∈ [initial_words; info_words torn_info].
Proof. intros [E|[E|?%not_elem_of_nil]%elem_of_cons]%elem_of_cons; [vm_compute in E; discriminate E.. | done]. Qed.

Lemma half_written_reachable : seq_reachable (half_written RIdle (replicate info_size 0%nat)).
Proof.
  eexists. split; [reflexivity|].
  eapply rtc_l; [apply (step_write_begin _ _ _ _ _ _ torn_info)|].
  eapply rtc_l; [by apply (step_write_word _ _ _ _ _ _ _ 0 1)|].
  apply rtc_refl.
Qed.

(** The release of the first fetch_add does not hold back the stores that follow
    it, and the acquire of the second load does not hold back the reads that
    precede it: a reader that takes the old generation both times, which the
    loads may, can have copied a new word.  So the copy accepted under an even
    generation may be torn as well. *)
Theorem even_generation_copy_torn :
  exists s n copy, seq_reachable s /\ rpc s = RDone 0 n copy /\ ~ copy ∈ begun s.
Proof.
  exists (half_written (RDone 0 0 torn_copy) (<[0%nat := 1%nat]> (replicate info_size 0%nat))), 0%nat, torn_copy.
  split; [|split; [done | apply torn_not_begun]].
  destruct half_written_reachable as (s0 & H0 & Hr). exists s0. split; [done|]. etrans; [exact Hr|].
  eapply rtc_l; [apply (step_read_load _ _ _ _ _ _ 0); [reflexivity | lia]|].
  eapply rtc_l; [by apply (step_read_word _ _ _ _ _ _ _ _ _ [0; 1] 0 1 1); [reflexivity | reflexivity | lia |]|].
  do 9 (eapply rtc_l; [eapply (step_read_word _ _ _ _ _ _ _ _ _ _ 0 0 0); [reflexivity | reflexivity | lia | reflexivity]|]).
  eapply rtc_l; [eapply (step_read_test _ _ _ _ _ _ _ _ _ 0); [reflexivity | reflexivity | lia]|].
  apply rtc_refl.
Qed.

(** Nor does getLastRuntimeInfo reject an odd generation, which no memory order
    could repair. *)
Theorem odd_generation_copy_accepted :
  exists s g n copy, seq_reachable s /\ rpc s = RDone g n copy /\ Z.even g = false /\ ~ copy ∈ begun s.
Proof.
  eexists _, 1, 1%nat, torn_copy.
  destruct half_written_reachable as (s0 & H0 & Hr). split; [exists s0; split; [done|]; etrans; [exact Hr|] |].
  - eapply rtc_l; [apply (step_read_load _ _ _ _ _ _ 1); [reflexivity | lia]|].
    eapply rtc_l; [by apply (step_read_word _ _ _ _ _ _ _ _ _ [0; 1] 0 1 1); [reflexivity | reflexivity | lia |]|].
    do 9 (eapply rtc_l; [eapply (step_read_word _ _ _ _ _ _ _ _ _ _ 0 0 0); [reflexivity | reflexivity | lia | reflexivity]|]).
    eapply rtc_l; [eapply (step_read_test _ _ _ _ _ _ _ _ _ 1); [reflexivity | reflexivity | lia]|].
    apply rtc_refl.
  - split; [done|]. split; [done | apply torn_not_begun].
Qed.

(** ** Witness: a reader alone after one complete refresh *)

Definition one_refresh (r : reader_pc) (sg : nat) (sv : view) : seq_state :=
  mkSeq [(0, replicate info_size 0%nat); (1, replicate info_size 0%nat); (2, replicate info_size 1%nat)]
        (zip_with (fun a b => [a; b]) initial_words (info_words torn_info)) WIdle r sg sv
        [initial_words; info_words torn_info].

Lemma one_refresh_reachable : seq_reachable (one_refresh RIdle 0 (replicate info_size 0%nat)).
Proof.
  eexists. split; [reflexivity|].
  eapply rtc_l; [apply (step_write_begin _ _ _ _ _ _ torn_info)|].
  do 10 (eapply rtc_l; [by eapply step_write_word|]).
  eapply rtc_l; [apply step_write_end|].
  apply rtc_refl.
Qed.

Lemma accepted_words_not_older_witness :
  exists s, seq_reachable s /\ rpc s = RDone 2 2 (info_words torn_info) /\ begun s !! 1%nat = Some (info_words torn_info).
Proof.
  assert (Hr : seq_reachable (one_refresh (RDone 2 2 (info_words torn_info)) 2 (replicate info_size 1%nat))).
  { destruct one_refresh_reachable as (s0 & H0 & Hr). exists s0. split; [exact H0|]. etrans; [exact Hr|].
    eapply rtc_l; [apply (step_read_load _ _ _ _ _ _ 2); [reflexivity | lia]|].
    do 10 (eapply rtc_l; [eapply (step_read_word _ _ _ _ _ _ _ _ _ _ 1 1); [reflexivity | reflexivity | lia | reflexivity]|]).
    eapply rtc_l; [eapply (step_read_test _ _ _ _ _ _ _ _ _ 2); [reflexivity | reflexivity | lia]|].
    apply rtc_refl. }
  eexists. split; [exact Hr|]. split; [reflexivity|].
  destruct (accepted_words_not_older _ 2 2 (info_words torn_info) Hr) as (_ & _ & H); [reflexivity | cbn; lia | exact (H ltac:(vm_compute; lia))].
Defined.
