(* ===== verification/StreamParser.v ===== *)
(** * Interface: an incremental parser of a packet stream

    What a buffered packet loop promises to whoever feeds it the bytes of a
    TCP stream in arbitrary pieces.  An instance gives the buffer, the parse
    pass and the packets it understands, with three laws: feeding appends,
    a strict prefix of a packet changes nothing, and a complete packet at the
    front is reported and consumed.  [stream_chunks] is what a client gets:
    however the stream is cut, the packets are reported once each, in order,
    and nothing is left over. *)

From S2P Require Import Prelude Bytes.

Class StreamParser (St Pkt Ev : Type) := {
  sp_view : St -> list byte;             (* the unprocessed bytes *)
  sp_wf : St -> Prop;
  sp_feed : list byte -> St -> St;
  sp_parse : St -> option (St * list Ev);
  sp_enc : Pkt -> list byte;
  sp_ok : Pkt -> Prop;
  sp_ev : Pkt -> list Ev;
}.

Definition strict_prefix {A} (l1 l2 : list A) : Prop :=
  exists l3, l3 <> [] /\ l2 = l1 ++ l3.

Class StreamParserLaws (St Pkt Ev : Type) `{StreamParser St Pkt Ev} := {
  sp_feed_law bs s :
    sp_wf s -> sp_wf (sp_feed bs s) /\ sp_view (sp_feed bs s) = sp_view s ++ bs;
  sp_wait_law p s :
    sp_ok p -> sp_wf s -> strict_prefix (sp_view s) (sp_enc p) -> sp_parse s = Some (s, []);
  sp_done_law s :
    sp_wf s -> sp_view s = [] -> sp_parse s = Some (s, []);
  sp_step_law p rest s :
    sp_ok p -> sp_wf s -> sp_view s = sp_enc p ++ rest ->
    exists s', sp_wf s' /\ sp_view s' = rest
      /\ sp_parse s = (fun r => (r.1, sp_ev p ++ r.2)) <$> sp_parse s';
  sp_enc_nonempty p : sp_ok p -> sp_enc p <> [];
}.

Section stream.
Context {St Pkt Ev : Type} `{HL : StreamParserLaws St Pkt Ev}.

(** Feed the chunks one after another, parsing after each. *)
Fixpoint feed_chunks (chunks : list (list byte)) (s : St) : option (St * list Ev) :=
  match chunks with
  | [] => Some (s, [])
  | c :: chunks =>
      match sp_parse (sp_feed c s) with
      | None => None
      | Some (s1, e1) =>
          match feed_chunks chunks s1 with
          | None => None
          | Some (s2, e2) => Some (s2, e1 ++ e2)
          end
      end
  end.

Definition encode_stream (ps : list Pkt) : list byte := concat (sp_enc <$> ps).
Definition stream_events (ps : list Pkt) : list Ev := concat (sp_ev <$> ps).

Lemma app_split_cases {A} (l1 l2 l3 l4 : list A) :
  l1 ++ l2 = l3 ++ l4 ->
  (exists l, l3 = l1 ++ l /\ l <> []) \/ (exists l, l1 = l3 ++ l /\ l4 = l ++ l2).
Proof.
  intros Heq. apply app_eq_inv in Heq as [(l & -> & ->)|(l & -> & ->)].
  - right. by exists l.
  - destruct l as [|x l].
    + right. exists []. by rewrite !app_nil_r.
    + left. by exists (x :: l).
Qed.

(** The bytes [v] hold no complete packet of the stream [ps] they begin. *)
Definition waits_for (ps : list Pkt) (v : list byte) : Prop :=
  match ps with
  | [] => v = []
  | p :: _ => strict_prefix v (sp_enc p)
  end.

(** One pass over a buffer holding a prefix of the encoding of [ps] reports
    the packets that are complete and keeps the rest. *)
Lemma parse_waits ps s rest :
  Forall sp_ok ps -> sp_wf s -> sp_view s ++ rest = encode_stream ps ->
  exists ps1 ps2 s', ps = ps1 ++ ps2 /\ sp_parse s = Some (s', stream_events ps1)
    /\ sp_wf s' /\ sp_view s' ++ rest = encode_stream ps2 /\ waits_for ps2 (sp_view s').
Proof.
  revert s. induction ps as [|p ps IH]; intros s Hok Hwf Hv.
  - unfold encode_stream in Hv. simpl in Hv. apply app_eq_nil in Hv as [Hv ->].
    exists [], [], s. split; [done|]. split; [by apply sp_done_law|].
    by rewrite Hv.
  - inversion Hok as [|? ? Hp Hps]; subst. unfold encode_stream in Hv. csimpl in Hv.
    fold (encode_stream ps) in Hv.
    destruct (app_split_cases _ _ _ _ Hv) as [(l & El & Hl)|(l & El & Er)].
    + assert (Hpre : strict_prefix (sp_view s) (sp_enc p)) by (by exists l).
      exists [], (p :: ps), s. split; [done|]. split; [by apply (sp_wait_law p)|]. by split_and!.
    + destruct (sp_step_law p l s Hp Hwf El) as (s1 & Hwf1 & Hv1 & Hparse).
      destruct (IH s1 Hps Hwf1) as (ps1 & ps2 & s2 & -> & Hp2 & Hwf2 & Hv2 & Hend).
      { by rewrite Hv1, Er. }
      exists (p :: ps1), ps2, s2. split; [done|]. rewrite Hparse, Hp2. simpl. done.
Qed.

(** What waits is not a whole packet and more. *)
Lemma waits_for_rest ps v ps1 l : waits_for ps v -> v = encode_stream ps1 ++ l -> ps1 `prefix_of` ps -> ps1 = [].
Proof.
  intros Hw E [ps2 ->]. destruct ps1 as [|p ps1]; [done|]. cbn in Hw. destruct Hw as (l3 & Hne & E2). exfalso.
  rewrite E in E2. unfold encode_stream in E2. csimpl in E2. apply (f_equal length) in E2. rewrite !length_app in E2.
  destruct l3; [done | cbn in E2; lia].
Qed.

Lemma parse_prefix ps s rest :
  Forall sp_ok ps -> sp_wf s -> sp_view s ++ rest = encode_stream ps ->
  exists ps1 ps2 s', ps = ps1 ++ ps2 /\ sp_parse s = Some (s', stream_events ps1)
    /\ sp_wf s' /\ sp_view s' ++ rest = encode_stream ps2
    /\ (rest = [] -> ps2 = []).
Proof.
  intros Hok Hwf Hv. destruct (parse_waits ps s rest Hok Hwf Hv) as (ps1 & ps2 & s' & E & Hp & Hwf' & Hv' & Hw).
  exists ps1, ps2, s'. split_and!; try done. intros ->. rewrite app_nil_r in Hv'.
  apply (waits_for_rest ps2 (sp_view s') ps2 []); [done | by rewrite app_nil_r | done].
Qed.

Lemma feed_chunks_prefix ps chunks s :
  Forall sp_ok ps -> sp_wf s -> sp_view s ++ concat chunks = encode_stream ps ->
  (chunks = [] -> sp_view s = []) ->
  exists s', feed_chunks chunks s = Some (s', stream_events ps) /\ sp_wf s' /\ sp_view s' = [].
Proof.
  revert ps s. induction chunks as [|c chunks IH]; intros ps s Hok Hwf Hv Hlast; simpl.
  - rewrite Hlast in Hv by done. simpl in Hv. exists s. split; [|auto].
    destruct ps as [|p ps]; [done|]. exfalso. unfold encode_stream in Hv. csimpl in Hv.
    symmetry in Hv. apply app_eq_nil in Hv as [He _].
    inversion Hok; subst. by eapply sp_enc_nonempty.
  - destruct (sp_feed_law c s Hwf) as [Hwf1 Hv1]. csimpl in Hv.
    destruct (parse_prefix ps (sp_feed c s) (concat chunks) Hok Hwf1)
      as (ps1 & ps2 & s2 & -> & Hp2 & Hwf2 & Hv2 & Hend).
    { by rewrite Hv1, <- app_assoc. }
    rewrite Hp2. apply Forall_app in Hok as [_ Hok2].
    destruct (IH ps2 s2 Hok2 Hwf2 Hv2) as (s3 & Hf & Hwf3 & Hv3).
    { intros ->. simpl in *. rewrite app_nil_r in Hv2. by rewrite Hv2, Hend. }
    rewrite Hf. exists s3. split; [|done].
    unfold stream_events. by rewrite fmap_app, concat_app.
Qed.

(** Encodings are prefix-free: a packet that were a strict prefix of another
    would have to be both reported and waited for. *)
Lemma enc_prefix_free p q r1 r2 s0 :
  sp_wf s0 -> sp_view s0 = [] -> sp_ok p -> sp_ok q ->
  sp_enc p ++ r1 = sp_enc q ++ r2 -> sp_enc p = sp_enc q /\ r1 = r2.
Proof.
  intros Hwf Hv0 Hp Hq He.
  assert (Hno : forall p q l, sp_ok p -> sp_ok q -> l <> [] -> sp_enc q <> sp_enc p ++ l).
  { clear p q r1 r2 Hp Hq He. intros p q l Hp Hq Hl E.
    destruct (sp_feed_law (sp_enc p) s0 Hwf) as [Hw1 Hv1]. rewrite Hv0 in Hv1. cbn in Hv1.
    destruct (sp_step_law p [] (sp_feed (sp_enc p) s0) Hp Hw1) as (s' & Hw' & Hv' & Hpar);
      [by rewrite Hv1, app_nil_r|].
    rewrite (sp_done_law s' Hw' Hv'), (sp_wait_law q _ Hq Hw1) in Hpar by (exists l; by rewrite Hv1).
    injection Hpar as Hs _. rewrite Hs, Hv' in Hv1. by apply (sp_enc_nonempty p Hp). }
  destruct (app_split_cases _ _ _ _ He) as [(l & El & Hl)|(l & El & Er)]; [by destruct (Hno p q l Hp Hq Hl)|].
  destruct l as [|x l]; [by rewrite app_nil_r in El|]. by destruct (Hno q p (x :: l) Hq Hp).
Qed.

(** A stream of whole packets in front of another is the encoding of its first
    packets. *)
Lemma encode_stream_prefix ps qs r s0 :
  sp_wf s0 -> sp_view s0 = [] -> Forall sp_ok ps -> Forall sp_ok qs ->
  encode_stream ps ++ r = encode_stream qs ->
  exists qs1 qs2, qs = qs1 ++ qs2 /\ encode_stream qs1 = encode_stream ps /\ r = encode_stream qs2.
Proof.
  intros Hwf Hv0 Hps. revert qs. induction Hps as [|p ps Hp Hps IH]; intros qs Hqs He.
  - by exists [], qs.
  - unfold encode_stream in He at 1. csimpl in He. fold (encode_stream ps) in He.
    rewrite <- app_assoc in He. destruct qs as [|q qs].
    + unfold encode_stream in He at 2. cbn in He. apply app_eq_nil in He as [He _].
      by destruct (sp_enc_nonempty p Hp).
    + apply Forall_cons in Hqs as [Hq Hqs]. unfold encode_stream in He at 2. csimpl in He.
      fold (encode_stream qs) in He.
      destruct (enc_prefix_free p q _ _ s0 Hwf Hv0 Hp Hq He) as [E1 E2].
      destruct (IH qs Hqs E2) as (qs1 & qs2 & -> & Eq & ->). exists (q :: qs1), qs2.
      split_and!; [done | | done]. unfold encode_stream in *. csimpl. by rewrite Eq, E1.
Qed.

(** Where the part of a stream that is complete ends. *)
Lemma waits_unique ps ps1 ps2 qs1 qs2 v w :
  ps = ps1 ++ ps2 -> ps = qs1 ++ qs2 -> waits_for ps2 v -> waits_for qs2 w ->
  encode_stream ps1 ++ v = encode_stream qs1 ++ w -> ps1 = qs1 /\ v = w.
Proof.
  intros E1 E2 Hv Hw He.
  assert (Hlt : forall ps1 ps2 qs1 qs2 v w, ps1 ++ ps2 = qs1 ++ qs2 -> waits_for ps2 v ->
            encode_stream ps1 ++ v = encode_stream qs1 ++ w -> (length ps1 <= length qs1)%nat -> ps1 = qs1).
  { clear. intros ps1 ps2 qs1 qs2 v w E Hv He Hl. assert (Hp : ps1 `prefix_of` qs1).
    { exists (drop (length ps1) qs1). rewrite <- (take_app_length ps1 ps2), E at 1. rewrite take_app_le by done.
      by rewrite take_drop. }
    destruct Hp as [l ->]. rewrite <- app_assoc in E. apply app_inv_head in E as ->.
    unfold encode_stream in He. rewrite fmap_app, concat_app, <- app_assoc in He. apply app_inv_head in He.
    rewrite (waits_for_rest (l ++ qs2) v l w Hv He); [by rewrite app_nil_r | by exists qs2]. }
  assert (Eq : ps1 = qs1).
  { destruct (le_ge_dec (length ps1) (length qs1)).
    - by eapply Hlt; [by rewrite <- E1 | | |].
    - symmetry. by eapply Hlt; [by rewrite <- E2 | | |]. }
  subst qs1. split; [done|]. by apply app_inv_head in He.
Qed.

(** A piece of a stream: nothing, or the beginning of a packet. *)
Definition sp_partial (l : list byte) : Prop := l = [] \/ exists p, sp_ok p /\ strict_prefix l (sp_enc p).

Lemma partial_waits qs v r s0 :
  sp_wf s0 -> sp_view s0 = [] -> Forall sp_ok qs -> sp_partial v -> v ++ r = encode_stream qs -> waits_for qs v.
Proof.
  intros Hwf Hv0 Hok Hpar He. destruct qs as [|q qs]; [by apply app_eq_nil in He as [-> _]|].
  apply Forall_cons in Hok as [Hq Hok]. unfold encode_stream in He. csimpl in He.
  destruct (app_split_cases _ _ _ _ He) as [(l & El & Hl)|(l & El & Er)]; [by exists l|]. exfalso.
  destruct Hpar as [->|(p & Hp & l3 & Hl3 & E3)].
  - symmetry in El. apply app_eq_nil in El as [El _]. by apply (sp_enc_nonempty q Hq).
  - rewrite El, <- app_assoc in E3.
    destruct (enc_prefix_free p q [] (l ++ l3) s0 Hwf Hv0 Hp Hq) as [_ E]; [by rewrite app_nil_r|].
    symmetry in E. by apply app_eq_nil in E as [_ E].
Qed.

(** Feeding any part of a stream reports the packets it completes. *)
Lemma feed_waits ps chunks s rest :
  Forall sp_ok ps -> sp_wf s -> waits_for ps (sp_view s) -> sp_view s ++ concat chunks ++ rest = encode_stream ps ->
  exists ps1 ps2 s', ps = ps1 ++ ps2 /\ feed_chunks chunks s = Some (s', stream_events ps1) /\ sp_wf s'
    /\ sp_view s' ++ rest = encode_stream ps2 /\ waits_for ps2 (sp_view s').
Proof.
  revert ps s. induction chunks as [|c chunks IH]; intros ps s Hok Hwf Hw Hv; cbn [feed_chunks].
  - by exists [], ps, s.
  - destruct (sp_feed_law c s Hwf) as [Hwf1 Hv1]. csimpl in Hv.
    destruct (parse_waits ps (sp_feed c s) (concat chunks ++ rest) Hok Hwf1)
      as (ps1 & ps2 & s2 & -> & -> & Hwf2 & Hv2 & Hw2).
    { rewrite Hv1, <- app_assoc. by rewrite <- app_assoc in Hv. }
    apply Forall_app in Hok as [_ Hok2].
    destruct (IH ps2 s2 Hok2 Hwf2 Hw2 Hv2) as (ps3 & ps4 & s3 & -> & -> & Hwf3 & Hv3 & Hw3).
    exists (ps1 ++ ps3), ps4, s3. split_and!; try done; [by rewrite app_assoc|].
    unfold stream_events. by rewrite fmap_app, concat_app.
Qed.

(** The promise for a part of the stream that begins and ends anywhere. *)
Lemma stream_parts ps chunks s l s0 :
  sp_wf s0 -> sp_view s0 = [] -> Forall sp_ok ps -> sp_wf s -> sp_partial (sp_view s) -> sp_partial l ->
  sp_view s ++ concat chunks = encode_stream ps ++ l ->
  exists s', feed_chunks chunks s = Some (s', stream_events ps) /\ sp_wf s' /\ sp_view s' = l.
Proof.
  intros Hwf0 Hv0 Hok Hwf Hpar Hl Hv.
  assert (Hext : exists tl rest, Forall sp_ok tl /\ l ++ rest = encode_stream tl /\ (length tl <= 1)%nat /\ (rest = [] -> tl = [])).
  { destruct Hl as [->|(p & Hp & l3 & Hl3 & E3)]; [exists [], []; split_and!; [constructor | done | cbn; lia | done]|].
    exists [p], l3. split_and!; [by constructor | unfold encode_stream; cbn; by rewrite app_nil_r | done | done]. }
  destruct Hext as (tl & rest & Htl & El & Hlen & Hrest).
  assert (Hok' : Forall sp_ok (ps ++ tl)) by (by apply Forall_app).
  assert (Hv' : sp_view s ++ concat chunks ++ rest = encode_stream (ps ++ tl)).
  { rewrite app_assoc, Hv, <- app_assoc, El. unfold encode_stream. by rewrite fmap_app, concat_app. }
  destruct (feed_waits (ps ++ tl) chunks s rest Hok' Hwf) as (ps1 & ps2 & s' & Eqs & Hf & Hwf' & Hv2 & Hw2);
    [by apply (partial_waits _ _ (concat chunks ++ rest) s0) | done |].
  assert (Hps2 : exists qs, ps = ps1 ++ qs /\ ps2 = qs ++ tl).
  { destruct tl as [|p [|]]; [|  |cbn in Hlen; lia].
    - exists ps2. by rewrite app_nil_r in *.
    - destruct ps2 as [|q ps2 _] using rev_ind.
      + exfalso. unfold encode_stream in Hv2. cbn in Hv2. apply app_eq_nil in Hv2 as [_ Hr]. by specialize (Hrest Hr).
      + rewrite app_assoc in Eqs. apply app_inj_tail in Eqs as [-> ->]. by exists ps2. }
  destruct Hps2 as (qs & -> & ->).
  assert (Evw : sp_view s' = encode_stream qs ++ l).
  { apply (app_inv_tail rest). rewrite Hv2, <- app_assoc, El. unfold encode_stream. by rewrite fmap_app, concat_app. }
  assert (qs = []) as -> by (apply (waits_for_rest _ _ qs l Hw2 Evw); by exists tl).
  exists s'. rewrite app_nil_r. by split_and!.
Qed.

(** The promise: the stream may be cut anywhere. *)
Lemma stream_chunks ps chunks s :
  Forall sp_ok ps -> sp_wf s -> sp_view s = [] -> concat chunks = encode_stream ps ->
  exists s', feed_chunks chunks s = Some (s', stream_events ps) /\ sp_wf s' /\ sp_view s' = [].
Proof. intros Hok Hwf Hv Hc. apply feed_chunks_prefix; [done | done | by rewrite Hv | done]. Qed.
End stream.
