(* ===== verification/IoThread.v ===== *)
(** * The receive thread (src/common/TcpVCIoThread.h, TcpVCIoThread.cpp)

    [ReadBuffer] with its read offset and compaction, the packet loop of
    readFromConnection, the draining of the socket before it, and one
    iteration of run().  A read outside the unprocessed bytes is [POutOfBounds]
    and is proved never to happen. *)

From S2P Require Import Prelude Bytes StreamParser VcProtocol Socket TcpConnection.

(** ** struct ReadBuffer *)

Record ReadBuffer : Type := mkReadBuffer {
  data : list byte;
  readOffset : nat;
}.

Definition emptyReadBuffer : ReadBuffer := mkReadBuffer [] 0.

Definition available (b : ReadBuffer) : nat := length (data b) - readOffset b.

(** The bytes from [begin()] to the end of [data]. *)
Definition begin (b : ReadBuffer) : list byte := drop (readOffset b) (data b).

Definition consume (n : nat) (b : ReadBuffer) : ReadBuffer :=
  let off := (readOffset b + n)%nat in
  if (4096 <? off)%nat && (length (data b) / 2 <=? off)%nat
  then mkReadBuffer (drop off (data b)) 0
  else mkReadBuffer (data b) off.

(** [buf.data.insert(buf.data.end(), temp, temp + n)] *)
Definition append (bs : list byte) (b : ReadBuffer) : ReadBuffer :=
  mkReadBuffer (data b ++ bs) (readOffset b).

(** The offset never passes the end, so [available] does not wrap. *)
Definition rb_wf (b : ReadBuffer) : Prop := (readOffset b <= length (data b))%nat.

Lemma available_begin b : available b = length (begin b).
Proof. unfold available, begin. by rewrite length_drop. Qed.

Lemma rb_wf_empty : rb_wf emptyReadBuffer.
Proof. unfold rb_wf. simpl. lia. Qed.

Lemma rb_wf_append bs b : rb_wf b -> rb_wf (append bs b).
Proof. unfold rb_wf, append. simpl. rewrite length_app. lia. Qed.

Lemma begin_append bs b : rb_wf b -> begin (append bs b) = begin b ++ bs.
Proof. unfold rb_wf, append, begin. simpl. intros. by rewrite drop_app_le. Qed.

Lemma rb_wf_consume n b : rb_wf b -> (n <= available b)%nat -> rb_wf (consume n b).
Proof.
  unfold rb_wf, available, consume. intros. case_match; simpl; lia.
Qed.

Lemma begin_consume n b : begin (consume n b) = drop n (begin b).
Proof.
  unfold begin, consume. case_match; simpl; by rewrite ?drop_0, !drop_drop, ?Nat.add_0_r.
Qed.

(** ** Events: the callbacks the thread makes *)

Inductive io_event : Type :=
| EvData (messageId : Z) (payload : list byte) (connIndex : Z)
| EvResendRequest (missingMessageId : Z)
| EvMissingNotify (missingIds : list Z)
| EvConn (e : conn_event)
| EvVcDisconnectCallback.

(** Which of the callbacks are set. *)
Record io_callbacks : Type := mkCallbacks {
  dataCallback : bool;
  resendRequestCallback : bool;
  missingNotifyCallback : bool;
  vcDisconnectCallback : bool;
}.

Definition all_callbacks : io_callbacks := mkCallbacks true true true true.

Inductive parse_outcome : Type :=
| PReturn (b : ReadBuffer) (evs : list io_event)   (* return from the function *)
| PContinue (b : ReadBuffer) (evs : list io_event) (* the next loop iteration *)
| POutOfBounds.

(** [missingIds[0 .. count)] read at offset [off]. *)
Fixpoint read_ids (off count : nat) (v : list byte) : option (list Z) :=
  match count with
  | O => Some []
  | S count =>
      match read_le off 8 v, read_ids (off + 8) count v with
      | Some id, Some ids => Some (id :: ids)
      | _, _ => None
      end
  end.

(** case VcPacketType::DATA *)
Definition parse_data (cb : io_callbacks) (connIndex : Z) (b : ReadBuffer) : parse_outcome :=
  let v := begin b in
  if (available b <? sizeof_VCDataPacket)%nat then PReturn b []
  else match read_le sizeof_VCHeader 2 v with
  | None => POutOfBounds
  | Some dataLength =>
    if Z.of_nat VC_MAX_DATA_PAYLOAD_SIZE <? dataLength then PReturn b []
    else
      let totalSize := (sizeof_VCDataPacket + Z.to_nat dataLength)%nat in
      if (available b <? totalSize)%nat then PReturn b []
      else match sub_bytes sizeof_VCDataPacket (Z.to_nat dataLength) v, read_le 1 8 v with
      | Some payload, Some messageId =>
          PContinue (consume totalSize b)
            (if dataCallback cb then [EvData messageId payload connIndex] else [])
      | _, _ => POutOfBounds
      end
  end.

(** case VcPacketType::RESEND_REQUEST *)
Definition parse_resend_request (cb : io_callbacks) (b : ReadBuffer) : parse_outcome :=
  if (available b <? sizeof_VCResendRequest)%nat then PReturn b []
  else match read_le sizeof_VCHeader 8 (begin b) with
  | None => POutOfBounds
  | Some missingMessageId =>
      PContinue (consume sizeof_VCResendRequest b)
        (if resendRequestCallback cb then [EvResendRequest missingMessageId] else [])
  end.

(** case VcPacketType::MISSING_NOTIFY *)
Definition parse_missing_notify (cb : io_callbacks) (b : ReadBuffer) : parse_outcome :=
  if (available b <? sizeof_VCHeader + 1)%nat then PReturn b []
  else match read_le sizeof_VCHeader 1 (begin b) with
  | None => POutOfBounds
  | Some count =>
    if Z.of_nat VC_MAX_MISSING_IDS_PER_NOTIFY <? count
    then PReturn emptyReadBuffer []
    else
      let expectedSize := (sizeof_VCHeader + 1 + Z.to_nat count * 8)%nat in
      if (available b <? expectedSize)%nat then PReturn b []
      else match read_ids (sizeof_VCHeader + 1) (Z.to_nat count) (begin b) with
      | None => POutOfBounds
      | Some missingIds =>
          PContinue (consume expectedSize b)
            (if missingNotifyCallback cb then [EvMissingNotify missingIds] else [])
      end
  end.

(** One pass of the switch on the first unprocessed byte. *)
Definition parse_packet (cb : io_callbacks) (connIndex : Z) (b : ReadBuffer) : parse_outcome :=
  match read_le 0 1 (begin b) with
  | None => POutOfBounds
  | Some packetType =>
    match packet_type_of_code packetType with
    | Some DATA => parse_data cb connIndex b
    | Some RESEND_REQUEST => parse_resend_request cb b
    | Some MISSING_NOTIFY => parse_missing_notify cb b
    | Some RESEND_RESPONSE | None => PReturn emptyReadBuffer []
    end
  end.

(** The loop [while (buf.available() >= VC_MIN_DATA_PACKET_SIZE)]; [None] for
    an out-of-bounds read or when the fuel runs out. *)
Fixpoint parse_loop (cb : io_callbacks) (connIndex : Z) (fuel : nat) (b : ReadBuffer)
  : option (ReadBuffer * list io_event) :=
  match fuel with
  | O => None
  | S fuel =>
      if (VC_MIN_DATA_PACKET_SIZE <=? available b)%nat then
        match parse_packet cb connIndex b with
        | POutOfBounds => None
        | PReturn b' evs => Some (b', evs)
        | PContinue b' evs =>
            match parse_loop cb connIndex fuel b' with
            | Some (b'', evs') => Some (b'', evs ++ evs')
            | None => None
            end
        end
      else Some (b, [])
  end.

(** Every pass that continues consumes a byte at least. *)
Definition parse_buffer (cb : io_callbacks) (connIndex : Z) (b : ReadBuffer)
  : option (ReadBuffer * list io_event) :=
  parse_loop cb connIndex (S (available b)) b.

(** ** readFromConnection *)

Definition recv_bytes (r : os_recv) : list byte :=
  match r with RecvOk bs => bs | RecvErr _ => [] end.

(** [conn->disconnect(); if (disconnectCallback) disconnectCallback(conn);] *)
Definition drop_connection (cb : io_callbacks) (c : TcpConnection)
  : TcpConnection * list io_event :=
  let '(c', evs) := disconnect c in
  (c', (EvConn <$> evs) ++ (if vcDisconnectCallback cb then [EvVcDisconnectCallback] else [])).

(** The draining loop.  Each entry of [rs] is one pass: [None] when
    isRunning() is false, otherwise the result of recv.  The flag of the result
    tells whether the function goes on to parse; [None] when [rs] runs out. *)
Fixpoint recv_loop (cb : io_callbacks) (rs : list (option os_recv)) (c : TcpConnection)
  (b : ReadBuffer) : option (bool * TcpConnection * ReadBuffer * list io_event) :=
  match rs with
  | [] => None
  | None :: _ => Some (true, c, b, [])
  | Some r :: rs =>
      let n := RecvTcpDirect r in
      if 0 <? n then recv_loop cb rs c (append (recv_bytes r) b)
      else if n =? SOCKET_ERROR_CLOSED then
        let '(c', evs) := drop_connection cb c in Some (false, c', b, evs)
      else if (n =? SOCKET_ERROR_WOULD_BLOCK) || (n =? SOCKET_ERROR_TIMEOUT)
              || (n =? SOCKET_ERROR_INTERRUPTED) then Some (true, c, b, [])
      else let '(c', evs) := drop_connection cb c in Some (false, c', b, evs)
  end.

Definition readFromConnection (cb : io_callbacks) (connIndex : Z) (rs : list (option os_recv))
  (conn : option TcpConnection) (b : ReadBuffer)
  : option (option TcpConnection * ReadBuffer * list io_event) :=
  match conn with
  | None => Some (None, b, [])
  | Some c =>
      if negb (connected c) then Some (conn, b, [])
      else match recv_loop cb rs c b with
           | None => None
           | Some (false, c', b', evs) => Some (Some c', b', evs)
           | Some (true, c', b', evs) =>
               match parse_buffer cb connIndex b' with
               | None => None
               | Some (b'', evs') => Some (Some c', b'', evs ++ evs')
               end
           end
  end.

(** ** Memory safety and termination of the packet loop *)

Lemma read_ids_is_Some off count v :
  (off + count * 8 <= length v)%nat -> is_Some (read_ids off count v).
Proof.
  revert off. induction count as [|count IH]; intros off Hl; simpl; [by eexists|].
  destruct (read_le_is_Some off 8 v) as [id ->]; [lia|].
  destruct (IH (off + 8)%nat) as [ids ->]; [lia | by eexists].
Qed.

Definition outcome_ok (b : ReadBuffer) (o : parse_outcome) : Prop :=
  match o with
  | PReturn b' _ => rb_wf b'
  | PContinue b' _ => rb_wf b' /\ (available b' < available b)%nat
  | POutOfBounds => False
  end.

Lemma consume_ok n b evs :
  rb_wf b -> (0 < n <= available b)%nat -> outcome_ok b (PContinue (consume n b) evs).
Proof.
  intros Hwf Hn. split; [apply rb_wf_consume; [done | lia]|].
  rewrite !available_begin in *. rewrite begin_consume, length_drop. lia.
Qed.

Lemma ltb_false a b : (b <= a)%nat -> (a <? b)%nat = false.
Proof. intros. by apply Nat.ltb_ge. Qed.

Lemma parse_data_ok cb i b : rb_wf b -> outcome_ok b (parse_data cb i b).
Proof.
  intros Hwf. unfold parse_data. pose proof (available_begin b) as Ha.
  destruct (Nat.ltb_spec (available b) sizeof_VCDataPacket) as [|Hmin]; [done|].
  unfold sizeof_VCDataPacket, sizeof_VCHeader in Hmin.
  destruct (read_le_is_Some sizeof_VCHeader 2 (begin b)) as [n ->]; [unfold sizeof_VCHeader; lia|].
  destruct (Z.ltb_spec (Z.of_nat VC_MAX_DATA_PAYLOAD_SIZE) n); [done|].
  destruct (Nat.ltb_spec (available b) (sizeof_VCDataPacket + Z.to_nat n)); [done|].
  rewrite sub_bytes_Some by lia.
  destruct (read_le_is_Some 1 8 (begin b)) as [id ->]; [lia|].
  apply consume_ok; [done | unfold sizeof_VCDataPacket in *; lia].
Qed.

Lemma parse_resend_request_ok cb b : rb_wf b -> outcome_ok b (parse_resend_request cb b).
Proof.
  intros Hwf. unfold parse_resend_request. pose proof (available_begin b) as Ha.
  destruct (Nat.ltb_spec (available b) sizeof_VCResendRequest) as [|Hr]; [done|].
  unfold sizeof_VCResendRequest in Hr.
  destruct (read_le_is_Some sizeof_VCHeader 8 (begin b)) as [n ->]; [lia|].
  apply consume_ok; [done | unfold sizeof_VCResendRequest, sizeof_VCHeader in *; lia].
Qed.

Lemma parse_missing_notify_ok cb b : rb_wf b -> outcome_ok b (parse_missing_notify cb b).
Proof.
  intros Hwf. unfold parse_missing_notify. pose proof (available_begin b) as Ha.
  destruct (Nat.ltb_spec (available b) (sizeof_VCHeader + 1)); [done|].
  destruct (read_le_is_Some sizeof_VCHeader 1 (begin b)) as [n ->]; [lia|].
  destruct (Z.ltb_spec (Z.of_nat VC_MAX_MISSING_IDS_PER_NOTIFY) n); [apply rb_wf_empty|].
  destruct (Nat.ltb_spec (available b) (sizeof_VCHeader + 1 + Z.to_nat n * 8)); [done|].
  destruct (read_ids_is_Some (sizeof_VCHeader + 1) (Z.to_nat n) (begin b)) as [ids ->]; [lia|].
  apply consume_ok; [done | unfold sizeof_VCHeader in *; lia].
Qed.

Lemma parse_packet_ok cb i b :
  rb_wf b -> (VC_MIN_DATA_PACKET_SIZE <= available b)%nat -> outcome_ok b (parse_packet cb i b).
Proof.
  intros Hwf Hmin. unfold parse_packet. pose proof (available_begin b) as Ha.
  unfold VC_MIN_DATA_PACKET_SIZE, sizeof_VCDataPacket in Hmin.
  destruct (read_le_is_Some 0 1 (begin b)) as [t ->]; [lia|].
  destruct (packet_type_of_code t) as [[]|]; try apply rb_wf_empty;
    auto using parse_data_ok, parse_resend_request_ok, parse_missing_notify_ok.
Qed.

(** The fuel only has to exceed the unprocessed bytes. *)
Lemma parse_loop_fuel cb i fuel b :
  rb_wf b -> (available b < fuel)%nat ->
  parse_loop cb i fuel b = parse_buffer cb i b
  /\ exists b' evs, parse_loop cb i fuel b = Some (b', evs) /\ rb_wf b'.
Proof.
  unfold parse_buffer. revert b.
  induction fuel as [fuel IH] using lt_wf_ind; intros b Hwf Hlt.
  destruct fuel as [|fuel]; [lia|]. cbn [parse_loop].
  destruct (Nat.leb_spec VC_MIN_DATA_PACKET_SIZE (available b)) as [Hmin|]; [|by eauto].
  pose proof (parse_packet_ok cb i b Hwf Hmin) as Hp.
  destruct (parse_packet cb i b) as [b1 e1|b1 e1|]; simpl in Hp; [by eauto | | done].
  destruct Hp as [Hwf1 Hlt1].
  destruct (IH fuel ltac:(lia) b1 Hwf1 ltac:(lia)) as [E1 (b2 & e2 & R1 & Hwf2)].
  assert (E2 : parse_loop cb i (available b) b1 = parse_loop cb i (S (available b1)) b1).
  { apply (IH (available b)); [lia | done | lia]. }
  rewrite E1, E2, <- E1, R1. eauto.
Qed.

(** C24. The packet loop terminates within its fuel and never reads outside the
    received bytes, whatever the peer sent; the read offset stays inside the
    buffer. *)
Theorem parse_buffer_safe (cb : io_callbacks) (i : Z) (b : ReadBuffer) :
  rb_wf b -> exists b' evs, parse_buffer cb i b = Some (b', evs) /\ rb_wf b'.
Proof. intros Hwf. apply (parse_loop_fuel cb i (S (available b)) b Hwf). lia. Qed.

Lemma parse_buffer_unfold cb i b :
  rb_wf b ->
  parse_buffer cb i b =
    if (VC_MIN_DATA_PACKET_SIZE <=? available b)%nat then
      match parse_packet cb i b with
      | POutOfBounds => None
      | PReturn b' evs => Some (b', evs)
      | PContinue b' evs => (fun r => (r.1, evs ++ r.2)) <$> parse_buffer cb i b'
      end
    else Some (b, []).
Proof.
  intros Hwf. unfold parse_buffer at 1. cbn [parse_loop].
  destruct (Nat.leb_spec VC_MIN_DATA_PACKET_SIZE (available b)) as [Hmin|]; [|done].
  pose proof (parse_packet_ok cb i b Hwf Hmin) as Hp.
  destruct (parse_packet cb i b) as [b1 e1|b1 e1|]; simpl in Hp; try done.
  destruct Hp as [Hwf1 Hlt1].
  destruct (parse_loop_fuel cb i (available b) b1 Hwf1 Hlt1) as [-> _].
  by destruct (parse_buffer cb i b1) as [[]|].
Qed.

(** ** The loop implements the stream-parser interface *)

Definition packet_events (cb : io_callbacks) (i : Z) (p : packet) : list io_event :=
  match p with
  | PktData id payload => if dataCallback cb then [EvData id payload i] else []
  | PktResendRequest _ missing => if resendRequestCallback cb then [EvResendRequest missing] else []
  | PktMissingNotify ids => if missingNotifyCallback cb then [EvMissingNotify ids] else []
  end.

Lemma read_ids_encoded pre ids rest :
  Forall is_u64 ids ->
  read_ids (length pre) (length ids) (pre ++ concat (le_split 8 <$> ids) ++ rest) = Some ids.
Proof.
  intros Hids. revert pre. induction Hids as [|id ids Hid Hids IH]; intros pre; [done|].
  rewrite fmap_cons. cbn [concat length read_ids].
  rewrite <- app_assoc. rewrite read_le_split by done.
  specialize (IH (pre ++ le_split 8 id)). rewrite length_app, length_le_split in IH.
  by rewrite <- app_assoc in IH; rewrite IH.
Qed.

Lemma read_notify_ids ids rest :
  (length ids <= VC_MAX_MISSING_IDS_PER_NOTIFY)%nat -> Forall is_u64 ids ->
  read_ids (sizeof_VCHeader + 1) (length ids) (encode_missing_notify ids ++ rest) = Some ids.
Proof.
  intros Hl Hids. unfold encode_missing_notify. cbv zeta. rewrite Nat.min_l, take_ge by lia.
  rewrite <- !app_assoc, app_assoc.
  replace (sizeof_VCHeader + 1)%nat
    with (length (encode_header MISSING_NOTIFY 0 ++ [byte_of_Z (Z.of_nat (length ids))])) by done.
  by apply read_ids_encoded.
Qed.

(** A complete packet at the front: one pass consumes exactly it. *)
Lemma parse_packet_complete cb i b p rest :
  packet_ok p -> begin b = encode_packet p ++ rest ->
  parse_packet cb i b
  = PContinue (consume (length (encode_packet p)) b) (packet_events cb i p).
Proof.
  intros Hok Hb. pose proof (available_begin b) as Ha. rewrite Hb, length_app in Ha.
  unfold parse_packet. rewrite Hb, read_type, packet_type_of_to_code.
  destruct p as [id payload|id missing|ids];
    unfold packet_ok, packet_type, packet_events, encode_packet in *.
  - destruct Hok as [Hid Hl]. rewrite length_encode_data in *. unfold parse_data.
    rewrite Hb, ltb_false, read_data_length by (done || lia).
    destruct (Z.ltb_spec (Z.of_nat VC_MAX_DATA_PAYLOAD_SIZE) (Z.of_nat (length payload))); [lia|].
    rewrite Nat2Z.id, ltb_false by lia. by rewrite sub_data_payload, read_data_id.
  - destruct Hok as [Hid Hm]. rewrite length_encode_resend_request in *.
    unfold parse_resend_request. rewrite Hb, ltb_false by lia. by rewrite read_missing_id.
  - destruct Hok as [[Hl1 Hl2] Hids]. rewrite length_encode_missing_notify, Nat.min_l in * by lia.
    unfold parse_missing_notify. rewrite Hb, ltb_false, read_notify_count by (done || lia).
    destruct (Z.ltb_spec (Z.of_nat VC_MAX_MISSING_IDS_PER_NOTIFY) (Z.of_nat (length ids))); [lia|].
    rewrite Nat2Z.id, (Nat.mul_comm _ 8), ltb_false by lia. by rewrite read_notify_ids.
Qed.

(** An incomplete packet with at least a header: the pass returns and waits. *)
Lemma parse_packet_incomplete cb i b p :
  packet_ok p -> (VC_MIN_DATA_PACKET_SIZE <= available b)%nat ->
  strict_prefix (begin b) (encode_packet p) -> parse_packet cb i b = PReturn b [].
Proof.
  intros Hok Hmin (l & Hne & He). pose proof (available_begin b) as Ha.
  assert (Hlen : (available b < length (encode_packet p))%nat).
  { rewrite He, length_app, Ha. destruct l; simpl; [done | lia]. }
  assert (Hread : forall off n, (off + n <= available b)%nat ->
            read_le off n (begin b) = read_le off n (encode_packet p ++ [])).
  { intros off n Hn. rewrite app_nil_r, He. symmetry. apply read_le_app. lia. }
  unfold VC_MIN_DATA_PACKET_SIZE, sizeof_VCDataPacket in Hmin.
  unfold parse_packet. rewrite Hread, read_type, packet_type_of_to_code by lia.
  destruct p as [id payload|id missing|ids];
    unfold packet_ok, packet_type, packet_events, encode_packet in *.
  - destruct Hok as [Hid Hl]. rewrite length_encode_data in Hlen. unfold parse_data.
    rewrite ltb_false by (unfold sizeof_VCDataPacket; lia).
    rewrite Hread, read_data_length by (done || lia).
    destruct (Z.ltb_spec (Z.of_nat VC_MAX_DATA_PAYLOAD_SIZE) (Z.of_nat (length payload))); [lia|].
    rewrite Nat2Z.id.
    destruct (Nat.ltb_spec (available b) (sizeof_VCDataPacket + length payload)); [done | lia].
  - rewrite length_encode_resend_request in Hlen. unfold parse_resend_request.
    destruct (Nat.ltb_spec (available b) sizeof_VCResendRequest); [done | lia].
  - destruct Hok as [[Hl1 Hl2] Hids]. rewrite length_encode_missing_notify, Nat.min_l in Hlen by lia.
    unfold parse_missing_notify. rewrite ltb_false by lia.
    rewrite Hread, read_notify_count by (done || lia).
    destruct (Z.ltb_spec (Z.of_nat VC_MAX_MISSING_IDS_PER_NOTIFY) (Z.of_nat (length ids))); [lia|].
    rewrite Nat2Z.id, (Nat.mul_comm _ 8).
    destruct (Nat.ltb_spec (available b) (sizeof_VCHeader + 1 + 8 * length ids)); [done | lia].
Qed.

Section io_stream.
Context (cb : io_callbacks) (connIndex : Z).

#[export] Instance io_parser : StreamParser ReadBuffer packet io_event := {|
  sp_view := begin;
  sp_wf := rb_wf;
  sp_feed := append;
  sp_parse := parse_buffer cb connIndex;
  sp_enc := encode_packet;
  sp_ok := packet_ok;
  sp_ev := packet_events cb connIndex;
|}.

#[export] Instance io_parser_laws : StreamParserLaws ReadBuffer packet io_event.
Proof.
  split; simpl.
  - intros bs b Hwf. split; [by apply rb_wf_append | by apply begin_append].
  - intros p b Hok Hwf Hpre. rewrite parse_buffer_unfold by done.
    destruct (Nat.leb_spec VC_MIN_DATA_PACKET_SIZE (available b)); [|done].
    by rewrite (parse_packet_incomplete _ _ _ p).
  - intros b Hwf Hv. rewrite parse_buffer_unfold by done.
    rewrite available_begin, Hv. done.
  - intros p rest b Hok Hwf Hv. exists (consume (length (encode_packet p)) b).
    pose proof (encode_packet_min p Hok) as Hmin.
    assert (Hle : (length (encode_packet p) <= available b)%nat)
      by (rewrite available_begin, Hv, length_app; lia).
    split; [by apply rb_wf_consume|]. split.
    + by rewrite begin_consume, Hv, drop_app_length.
    + rewrite parse_buffer_unfold by done.
      destruct (Nat.leb_spec VC_MIN_DATA_PACKET_SIZE (available b)); [|lia].
      by rewrite (parse_packet_complete _ _ _ p rest).
  - intros p Hok Hn. pose proof (encode_packet_min p Hok) as Hmin. rewrite Hn in Hmin.
    unfold VC_MIN_DATA_PACKET_SIZE, sizeof_VCDataPacket in Hmin. simpl in Hmin. lia.
Qed.

(** Successive polls of one connection.  In each, recv returns the chunks that
    had arrived and then EAGAIN. *)
Fixpoint read_polls (polls : list (list (list byte))) (c : TcpConnection) (b : ReadBuffer)
  : option (option TcpConnection * ReadBuffer * list io_event) :=
  match polls with
  | [] => Some (Some c, b, [])
  | chunks :: polls =>
      match readFromConnection cb connIndex
              (((fun bs => Some (RecvOk bs)) <$> chunks) ++ [Some (RecvErr EAGAIN)]) (Some c) b with
      | Some (Some c', b', e1) =>
          match read_polls polls c' b' with
          | Some (oc, b'', e2) => Some (oc, b'', e1 ++ e2)
          | None => None
          end
      | other => other
      end
  end.

Lemma recv_loop_chunks chunks c b :
  Forall (fun bs => bs <> []) chunks ->
  recv_loop cb (((fun bs => Some (RecvOk bs)) <$> chunks) ++ [Some (RecvErr EAGAIN)]) c b
  = Some (true, c, append (concat chunks) b, []).
Proof.
  intros Hne. revert b. induction Hne as [|bs chunks Hbs Hne IH]; intros b.
  - simpl. unfold append. rewrite app_nil_r. by destruct b.
  - rewrite fmap_cons. cbn [app recv_loop]. destruct bs as [|x bs]; [done|].
    cbn [RecvTcpDirect]. destruct (Z.ltb_spec 0 (Z.of_nat (length (x :: bs)))); [|simpl in *; lia].
    rewrite IH. unfold append, recv_bytes; cbn [data readOffset concat]. by rewrite app_assoc.
Qed.

Lemma read_polls_feed polls c b :
  connected c = true -> Forall (Forall (fun bs => bs <> [])) polls ->
  read_polls polls c b
  = (fun r => (Some c, r.1, r.2)) <$> feed_chunks ((@concat byte) <$> polls) b.
Proof.
  intros Hc Hne. revert b. induction Hne as [|chunks polls Hch Hne IH]; intros b; [done|].
  rewrite fmap_cons. cbn [read_polls feed_chunks]. unfold readFromConnection. rewrite Hc.
  cbn [negb]. rewrite recv_loop_chunks by done. cbn [sp_parse sp_feed io_parser].
  destruct (parse_buffer cb connIndex (append (concat chunks) b)) as [[b1 e1]|]; [|done].
  rewrite IH. destruct (feed_chunks ((@concat byte) <$> polls) b1) as [[b2 e2]|]; done.
Qed.

Lemma read_polls_clean (ps : list packet) (polls : list (list (list byte))) (c : TcpConnection) (b0 : ReadBuffer) :
  connected c = true -> Forall packet_ok ps -> Forall (Forall (fun bs => bs <> [])) polls ->
  concat ((@concat byte) <$> polls) = concat (encode_packet <$> ps) ->
  rb_wf b0 -> begin b0 = [] ->
  exists b, read_polls polls c b0 = Some (Some c, b, concat (packet_events cb connIndex <$> ps))
            /\ rb_wf b /\ begin b = [].
Proof.
  intros Hc Hok Hne Hcat Hwf0 Hb0.
  destruct (stream_chunks (St := ReadBuffer) ps ((@concat byte) <$> polls) b0)
    as (b & Hf & Hwf & Hv); [done | done | done | done |].
  exists b. rewrite read_polls_feed by done. split; [|done]. rewrite Hf. done.
Qed.

(** The beginning of a packet, or nothing. *)
Definition partial_packet (l : list byte) : Prop :=
  l = [] \/ exists p, packet_ok p /\ strict_prefix l (encode_packet p).

(** A part of the stream that begins and ends anywhere in a packet. *)
Lemma read_polls_parts (ps : list packet) (polls : list (list (list byte))) (l l' : list byte) (c : TcpConnection)
  (b0 : ReadBuffer) :
  connected c = true -> Forall packet_ok ps -> Forall (Forall (fun bs => bs <> [])) polls ->
  partial_packet l -> partial_packet l' ->
  l ++ concat ((@concat byte) <$> polls) = concat (encode_packet <$> ps) ++ l' ->
  rb_wf b0 -> begin b0 = l ->
  exists b, read_polls polls c b0 = Some (Some c, b, concat (packet_events cb connIndex <$> ps))
            /\ rb_wf b /\ begin b = l'.
Proof.
  intros Hc Hok Hne Hl Hl' Hcat Hwf0 <-.
  destruct (stream_parts (St := ReadBuffer) ps ((@concat byte) <$> polls) b0 l' emptyReadBuffer)
    as (b & Hf & Hwf & Hv); [apply rb_wf_empty | done | done | done | done | done | done |].
  exists b. rewrite read_polls_feed by done. split; [|done]. rewrite Hf. done.
Qed.

(** C10. Framing is independent of how TCP delivers the bytes: if what recv
    returns on a connection, over any number of polls and cut anywhere, is the
    encoding of well-formed packets, then readFromConnection makes exactly the
    callbacks of those packets, once each and in order, keeps the connection,
    and ends with nothing unprocessed. *)
Theorem polls_parse_to_packets (ps : list packet) (polls : list (list (list byte)))
  (c : TcpConnection) :
  connected c = true ->
  Forall packet_ok ps ->
  Forall (Forall (fun bs => bs <> [])) polls ->
  concat ((@concat byte) <$> polls) = concat (encode_packet <$> ps) ->
  exists b, read_polls polls c emptyReadBuffer
            = Some (Some c, b, concat (packet_events cb connIndex <$> ps))
            /\ begin b = [].
Proof.
  intros Hc Hok Hne Hcat.
  destruct (read_polls_clean ps polls c emptyReadBuffer Hc Hok Hne Hcat rb_wf_empty eq_refl)
    as (b & Hr & _ & Hv). by exists b.
Qed.
End io_stream.

(** ** What the loop does with input no sender of this repository produces *)

(** The header of a DATA packet that announces more than the maximum. *)
Definition oversize_header (v : list byte) : Prop :=
  (sizeof_VCDataPacket <= length v)%nat
  /\ read_le 0 1 v = Some (packet_type_code DATA)
  /\ exists n, read_le sizeof_VCHeader 2 v = Some n /\ Z.of_nat VC_MAX_DATA_PAYLOAD_SIZE < n.

Lemma oversize_header_app v bs : oversize_header v -> oversize_header (v ++ bs).
Proof.
  intros (Hl & Ht & n & Hn & Hgt).
  split; [rewrite length_app; lia|]. unfold sizeof_VCDataPacket in Hl. split.
  - rewrite read_le_app by lia. done.
  - exists n. rewrite read_le_app by lia. done.
Qed.

Lemma parse_oversize cb i b :
  rb_wf b -> oversize_header (begin b) -> parse_buffer cb i b = Some (b, []).
Proof.
  intros Hwf (Hl & Ht & n & Hn & Hgt). rewrite parse_buffer_unfold by done.
  rewrite available_begin. destruct (Nat.leb_spec VC_MIN_DATA_PACKET_SIZE (length (begin b))); [|done].
  unfold parse_packet. rewrite Ht, packet_type_of_to_code. unfold parse_data.
  rewrite available_begin, ltb_false, Hn by done.
  by destruct (Z.ltb_spec (Z.of_nat VC_MAX_DATA_PAYLOAD_SIZE) n); [|lia].
Qed.

(** A DATA header announcing more than VC_MAX_DATA_PAYLOAD_SIZE bytes
    wedges the connection: it is neither consumed nor is the connection
    dropped, so whatever arrives afterwards is only accumulated and no packet
    is ever reported again. *)
Theorem oversize_data_wedges (cb : io_callbacks) (i : Z) (b : ReadBuffer)
  (polls : list (list (list byte))) (c : TcpConnection) :
  rb_wf b -> connected c = true -> oversize_header (begin b) ->
  Forall (Forall (fun bs => bs <> [])) polls ->
  exists b', read_polls cb i polls c b = Some (Some c, b', [])
             /\ begin b' = begin b ++ concat ((@concat byte) <$> polls).
Proof.
  intros Hwf Hc Hov Hne. rewrite read_polls_feed by done. clear Hne.
  revert b Hwf Hov. induction polls as [|chunks polls IH]; intros b Hwf Hov.
  - exists b. by rewrite app_nil_r.
  - rewrite fmap_cons. cbn [feed_chunks sp_parse sp_feed io_parser concat].
    rewrite parse_oversize;
      [| by apply rb_wf_append | rewrite begin_append by done; by apply oversize_header_app].
    destruct (IH (append (concat chunks) b)) as (b' & Hf & Hv).
    + by apply rb_wf_append.
    + rewrite begin_append by done. by apply oversize_header_app.
    + exists b'. destruct (feed_chunks _ _) as [[b1 e1]|]; simplify_eq/=. split; [done|].
      rewrite Hv, begin_append by done. by rewrite app_assoc.
Qed.

(** Bytes that arrive together with the end of the stream are discarded:
    when the drain that read them ends in a close, readFromConnection drops
    the connection and returns without parsing, so not even complete packets
    are reported. *)
Theorem close_discards_received (cb : io_callbacks) (i : Z) (chunks : list (list byte))
  (c : TcpConnection) (b : ReadBuffer) :
  connected c = true -> Forall (fun bs => bs <> []) chunks ->
  exists c' evs,
    readFromConnection cb i (((fun bs => Some (RecvOk bs)) <$> chunks) ++ [Some (RecvOk [])])
      (Some c) b = Some (Some c', append (concat chunks) b, evs)
    /\ connected c' = false
    /\ Forall (fun e => match e with EvConn _ | EvVcDisconnectCallback => True | _ => False end) evs.
Proof.
  intros Hc Hne. unfold readFromConnection. rewrite Hc. cbn [negb].
  assert (Hl : recv_loop cb (((fun bs => Some (RecvOk bs)) <$> chunks) ++ [Some (RecvOk [])]) c b
               = Some (false, (drop_connection cb c).1, append (concat chunks) b,
                       (drop_connection cb c).2)).
  { revert b. induction Hne as [|bs chunks Hbs Hne IH]; intros b.
    - cbn -[drop_connection]. destruct (drop_connection cb c).
      unfold append. rewrite app_nil_r. by destruct b.
    - rewrite fmap_cons. cbn [app recv_loop]. destruct bs as [|x bs]; [done|].
      cbn [RecvTcpDirect]. destruct (Z.ltb_spec 0 (Z.of_nat (length (x :: bs)))); [|simpl in *; lia].
      rewrite IH. unfold append, recv_bytes; cbn [data readOffset concat]. by rewrite app_assoc. }
  rewrite Hl. do 2 eexists. split; [done|]. unfold drop_connection, disconnect. rewrite Hc.
  cbn [negb]. split; [done|]. cbn [snd]. rewrite !fmap_app, !Forall_app.
  repeat split; repeat case_match; repeat constructor.
Qed.


(** ** replaceConnection and one iteration of run()

    The connections are shared objects: a slot holds an address of the store
    [conn_heap], as a shared_ptr does. *)

Abbreviation conn_heap := (gmap nat TcpConnection) (only parsing).

(** The members of TcpVCIoThread and the locals of run(). *)
Record IoThread : Type := mkIoThread {
  connections : list (option nat);
  connGeneration : Z;
  readBuffers : list ReadBuffer;
  prevFds : list SocketFd;
  snapshot : list (option nat);
  cachedGen : Z;
}.

Definition newIoThread (conns : list (option nat)) : IoThread :=
  {| connections := conns; connGeneration := 0;
     readBuffers := replicate (length conns) emptyReadBuffer;
     prevFds := replicate (length conns) (-1);
     snapshot := []; cachedGen := u64 (-1) |}.

Definition replaceConnection (slot : Z) (conn : nat) (s : IoThread) : IoThread :=
  if (slot <? 0) || (Z.of_nat (length (connections s)) <=? slot) then s
  else {| connections := <[Z.to_nat slot := Some conn]> (connections s);
          connGeneration := u64 (connGeneration s + 1);
          readBuffers := readBuffers s; prevFds := prevFds s;
          snapshot := snapshot s; cachedGen := cachedGen s |}.

Definition refresh_snapshot (s : IoThread) : IoThread :=
  if connGeneration s =? cachedGen s then s
  else {| connections := connections s; connGeneration := connGeneration s;
          readBuffers := readBuffers s; prevFds := prevFds s;
          snapshot := connections s; cachedGen := connGeneration s |}.

(** [currFd] of a slot. *)
Definition curr_fd (h : conn_heap) (slot : option nat) : SocketFd :=
  match slot ≫= (h !!.) with
  | Some c => if connected c then socketFd c else -1
  | None => -1
  end.

Definition reset_buffer (b : ReadBuffer) (fds : SocketFd * SocketFd) : ReadBuffer :=
  if fds.2 =? fds.1 then b else emptyReadBuffer.

(** The loop that fills [pollfds] and discards the buffers of changed slots. *)
Definition prepare_poll (h : conn_heap) (s : IoThread) : IoThread :=
  let fds := curr_fd h <$> snapshot s in
  {| connections := connections s; connGeneration := connGeneration s;
     readBuffers := zip_with reset_buffer (readBuffers s) (zip (prevFds s) fds);
     prevFds := fds; snapshot := snapshot s; cachedGen := cachedGen s |}.

(** What poll and the following reads do for one slot: nothing, or revents set,
    the results of its recv calls and isRunning() afterwards. *)
Definition slot_poll : Type := option (list (option os_recv) * bool).

Definition set_buffer (i : nat) (b : ReadBuffer) (s : IoThread) : IoThread :=
  {| connections := connections s; connGeneration := connGeneration s;
     readBuffers := <[i := b]> (readBuffers s); prevFds := prevFds s;
     snapshot := snapshot s; cachedGen := cachedGen s |}.

(** readFromConnection on slot [i] of the snapshot. *)
Definition read_slot (cb : io_callbacks) (i : nat) (rs : list (option os_recv))
  (s : IoThread) (h : conn_heap) : option (IoThread * conn_heap * list io_event) :=
  match snapshot s !! i, readBuffers s !! i with
  | Some slot, Some b =>
      match readFromConnection cb (Z.of_nat i) rs (slot ≫= (h !!.)) b with
      | None => None
      | Some (oc, b', evs) =>
          let h' := match slot, oc with Some a, Some c => <[a := c]> h | _, _ => h end in
          Some (set_buffer i b' s, h', evs)
      end
  | _, _ => None
  end.

(** The second loop over the slots, from slot [i]; the flag is false when the
    thread returned early. *)
Fixpoint read_slots (cb : io_callbacks) (i : nat) (polls : list slot_poll)
  (s : IoThread) (h : conn_heap) : option (IoThread * conn_heap * list io_event * bool) :=
  match polls with
  | [] => Some (s, h, [], true)
  | p :: polls =>
      match p with
      | Some (rs, running) =>
          if bool_decide (prevFds s !! i = Some (-1)) then read_slots cb (S i) polls s h
          else match read_slot cb i rs s h with
               | None => None
               | Some (s1, h1, e1) =>
                   if running then
                     match read_slots cb (S i) polls s1 h1 with
                     | None => None
                     | Some (s2, h2, e2, r) => Some (s2, h2, e1 ++ e2, r)
                     end
                   else Some (s1, h1, e1, false)
               end
      | None => read_slots cb (S i) polls s h
      end
  end.

(** One iteration of the while loop; [polls] is [None] when SocketPollMany
    failed. *)
Definition run_iteration (cb : io_callbacks) (polls : option (list slot_poll))
  (s : IoThread) (h : conn_heap) : option (IoThread * conn_heap * list io_event * bool) :=
  let s1 := prepare_poll h (refresh_snapshot s) in
  match polls with
  | None => Some (s1, h, [], true)
  | Some polls => read_slots cb 0 polls s1 h
  end.

Definition io_wf (s : IoThread) : Prop :=
  length (readBuffers s) = length (connections s)
  /\ length (prevFds s) = length (connections s)
  /\ (length (snapshot s) = length (connections s) \/ connGeneration s <> cachedGen s)
  /\ Forall rb_wf (readBuffers s).

Lemma io_wf_new conns : io_wf (newIoThread conns).
Proof.
  unfold io_wf, newIoThread; cbn. rewrite !length_replicate.
  split_and!; [done | done | by right |]. apply Forall_replicate, rb_wf_empty.
Qed.

Lemma length_snapshot_refresh s :
  io_wf s -> length (snapshot (refresh_snapshot s)) = length (connections s).
Proof.
  intros (_ & _ & Hs & _). unfold refresh_snapshot.
  destruct (Z.eqb_spec (connGeneration s) (cachedGen s)); cbn; [by destruct Hs | done].
Qed.

Lemma refresh_snapshot_fields s :
  connections (refresh_snapshot s) = connections s
  /\ connGeneration (refresh_snapshot s) = connGeneration s
  /\ readBuffers (refresh_snapshot s) = readBuffers s
  /\ prevFds (refresh_snapshot s) = prevFds s
  /\ cachedGen (refresh_snapshot s) = connGeneration s.
Proof. unfold refresh_snapshot. destruct (Z.eqb_spec (connGeneration s) (cachedGen s)); naive_solver. Qed.

Lemma reset_buffer_wf b fds : rb_wf b -> rb_wf (reset_buffer b fds).
Proof. unfold reset_buffer. case_match; auto using rb_wf_empty. Qed.

Lemma io_wf_prepare h s : io_wf s -> io_wf (prepare_poll h (refresh_snapshot s)).
Proof.
  intros Hwf. pose proof (length_snapshot_refresh s Hwf) as Hl.
  destruct (refresh_snapshot_fields s) as (Ec & Eg & Eb & Ep & Eq).
  destruct Hwf as (H1 & H2 & _ & H4). unfold io_wf, prepare_poll; cbn.
  rewrite Ec, Eb, Ep, length_zip_with, length_zip, length_fmap, Hl.
  split_and!; [lia | done | by left |].
  eapply Forall_zip_with_fst; [exact H4|].
  apply Forall_true. intros fds b Hb. by apply reset_buffer_wf.
Qed.

(** A slot's buffer after the refresh: kept when the descriptor is the one the
    thread saw last, otherwise empty. *)
Lemma prepare_buffer h s i b prev slot :
  readBuffers s !! i = Some b -> prevFds s !! i = Some prev ->
  snapshot (refresh_snapshot s) !! i = Some slot ->
  readBuffers (prepare_poll h (refresh_snapshot s)) !! i
  = Some (if curr_fd h slot =? prev then b else emptyReadBuffer).
Proof.
  intros Hb Hp Hs. destruct (refresh_snapshot_fields s) as (_ & _ & Eb & Ep & _).
  unfold prepare_poll; cbn [readBuffers]. rewrite Eb, Ep, lookup_zip_with, Hb.
  cbn [mbind option_bind option_map]. rewrite lookup_zip_with, Hp. cbn [mbind option_bind].
  by rewrite list_lookup_fmap, Hs.
Qed.

Lemma replaceConnection_in (slot : nat) a s :
  (slot < length (connections s))%nat ->
  replaceConnection (Z.of_nat slot) a s
  = {| connections := <[slot := Some a]> (connections s);
       connGeneration := u64 (connGeneration s + 1);
       readBuffers := readBuffers s; prevFds := prevFds s;
       snapshot := snapshot s; cachedGen := cachedGen s |}.
Proof.
  intros Hl. unfold replaceConnection.
  destruct (Z.ltb_spec (Z.of_nat slot) 0); [lia|].
  destruct (Z.leb_spec (Z.of_nat (length (connections s))) (Z.of_nat slot)); [lia|].
  by rewrite Nat2Z.id.
Qed.

Lemma io_wf_replace slot a s :
  io_wf s -> u64 (connGeneration s + 1) <> cachedGen s -> io_wf (replaceConnection slot a s).
Proof.
  intros (H1 & H2 & H3 & H4) Hg. unfold replaceConnection. case_match; [done|].
  unfold io_wf; cbn. rewrite length_insert. split_and!; auto.
Qed.

Lemma read_slots_skip cb n i polls s h :
  read_slots cb i (replicate n None ++ polls) s h = read_slots cb (i + n) polls s h.
Proof.
  revert i. induction n as [|n IH]; intros i; cbn [replicate app read_slots].
  - by rewrite Nat.add_0_r.
  - rewrite IH. f_equal. lia.
Qed.

(** One poll of a connection whose buffer holds nothing. *)
Lemma read_chunks_packets cb i (ps : list packet) (chunks : list (list byte)) c :
  connected c = true -> Forall packet_ok ps -> Forall (fun bs => bs <> []) chunks ->
  concat chunks = concat (encode_packet <$> ps) ->
  exists b, readFromConnection cb i (((fun bs => Some (RecvOk bs)) <$> chunks) ++ [Some (RecvErr EAGAIN)])
              (Some c) emptyReadBuffer
            = Some (Some c, b, concat (packet_events cb i <$> ps)) /\ begin b = [] /\ rb_wf b.
Proof.
  intros Hc Hok Hne Hcat.
  destruct (stream_chunks (HL := io_parser_laws cb i) ps [concat chunks] emptyReadBuffer)
    as (b & Hf & Hwf & Hv); [done | apply rb_wf_empty | done | cbn; by rewrite app_nil_r |].
  exists b. split; [|done]. unfold readFromConnection. rewrite Hc. cbn [negb].
  rewrite recv_loop_chunks by done. cbn [feed_chunks sp_parse sp_feed io_parser] in Hf.
  destruct (parse_buffer cb i (append (concat chunks) emptyReadBuffer)) as [[b1 e1]|]; [|done].
  injection Hf as <- Hf. rewrite app_nil_r in Hf. by rewrite Hf.
Qed.

(** After replaceConnection installs a live connection whose descriptor is
    not the one the thread saw last in that slot, the thread reads it from a
    clean buffer: whatever the old stream left behind, the next iteration
    reports exactly the packets the new connection sent. *)
Theorem replaced_slot_starts_clean (cb : io_callbacks) (s : IoThread) (h : conn_heap)
  (slot a : nat) (c : TcpConnection) (prev : SocketFd) (ps : list packet) (chunks : list (list byte)) :
  io_wf s -> u64 (connGeneration s + 1) <> cachedGen s ->
  h !! a = Some c -> connected c = true -> socketFd c <> -1 ->
  prevFds s !! slot = Some prev -> socketFd c <> prev ->
  Forall packet_ok ps -> Forall (fun bs => bs <> []) chunks ->
  concat chunks = concat (encode_packet <$> ps) ->
  exists s', run_iteration cb
      (Some (replicate slot None
             ++ [Some (((fun bs => Some (RecvOk bs)) <$> chunks) ++ [Some (RecvErr EAGAIN)], true)]))
      (replaceConnection (Z.of_nat slot) a s) h
    = Some (s', h, concat (packet_events cb (Z.of_nat slot) <$> ps), true)
    /\ begin <$> readBuffers s' !! slot = Some [].
Proof.
  intros Hwf Hg Ha Hc Hfd Hp Hne Hok Hch Hcat.
  pose proof (io_wf_replace (Z.of_nat slot) a s Hwf Hg) as Hwf'.
  destruct Hwf as (H1 & H2 & _ & _).
  assert (Hl : (slot < length (connections s))%nat).
  { rewrite <- H2. apply lookup_lt_is_Some. by eexists. }
  destruct (lookup_lt_is_Some_2 (readBuffers s) slot) as [b0 Hb0]; [lia|].
  set (s0 := replaceConnection (Z.of_nat slot) a s) in *.
  assert (E0 : s0 = _) by (apply replaceConnection_in; done).
  assert (Hsn : snapshot (refresh_snapshot s0) !! slot = Some (Some a)).
  { unfold refresh_snapshot. destruct (Z.eqb_spec (connGeneration s0) (cachedGen s0)) as [E|].
    - rewrite E0 in E. done.
    - rewrite E0. cbn. by apply list_lookup_insert_eq. }
  assert (Hcur : curr_fd h (Some a) = socketFd c) by (unfold curr_fd; cbn; by rewrite Ha, Hc).
  assert (Hb : readBuffers (prepare_poll h (refresh_snapshot s0)) !! slot = Some emptyReadBuffer).
  { erewrite prepare_buffer; [|by rewrite E0; cbn|by rewrite E0; cbn|done].
    rewrite Hcur. by destruct (Z.eqb_spec (socketFd c) prev). }
  destruct (read_chunks_packets cb (Z.of_nat slot) ps chunks c) as (b & Hr & Hv & _); try done.
  unfold run_iteration. rewrite read_slots_skip. cbn [read_slots Nat.add].
  set (s1 := prepare_poll h (refresh_snapshot s0)) in *.
  assert (Hp1 : prevFds s1 !! slot = Some (socketFd c)).
  { unfold s1, prepare_poll; cbn. by rewrite list_lookup_fmap, Hsn; cbn; rewrite Hcur. }
  rewrite bool_decide_eq_false_2 by (rewrite Hp1; congruence).
  unfold read_slot. replace (snapshot s1 !! slot) with (Some (Some a)) by done.
  rewrite Hb. cbn [mbind option_bind]. rewrite Ha, Hr.
  assert (Ei : <[a := c]> h = h) by (by apply (insert_id (M := gmap nat))).
  eexists. split; [by rewrite app_nil_r, Ei|].
  cbn. rewrite list_lookup_insert_eq; [by rewrite <- Hv|].
  by apply lookup_lt_is_Some; eexists.
Qed.

(** The same descriptor number in the slot is taken for the same connection.  A
    packet prefix left by the old stream, then one packet of the new one. *)
Definition stale_prefix : list byte := take 12 (encode_data 5 (replicate 30 Byte.x2a)).
Definition reused_fd_conn : TcpConnection := (newTcpConnection 7).1.
Definition reuse_state : IoThread :=
  {| connections := [Some 0%nat]; connGeneration := 0;
     readBuffers := [mkReadBuffer stale_prefix 0]; prevFds := [7];
     snapshot := [Some 0%nat]; cachedGen := 0 |}.
Definition reuse_heap : conn_heap :=
  <[0%nat := (disconnect reused_fd_conn).1]> {[ 1%nat := reused_fd_conn ]}.

(** When the replacement connection got the descriptor number of the
    connection it replaces (the kernel reuses the lowest free one), the buffer
    of the dead stream is not discarded: the bytes of the new connection are
    read as the rest of the old packet, and message 5 is reported with a payload
    that contains the header of message 6, which is lost. *)
Theorem fd_reuse_mixes_streams :
  let s := replaceConnection 0 1 reuse_state in
  let wire := encode_data 6 (replicate 18 Byte.x2b) in
  exists s' payload,
    run_iteration all_callbacks
      (Some [Some ([Some (RecvOk wire); Some (RecvErr EAGAIN)], true)]) s reuse_heap
    = Some (s', reuse_heap, [EvData 5 payload 0], true)
    /\ payload = Byte.x2a :: wire.
Proof.
  cbv zeta.
  destruct (run_iteration all_callbacks
      (Some [Some ([Some (RecvOk (encode_data 6 (replicate 18 Byte.x2b))); Some (RecvErr EAGAIN)], true)])
      (replaceConnection 0 1 reuse_state) reuse_heap) as [[[[s' h'] evs] r]|] eqn:E;
    vm_compute in E; [|done].
  injection E as <- <- <- <-.
  do 2 eexists. split; reflexivity.
Qed.

(** ** Witnesses *)

Lemma parse_buffer_safe_witness :
  rb_wf (mkReadBuffer (encode_missing_notify [4; 9]) 0)
  /\ exists b' evs,
       parse_buffer all_callbacks 0 (mkReadBuffer (encode_missing_notify [4; 9]) 0) = Some (b', evs)
       /\ rb_wf b'.
Proof.
  assert (H : rb_wf (mkReadBuffer (encode_missing_notify [4; 9]) 0)) by (unfold rb_wf; cbn; lia).
  split; [exact H | exact (parse_buffer_safe all_callbacks 0 _ H)].
Defined.

Lemma polls_parse_to_packets_witness :
  exists b, read_polls all_callbacks 3 [[take 5 (encode_data 1 [Byte.x41])];
                                        [drop 5 (encode_data 1 [Byte.x41])]]
              reused_fd_conn emptyReadBuffer
            = Some (Some reused_fd_conn, b, concat (packet_events all_callbacks 3 <$> [PktData 1 [Byte.x41]]))
            /\ begin b = [].
Proof.
  apply (polls_parse_to_packets all_callbacks 3 [PktData 1 [Byte.x41]]).
  - reflexivity.
  - repeat constructor; unfold is_u64; cbn; unfold VC_MAX_DATA_PAYLOAD_SIZE; lia.
  - repeat constructor; discriminate.
  - reflexivity.
Defined.

Lemma oversize_data_wedges_witness :
  exists b', read_polls all_callbacks 0 [[encode_data 1 [Byte.x41]]] reused_fd_conn
               (mkReadBuffer (encode_data 0 (replicate 2001 Byte.x00)) 0)
             = Some (Some reused_fd_conn, b', [])
             /\ begin b' = encode_data 0 (replicate 2001 Byte.x00)
                  ++ concat ((@concat byte) <$> [[encode_data 1 [Byte.x41]]]).
Proof.
  apply (oversize_data_wedges all_callbacks 0 (mkReadBuffer (encode_data 0 (replicate 2001 Byte.x00)) 0)).
  - unfold rb_wf; cbn; lia.
  - reflexivity.
  - split; [vm_compute; lia|]. split; [reflexivity|]. exists 2001. split; [reflexivity | vm_compute; done].
  - repeat constructor; discriminate.
Defined.

Lemma close_discards_received_witness :
  exists c' evs,
    readFromConnection all_callbacks 0
      (((fun bs => Some (RecvOk bs)) <$> [encode_data 1 [Byte.x41]]) ++ [Some (RecvOk [])])
      (Some reused_fd_conn) emptyReadBuffer
    = Some (Some c', append (concat [encode_data 1 [Byte.x41]]) emptyReadBuffer, evs)
    /\ connected c' = false
    /\ Forall (fun e => match e with EvConn _ | EvVcDisconnectCallback => True | _ => False end) evs.
Proof.
  apply (close_discards_received all_callbacks 0 [encode_data 1 [Byte.x41]] reused_fd_conn emptyReadBuffer).
  - reflexivity.
  - repeat constructor; discriminate.
Defined.

Lemma replaced_slot_starts_clean_witness :
  exists s', run_iteration all_callbacks
      (Some (replicate 0 None
             ++ [Some (((fun bs => Some (RecvOk bs)) <$> [encode_data 6 [Byte.x2b]])
                       ++ [Some (RecvErr EAGAIN)], true)]))
      (replaceConnection (Z.of_nat 0) 1 reuse_state) {[ 1%nat := (newTcpConnection 8).1 ]}
    = Some (s', {[ 1%nat := (newTcpConnection 8).1 ]},
            concat (packet_events all_callbacks (Z.of_nat 0) <$> [PktData 6 [Byte.x2b]]), true)
    /\ begin <$> readBuffers s' !! 0%nat = Some [].
Proof.
  apply (replaced_slot_starts_clean all_callbacks reuse_state {[ 1%nat := (newTcpConnection 8).1 ]}
           0 1 (newTcpConnection 8).1 7 [PktData 6 [Byte.x2b]] [encode_data 6 [Byte.x2b]]).
  - split_and!; [done | done | by left |]. repeat constructor.
  - vm_compute. discriminate.
  - reflexivity.
  - reflexivity.
  - discriminate.
  - reflexivity.
  - discriminate.
  - repeat constructor; unfold is_u64; cbn; unfold VC_MAX_DATA_PAYLOAD_SIZE; lia.
  - repeat constructor; discriminate.
  - reflexivity.
Defined.
