(* ===== verification/ReadThread.v ===== *)
(** * The per-connection read thread (src/common/TcpVCReadThread.h, .cpp)

    The older receive path, one thread per connection: [run] receives up to
    1500 bytes, appends them and processes every complete packet.  A thrown
    std::logic_error is the left of a sum, a read outside the buffer is [None]
    and is proved never to happen. *)

From S2P Require Import Prelude Bytes StreamParser VcProtocol Socket TcpConnection IoThread.

Inductive logic_error : Type :=
| UnknownPacketType
| DataLengthExceedsMaximum.

Definition checked (A : Type) : Type := option (logic_error + A).

Inductive rt_event : Type :=
| RtData (messageId : Z) (payload : list byte)
| RtResendRequest (missingMessageId : Z)
| RtMissingNotify (missingIds : list Z)
| RtConn (e : conn_event)
| RtDisconnectCallback.

Record rt_callbacks : Type := mkRtCallbacks {
  rt_dataCallback : bool;
  rt_resendRequestCallback : bool;
  rt_missingNotifyCallback : bool;
  rt_disconnectCallback : bool;
}.

Definition hasEnoughDataForData (buffer : list byte) : checked bool :=
  if (length buffer <? VC_MIN_DATA_PACKET_SIZE)%nat then Some (inr false)
  else match read_le sizeof_VCHeader 2 buffer with
  | None => None
  | Some dataLength =>
      if Z.of_nat VC_MAX_DATA_PAYLOAD_SIZE <? dataLength then Some (inl DataLengthExceedsMaximum)
      else Some (inr (VC_MIN_DATA_PACKET_SIZE + Z.to_nat dataLength <=? length buffer)%nat)
  end.

Definition hasEnoughDataForResendRequest (buffer : list byte) : checked bool :=
  Some (inr (VC_MIN_RESEND_REQUEST_SIZE <=? length buffer)%nat).

Definition hasEnoughDataForMissingNotify (buffer : list byte) : checked bool :=
  if (length buffer <? VC_MIN_MISSING_NOTIFY_SIZE)%nat then Some (inr false)
  else match read_le sizeof_VCHeader 1 buffer with
  | None => None
  | Some count =>
      let expectedSize := (sizeof_VCHeader + 1 + Z.to_nat count * 8)%nat in
      Some (inr (expectedSize <=? length buffer)%nat)
  end.

Definition hasEnoughData (buffer : list byte) : checked bool :=
  if (length buffer <? VC_MIN_DATA_PACKET_SIZE)%nat then Some (inr false)
  else match read_le 0 1 buffer with
  | None => None
  | Some packetType =>
      match packet_type_of_code packetType with
      | Some DATA => hasEnoughDataForData buffer
      | Some RESEND_REQUEST => hasEnoughDataForResendRequest buffer
      | Some MISSING_NOTIFY => hasEnoughDataForMissingNotify buffer
      | Some RESEND_RESPONSE | None => Some (inl UnknownPacketType)
      end
  end.

(** The process functions return the processed byte count. *)
Definition processDataBuffer (cb : rt_callbacks) (buffer : list byte)
  : checked (nat * list rt_event) :=
  match read_le sizeof_VCHeader 2 buffer with
  | None => None
  | Some dataLength =>
      if Z.of_nat VC_MAX_DATA_PAYLOAD_SIZE <? dataLength then Some (inl DataLengthExceedsMaximum)
      else match sub_bytes sizeof_VCDataPacket (Z.to_nat dataLength) buffer, read_le 1 8 buffer with
      | Some data, Some messageId =>
          Some (inr ((sizeof_VCDataPacket + Z.to_nat dataLength)%nat,
                     if rt_dataCallback cb then [RtData messageId data] else []))
      | _, _ => None
      end
  end.

Definition processResendRequestBuffer (cb : rt_callbacks) (buffer : list byte)
  : checked (nat * list rt_event) :=
  match read_le sizeof_VCHeader 8 buffer with
  | None => None
  | Some missingMessageId =>
      Some (inr (sizeof_VCResendRequest,
                 if rt_resendRequestCallback cb then [RtResendRequest missingMessageId] else []))
  end.

Definition processMissingNotifyBuffer (cb : rt_callbacks) (buffer : list byte)
  : checked (nat * list rt_event) :=
  match read_le sizeof_VCHeader 1 buffer with
  | None => None
  | Some count =>
      match read_ids (sizeof_VCHeader + 1) (Z.to_nat count) buffer with
      | None => None
      | Some missingIds =>
          Some (inr ((sizeof_VCHeader + 1 + Z.to_nat count * 8)%nat,
                     if rt_missingNotifyCallback cb then [RtMissingNotify missingIds] else []))
      end
  end.

Definition processBuffer (cb : rt_callbacks) (buffer : list byte)
  : checked (nat * list rt_event) :=
  match read_le 0 1 buffer with
  | None => None
  | Some packetType =>
      match packet_type_of_code packetType with
      | Some DATA => processDataBuffer cb buffer
      | Some RESEND_REQUEST => processResendRequestBuffer cb buffer
      | Some MISSING_NOTIFY => processMissingNotifyBuffer cb buffer
      | Some RESEND_RESPONSE | None => Some (inl UnknownPacketType)
      end
  end.

(** The inner while of run(): the callbacks made before a throw are kept, so
    the result carries them on both sides. *)
Fixpoint process_loop (cb : rt_callbacks) (fuel : nat) (buffer : list byte)
  : option (list rt_event * (logic_error + list byte)) :=
  match fuel with
  | O => None
  | S fuel =>
      match hasEnoughData buffer with
      | None => None
      | Some (inl e) => Some ([], inl e)
      | Some (inr false) => Some ([], inr buffer)
      | Some (inr true) =>
          match processBuffer cb buffer with
          | None => None
          | Some (inl e) => Some ([], inl e)
          | Some (inr (n, evs)) =>
              if (n =? 0)%nat then Some (evs, inr buffer)
              else
                let buffer' := if (n =? length buffer)%nat then [] else drop n buffer in
                match process_loop cb fuel buffer' with
                | None => None
                | Some (evs', r) => Some (evs ++ evs', r)
                end
          end
      end
  end.

Definition process_all (cb : rt_callbacks) (buffer : list byte)
  : option (list rt_event * (logic_error + list byte)) :=
  process_loop cb (S (length buffer)) buffer.

Definition rt_disconnect (cb : rt_callbacks) : list rt_event :=
  if rt_disconnectCallback cb then [RtDisconnectCallback] else [].

(** run(): each entry of [rs] is one iteration of the outer loop, with
    isRunning() at its head and what recv(2) returns.  The result is the
    connection, the rest of the buffer and whether the thread is still in its
    loop when [rs] ends. *)
Fixpoint run (cb : rt_callbacks) (rs : list (bool * os_recv)) (c : TcpConnection)
  (bufferVector : list byte) : option (TcpConnection * list byte * bool * list rt_event) :=
  match rs with
  | [] => Some (c, bufferVector, true, [])
  | (running, r) :: rs =>
      if negb (running && connected c) then Some (c, bufferVector, false, [])
      else
        let '(c', evs, dataSize) := receive r c in
        if 0 <? dataSize then
          match process_all cb (bufferVector ++ recv_bytes r) with
          | None => None
          | Some (e1, inl _) => Some (c', bufferVector ++ recv_bytes r, false, e1 ++ rt_disconnect cb)
          | Some (e1, inr rest) =>
              match run cb rs c' rest with
              | None => None
              | Some (c'', b, live, e2) => Some (c'', b, live, e1 ++ e2)
              end
          end
        else Some (c', bufferVector, false, (RtConn <$> evs) ++ rt_disconnect cb)
  end.

(** ** Memory safety *)

Lemma enough_le (a b : nat) :
  (Some (inr (a <=? b)%nat) : checked bool) = Some (inr true) -> (a <= b)%nat.
Proof. intros H. apply Nat.leb_le. congruence. Qed.

(** What hasEnoughData promises to processBuffer. *)
Lemma hasEnoughData_process cb buffer :
  hasEnoughData buffer = Some (inr true) ->
  exists n evs, processBuffer cb buffer = Some (inr (n, evs)) /\ (0 < n <= length buffer)%nat.
Proof.
  unfold hasEnoughData, processBuffer.
  destruct (Nat.ltb_spec (length buffer) VC_MIN_DATA_PACKET_SIZE) as [|Hmin]; [done|].
  destruct (read_le 0 1 buffer) as [t|]; [|done].
  destruct (packet_type_of_code t) as [[]|]; try done; intros H.
  - unfold hasEnoughDataForData in H. unfold processDataBuffer. rewrite ltb_false in H by done.
    destruct (read_le sizeof_VCHeader 2 buffer) as [n|]; [|done].
    destruct (Z.of_nat VC_MAX_DATA_PAYLOAD_SIZE <? n); [done|].
    apply enough_le in H. unfold VC_MIN_DATA_PACKET_SIZE in H.
    rewrite sub_bytes_Some by done. unfold sizeof_VCDataPacket, sizeof_VCHeader in *.
    destruct (read_le_is_Some 1 8 buffer) as [id ->]; [lia|]. do 2 eexists. split; [done | lia].
  - apply enough_le in H. unfold VC_MIN_RESEND_REQUEST_SIZE in H.
    unfold processResendRequestBuffer. unfold sizeof_VCResendRequest, sizeof_VCHeader in *.
    destruct (read_le_is_Some (1 + 8) 8 buffer) as [id ->]; [lia|]. do 2 eexists. split; [done | lia].
  - unfold hasEnoughDataForMissingNotify in H. unfold processMissingNotifyBuffer.
    destruct (Nat.ltb_spec (length buffer) VC_MIN_MISSING_NOTIFY_SIZE); [done|].
    destruct (read_le sizeof_VCHeader 1 buffer) as [n|]; [|done].
    apply enough_le in H. unfold sizeof_VCHeader in *.
    destruct (read_ids_is_Some (1 + 8 + 1) (Z.to_nat n) buffer) as [ids ->]; [lia|].
    do 2 eexists. split; [done | lia].
Qed.

Lemma hasEnoughData_total buffer : hasEnoughData buffer <> None.
Proof.
  unfold hasEnoughData.
  destruct (Nat.ltb_spec (length buffer) VC_MIN_DATA_PACKET_SIZE) as [|Hmin]; [done|].
  unfold VC_MIN_DATA_PACKET_SIZE, sizeof_VCDataPacket, sizeof_VCHeader in Hmin.
  destruct (read_le_is_Some 0 1 buffer) as [t ->]; [lia|].
  destruct (packet_type_of_code t) as [[]|]; try done.
  - unfold hasEnoughDataForData.
    destruct (read_le_is_Some sizeof_VCHeader 2 buffer) as [n ->]; [unfold sizeof_VCHeader; lia|].
    by repeat case_match.
  - unfold hasEnoughDataForMissingNotify. case_match; [done|].
    by destruct (read_le_is_Some sizeof_VCHeader 1 buffer) as [n ->]; [unfold sizeof_VCHeader; lia|].
Qed.

Lemma drop_processed (n : nat) (buffer : list byte) :
  (if (n =? length buffer)%nat then [] else drop n buffer) = drop n buffer.
Proof. destruct (Nat.eqb_spec n (length buffer)) as [->|]; [by rewrite drop_all | done]. Qed.

Lemma process_loop_fuel cb fuel buffer :
  (length buffer < fuel)%nat ->
  process_loop cb fuel buffer = process_all cb buffer /\ process_loop cb fuel buffer <> None.
Proof.
  unfold process_all. revert buffer.
  induction fuel as [fuel IH] using lt_wf_ind; intros buffer Hlt.
  destruct fuel as [|fuel]; [lia|]. cbn [process_loop].
  destruct (hasEnoughData buffer) as [[e|[]]|] eqn:He; try done.
  - destruct (hasEnoughData_process cb buffer He) as (n & evs & -> & Hn).
    destruct (Nat.eqb_spec n 0); [lia|]. rewrite drop_processed.
    assert (Hd : (length (drop n buffer) < length buffer)%nat) by (rewrite length_drop; lia).
    destruct (IH fuel ltac:(lia) (drop n buffer) ltac:(lia)) as [E1 Hs].
    destruct (IH (length buffer) ltac:(lia) (drop n buffer) ltac:(lia)) as [E2 _].
    rewrite E2, <- E1. split; [done|].
    by destruct (process_loop cb fuel (drop n buffer)) as [[]|].
  - by destruct (hasEnoughData_total buffer).
Qed.

Lemma process_all_unfold cb buffer :
  process_all cb buffer =
    match hasEnoughData buffer with
    | None => None
    | Some (inl e) => Some ([], inl e)
    | Some (inr false) => Some ([], inr buffer)
    | Some (inr true) =>
        match processBuffer cb buffer with
        | Some (inr (n, evs)) => (fun r => (evs ++ r.1, r.2)) <$> process_all cb (drop n buffer)
        | _ => None
        end
    end.
Proof.
  unfold process_all at 1. cbn [process_loop].
  destruct (hasEnoughData buffer) as [[e|[]]|] eqn:He; try done.
  destruct (hasEnoughData_process cb buffer He) as (n & evs & -> & Hn).
  destruct (Nat.eqb_spec n 0); [lia|]. rewrite drop_processed.
  destruct (process_loop_fuel cb (length buffer) (drop n buffer)) as [-> _];
    [rewrite length_drop; lia|].
  by destruct (process_all cb (drop n buffer)) as [[]|].
Qed.

(** The legacy read thread never reads outside the bytes it received and
    its processing loop terminates, whatever the peer sent: any byte sequence is
    either processed or answered with a std::logic_error that run() catches. *)
Theorem process_all_total (cb : rt_callbacks) (buffer : list byte) :
  exists evs r, process_all cb buffer = Some (evs, r).
Proof.
  destruct (process_loop_fuel cb (S (length buffer)) buffer) as [_ Hs]; [lia|].
  fold (process_all cb buffer) in Hs.
  destruct (process_all cb buffer) as [[evs r]|]; [by eauto | done].
Qed.

(** ** The loop implements the stream-parser interface, but for MISSING_NOTIFY *)

Definition rt_packet_events (cb : rt_callbacks) (p : packet) : list rt_event :=
  match p with
  | PktData id payload => if rt_dataCallback cb then [RtData id payload] else []
  | PktResendRequest _ missing => if rt_resendRequestCallback cb then [RtResendRequest missing] else []
  | PktMissingNotify ids => if rt_missingNotifyCallback cb then [RtMissingNotify ids] else []
  end.

Definition not_missing_notify (p : packet) : Prop :=
  match p with PktMissingNotify _ => False | _ => True end.

Lemma process_complete cb p rest :
  packet_ok p -> not_missing_notify p ->
  hasEnoughData (encode_packet p ++ rest) = Some (inr true)
  /\ processBuffer cb (encode_packet p ++ rest)
     = Some (inr (length (encode_packet p), rt_packet_events cb p)).
Proof.
  intros Hok Hn. pose proof (encode_packet_min p Hok) as Hmin.
  unfold hasEnoughData, processBuffer.
  rewrite ltb_false, read_type, packet_type_of_to_code by (rewrite length_app; lia).
  destruct p as [id payload|id missing|ids]; [| |done];
    unfold packet_ok, packet_type, encode_packet, rt_packet_events in *.
  - destruct Hok as [Hid Hl]. unfold hasEnoughDataForData, processDataBuffer.
    rewrite ltb_false, read_data_length by (done || rewrite length_app; lia).
    destruct (Z.ltb_spec (Z.of_nat VC_MAX_DATA_PAYLOAD_SIZE) (Z.of_nat (length payload))); [lia|].
    rewrite Nat2Z.id, sub_data_payload, read_data_id, length_encode_data by done. split; [|done].
    do 2 f_equal. apply Nat.leb_le. rewrite length_app, length_encode_data.
    unfold VC_MIN_DATA_PACKET_SIZE. lia.
  - destruct Hok as [Hid Hm]. unfold hasEnoughDataForResendRequest, processResendRequestBuffer.
    rewrite read_missing_id, length_encode_resend_request by done. done.
Qed.

Lemma process_incomplete p buffer :
  packet_ok p -> not_missing_notify p -> strict_prefix buffer (encode_packet p) ->
  hasEnoughData buffer = Some (inr false).
Proof.
  intros Hok Hnm (l & Hne & He).
  assert (Hlen : (length buffer < length (encode_packet p))%nat).
  { rewrite He, length_app. destruct l; simpl; [done | lia]. }
  assert (Hread : forall off n, (off + n <= length buffer)%nat ->
            read_le off n buffer = read_le off n (encode_packet p ++ [])).
  { intros off n Hn. rewrite app_nil_r, He. symmetry. by apply read_le_app. }
  unfold hasEnoughData.
  destruct (Nat.ltb_spec (length buffer) VC_MIN_DATA_PACKET_SIZE) as [|Hmin]; [done|].
  unfold VC_MIN_DATA_PACKET_SIZE, sizeof_VCDataPacket in Hmin.
  rewrite Hread, read_type, packet_type_of_to_code by lia.
  destruct p as [id payload|id missing|ids]; [| |done]; unfold packet_ok, packet_type, encode_packet in *.
  - destruct Hok as [Hid Hl]. rewrite length_encode_data in Hlen.
    unfold hasEnoughDataForData, VC_MIN_DATA_PACKET_SIZE.
    rewrite ltb_false by (unfold sizeof_VCDataPacket; lia).
    rewrite Hread, read_data_length by (done || lia).
    destruct (Z.ltb_spec (Z.of_nat VC_MAX_DATA_PAYLOAD_SIZE) (Z.of_nat (length payload))); [lia|].
    do 2 f_equal. apply Nat.leb_gt. lia.
  - rewrite length_encode_resend_request in Hlen. unfold hasEnoughDataForResendRequest.
    do 2 f_equal. by apply Nat.leb_gt.
Qed.

Section rt_stream.
Context (cb : rt_callbacks).

#[export] Instance rt_parser : StreamParser (list byte) packet rt_event := {|
  sp_view := id;
  sp_wf := fun _ => True;
  sp_feed := fun bs b => b ++ bs;
  sp_parse := fun b => match process_all cb b with Some (evs, inr b') => Some (b', evs) | _ => None end;
  sp_enc := encode_packet;
  sp_ok := fun p => packet_ok p /\ not_missing_notify p;
  sp_ev := rt_packet_events cb;
|}.

#[export] Instance rt_parser_laws : StreamParserLaws (list byte) packet rt_event.
Proof.
  split; cbn [sp_view sp_wf sp_feed sp_parse sp_enc sp_ok sp_ev rt_parser]; unfold id.
  - done.
  - intros p b [Hok Hn] _ Hpre. rewrite process_all_unfold.
    by rewrite (process_incomplete p b Hok Hn Hpre).
  - intros b _ ->. done.
  - intros p rest b [Hok Hn] _ ->. exists rest. split; [done|]. split; [done|].
    destruct (process_complete cb p rest Hok Hn) as [He Hp].
    rewrite (process_all_unfold cb (encode_packet p ++ rest)), He, Hp, drop_app_length.
    by destruct (process_all cb rest) as [[e [|]]|].
  - intros p [Hok _] Hn. pose proof (encode_packet_min p Hok) as Hmin. rewrite Hn in Hmin.
    unfold VC_MIN_DATA_PACKET_SIZE, sizeof_VCDataPacket in Hmin. simpl in Hmin. lia.
Qed.

Lemma run_feed chunks c b :
  connected c = true -> socketFd c <> -1 -> Forall (fun bs => bs <> []) chunks ->
  feed_chunks chunks b <> None ->
  run cb ((fun bs => (true, RecvOk bs)) <$> chunks) c b
  = (fun r => (c, r.1, true, r.2)) <$> feed_chunks chunks b.
Proof.
  intros Hc Hfd Hne. revert b. induction Hne as [|bs chunks Hbs Hne IH]; intros b Hs; [done|].
  rewrite fmap_cons. cbn [run feed_chunks sp_parse sp_feed rt_parser] in *. rewrite Hc.
  cbn [andb negb]. unfold receive. rewrite Hc.
  destruct (Z.eqb_spec (socketFd c) (-1)); [done|]. cbn [andb negb].
  unfold RecvTcpData. destruct bs as [|x bs]; [done|].
  destruct (Z.eqb_spec (Z.of_nat (length (x :: bs))) (-1)); [lia|].
  destruct (Z.ltb_spec 0 (Z.of_nat (length (x :: bs)))); [|simpl in *; lia].
  unfold recv_bytes in *. destruct (process_all cb (b ++ x :: bs)) as [[e1 [|b1]]|]; [done| |done].
  destruct (feed_chunks chunks b1) as [[b2 e2]|] eqn:E; [|done].
  rewrite (IH b1), E by (by rewrite E). done.
Qed.

(** On a stream of DATA and RESEND_REQUEST packets the legacy thread makes
    the callbacks of exactly those packets, in order, however the bytes are
    cut, and keeps running: the same events as TcpVCIoThread reports. *)
Theorem run_reports_packets (ps : list packet) (chunks : list (list byte)) (c : TcpConnection) :
  connected c = true -> socketFd c <> -1 ->
  Forall packet_ok ps -> Forall not_missing_notify ps ->
  Forall (fun bs => bs <> []) chunks ->
  concat chunks = concat (encode_packet <$> ps) ->
  run cb ((fun bs => (true, RecvOk bs)) <$> chunks) c []
  = Some (c, [], true, concat (rt_packet_events cb <$> ps)).
Proof.
  intros Hc Hfd Hok Hnm Hne Hcat.
  destruct (stream_chunks (St := list byte) ps chunks []) as (b & Hf & _ & Hv); try done.
  { apply Forall_and. by split. }
  cbn in Hv. subst b. rewrite run_feed; [|done|done|done|by rewrite Hf].
  by rewrite Hf.
Qed.

(** The legacy thread waits for the full 522 bytes of the struct although
    a MISSING_NOTIFY with fewer ids is sent without the unused slots: it stays
    unprocessed in the buffer until later packets have filled it up, while
    TcpVCIoThread reports it at once. *)
Theorem short_missing_notify_stalls (ids : list Z) (rest : list byte) (i : Z) (icb : io_callbacks) :
  packet_ok (PktMissingNotify ids) ->
  (length (encode_missing_notify ids ++ rest) < VC_MIN_MISSING_NOTIFY_SIZE)%nat ->
  process_all cb (encode_missing_notify ids ++ rest)
  = Some ([], inr (encode_missing_notify ids ++ rest))
  /\ exists b, parse_packet icb i (mkReadBuffer (encode_missing_notify ids ++ rest) 0)
               = PContinue b (packet_events icb i (PktMissingNotify ids)).
Proof.
  intros Hok Hl. split.
  - rewrite process_all_unfold. unfold hasEnoughData.
    change (encode_missing_notify ids) with (encode_packet (PktMissingNotify ids)) in *.
    pose proof (encode_packet_min _ Hok) as Hmin.
    rewrite ltb_false, read_type, packet_type_of_to_code by (rewrite length_app; lia).
    cbn [packet_type]. unfold hasEnoughDataForMissingNotify.
    destruct (Nat.ltb_spec (length (encode_packet (PktMissingNotify ids) ++ rest)) VC_MIN_MISSING_NOTIFY_SIZE);
      [done | lia].
  - eexists. by apply (parse_packet_complete icb i _ (PktMissingNotify ids) rest).
Qed.
End rt_stream.

Definition all_rt_callbacks : rt_callbacks := mkRtCallbacks true true true true.

(** The callback of the legacy thread for the same packet. *)
Definition as_rt_event (e : io_event) : list rt_event :=
  match e with
  | EvData id payload _ => [RtData id payload]
  | EvResendRequest missing => [RtResendRequest missing]
  | EvMissingNotify ids => [RtMissingNotify ids]
  | EvConn e => [RtConn e]
  | EvVcDisconnectCallback => [RtDisconnectCallback]
  end.

Lemma same_packet_events i ps :
  concat (as_rt_event <$> concat (packet_events all_callbacks i <$> ps)) = concat (rt_packet_events all_rt_callbacks <$> ps).
Proof.
  induction ps as [|p ps IH]; [done|]. csimpl. rewrite fmap_app, concat_app, IH. by destruct p.
Qed.

(** C37. The two receive paths are equivalent on DATA and RESEND_REQUEST packets.
    Given the same part of a stream of them, up to any point and cut in any two
    ways, TcpVCIoThread (one offset buffer, consumed in place) and the older
    TcpVCReadThread (erased from the front) make the same callbacks in the same
    order, those of the packets that are complete, and keep the same unprocessed
    bytes.  On MISSING_NOTIFY they differ (short_missing_notify_stalls). *)
Theorem readers_equivalent (ps : list packet) (polls : list (list (list byte))) (chunks : list (list byte))
  (rest : list byte) (i : Z) (c : TcpConnection) :
  connected c = true -> socketFd c <> -1 -> Forall packet_ok ps -> Forall not_missing_notify ps ->
  Forall (Forall (fun bs => bs <> [])) polls -> Forall (fun bs => bs <> []) chunks ->
  concat ((@concat byte) <$> polls) = concat chunks ->
  concat chunks ++ rest = concat (encode_packet <$> ps) ->
  exists b evs, read_polls all_callbacks i polls c emptyReadBuffer = Some (Some c, b, evs)
    /\ run all_rt_callbacks ((fun bs => (true, RecvOk bs)) <$> chunks) c [] = Some (c, begin b, true, concat (as_rt_event <$> evs))
    /\ exists done waiting, ps = done ++ waiting /\ evs = concat (packet_events all_callbacks i <$> done)
         /\ begin b ++ rest = concat (encode_packet <$> waiting)
         /\ match waiting with [] => begin b = [] | p :: _ => strict_prefix (begin b) (encode_packet p) end.
Proof.
  intros Hc Hfd Hok Hnm Hne1 Hne2 Esame Ecat.
  assert (Hstart : waits_for (H := io_parser all_callbacks i) ps [] /\ waits_for (H := rt_parser all_rt_callbacks) ps []).
  { destruct ps as [|p ps']; [done|]. apply Forall_cons in Hok as [Hp _].
    assert (Hs : strict_prefix [] (encode_packet p)).
    { exists (encode_packet p). split; [|done]. intros E. pose proof (encode_packet_min p Hp) as Hmin.
      rewrite E in Hmin. unfold VC_MIN_DATA_PACKET_SIZE, sizeof_VCDataPacket in Hmin. cbn in Hmin. lia. }
    by split. }
  destruct Hstart as [Hs1 Hs2].
  destruct (feed_waits (HL := io_parser_laws all_callbacks i) ps ((@concat byte) <$> polls) emptyReadBuffer rest
              Hok rb_wf_empty Hs1) as (ps1 & ps2 & b & E1 & Hf & _ & Hv & Hw).
  { cbn. by rewrite Esame. }
  destruct (feed_waits (HL := rt_parser_laws all_rt_callbacks) ps chunks [] rest) as (qs1 & qs2 & left & E2 & Hf2 & _ & Hv2 & Hw2);
    [by apply Forall_and | done | done | done |].
  assert (Hfront : forall l1 l2 v, ps = l1 ++ l2 -> v ++ rest = concat (encode_packet <$> l2) ->
            concat (encode_packet <$> l1) ++ v = concat chunks).
  { intros l1 l2 v El Ev. apply (app_inv_tail rest). by rewrite Ecat, <- app_assoc, Ev, El, fmap_app, concat_app. }
  destruct (waits_unique (H := io_parser all_callbacks i) ps ps1 ps2 qs1 qs2 (begin b) left E1 E2 Hw Hw2) as [<- <-].
  { change (concat (encode_packet <$> ps1) ++ begin b = concat (encode_packet <$> qs1) ++ left).
    etrans; [exact (Hfront ps1 ps2 _ E1 Hv)|]. symmetry. exact (Hfront qs1 qs2 _ E2 Hv2). }
  exists b, (concat (packet_events all_callbacks i <$> ps1)). split_and!.
  - rewrite read_polls_feed by done. by rewrite Hf.
  - rewrite run_feed; [|done|done|done|by rewrite Hf2]. rewrite Hf2. cbn. by rewrite same_packet_events.
  - exists ps1, ps2. by split_and!.
Qed.

Lemma run_reports_packets_witness :
  run all_rt_callbacks
    ((fun bs => (true, RecvOk bs)) <$> [take 3 (encode_data 9 [Byte.x41]); drop 3 (encode_data 9 [Byte.x41])])
    reused_fd_conn []
  = Some (reused_fd_conn, [], true, concat (rt_packet_events all_rt_callbacks <$> [PktData 9 [Byte.x41]])).
Proof.
  apply (run_reports_packets all_rt_callbacks [PktData 9 [Byte.x41]]).
  - reflexivity.
  - discriminate.
  - repeat constructor; unfold is_u64; cbn; unfold VC_MAX_DATA_PAYLOAD_SIZE; lia.
  - repeat constructor.
  - repeat constructor; discriminate.
  - reflexivity.
Defined.

Lemma short_missing_notify_stalls_witness :
  process_all all_rt_callbacks (encode_missing_notify [7] ++ encode_data 3 [Byte.x41])
  = Some ([], inr (encode_missing_notify [7] ++ encode_data 3 [Byte.x41])).
Proof.
  refine (proj1 (short_missing_notify_stalls all_rt_callbacks [7] (encode_data 3 [Byte.x41]) 0 all_callbacks _ _)).
  - repeat constructor; unfold is_u64; cbn; unfold VC_MAX_MISSING_IDS_PER_NOTIFY; lia.
  - vm_compute. lia.
Defined.

(** Two packets and the front of a third, cut differently for the two threads. *)
Lemma readers_equivalent_witness :
  exists b evs,
    read_polls all_callbacks 4 [[take 5 (encode_data 9 [Byte.x41])];
                                [drop 5 (encode_data 9 [Byte.x41]) ++ encode_resend_request 1 7; [Byte.x00]]]
      reused_fd_conn emptyReadBuffer = Some (Some reused_fd_conn, b, evs)
    /\ run all_rt_callbacks
        ((fun bs => (true, RecvOk bs)) <$> [encode_data 9 [Byte.x41] ++ take 1 (encode_resend_request 1 7);
                                           drop 1 (encode_resend_request 1 7) ++ [Byte.x00]])
        reused_fd_conn []
      = Some (reused_fd_conn, begin b, true, concat (as_rt_event <$> evs)).
Proof.
  destruct (readers_equivalent [PktData 9 [Byte.x41]; PktResendRequest 1 7; PktData 10 [Byte.x42]]
    [[take 5 (encode_data 9 [Byte.x41])];
     [drop 5 (encode_data 9 [Byte.x41]) ++ encode_resend_request 1 7; [Byte.x00]]]
    [encode_data 9 [Byte.x41] ++ take 1 (encode_resend_request 1 7);
     drop 1 (encode_resend_request 1 7) ++ [Byte.x00]]
    (drop 1 (encode_data 10 [Byte.x42])) 4 reused_fd_conn) as (b & evs & E1 & E2 & _).
  - reflexivity.
  - discriminate.
  - repeat constructor; unfold is_u64; cbn; unfold VC_MAX_DATA_PAYLOAD_SIZE; lia.
  - repeat constructor.
  - repeat constructor; discriminate.
  - repeat constructor; discriminate.
  - reflexivity.
  - reflexivity.
  - exists b, evs. split; [exact E1 | exact E2].
Defined.
