(* ===== verification/Fifo.v ===== *)
(** * Interface: a bounded first-in first-out queue

    What the receive queues promise to the threads on both sides: an enqueue
    appends or, when the queue is full, refuses and changes nothing; a dequeue
    takes the oldest element.  [drain_queue] is the loop
    [while (q.try_dequeue(item)) ...] of the consumer. *)

From S2P Require Import Prelude.

Class BoundedFifo (A Q : Type) := {
  bf_capacity : nat;
  bf_wf : Q -> Prop;
  bf_view : Q -> list A;
  bf_enqueue : A -> Q -> Q * bool;
  bf_dequeue : Q -> option (A * Q);
}.

Class BoundedFifoLaws (A Q : Type) `{BoundedFifo A Q} := {
  bf_bound q : bf_wf q -> (length (bf_view q) <= bf_capacity)%nat;
  bf_enqueue_law x q :
    bf_wf q ->
    bf_wf (bf_enqueue x q).1
    /\ (bf_enqueue x q).2 = (length (bf_view q) <? bf_capacity)%nat
    /\ bf_view (bf_enqueue x q).1
       = bf_view q ++ (if (length (bf_view q) <? bf_capacity)%nat then [x] else []);
  bf_dequeue_law q :
    bf_wf q ->
    match bf_view q with
    | [] => bf_dequeue q = None
    | x :: l => exists q', bf_dequeue q = Some (x, q') /\ bf_wf q' /\ bf_view q' = l
    end;
}.

Section fifo.
Context {A Q : Type} `{HL : BoundedFifoLaws A Q}.

(** [fuel] bounds the number of successful dequeues. *)
Fixpoint drain_queue (fuel : nat) (q : Q) : option (list A * Q) :=
  match fuel with
  | O => None
  | S fuel =>
      match bf_dequeue q with
      | None => Some ([], q)
      | Some (x, q') =>
          match drain_queue fuel q' with
          | None => None
          | Some (xs, q'') => Some (x :: xs, q'')
          end
      end
  end.

(** The capacity bounds the loop. *)
Definition drain_all (q : Q) : option (list A * Q) := drain_queue (S bf_capacity) q.

Lemma drain_queue_view fuel q :
  bf_wf q -> (length (bf_view q) < fuel)%nat ->
  exists q', drain_queue fuel q = Some (bf_view q, q') /\ bf_wf q' /\ bf_view q' = [].
Proof.
  revert q. induction fuel as [|fuel IH]; intros q Hwf Hlt; [lia|]. cbn [drain_queue].
  pose proof (bf_dequeue_law q Hwf) as Hd.
  destruct (bf_view q) as [|x l] eqn:E.
  - rewrite Hd. eauto.
  - destruct Hd as (q' & -> & Hwf' & Hl). simpl in Hlt.
    destruct (IH q' Hwf' ltac:(rewrite Hl; lia)) as (q'' & -> & ? & ?).
    rewrite Hl. eauto.
Qed.

Lemma drain_all_view q :
  bf_wf q -> exists q', drain_all q = Some (bf_view q, q') /\ bf_wf q' /\ bf_view q' = [].
Proof. intros Hwf. apply drain_queue_view; [done|]. pose proof (bf_bound q Hwf). lia. Qed.

(** Enqueueing a whole list that fits. *)
Fixpoint enqueue_list (xs : list A) (q : Q) : Q :=
  match xs with
  | [] => q
  | x :: xs => enqueue_list xs (bf_enqueue x q).1
  end.

Lemma enqueue_list_view xs q :
  bf_wf q -> (length (bf_view q) + length xs <= bf_capacity)%nat ->
  bf_wf (enqueue_list xs q) /\ bf_view (enqueue_list xs q) = bf_view q ++ xs.
Proof.
  revert q. induction xs as [|x xs IH]; intros q Hwf Hl; simpl in *.
  - by rewrite app_nil_r.
  - destruct (bf_enqueue_law x q Hwf) as (Hwf1 & _ & Hv).
    destruct (Nat.ltb_spec (length (bf_view q)) bf_capacity); [|lia].
    destruct (IH (bf_enqueue x q).1 Hwf1) as [Hwf2 Hv2].
    { rewrite Hv, length_app. simpl. lia. }
    split; [done|]. rewrite Hv2, Hv. by rewrite <- app_assoc.
Qed.
End fifo.
