(* ===== verification/SpscQueue.v ===== *)
(** * The single-producer single-consumer ring (src/common/SpscQueue.h)

    First the operations run to completion, which implement the bounded FIFO
    interface; then the same code split at its atomic accesses, one producer
    and one consumer interleaved, in the history view where [enqueued] and
    [dequeued] record what was published and taken. *)

From S2P Require Import Prelude Fifo.

Section spsc.
(** [moved] is what std::move leaves in the slot. *)
Context {T : Type} (moved : T -> T) (Capacity : nat) (HCapacity : (0 < Capacity)%nat).

Record SpscQueue : Type := mkSpscQueue {
  writePos : nat;
  readPos : nat;
  buffer : list T;
}.

Definition newSpscQueue (dflt : T) : SpscQueue := mkSpscQueue 0 0 (replicate Capacity dflt).

Definition try_enqueue (item : T) (q : SpscQueue) : SpscQueue * bool :=
  let w := writePos q in
  let nextW := ((w + 1) mod Capacity)%nat in
  if (nextW =? readPos q)%nat then (q, false)
  else (mkSpscQueue nextW (readPos q) (<[w := item]> (buffer q)), true).

(** [None] when it returns false. *)
Definition try_dequeue (q : SpscQueue) : option (T * SpscQueue) :=
  let r := readPos q in
  if (r =? writePos q)%nat then None
  else match buffer q !! r with
  | None => None
  | Some item =>
      Some (item, mkSpscQueue (writePos q) ((r + 1) mod Capacity) (<[r := moved item]> (buffer q)))
  end.

Definition empty (q : SpscQueue) : bool := (readPos q =? writePos q)%nat.

(** ** The ring as absolute positions

    [R] and [W] count the dequeues and enqueues ever made. *)

Definition ring (R W : nat) (items : list T) (buf : list T) : Prop :=
  length buf = Capacity /\ (W = R + length items)%nat /\ (length items < Capacity)%nat
  /\ forall k x, items !! k = Some x -> buf !! ((R + k) mod Capacity)%nat = Some x.

Lemma mod_next n : ((n mod Capacity + 1) mod Capacity = (n + 1) mod Capacity)%nat.
Proof. rewrite Nat.Div0.add_mod_idemp_l. done. Qed.

Lemma mod_eq_close a b :
  (a <= b)%nat -> (b - a < Capacity)%nat -> (b mod Capacity = a mod Capacity)%nat -> a = b.
Proof.
  intros H1 H2 H3.
  pose proof (Nat.div_mod_eq a Capacity) as Ea. pose proof (Nat.div_mod_eq b Capacity) as Eb.
  rewrite H3 in Eb. pose proof (Nat.Div0.div_le_mono a b Capacity H1) as Hd.
  destruct (decide (b / Capacity = a / Capacity)%nat) as [E|N]; [rewrite E in Eb; lia|].
  assert (b / Capacity >= a / Capacity + 1)%nat by lia. nia.
Qed.

Lemma ring_full R W items buf :
  ring R W items buf ->
  ((W mod Capacity + 1) mod Capacity =? R mod Capacity)%nat = (S (length items) =? Capacity)%nat.
Proof.
  intros (Hb & -> & Hl & _). rewrite mod_next.
  destruct (Nat.eqb_spec (S (length items)) Capacity) as [E|N].
  - apply Nat.eqb_eq. replace (R + length items + 1)%nat with (R + 1 * Capacity)%nat by lia.
    by rewrite Nat.Div0.mod_add.
  - apply Nat.eqb_neq. intros E. apply mod_eq_close in E; lia.
Qed.

Lemma ring_empty R W items buf :
  ring R W items buf -> (R mod Capacity =? W mod Capacity)%nat = (length items =? 0)%nat.
Proof.
  intros (Hb & -> & Hl & _). destruct (Nat.eqb_spec (length items) 0) as [->|N].
  - rewrite Nat.add_0_r. by rewrite Nat.eqb_refl.
  - apply Nat.eqb_neq. intros E. symmetry in E. apply mod_eq_close in E; lia.
Qed.

Lemma ring_slot R k : ((R + k) mod Capacity < Capacity)%nat.
Proof. apply Nat.mod_upper_bound. lia. Qed.

(** Writing the free slot disturbs no queued element. *)
Lemma ring_write R W items buf x :
  ring R W items buf -> ring R W items (<[(W mod Capacity)%nat := x]> buf).
Proof.
  intros (Hb & -> & Hl & Hi). split_and!; [by rewrite length_insert | done | done |].
  intros k y Hk. rewrite list_lookup_insert_ne; [by apply Hi|].
  apply lookup_lt_Some in Hk as Hk'. intros E. apply (mod_eq_close (R + k)) in E; lia.
Qed.

Lemma ring_publish R W items buf x :
  ring R W items buf -> (S (length items) < Capacity)%nat ->
  buf !! (W mod Capacity)%nat = Some x -> ring R (W + 1) (items ++ [x]) buf.
Proof.
  intros (Hb & -> & Hl & Hi) Hf Hx. unfold ring. rewrite length_app. simpl.
  split_and!; [done | lia | lia |].
  intros k y Hk. apply lookup_app_Some in Hk as [Hk|[Hge Hk]]; [by apply Hi|].
  apply list_lookup_singleton_Some in Hk as [Hz <-].
  by replace k with (length items) by lia.
Qed.

Lemma ring_take R W x items buf y :
  ring R W (x :: items) buf ->
  buf !! (R mod Capacity)%nat = Some x
  /\ ring (R + 1) W items (<[(R mod Capacity)%nat := y]> buf).
Proof.
  intros (Hb & -> & Hl & Hi). simpl in *. split.
  - specialize (Hi 0%nat x eq_refl). by rewrite Nat.add_0_r in Hi.
  - split_and!; [by rewrite length_insert | lia | lia |].
    intros k z Hk. apply lookup_lt_Some in Hk as Hk'. rewrite list_lookup_insert_ne.
    + replace (R + 1 + k)%nat with (R + S k)%nat by lia. by apply Hi.
    + intros E. symmetry in E. apply mod_eq_close in E; lia.
Qed.

(** ** Refinement of the bounded FIFO *)

Definition spsc_rep (q : SpscQueue) (items : list T) : Prop :=
  exists R W, writePos q = (W mod Capacity)%nat /\ readPos q = (R mod Capacity)%nat
              /\ ring R W items (buffer q).

(** The queued elements, oldest first. *)
Definition contents (q : SpscQueue) : list T :=
  omap (fun k => buffer q !! ((readPos q + k) mod Capacity)%nat)
       (seq 0 ((writePos q + Capacity - readPos q) mod Capacity)).

Lemma spsc_rep_new dflt : spsc_rep (newSpscQueue dflt) [].
Proof.
  exists 0%nat, 0%nat. cbn. rewrite Nat.Div0.mod_0_l. split_and!; [done | done |].
  unfold ring. rewrite length_replicate. split_and!; simpl; [done | lia | lia | intros ? ? H; by rewrite lookup_nil in H].
Qed.

Lemma omap_lookup_seq (l : list T) (f : nat -> option T) (n : nat) :
  (forall k, (k < length l)%nat -> f (n + k)%nat = l !! k) -> omap f (seq n (length l)) = l.
Proof.
  revert n. induction l as [|x l IH]; intros n Hf; [done|]. cbn [length seq omap list_omap].
  rewrite <- (Nat.add_0_r n) at 1. rewrite Hf by (simpl; lia). simpl. f_equal.
  apply IH. intros k Hk. rewrite Nat.add_succ_comm. rewrite Hf by (simpl; lia). done.
Qed.

Lemma spsc_rep_contents q items : spsc_rep q items -> contents q = items.
Proof.
  intros (R & W & Hw & Hr & Hring). destruct Hring as (Hb & -> & Hl & Hi).
  unfold contents. rewrite Hw, Hr.
  assert (En : (((R + length items) mod Capacity + Capacity - R mod Capacity) mod Capacity
               = length items)%nat).
  { pose proof (Nat.mod_upper_bound R Capacity). pose proof (Nat.mod_upper_bound (R + length items) Capacity).
    pose proof (Nat.div_mod_eq R Capacity) as Ea.
    pose proof (Nat.div_mod_eq (R + length items) Capacity) as Eb.
    pose proof (Nat.Div0.div_le_mono R (R + length items) Capacity ltac:(lia)) as Hd.
    destruct (decide ((R + length items) / Capacity = R / Capacity)%nat) as [E|N].
    - rewrite E in Eb.
      replace ((R + length items) mod Capacity + Capacity - R mod Capacity)%nat
        with (length items + 1 * Capacity)%nat by lia.
      rewrite Nat.Div0.mod_add. by apply Nat.mod_small.
    - assert ((R + length items) / Capacity = R / Capacity + 1)%nat as E by nia.
      rewrite E in Eb.
      replace ((R + length items) mod Capacity + Capacity - R mod Capacity)%nat
        with (length items) by lia.
      by apply Nat.mod_small. }
  rewrite En. apply omap_lookup_seq. intros k Hk.
  rewrite Nat.Div0.add_mod_idemp_l. simpl.
  destruct (lookup_lt_is_Some_2 items k Hk) as [x Hx]. by rewrite Hx, (Hi k x Hx).
Qed.

Lemma try_enqueue_rep x q items :
  spsc_rep q items ->
  spsc_rep (try_enqueue x q).1 (items ++ (if (length items <? Capacity - 1)%nat then [x] else []))
  /\ (try_enqueue x q).2 = (length items <? Capacity - 1)%nat.
Proof.
  intros (R & W & Hw & Hr & Hring). unfold try_enqueue.
  rewrite Hw, Hr, (ring_full R W items (buffer q) Hring).
  pose proof Hring as (Hb & EW & Hl & _).
  destruct (Nat.eqb_spec (S (length items)) Capacity); destruct (Nat.ltb_spec (length items) (Capacity - 1));
    try lia; cbn [fst snd].
  - rewrite app_nil_r. split; [|done]. by exists R, W.
  - split; [|done]. exists R, (W + 1)%nat. cbn. split_and!; [by rewrite mod_next | done |].
    apply ring_publish; [by apply ring_write | lia |].
    apply list_lookup_insert_eq. rewrite Hb. apply Nat.mod_upper_bound. lia.
Qed.

Lemma try_dequeue_rep q items :
  spsc_rep q items ->
  match items with
  | [] => try_dequeue q = None
  | x :: l => exists q', try_dequeue q = Some (x, q') /\ spsc_rep q' l
  end.
Proof.
  intros (R & W & Hw & Hr & Hring). unfold try_dequeue.
  rewrite Hw, Hr, (ring_empty R W items (buffer q) Hring).
  destruct items as [|x l]; [done|]. cbn [length Nat.eqb].
  destruct (ring_take R W x l (buffer q) (moved x) Hring) as [-> Ht].
  eexists. split; [done|]. exists (R + 1)%nat, W. cbn. split_and!; [done | by rewrite mod_next | done].
Qed.

#[export] Instance spsc_fifo : BoundedFifo T SpscQueue := {|
  bf_capacity := Capacity - 1;
  bf_wf := fun q => spsc_rep q (contents q);
  bf_view := contents;
  bf_enqueue := try_enqueue;
  bf_dequeue := try_dequeue;
|}.

#[export] Instance spsc_fifo_laws : BoundedFifoLaws T SpscQueue.
Proof.
  split; cbn [bf_capacity bf_wf bf_view bf_enqueue bf_dequeue spsc_fifo].
  - intros q (R & W & _ & _ & _ & _ & Hl & _). lia.
  - intros x q Hq. destruct (try_enqueue_rep x q _ Hq) as [Hr Hs].
    pose proof (spsc_rep_contents _ _ Hr) as Hc. rewrite Hc. done.
  - intros q Hq. pose proof (try_dequeue_rep q _ Hq) as Hd.
    destruct (contents q) as [|x l]; [done|]. destruct Hd as (q' & Hd & Hr).
    exists q'. pose proof (spsc_rep_contents _ _ Hr) as Hc. rewrite Hc. done.
Qed.

(** A run of operations and what each returns. *)
Inductive spsc_op : Type := OpEnqueue (x : T) | OpDequeue | OpEmpty.
Inductive spsc_result : Type := ResBool (b : bool) | ResItem (x : option T).

Definition run_op (o : spsc_op) (q : SpscQueue) : SpscQueue * spsc_result :=
  match o with
  | OpEnqueue x => let '(q', b) := try_enqueue x q in (q', ResBool b)
  | OpDequeue => match try_dequeue q with
                 | Some (x, q') => (q', ResItem (Some x))
                 | None => (q, ResItem None)
                 end
  | OpEmpty => (q, ResBool (empty q))
  end.

Fixpoint run_ops (os : list spsc_op) (q : SpscQueue) : list spsc_result :=
  match os with
  | [] => []
  | o :: os => let '(q', r) := run_op o q in r :: run_ops os q'
  end.

(** The specification: a list of at most Capacity - 1 elements. *)
Definition spec_op (o : spsc_op) (l : list T) : list T * spsc_result :=
  match o with
  | OpEnqueue x => if (length l <? Capacity - 1)%nat then (l ++ [x], ResBool true)
                   else (l, ResBool false)
  | OpDequeue => (tail l, ResItem (head l))
  | OpEmpty => (l, ResBool (length l =? 0)%nat)
  end.

Fixpoint spec_ops (os : list spsc_op) (l : list T) : list spsc_result :=
  match os with
  | [] => []
  | o :: os => let '(l', r) := spec_op o l in r :: spec_ops os l'
  end.

Lemma run_op_refines o q l :
  spsc_rep q l ->
  spsc_rep (run_op o q).1 (spec_op o l).1 /\ (run_op o q).2 = (spec_op o l).2.
Proof.
  intros Hq. destruct o as [x| |]; cbn [run_op spec_op].
  - destruct (try_enqueue_rep x q l Hq) as [Hr Hs]. destruct (try_enqueue x q) as [q' b]. cbn [fst snd] in *.
    destruct (length l <? Capacity - 1)%nat; [by subst | by rewrite app_nil_r in Hr; subst].
  - pose proof (try_dequeue_rep q l Hq) as Hd. destruct l as [|x l]; [by rewrite Hd|].
    destruct Hd as (q' & -> & Hr). done.
  - split; [done|]. destruct Hq as (R & W & Hw & Hr & Hring). unfold empty.
    cbn. by rewrite Hw, Hr, (ring_empty R W l (buffer q)).
Qed.

(** The ring is a bounded FIFO: from an empty queue, any sequence of
    operations returns what it returns on a list that holds at most
    Capacity - 1 elements: try_enqueue appends or, exactly when the list is
    full, returns false and changes nothing; try_dequeue takes the oldest
    element, or returns false exactly when there is none. *)
Theorem spsc_refines_fifo (dflt : T) (os : list spsc_op) :
  run_ops os (newSpscQueue dflt) = spec_ops os [].
Proof.
  assert (H : forall q l, spsc_rep q l -> run_ops os q = spec_ops os l); [|by apply H, spsc_rep_new].
  induction os as [|o os IH]; intros q l Hq; [done|]. cbn [run_ops spec_ops].
  destruct (run_op_refines o q l Hq) as [Hr Hs].
  destruct (run_op o q), (spec_op o l). cbn in *. subst. f_equal. by apply IH.
Qed.

(** ** One producer and one consumer, interleaved

    A step is one atomic access or one access of the slot.  An acquire load of
    the other side's position may return an old value, but never one older than
    this thread has already seen ([seenR], [seenW]); a position is a count of
    publications and the code's index is its remainder. *)

Inductive producer : Type :=
| PIdle
| PReady (item : T)    (* nextW was not the loaded readPos *)
| PWrote (item : T).   (* buffer[w] written, writePos not yet stored *)

Inductive consumer : Type :=
| CIdle
| CReady               (* r was not the loaded writePos *)
| CRead (item : T).    (* the item moved out, readPos not yet stored *)

Record spsc_state : Type := mkSpscState {
  sbuf : list T;
  enqueued : list T;
  dequeued : list T;
  prod : producer;
  cons : consumer;
  seenR : nat;
  seenW : nat;
}.

Definition posW (s : spsc_state) : nat := length (enqueued s).
Definition posR (s : spsc_state) : nat := length (dequeued s).

Inductive spsc_step : spsc_state -> spsc_state -> Prop :=
| p_check_ok buf e d c sr sw x r :
    (sr <= r <= length d)%nat ->
    ((length e mod Capacity + 1) mod Capacity <> r mod Capacity)%nat ->
    spsc_step (mkSpscState buf e d PIdle c sr sw) (mkSpscState buf e d (PReady x) c r sw)
| p_check_full buf e d c sr sw r :
    (sr <= r <= length d)%nat ->
    ((length e mod Capacity + 1) mod Capacity = r mod Capacity)%nat ->
    spsc_step (mkSpscState buf e d PIdle c sr sw) (mkSpscState buf e d PIdle c r sw)
| p_write buf e d c sr sw x :
    spsc_step (mkSpscState buf e d (PReady x) c sr sw)
              (mkSpscState (<[(length e mod Capacity)%nat := x]> buf) e d (PWrote x) c sr sw)
| p_publish buf e d c sr sw x :
    spsc_step (mkSpscState buf e d (PWrote x) c sr sw)
              (mkSpscState buf (e ++ [x]) d PIdle c sr sw)
| c_check_ok buf e d p sr sw w :
    (sw <= w <= length e)%nat ->
    (length d mod Capacity <> w mod Capacity)%nat ->
    spsc_step (mkSpscState buf e d p CIdle sr sw) (mkSpscState buf e d p CReady sr w)
| c_check_empty buf e d p sr sw w :
    (sw <= w <= length e)%nat ->
    (length d mod Capacity = w mod Capacity)%nat ->
    spsc_step (mkSpscState buf e d p CIdle sr sw) (mkSpscState buf e d p CIdle sr w)
| c_read buf e d p sr sw x :
    buf !! (length d mod Capacity)%nat = Some x ->
    spsc_step (mkSpscState buf e d p CReady sr sw)
              (mkSpscState (<[(length d mod Capacity)%nat := moved x]> buf) e d p (CRead x) sr sw)
| c_publish buf e d p sr sw x :
    spsc_step (mkSpscState buf e d p (CRead x) sr sw)
              (mkSpscState buf e (d ++ [x]) p CIdle sr sw).

Definition spsc_init (s : spsc_state) : Prop :=
  exists dflt, s = mkSpscState (replicate Capacity dflt) [] [] PIdle CIdle 0 0.

(** Where the live slots begin: the consumer's slot is dead once read. *)
Definition base (s : spsc_state) : nat :=
  match cons s with CRead _ => posR s + 1 | _ => posR s end.

Record spsc_inv (s : spsc_state) : Prop := {
  inv_prefix : enqueued s = dequeued s ++ drop (posR s) (enqueued s);
  inv_ring : ring (base s) (posW s) (drop (base s) (enqueued s)) (sbuf s);
  inv_seenR : (seenR s <= posR s)%nat;
  inv_seenW : (posR s <= seenW s <= posW s)%nat;
  inv_room : (posW s + match prod s with PIdle => 1 | _ => 2 end <= seenR s + Capacity)%nat;
  inv_prod : match prod s with
             | PWrote x => sbuf s !! (posW s mod Capacity)%nat = Some x | _ => True end;
  inv_cons : match cons s with
             | CIdle => True
             | CReady => (posR s < seenW s)%nat
             | CRead x => (posR s < seenW s)%nat /\ enqueued s !! posR s = Some x
             end;
}.

Lemma spsc_inv_init s : spsc_init s -> spsc_inv s.
Proof.
  intros (dflt & ->). constructor; unfold base, posR, posW; cbn; try done; try lia.
  unfold ring. rewrite length_replicate.
  split_and!; simpl; [done | lia | lia | intros ? ? H; by rewrite lookup_nil in H].
Qed.

(** The full test is exact with respect to the position that was loaded. *)
Lemma full_test W r :
  (r <= W)%nat -> (W + 1 <= r + Capacity)%nat ->
  ((W mod Capacity + 1) mod Capacity <> r mod Capacity)%nat -> (W + 2 <= r + Capacity)%nat.
Proof.
  intros H1 H2 Hne. rewrite mod_next in Hne.
  destruct (decide (W + 1 = r + 1 * Capacity)%nat) as [E|N]; [|lia].
  rewrite E, Nat.Div0.mod_add in Hne. done.
Qed.

Lemma ring_of_read R W e buf x y :
  ring R W (drop R e) buf -> e !! R = Some x ->
  ring (R + 1) W (drop (R + 1) e) (<[(R mod Capacity)%nat := y]> buf)
  /\ buf !! (R mod Capacity)%nat = Some x.
Proof.
  intros Hr He. rewrite (drop_S e x R He) in Hr. rewrite Nat.add_1_r.
  destruct (ring_take R W x (drop (S R) e) buf y Hr) as [H1 H2].
  by rewrite Nat.add_1_r in H2.
Qed.

Lemma spsc_inv_step s s' : spsc_inv s -> spsc_step s s' -> spsc_inv s'.
Proof.
  intros [Hp Hr HsR HsW Hroom Hprod Hcons] Hs.
  destruct Hs as [buf e d c sr sw x r Hle Hne|buf e d c sr sw r Hle Heq|buf e d c sr sw x
                 |buf e d c sr sw x|buf e d p sr sw w Hle Hne|buf e d p sr sw w Hle Heq
                 |buf e d p sr sw x Hx|buf e d p sr sw x];
    unfold base, posR, posW in *;
    cbn [sbuf enqueued dequeued prod cons seenR seenW] in *.
  - assert (length e + 2 <= r + Capacity)%nat by (apply full_test; lia || done).
    constructor; cbn; unfold base, posR, posW in *; cbn; try done; lia.
  - constructor; cbn; unfold base, posR, posW in *; cbn; try done; lia.
  - constructor; cbn; unfold base, posR, posW in *; cbn; try done.
    + by apply ring_write.
    + apply list_lookup_insert_eq. destruct Hr as (-> & _). apply Nat.mod_upper_bound. lia.
  - assert (Hd : (length d <= length e)%nat) by lia.
    assert (Hb : (match c with CRead _ => length d + 1 | _ => length d end <= length e)%nat)
      by (destruct c; lia).
    constructor; cbn; unfold base, posR, posW in *; cbn; rewrite ?length_app; cbn [length];
      try done; try lia.
    + rewrite drop_app_le by done. rewrite app_assoc, <- Hp. done.
    + rewrite drop_app_le by done. apply ring_publish; [done | | done].
      destruct Hr as (_ & HW & _). rewrite length_drop in *. destruct c; lia.
    + destruct c; [done | lia |]. destruct Hcons as [? Hx]. split; [lia|]. by apply lookup_app_l_Some.
  - constructor; cbn; unfold base, posR, posW in *; cbn; try done; try lia.
    destruct (decide (w = length d)) as [->|]; [done | lia].
  - constructor; cbn; unfold base, posR, posW in *; cbn; try done; lia.
  - destruct (lookup_lt_is_Some_2 e (length d)) as [y Hy]; [lia|].
    destruct (ring_of_read _ _ _ _ _ (moved x) Hr Hy) as [Hr' Hbuf].
    rewrite Hx in Hbuf. injection Hbuf as <-.
    constructor; cbn; unfold base, posR, posW in *; cbn; try done; try lia.
    destruct p as [|z|z]; try done. rewrite list_lookup_insert_ne; [done|].
    intros E. symmetry in E. apply mod_eq_close in E; lia.
  - destruct Hcons as [Hlt Hx].
    constructor; cbn; unfold base, posR, posW in *; cbn; rewrite ?length_app; cbn [length];
      try done; try lia.
    rewrite Nat.add_1_r, <- app_assoc. rewrite Hp at 1. by rewrite (drop_S e x (length d) Hx).
Qed.

Lemma spsc_inv_reachable s : reachable spsc_init spsc_step s -> spsc_inv s.
Proof. apply invariant_reachable; eauto using spsc_inv_init, spsc_inv_step. Qed.

(** C7. Concurrent correctness: in every reachable state of the two threads
    the items taken are a prefix of the items published, so nothing is lost,
    duplicated, reordered or overwritten before it is taken, and at most
    Capacity - 1 items are in flight. *)
Theorem spsc_concurrent_fifo (s : spsc_state) :
  reachable spsc_init spsc_step s ->
  dequeued s `prefix_of` enqueued s
  /\ (length (enqueued s) - length (dequeued s) <= Capacity - 1)%nat.
Proof.
  intros [Hp Hr HsR HsW Hroom Hprod Hcons]%spsc_inv_reachable. split; [by eexists|].
  unfold posR, posW in *. destruct (prod s); lia.
Qed.

(** The slot accesses do not race: whenever the producer is about to write
    its slot, the consumer is not reading the same slot, and a consumer about to
    read finds the oldest item there. *)
Theorem spsc_no_slot_race (s : spsc_state) :
  reachable spsc_init spsc_step s ->
  (forall x, prod s = PReady x -> cons s <> CIdle ->
     (length (enqueued s) mod Capacity)%nat <> (length (dequeued s) mod Capacity)%nat)
  /\ (cons s = CReady ->
      exists x, sbuf s !! (length (dequeued s) mod Capacity)%nat = Some x
                /\ enqueued s !! length (dequeued s) = Some x).
Proof.
  intros [Hp Hr HsR HsW Hroom Hprod Hcons]%spsc_inv_reachable. unfold posR, posW, base in *. split.
  - intros x Hx Hc E. rewrite Hx in Hroom.
    assert ((length (dequeued s) < seenW s)%nat) by (destruct (cons s); [done | done | apply Hcons]).
    apply mod_eq_close in E; lia.
  - intros Hc. rewrite Hc in Hr, Hcons.
    destruct (lookup_lt_is_Some_2 (enqueued s) (length (dequeued s))) as [y Hy]; [lia|].
    exists y. split; [|done]. by apply (ring_of_read _ _ _ _ _ y Hr Hy).
Qed.
End spsc.

Lemma spsc_refines_fifo_witness :
  run_ops (T := nat) id 2 [OpEnqueue 7%nat; OpEnqueue 8%nat; OpDequeue; OpDequeue] (newSpscQueue 2 0%nat)
  = [ResBool true; ResBool false; ResItem (Some 7%nat); ResItem None].
Proof. rewrite (spsc_refines_fifo id 2 ltac:(lia)). reflexivity. Defined.

(** One item of a ring of two slots on its way through. *)
Lemma example_reachable :
  reachable (spsc_init 2) (spsc_step (T := nat) id 2)
    (mkSpscState [7; 0]%nat [7%nat] [] (PIdle) CReady 0 1).
Proof.
  eexists. split; [by exists 0%nat|].
  eapply rtc_l. { apply (p_check_ok id 2 _ _ _ _ _ _ 7%nat 0); cbn; [lia | done]. }
  eapply rtc_l. { apply p_write. }
  eapply rtc_l. { apply p_publish. }
  eapply rtc_l. { apply (c_check_ok id 2 _ _ _ _ _ _ 1); cbn; [lia | done]. }
  apply rtc_refl.
Qed.

Lemma spsc_concurrent_fifo_witness : [] `prefix_of` [7%nat].
Proof.
  exact (proj1 (spsc_concurrent_fifo id 2 ltac:(lia) _ example_reachable)).
Defined.

Lemma spsc_no_slot_race_witness :
  exists x, [7; 0]%nat !! 0%nat = Some x /\ [7%nat] !! 0%nat = Some x.
Proof.
  exact (proj2 (spsc_no_slot_race id 2 ltac:(lia) _ example_reachable) eq_refl).
Defined.
