(* ===== verification/BlockingQueue.v ===== *)
(** * The send queues (src/common/BlockingQueue.h, BlockingQueue.cpp)

    A mutex-protected FIFO with a separate atomic counter that send() and the
    score read without the lock.  The operations are first given as run to
    completion, then split where the lock is not held, for any number of
    producer and consumer threads. *)

From S2P Require Import Prelude.

Section blocking_queue.
Context {A : Type}.

Record BlockingQueue : Type := mkBlockingQueue {
  queue : list A;
  cancelled : bool;
  approxQueueSize : Z;
  enqueueNotifier : bool;  (* whether a notifier is set *)
}.

Definition newBlockingQueue : BlockingQueue := mkBlockingQueue [] false 0 false.

(** The flag is whether the external notifier is invoked. *)
Definition enqueue (data : A) (q : BlockingQueue) : BlockingQueue * bool :=
  (mkBlockingQueue (queue q ++ [data]) (cancelled q) (u64 (approxQueueSize q + 1)) (enqueueNotifier q),
   enqueueNotifier q).

Inductive wait_result : Type :=
| Blocks                      (* the predicate is false: the thread waits *)
| Returns (r : option A).     (* [None] for nullptr *)

Definition dequeue (q : BlockingQueue) : BlockingQueue * wait_result :=
  if negb (match queue q with [] => cancelled q | _ => true end) then (q, Blocks)
  else if cancelled q then (q, Returns None)
  else match queue q with
       | [] => (q, Blocks)
       | x :: l => (mkBlockingQueue l (cancelled q) (u64 (approxQueueSize q - 1)) (enqueueNotifier q),
                    Returns (Some x))
       end.

Definition tryDequeue (q : BlockingQueue) : BlockingQueue * option A :=
  match queue q with
  | [] => (q, None)
  | x :: l =>
      if cancelled q then (q, None)
      else (mkBlockingQueue l (cancelled q) (u64 (approxQueueSize q - 1)) (enqueueNotifier q), Some x)
  end.

Definition cancelWait (q : BlockingQueue) : BlockingQueue :=
  mkBlockingQueue (queue q) true (approxQueueSize q) (enqueueNotifier q).

Definition size (q : BlockingQueue) : nat := length (queue q).
Definition approxSize (q : BlockingQueue) : Z := approxQueueSize q.

Definition setEnqueueNotifier (notifier : bool) (q : BlockingQueue) : BlockingQueue :=
  mkBlockingQueue (queue q) (cancelled q) (approxQueueSize q) notifier.

(** ** Sequential behaviour *)

Lemma dequeue_cases q :
  (dequeue q).2 = Blocks /\ queue q = [] /\ cancelled q = false
  \/ (dequeue q).2 = Returns None /\ cancelled q = true
  \/ exists x l, queue q = x :: l /\ cancelled q = false
       /\ (dequeue q).2 = Returns (Some x) /\ queue (dequeue q).1 = l.
Proof.
  unfold dequeue. destruct (queue q) as [|x l] eqn:E, (cancelled q) eqn:C; cbn; eauto 10.
Qed.

(** The counter agrees with the length when no operation is in progress. *)
Definition bq_wf (q : BlockingQueue) : Prop :=
  approxQueueSize q = u64 (Z.of_nat (length (queue q))).

Lemma u64_succ n : u64 (u64 n + 1) = u64 (n + 1).
Proof. unfold u64. apply Zplus_mod_idemp_l. Qed.

Lemma u64_pred n : u64 (u64 n - 1) = u64 (n - 1).
Proof. unfold u64. apply Zminus_mod_idemp_l. Qed.

Lemma bq_wf_enqueue x q : bq_wf q -> bq_wf (enqueue x q).1.
Proof.
  unfold bq_wf; cbn. intros ->. rewrite length_app, u64_succ. f_equal. simpl. lia.
Qed.

Lemma bq_wf_pop x l q n :
  bq_wf q -> queue q = x :: l ->
  bq_wf (mkBlockingQueue l (cancelled q) (u64 (approxQueueSize q - 1)) n).
Proof.
  unfold bq_wf; cbn. intros -> ->. rewrite u64_pred. f_equal. simpl. lia.
Qed.

Lemma bq_wf_tryDequeue q : bq_wf q -> bq_wf (tryDequeue q).1.
Proof.
  intros Hq. unfold tryDequeue. destruct (queue q) as [|x l] eqn:E; [done|].
  destruct (cancelled q) eqn:C; [done|]. rewrite <- C. by eapply bq_wf_pop.
Qed.

(** ** Threads

    The steps of enqueue are the push under the lock and the fetch_add after
    it; those of dequeue the pop under the lock and the fetch_sub after it;
    tryDequeue holds the lock throughout.  [adds] and [subs] count the threads
    between their two steps, [pushed] and [popped] are the histories. *)

Record bq_state : Type := mkBqState {
  bq : BlockingQueue;
  adds : nat;
  subs : nat;
  pushed : list A;
  popped : list A;
}.

Definition set_queue (q : BlockingQueue) (l : list A) : BlockingQueue :=
  mkBlockingQueue l (cancelled q) (approxQueueSize q) (enqueueNotifier q).

Definition add_count (d : Z) (q : BlockingQueue) : BlockingQueue :=
  mkBlockingQueue (queue q) (cancelled q) (u64 (approxQueueSize q + d)) (enqueueNotifier q).

Inductive bq_step : bq_state -> bq_state -> Prop :=
| enqueue_push q a s e d x :
    bq_step (mkBqState q a s e d) (mkBqState (set_queue q (queue q ++ [x])) (S a) s (e ++ [x]) d)
| enqueue_count q a s e d :
    bq_step (mkBqState q (S a) s e d) (mkBqState (add_count 1 q) a s e d)
| dequeue_pop q a s e d x l :
    cancelled q = false -> queue q = x :: l ->
    bq_step (mkBqState q a s e d) (mkBqState (set_queue q l) a (S s) e (d ++ [x]))
| dequeue_count q a s e d :
    bq_step (mkBqState q a (S s) e d) (mkBqState (add_count (-1) q) a s e d)
| try_dequeue_step q a s e d x :
    (tryDequeue q).2 = Some x ->
    bq_step (mkBqState q a s e d) (mkBqState (tryDequeue q).1 a s e (d ++ [x]))
| cancel_step q a s e d :
    bq_step (mkBqState q a s e d) (mkBqState (cancelWait q) a s e d).

Definition bq_init (s : bq_state) : Prop := s = mkBqState newBlockingQueue 0 0 [] [].

Definition bq_inv (s : bq_state) : Prop :=
  pushed s = popped s ++ queue (bq s)
  /\ approxQueueSize (bq s)
     = u64 (Z.of_nat (length (queue (bq s))) - Z.of_nat (adds s) + Z.of_nat (subs s)).

Lemma u64_add n d : u64 (u64 n + d) = u64 (n + d).
Proof. unfold u64. apply Zplus_mod_idemp_l. Qed.

Lemma bq_inv_step s s' : bq_inv s -> bq_step s s' -> bq_inv s'.
Proof.
  intros [Hp Hc] Hs. unfold bq_inv in *.
  destruct Hs as [q a n e d x|q a n e d|q a n e d x l Hf Hq|q a n e d|q a n e d x Ht|q a n e d]; cbn in *.
  - split; [by rewrite Hp, app_assoc|]. rewrite Hc, length_app. f_equal. simpl. lia.
  - split; [done|]. rewrite Hc, u64_add. f_equal. lia.
  - rewrite Hq in *. split; [by rewrite Hp, <- app_assoc|]. rewrite Hc. f_equal. simpl. lia.
  - split; [done|]. rewrite Hc, u64_add. f_equal. lia.
  - unfold tryDequeue in *. destruct (queue q) as [|y l] eqn:Hq; [done|].
    destruct (cancelled q); [done|]. cbn in *. injection Ht as ->.
    split; [by rewrite Hp, <- app_assoc|]. rewrite Hc. fold (u64 (Z.of_nat (S (length l)) - Z.of_nat a + Z.of_nat n)).
    unfold Z.sub at 1. rewrite u64_add. f_equal. lia.
  - done.
Qed.

Lemma bq_inv_reachable s : reachable bq_init bq_step s -> bq_inv s.
Proof.
  apply invariant_reachable; [|by eauto using bq_inv_step].
  intros ? ->. split; [done|]. reflexivity.
Qed.

(** C28. The queue is a FIFO for any number of threads on both sides: what was
    taken is a prefix of what was pushed, with what is still queued as the
    rest; and once no thread is between its lock and its counter update the
    counter is the length (the queue being shorter than 2^64). *)
Theorem bq_fifo_and_count (s : bq_state) :
  reachable bq_init bq_step s ->
  pushed s = popped s ++ queue (bq s)
  /\ (adds s = 0%nat -> subs s = 0%nat -> Z.of_nat (length (queue (bq s))) < 2 ^ 64 ->
      approxSize (bq s) = Z.of_nat (size (bq s))).
Proof.
  intros [Hp Hc]%bq_inv_reachable. split; [done|]. intros Ha Hs Hl.
  unfold approxSize, size. rewrite Hc, Ha, Hs. rewrite u64_small; unfold is_u64; lia.
Qed.

(** The unlocked counter is wrong by the threads between their two steps
    only, but it is unsigned: a dequeue that overtakes the counter update of the
    enqueue it takes from leaves it at 2^64 - 1 with an empty queue, so a
    threshold test on approxSize() then succeeds. *)
Theorem approx_size_underflow (x : A) :
  exists s, reachable bq_init bq_step s
    /\ queue (bq s) = [] /\ approxSize (bq s) = 2 ^ 64 - 1 /\ adds s = 1%nat.
Proof.
  eexists. split; [eexists; split; [done|]|].
  - eapply rtc_l; [apply (enqueue_push _ _ _ _ _ x)|].
    eapply rtc_l; [apply dequeue_pop; reflexivity|].
    eapply rtc_l; [apply dequeue_count|]. apply rtc_refl.
  - done.
Qed.

(** cancelWait is final: afterwards every dequeue returns nullptr at once,
    with elements still queued or not, and no operation clears the flag. *)
Theorem cancel_returns_null (q : BlockingQueue) :
  (dequeue (cancelWait q)).2 = Returns None
  /\ (tryDequeue (cancelWait q)).2 = None
  /\ forall x n, cancelled (enqueue x (cancelWait q)).1 = true
               /\ cancelled (dequeue (cancelWait q)).1 = true
               /\ cancelled (tryDequeue (cancelWait q)).1 = true
               /\ cancelled (setEnqueueNotifier n (cancelWait q)) = true.
Proof. unfold dequeue, tryDequeue. cbn. by destruct (queue q). Qed.
End blocking_queue.

Arguments BlockingQueue : clear implicits.
Arguments bq_state : clear implicits.

Lemma bq_fifo_and_count_witness :
  let s := mkBqState (enqueue 5%nat newBlockingQueue).1 0 0 [5%nat] [] in
  [5%nat] = [] ++ queue (bq s) /\ approxSize (bq s) = Z.of_nat (size (bq s)).
Proof.
  cbv zeta.
  assert (Hr : reachable bq_init bq_step (mkBqState (enqueue 5%nat newBlockingQueue).1 0 0 [5%nat] [])).
  { eexists. split; [done|]. eapply rtc_l; [apply (enqueue_push _ _ _ _ _ 5%nat)|].
    eapply rtc_l; [apply enqueue_count|]. apply rtc_refl. }
  destruct (bq_fifo_and_count _ Hr) as [H1 H2]. split; [exact H1|]. apply H2; cbn; lia.
Defined.
