(* ===== verification/SentCache.v ===== *)
(** * Sender-side bookkeeping

    SentDataCache (src/common/TcpVirtualChannel.h, .cpp), MessageTracker,
    ConnSendStats and SocketStatus (src/common/TcpVCWriteThread.h).  The sharded
    maps are indexed by [messageId % shards.size()]; with no shards that is a
    division by zero, the operation is then [None]. *)

From S2P Require Import Prelude.

Definition shard_index (messageId : Z) (numShards : nat) : option nat :=
  if (numShards =? 0)%nat then None else Some (Z.to_nat (messageId mod Z.of_nat numShards)).

Lemma shard_index_lt id n i : shard_index id n = Some i -> (i < n)%nat.
Proof.
  unfold shard_index. destruct (Nat.eqb_spec n 0); [done|]. intros [= <-].
  pose proof (Z.mod_pos_bound id (Z.of_nat n)). lia.
Qed.

Lemma shard_index_Some id n :
  (0 < n)%nat -> shard_index id n = Some (Z.to_nat (id mod Z.of_nat n)).
Proof. intros. unfold shard_index. by destruct (Nat.eqb_spec n 0); [lia|]. Qed.

Lemma elem_of_drop_incl {B} (x : B) n (l : list B) : x ∈ drop n l -> x ∈ l.
Proof.
  intros Hx. rewrite <- (take_drop n l). apply elem_of_app. by right.
Qed.

(** ** SentDataCache *)

Module Cache.
Section sent_cache.
Context {D : Type}.

Record ConnShard : Type := mkConnShard {
  items : gmap Z D;
  insertionOrder : list Z;
}.

Record SentDataCache : Type := mkSentDataCache {
  shards : list ConnShard;
  capacityPerConn : nat;
}.

Definition emptyShard : ConnShard := mkConnShard ∅ [].

Definition newSentDataCache (numConns capacityPerConn : nat) : SentDataCache :=
  mkSentDataCache (replicate numConns emptyShard) capacityPerConn.

Definition shard_insert (cap : nat) (messageId : Z) (data : D) (s : ConnShard) : ConnShard :=
  let items1 := <[messageId := data]> (items s) in
  let order1 := insertionOrder s ++ [messageId] in
  if (cap <? length order1)%nat then
    match order1 with
    | oldest :: order2 => mkConnShard (delete oldest items1) order2
    | [] => mkConnShard items1 order1
    end
  else mkConnShard items1 order1.

Definition insert (messageId : Z) (data : D) (c : SentDataCache) : option SentDataCache :=
  match shard_index messageId (length (shards c)) with
  | None => None
  | Some idx => Some (mkSentDataCache (alter (shard_insert (capacityPerConn c) messageId data) idx (shards c))
                                      (capacityPerConn c))
  end.

(** The outer [None] is the division by zero, the inner one nullptr. *)
Definition find (messageId : Z) (c : SentDataCache) : option (option D) :=
  match shard_index messageId (length (shards c)) with
  | None => None
  | Some idx => Some (shards c !! idx ≫= fun s => items s !! messageId)
  end.

Definition clear (c : SentDataCache) : SentDataCache :=
  mkSentDataCache ((fun _ => emptyShard) <$> shards c) (capacityPerConn c).

(** Insert a list of messages one after another. *)
Fixpoint insert_all (msgs : list (Z * D)) (c : SentDataCache) : option SentDataCache :=
  match msgs with
  | [] => Some c
  | (id, d) :: msgs => match insert id d c with Some c' => insert_all msgs c' | None => None end
  end.

(** The shard holds exactly the last [cap] of the keys inserted into it. *)
Definition last_n {B} (n : nat) (l : list B) : list B := drop (length l - n) l.

Definition shard_holds (cap : nat) (f : Z -> D) (keys : list Z) (s : ConnShard) : Prop :=
  insertionOrder s = last_n cap keys
  /\ forall id, items s !! id = if decide (id ∈ last_n cap keys) then Some (f id) else None.

Lemma last_n_snoc_lt {B} n (l : list B) x :
  (length l < n)%nat -> last_n n (l ++ [x]) = last_n n l ++ [x].
Proof.
  intros. unfold last_n. rewrite length_app. cbn [length].
  replace (length l + 1 - n)%nat with 0%nat by lia. by replace (length l - n)%nat with 0%nat by lia.
Qed.

Lemma last_n_snoc_ge {B} n (l : list B) x y tl :
  (n <= length l)%nat -> last_n n l ++ [x] = y :: tl -> last_n n (l ++ [x]) = tl.
Proof.
  intros Hl Heq. unfold last_n in *. rewrite length_app. cbn [length].
  replace (length l + 1 - n)%nat with (S (length l - n))%nat by lia.
  rewrite <- drop_app_le in Heq by lia. apply (f_equal (drop 1)) in Heq.
  rewrite drop_drop in Heq. cbn in Heq. by replace (length l - n + 1)%nat with (S (length l - n)) in Heq by lia.
Qed.

Lemma length_last_n {B} n (l : list B) : length (last_n n l) = (n `min` length l)%nat.
Proof. unfold last_n. rewrite length_drop. lia. Qed.

Lemma shard_insert_holds cap f keys s id :
  NoDup (keys ++ [id]) -> shard_holds cap f keys s ->
  shard_holds cap f (keys ++ [id]) (shard_insert cap id (f id) s).
Proof.
  intros Hnd [Ho Hi]. unfold shard_insert. rewrite Ho, length_app, length_last_n. cbn [length].
  assert (Hnew : ~ (id ∈ keys)).
  { apply NoDup_app in Hnd as (_ & Hd & _). intros Hin. apply (Hd id Hin). by left. }
  assert (Hnew' : ~ (id ∈ last_n cap keys)).
  { intros Hin. apply Hnew. unfold last_n in Hin. by eapply elem_of_drop_incl. }
  destruct (Nat.ltb_spec cap (cap `min` length keys + 1)) as [Hc|Hc].
  - destruct (last_n cap keys ++ [id]) as [|y tl] eqn:E; [by destruct (last_n cap keys)|].
    pose proof (last_n_snoc_ge cap keys id y tl ltac:(lia) E) as El.
    split; cbn; [done|]. intros id'. rewrite El.
    assert (Hy : NoDup (y :: tl)).
    { rewrite <- E. unfold last_n. rewrite <- drop_app_le by lia.
      eapply sublist_NoDup; [exact Hnd | apply sublist_drop]. }
    assert (Hmem : forall z, z ∈ y :: tl <-> z ∈ last_n cap keys \/ z = id).
    { intros z. rewrite <- E, elem_of_app, list_elem_of_singleton. done. }
    apply NoDup_cons in Hy as [Hy1 Hy2]. specialize (Hmem id'). rewrite elem_of_cons in Hmem.
    destruct (decide (id' = y)) as [->|Hney].
    + rewrite lookup_delete_eq. by rewrite decide_False.
    + rewrite lookup_delete_ne by done. destruct (decide (id' = id)) as [->|Hne].
      * rewrite lookup_insert_eq. rewrite decide_True; naive_solver.
      * rewrite lookup_insert_ne, Hi by done. apply decide_ext. naive_solver.
  - assert (Hl : (length keys < cap)%nat) by lia. unfold shard_holds. rewrite last_n_snoc_lt by done.
    split; cbn; [done|]. intros id'. destruct (decide (id' = id)) as [->|Hne].
    + rewrite lookup_insert_eq, decide_True; [done|]. apply elem_of_app. right. by left.
    + rewrite lookup_insert_ne, Hi by done. apply decide_ext.
      rewrite elem_of_app, list_elem_of_singleton. naive_solver.
Qed.

(** Nothing is found but what was inserted or found before. *)
Lemma find_insert id d k k' id' dv :
  insert id d k = Some k' -> find id' k' = Some (Some dv) ->
  (id' = id /\ dv = d) \/ find id' k = Some (Some dv).
Proof.
  unfold insert, find. destruct (shard_index id (length (shards k))) as [i|]; [|done]. intros [= <-]. cbn [shards].
  rewrite length_alter. destruct (shard_index id' (length (shards k))) as [i'|]; [|done]. intros [= Hf].
  apply bind_Some in Hf as (s' & Hs' & Hit).
  destruct (decide (i = i')) as [->|Hne].
  - rewrite list_lookup_alter_eq in Hs'. apply fmap_Some in Hs' as (s & Hs & ->).
    rewrite Hs. cbn [mbind option_bind].
    assert (H : <[id := d]> (items s) !! id' = Some dv).
    { unfold shard_insert in Hit. destruct (capacityPerConn k <? _)%nat; [|exact Hit].
      destruct (insertionOrder s ++ [id]); [exact Hit|]. cbn in Hit. by apply lookup_delete_Some in Hit as [_ ?]. }
    apply lookup_insert_Some in H as [[-> ->]|[_ H]]; [by left|]. right. by rewrite H.
  - rewrite list_lookup_alter_ne in Hs' by done. right. rewrite Hs'. cbn. by rewrite Hit.
Qed.

(** The keys of shard [i] among [ids]. *)
Definition keys_of (n i : nat) (ids : list Z) : list Z :=
  filter (fun id => Z.to_nat (id mod Z.of_nat n) = i) ids.

Definition cache_holds (n cap : nat) (f : Z -> D) (ids : list Z) (c : SentDataCache) : Prop :=
  capacityPerConn c = cap /\ length (shards c) = n
  /\ forall i s, shards c !! i = Some s -> shard_holds cap f (keys_of n i ids) s.

Lemma cache_holds_new n cap f : cache_holds n cap f [] (newSentDataCache n cap).
Proof.
  split_and!; [done | apply length_replicate |]. intros i s [-> _]%lookup_replicate.
  split; [by cbn|]. intros id. cbn. rewrite lookup_empty. by rewrite decide_False by apply not_elem_of_nil.
Qed.

Lemma keys_of_snoc n i ids id :
  keys_of n i (ids ++ [id])
  = keys_of n i ids ++ (if decide (Z.to_nat (id mod Z.of_nat n) = i) then [id] else []).
Proof. unfold keys_of. rewrite filter_app. f_equal. Qed.

Lemma cache_insert_holds n cap f ids c id :
  (0 < n)%nat -> NoDup (ids ++ [id]) -> cache_holds n cap f ids c ->
  exists c', insert id (f id) c = Some c' /\ cache_holds n cap f (ids ++ [id]) c'.
Proof.
  intros Hn Hnd (Hcap & Hlen & Hs). unfold insert. rewrite Hlen, shard_index_Some by done.
  eexists. split; [done|]. unfold cache_holds; cbn. split_and!; [done | by rewrite length_alter |].
  intros i s Hi. rewrite keys_of_snoc. case_decide as E.
  - subst i. rewrite list_lookup_alter_eq in Hi. apply fmap_Some in Hi as (s0 & Hi & ->).
    rewrite Hcap. apply shard_insert_holds; [|by apply Hs].
    rewrite <- (decide_True (P := Z.to_nat (id mod Z.of_nat n) = Z.to_nat (id mod Z.of_nat n)) [id] []) by done.
    rewrite <- keys_of_snoc. by apply NoDup_filter.
  - rewrite list_lookup_alter_ne in Hi by done. rewrite app_nil_r. by apply Hs.
Qed.

Lemma insert_all_holds n cap f ids0 ids c :
  (0 < n)%nat -> NoDup (ids0 ++ ids) -> cache_holds n cap f ids0 c ->
  exists c', insert_all ((fun id => (id, f id)) <$> ids) c = Some c'
             /\ cache_holds n cap f (ids0 ++ ids) c'.
Proof.
  intros Hn. revert ids0 c. induction ids as [|id ids IH]; intros ids0 c Hnd Hc.
  - rewrite app_nil_r. by exists c.
  - replace (ids0 ++ id :: ids) with ((ids0 ++ [id]) ++ ids) in * by (by rewrite <- app_assoc).
    apply NoDup_app in Hnd as Hnd'. destruct Hnd' as [Hnd0 _].
    destruct (cache_insert_holds n cap f ids0 c id Hn Hnd0 Hc) as (c1 & E & Hc1).
    rewrite fmap_cons. cbn [insert_all]. rewrite E. by apply IH.
Qed.

(** The ids above [id] below [id + 1 + m] in the same shard. *)
Lemma same_shard_count n id m :
  (0 < n)%nat -> 0 <= id ->
  length (keys_of n (Z.to_nat (id mod Z.of_nat n)) (seqZ (id + 1) (Z.of_nat m))) = (m / n)%nat.
Proof.
  intros Hn Hid. induction m as [|m IH].
  - rewrite seqZ_nil by lia. cbn. by rewrite Nat.Div0.div_0_l.
  - replace (Z.of_nat (S m)) with (Z.of_nat m + 1) by lia. rewrite seqZ_app by lia.
    replace (seqZ (id + 1 + Z.of_nat m) 1) with [id + 1 + Z.of_nat m]
      by (rewrite seqZ_cons by lia; by rewrite seqZ_nil by lia).
    rewrite keys_of_snoc, length_app, IH.
    pose proof (Nat.div_mod_eq m n) as E1. pose proof (Nat.div_mod_eq (S m) n) as E2.
    pose proof (Nat.mod_upper_bound m n ltac:(lia)). pose proof (Nat.mod_upper_bound (S m) n ltac:(lia)).
    assert (Hiff : Z.to_nat ((id + 1 + Z.of_nat m) mod Z.of_nat n) = Z.to_nat (id mod Z.of_nat n)
                   <-> (S m mod n = 0)%nat).
    { pose proof (Z.mod_pos_bound id (Z.of_nat n) ltac:(lia)).
      pose proof (Z.mod_pos_bound (id + 1 + Z.of_nat m) (Z.of_nat n) ltac:(lia)).
      pose proof (Z.div_mod id (Z.of_nat n) ltac:(lia)).
      pose proof (Z.div_mod (id + 1 + Z.of_nat m) (Z.of_nat n) ltac:(lia)). split; intros Hx.
      - assert (Hd : Z.of_nat (S m) = Z.of_nat n * ((id + 1 + Z.of_nat m) / Z.of_nat n - id / Z.of_nat n)) by lia.
        apply Nat2Z.inj. rewrite Nat2Z.inj_mod, Hd, Z.mul_comm, Z.mod_mul by lia. done.
      - f_equal. replace (id + 1 + Z.of_nat m) with (id + Z.of_nat (S m / n) * Z.of_nat n) by nia.
        by rewrite Z.mod_add by lia. }
    case_decide as Hd; cbn [length].
    + apply Hiff in Hd. rewrite Hd in E2. assert (S m / n = m / n + 1)%nat by nia. lia.
    + assert (S m mod n <> 0)%nat by tauto. assert (S m / n = m / n)%nat by nia. lia.
Qed.

Lemma last_n_split (n : nat) (l1 l2 : list Z) x :
  NoDup (l1 ++ x :: l2) -> x ∈ last_n n (l1 ++ x :: l2) <-> (length l2 < n)%nat.
Proof.
  intros Hnd. unfold last_n. rewrite length_app. cbn [length].
  apply NoDup_app in Hnd as (_ & Hd & Hnd2). apply NoDup_cons in Hnd2 as [Hx _]. split.
  - intros Hin. destruct (decide (length l2 < n)%nat) as [|Hge]; [done|]. exfalso.
    rewrite drop_app_ge in Hin by lia.
    replace (length l1 + S (length l2) - n - length l1)%nat with (S (length l2 - n)) in Hin by lia.
    cbn in Hin. by apply Hx, (elem_of_drop_incl _ (length l2 - n)).
  - intros Hlt. rewrite drop_app_le by lia. apply elem_of_app. right. by left.
Qed.

(** C25. After send() has cached the messages 0 .. n-1 the cache still holds
    message id exactly when fewer than capacityPerConn * shards newer messages
    were sent: the retained window is the last cap * N messages, unevicted
    entries unchanged. *)
Theorem cache_window (N cap : nat) (f : Z -> D) (n id : Z) :
  (0 < N)%nat -> 0 <= id < n ->
  exists c, insert_all ((fun i => (i, f i)) <$> seqZ 0 n) (newSentDataCache N cap) = Some c
    /\ find id c = Some (if decide (n - id <= Z.of_nat (N * cap)) then Some (f id) else None).
Proof.
  intros HN Hid.
  destruct (insert_all_holds N cap f [] (seqZ 0 n) (newSentDataCache N cap)) as (c & Hc & Hcap & Hlen & Hs);
    [done | apply NoDup_seqZ | apply cache_holds_new |].
  exists c. split; [done|]. unfold find. rewrite Hlen, shard_index_Some by done. f_equal.
  destruct (lookup_lt_is_Some_2 (shards c) (Z.to_nat (id mod Z.of_nat N))) as [s Hi].
  { rewrite Hlen. pose proof (Z.mod_pos_bound id (Z.of_nat N)). lia. }
  rewrite Hi. cbn [mbind option_bind]. destruct (Hs _ _ Hi) as [_ ->]. cbn [app].
  set (j := Z.to_nat (id mod Z.of_nat N)). apply decide_ext.
  assert (Hsplit : keys_of N j (seqZ 0 n)
                   = keys_of N j (seqZ 0 id) ++ id :: keys_of N j (seqZ (id + 1) (Z.of_nat (Z.to_nat (n - id - 1))))).
  { replace n with (id + (1 + (n - id - 1))) at 1 by lia. rewrite !seqZ_app by lia.
    replace (seqZ (0 + id) 1) with [id] by (rewrite seqZ_cons by lia; by rewrite seqZ_nil by lia).
    unfold keys_of. rewrite !filter_app. f_equal. rewrite filter_cons, decide_True by done.
    cbn [app]. rewrite Z2Nat.id by lia. replace (0 + id + 1) with (id + 1) by lia. done. }
  assert (Hnd : NoDup (keys_of N j (seqZ 0 n))) by apply NoDup_filter, NoDup_seqZ.
  rewrite Hsplit in Hnd |- *. rewrite last_n_split by done. unfold j. rewrite same_shard_count by lia.
  set (m := Z.to_nat (n - id - 1)). assert (Em : Z.of_nat m = n - id - 1) by lia.
  assert (Hiff : (m < N * cap)%nat <-> (m / N < cap)%nat); [|lia]. split.
  - apply Nat.Div0.div_lt_upper_bound.
  - intros Hx. pose proof (Nat.mul_succ_div_gt m N ltac:(lia)).
    assert (N * S (m / N) <= N * cap)%nat by (apply Nat.mul_le_mono_l; lia). lia.
Qed.
End sent_cache.
End Cache.

(** ** MessageTracker: which connection carried a message *)

Module MessageTracker.

(** The shards' messageToConn maps. *)
Abbreviation MessageTracker := (list (gmap Z Z)) (only parsing).

Definition newMessageTracker (numShards : nat) : MessageTracker := replicate numShards ∅.

Definition recordMessage (messageId connectionIndex : Z) (t : MessageTracker) : option MessageTracker :=
  match shard_index messageId (length t) with
  | None => None
  | Some idx => Some (alter (fun m => <[messageId := connectionIndex]> m) idx t)
  end.

(** -1 when the message is not recorded. *)
Definition getConnectionIndex (messageId : Z) (t : MessageTracker) : option Z :=
  match shard_index messageId (length t) with
  | None => None
  | Some idx => Some (default (-1) (t !! idx ≫= (fun m => m !! messageId)))
  end.

Definition removeMessage (messageId : Z) (t : MessageTracker) : option MessageTracker :=
  match shard_index messageId (length t) with
  | None => None
  | Some idx => Some (alter (fun m => delete messageId m) idx t)
  end.

Definition clear (t : MessageTracker) : MessageTracker := (fun _ => ∅) <$> t.

Lemma shard_lookup id (t : MessageTracker) i :
  shard_index id (length t) = Some i -> exists m, t !! i = Some m.
Proof. intros Hi%shard_index_lt. by destruct (lookup_lt_is_Some_2 t i Hi) as [m ?]; exists m. Qed.

(** Shards are invisible: the tracker is one map. *)
Lemma get_record id id' c t t' :
  recordMessage id c t = Some t' ->
  getConnectionIndex id' t' = if decide (id' = id) then Some c else getConnectionIndex id' t.
Proof.
  unfold recordMessage, getConnectionIndex.
  destruct (shard_index id (length t)) as [i|] eqn:Ei; [|done]. intros [= <-]. rewrite length_alter.
  destruct (shard_lookup _ _ _ Ei) as [m Hm].
  case_decide as E.
  - subst. rewrite Ei, list_lookup_alter_eq, Hm. cbn. by rewrite lookup_insert_eq.
  - destruct (shard_index id' (length t)) as [i'|] eqn:Ei'; [|done].
    destruct (decide (i' = i)) as [->|Hne].
    + rewrite list_lookup_alter_eq, Hm. cbn. by rewrite lookup_insert_ne.
    + by rewrite list_lookup_alter_ne by done.
Qed.

Lemma get_remove id id' t t' :
  removeMessage id t = Some t' ->
  getConnectionIndex id' t' = if decide (id' = id) then Some (-1) else getConnectionIndex id' t.
Proof.
  unfold removeMessage, getConnectionIndex.
  destruct (shard_index id (length t)) as [i|] eqn:Ei; [|done]. intros [= <-]. rewrite length_alter.
  destruct (shard_lookup _ _ _ Ei) as [m Hm].
  case_decide as E.
  - subst. rewrite Ei, list_lookup_alter_eq, Hm. cbn. by rewrite lookup_delete_eq.
  - destruct (shard_index id' (length t)) as [i'|] eqn:Ei'; [|done].
    destruct (decide (i' = i)) as [->|Hne].
    + rewrite list_lookup_alter_eq, Hm. cbn. by rewrite lookup_delete_ne.
    + by rewrite list_lookup_alter_ne by done.
Qed.

Lemma get_clear id t : (0 < length t)%nat -> getConnectionIndex id (clear t) = Some (-1).
Proof.
  intros Hl. unfold getConnectionIndex, clear. rewrite length_fmap, shard_index_Some by done.
  rewrite list_lookup_fmap. by destruct (t !! _).
Qed.
End MessageTracker.

(** ** ConnSendStats *)

Record ConnSendStats : Type := mkConnSendStats {
  lastTxMessageId : Z;
  lastTxTimeMs : Z;
  txCount : Z;
  reenqueueCount : Z;
  slowSendCount : Z;
  statsValid : bool;
}.

Definition newConnSendStats : ConnSendStats := mkConnSendStats 0 0 0 0 0 false.

(** [reenqueueCount.fetch_add(1)] *)
Definition count_failure (s : ConnSendStats) : ConnSendStats :=
  mkConnSendStats (lastTxMessageId s) (lastTxTimeMs s) (txCount s)
                  (u64 (reenqueueCount s + 1)) (slowSendCount s) (statsValid s).

(** The stores after a complete send. *)
Definition count_success (messageId nowMs : Z) (s : ConnSendStats) : ConnSendStats :=
  mkConnSendStats messageId nowMs (u64 (txCount s + 1)) 0 (slowSendCount s) true.

(** ** SocketStatus *)

Module SocketStatus.

Record SocketStatus : Type := mkSocketStatus {
  connectionIndex : Z;
  isDegraded : bool;
  degradedSinceMs : Z;
  degradationCount : Z;
}.

Definition newSocketStatus (i : Z) : SocketStatus := mkSocketStatus i false 0 0.

Definition markDegraded (nowMs : Z) (s : SocketStatus) : SocketStatus :=
  mkSocketStatus (connectionIndex s) true nowMs (i32 (degradationCount s + 1)).

(** [None] for a shift by a negative amount, which C++ leaves undefined. *)
Definition isCurrentlyDegraded (nowMs maxDuration : Z) (s : SocketStatus) : option bool :=
  if negb (isDegraded s) then Some false
  else
    let shift := Z.min (degradationCount s - 1) 3 in
    if shift <? 0 then None
    else Some (nowMs - degradedSinceMs s <? maxDuration * Z.shiftl 1 shift).

Definition recover (s : SocketStatus) : SocketStatus :=
  mkSocketStatus (connectionIndex s) false (degradedSinceMs s) 0.

Fixpoint mark_all (ts : list Z) (s : SocketStatus) : SocketStatus :=
  match ts with
  | [] => s
  | t :: ts => mark_all ts (markDegraded t s)
  end.

Lemma mark_all_count ts s :
  0 <= degradationCount s -> degradationCount s + Z.of_nat (length ts) < 2 ^ 31 ->
  degradationCount (mark_all ts s) = degradationCount s + Z.of_nat (length ts).
Proof.
  revert s. induction ts as [|t ts IH]; intros s H1 H2; cbn [mark_all length] in *; [lia|].
  assert (E : degradationCount (markDegraded t s) = degradationCount s + 1).
  { cbn. apply i32_small. unfold is_i32. lia. }
  rewrite IH; rewrite E; lia.
Qed.

Lemma mark_all_snoc ts t s : mark_all (ts ++ [t]) s = markDegraded t (mark_all ts s).
Proof. revert s. by induction ts as [|t' ts IH]; intros s; [|cbn; rewrite IH]. Qed.

(** Backoff: after k marks since the last recovery the socket counts as
    degraded for maxDuration, doubled for each further mark up to eight times,
    after the last mark, and the shift is always defined. *)
Theorem degraded_window (maxDuration nowMs t : Z) (ts : list Z) (s : SocketStatus) :
  Z.of_nat (length ts) + 1 < 2 ^ 31 ->
  isCurrentlyDegraded nowMs maxDuration (mark_all (ts ++ [t]) (recover s))
  = Some (nowMs - t <? maxDuration * 2 ^ Z.min (Z.of_nat (length ts)) 3).
Proof.
  intros Hl. rewrite mark_all_snoc. unfold isCurrentlyDegraded. cbn.
  rewrite mark_all_count by (cbn; lia). cbn [recover degradationCount].
  rewrite Z.add_0_l, i32_small by (unfold is_i32; lia).
  rewrite Z.add_simpl_r. destruct (Z.ltb_spec (Z.min (Z.of_nat (length ts)) 3) 0); [lia|].
  by rewrite Z.shiftl_1_l.
Qed.

(** markDegraded as its three stores: [marking] is the state between them. *)
Inductive mark_pc : Type := MarkSince | MarkFlag | MarkCount | MarkDone.

Inductive mark_step (nowMs : Z) : mark_pc * SocketStatus -> mark_pc * SocketStatus -> Prop :=
| mark_since s :
    mark_step nowMs (MarkSince, s)
      (MarkFlag, mkSocketStatus (connectionIndex s) (isDegraded s) nowMs (degradationCount s))
| mark_flag s :
    mark_step nowMs (MarkFlag, s)
      (MarkCount, mkSocketStatus (connectionIndex s) true (degradedSinceMs s) (degradationCount s))
| mark_count s :
    mark_step nowMs (MarkCount, s)
      (MarkDone, mkSocketStatus (connectionIndex s) (isDegraded s) (degradedSinceMs s)
                                (i32 (degradationCount s + 1))).

(** During the first markDegraded of a socket a concurrent
    isCurrentlyDegraded (the score, computed on another thread) can see the flag
    before the count: it then evaluates 1LL << -1, which is undefined. *)
Theorem first_mark_races_with_reader (i nowMs maxDuration : Z) :
  exists s, rtc (mark_step nowMs) (MarkSince, newSocketStatus i) (MarkCount, s)
    /\ isCurrentlyDegraded nowMs maxDuration s = None.
Proof.
  eexists. split; [|].
  - eapply rtc_l; [apply mark_since|]. eapply rtc_l; [apply mark_flag|]. apply rtc_refl.
  - reflexivity.
Qed.
End SocketStatus.

(** ** Witnesses *)

Lemma cache_window_witness :
  exists c, Cache.insert_all ((fun i => (i, i * 10)) <$> seqZ 0 5) (Cache.newSentDataCache 2 2) = Some c
    /\ Cache.find 0 c = Some None.
Proof. exact (Cache.cache_window 2 2 (fun i => i * 10) 5 0 ltac:(lia) ltac:(lia)). Defined.

Lemma degraded_window_witness :
  SocketStatus.isCurrentlyDegraded 1500 1000
    (SocketStatus.mark_all [100; 200] (SocketStatus.recover (SocketStatus.newSocketStatus 0)))
  = Some true.
Proof.
  exact (SocketStatus.degraded_window 1000 1500 200 [100] (SocketStatus.newSocketStatus 0) ltac:(cbn; lia)).
Defined.
