(* ===== verification/Reorder.v ===== *)
(** * The reorder thread (src/common/TcpVirtualChannel.cpp)

    processReceivedData on the producer side, and one iteration of
    reorderThreadFunc: draining the per-connection queues, drainReceivedDataMap,
    the gap timer with its skip, sendMissingNotifications and the wait at the
    end.  Clock readings are arguments, in nanoseconds.  The queues are used
    through the bounded-FIFO interface. *)

From stdpp Require Import sorting.
From S2P Require Import Prelude Bytes Fifo VcProtocol TcpConnection.

Record DeliveryItem : Type := mkDeliveryItem {
  messageId : Z;
  data : list byte;
  sourceConnIndex : Z;
}.

Record ReceivedItem : Type := mkReceivedItem {
  ri_data : list byte;
  ri_sourceConnIndex : Z;
}.

(** lastRxMessageId, lastRxTime and lastRxValid of one connection. *)
Record RxInfo : Type := mkRxInfo {
  lastRxMessageId : Z;
  lastRxTime : Z;
  lastRxValid : bool;
}.

Record ReorderState : Type := mkReorderState {
  nextMessageId : Z;
  receivedDataMap : gmap Z ReceivedItem;
  notifiedMissingIds : gset Z;
  lastDeliveredConnIndex : Z;
  gapTimerActive : bool;
  gapFirstSeen : Z;
  lastNotifyTime : Z;
  lastRx : list RxInfo;
}.

(** The members before the first iteration of an opened channel. *)
Definition newReorderState (numConns : nat) (openedAt : Z) : ReorderState :=
  mkReorderState 0 ∅ ∅ (-1) false 0 openedAt (replicate numConns (mkRxInfo 0 0 false)).

Definition set_stream (next : Z) (m : gmap Z ReceivedItem) (notified : gset Z) (lastConn : Z)
  (s : ReorderState) : ReorderState :=
  mkReorderState next m notified lastConn (gapTimerActive s) (gapFirstSeen s) (lastNotifyTime s) (lastRx s).

Definition set_gap (active : bool) (since : Z) (s : ReorderState) : ReorderState :=
  mkReorderState (nextMessageId s) (receivedDataMap s) (notifiedMissingIds s) (lastDeliveredConnIndex s)
                 active since (lastNotifyTime s) (lastRx s).

Definition set_rx (rx : list RxInfo) (s : ReorderState) : ReorderState :=
  mkReorderState (nextMessageId s) (receivedDataMap s) (notifiedMissingIds s) (lastDeliveredConnIndex s)
                 (gapTimerActive s) (gapFirstSeen s) (lastNotifyTime s) rx.

(** The body of the inner dequeue loop; the flag is what it does to gotAny. *)
Definition process_item (now : Z) (item : DeliveryItem) (s : ReorderState) : ReorderState * bool :=
  let i := sourceConnIndex item in
  let s1 := if (0 <=? i) && (i <? Z.of_nat (length (lastRx s)))
            then set_rx (<[Z.to_nat i := mkRxInfo (messageId item) now true]> (lastRx s)) s
            else s in
  if messageId item <? nextMessageId s1 then (s1, false)
  else
    (* try_emplace: an existing entry stays *)
    let m := match receivedDataMap s1 !! messageId item with
             | Some _ => receivedDataMap s1
             | None => <[messageId item := mkReceivedItem (data item) (sourceConnIndex item)]> (receivedDataMap s1)
             end in
    (set_stream (nextMessageId s1) m (notifiedMissingIds s1) (lastDeliveredConnIndex s1) s1, true).

Fixpoint process_items (now : Z) (items : list DeliveryItem) (s : ReorderState) : ReorderState * bool :=
  match items with
  | [] => (s, false)
  | it :: items =>
      let '(s1, got1) := process_item now it s in
      let '(s2, got2) := process_items now items s1 in
      (s2, got1 || got2)
  end.

(** drainReceivedDataMap; every pass erases an entry. *)
Fixpoint drain_loop (fuel : nat) (s : ReorderState) : option (ReorderState * list DeliveryItem) :=
  match fuel with
  | O => None
  | S fuel =>
      let id := nextMessageId s in
      match receivedDataMap s !! id with
      | None => Some (s, [])
      | Some it =>
          match drain_loop fuel (set_stream (u64 (id + 1)) (delete id (receivedDataMap s))
                                   (notifiedMissingIds s ∖ {[id]}) (ri_sourceConnIndex it) s) with
          | None => None
          | Some (s', items) => Some (s', mkDeliveryItem id (ri_data it) (ri_sourceConnIndex it) :: items)
          end
      end
  end.

Definition drainReceivedDataMap (s : ReorderState) : option (ReorderState * list DeliveryItem) :=
  drain_loop (S (size (receivedDataMap s))) s.

(** The keys of the std::map in order. *)
Definition sorted_keys (m : gmap Z ReceivedItem) : list Z := merge_sort Z.le (elements (dom m)).

(** The block between the drain and sendMissingNotifications.  [reorderTimeout]
    in nanoseconds; [now] is the clock of the branch taken. *)
Definition gap_check (reorderTimeout now : Z) (s : ReorderState)
  : option (ReorderState * list DeliveryItem) :=
  match sorted_keys (receivedDataMap s) with
  | [] => Some (set_gap false (gapFirstSeen s) s, [])
  | skipTo :: _ =>
      if negb (gapTimerActive s) then Some (set_gap true now s, [])
      else if reorderTimeout <=? now - gapFirstSeen s then
        drainReceivedDataMap
          (set_gap false (gapFirstSeen s)
             (set_stream skipTo (receivedDataMap s) ∅ (lastDeliveredConnIndex s) s))
      else Some (s, [])
  end.

(** [for (id = expected; id < kv.first; ++id)], [n] ids left. *)
Fixpoint scan_gap (notified : gset Z) (n : nat) (id : Z) (missingIds : list Z) : list Z :=
  match n with
  | O => missingIds
  | S n =>
      if decide (id ∈ notified) then scan_gap notified n (id + 1) missingIds
      else if (VC_MAX_MISSING_IDS_PER_NOTIFY <=? length (missingIds ++ [id]))%nat
           then missingIds ++ [id]
           else scan_gap notified n (id + 1) (missingIds ++ [id])
  end.

Fixpoint scan_keys (notified : gset Z) (expected : Z) (keys : list Z) (missingIds : list Z) : list Z :=
  match keys with
  | [] => missingIds
  | k :: keys =>
      let ids := scan_gap notified (Z.to_nat (k - expected)) expected missingIds in
      if (VC_MAX_MISSING_IDS_PER_NOTIFY <=? length ids)%nat then ids
      else scan_keys notified expected keys ids
  end.

(** sendMissingNotifications: the new state and the ids of the callback, if it
    is called. *)
Definition sendMissingNotifications (missingNotifyInterval now : Z) (s : ReorderState)
  : ReorderState * option (list Z) :=
  if bool_decide (receivedDataMap s = ∅) || negb (gapTimerActive s) then (s, None)
  else if now - gapFirstSeen s <? missingNotifyInterval then (s, None)
  else
    match scan_keys (notifiedMissingIds s) (nextMessageId s) (sorted_keys (receivedDataMap s)) [] with
    | [] => (s, None)
    | missingIds =>
        let notified := if (1000 <? size (notifiedMissingIds s))%nat then ∅ else notifiedMissingIds s in
        (mkReorderState (nextMessageId s) (receivedDataMap s) (notified ∪ list_to_set missingIds)
           (lastDeliveredConnIndex s) (gapTimerActive s) (gapFirstSeen s) now (lastRx s),
         Some missingIds)
    end.

(** How an iteration ends. *)
Inductive reorder_wait : Type :=
| NoWait
| WaitFor (ns : Z)     (* wait_for with the enqueue predicate *)
| WaitUntimed.         (* wait with the enqueue predicate *)

Definition wait_decision (gotAny : bool) (reorderTimeout now : Z) (s : ReorderState) : reorder_wait :=
  if gotAny then NoWait
  else if gapTimerActive s then
    let remaining := reorderTimeout - (now - gapFirstSeen s) in
    if 0 <? remaining then WaitFor remaining else NoWait
  else WaitUntimed.

(** The clock readings of one iteration. *)
Record clock : Type := mkClock { t_rx : Z; t_gap : Z; t_notify : Z; t_wait : Z }.

Record reorder_config : Type := mkReorderConfig {
  reorderTimeoutMs : Z;
  missingNotifyIntervalMs : Z;
}.

Definition default_config : reorder_config := mkReorderConfig 4000 200.

Record reorder_output : Type := mkReorderOutput {
  itemsToDeliver : list DeliveryItem;  (* passed to receiveCallback in this order *)
  missingNotify : option (list Z);
  waits : reorder_wait;
}.

(** One iteration, given the items its dequeue loops took. *)
Definition reorder_iteration (cfg : reorder_config) (clk : clock) (items : list DeliveryItem)
  (s : ReorderState) : option (ReorderState * reorder_output) :=
  let '(s1, gotAny) := process_items (t_rx clk) items s in
  match drainReceivedDataMap s1 with
  | None => None
  | Some (s2, items1) =>
      match gap_check (ms (reorderTimeoutMs cfg)) (t_gap clk) s2 with
      | None => None
      | Some (s3, items2) =>
          let '(s4, notify) := sendMissingNotifications (ms (missingNotifyIntervalMs cfg)) (t_notify clk) s3 in
          Some (s4, {| itemsToDeliver := items1 ++ items2; missingNotify := notify;
                       waits := wait_decision gotAny (ms (reorderTimeoutMs cfg)) (t_wait clk) s4 |})
      end
  end.

(** Successive iterations. *)
Fixpoint reorder_run (cfg : reorder_config) (steps : list (clock * list DeliveryItem)) (s : ReorderState)
  : option (ReorderState * list reorder_output) :=
  match steps with
  | [] => Some (s, [])
  | (clk, items) :: steps =>
      match reorder_iteration cfg clk items s with
      | None => None
      | Some (s1, o) =>
          match reorder_run cfg steps s1 with
          | None => None
          | Some (s2, os) => Some (s2, o :: os)
          end
      end
  end.

Definition delivered (os : list reorder_output) : list DeliveryItem := concat (itemsToDeliver <$> os).

(** ** The queues in front of the thread *)

Section queues.
Context {Q : Type} `{HL : BoundedFifoLaws DeliveryItem Q}.

(** processReceivedData: the queues and reorderEnqueueSeq; the flag is false
    when the item was dropped because its queue was full. *)
Definition processReceivedData (item : DeliveryItem) (qs : list Q) (reorderEnqueueSeq : Z)
  : list Q * Z * bool :=
  let i := sourceConnIndex item in
  if (0 <=? i) && (i <? Z.of_nat (length qs)) then
    match qs !! Z.to_nat i with
    | None => (qs, reorderEnqueueSeq, true)
    | Some q =>
        let '(q', enqueued) := bf_enqueue item q in
        if enqueued then (<[Z.to_nat i := q']> qs, u64 (reorderEnqueueSeq + 1), true)
        else (<[Z.to_nat i := q']> qs, reorderEnqueueSeq, false)
    end
  else (qs, reorderEnqueueSeq, true).

(** The dequeue loops, one queue after another. *)
Fixpoint drain_queues (qs : list Q) : option (list DeliveryItem * list Q) :=
  match qs with
  | [] => Some ([], [])
  | q :: qs =>
      match drain_all q with
      | None => None
      | Some (items, q') =>
          match drain_queues qs with
          | None => None
          | Some (items', qs') => Some (items ++ items', q' :: qs')
          end
      end
  end.

Lemma drain_queues_view qs :
  Forall bf_wf qs ->
  exists qs', drain_queues qs = Some (concat (bf_view <$> qs), qs')
              /\ Forall bf_wf qs' /\ Forall (fun q => bf_view q = []) qs' /\ length qs' = length qs.
Proof.
  induction 1 as [|q qs Hq Hqs IH]; [by exists []|]. cbn [drain_queues].
  destruct (drain_all_view q Hq) as (q' & -> & Hwf & Hv).
  destruct IH as (qs' & -> & H1 & H2 & H3).
  exists (q' :: qs'). split_and!; [done | by constructor | by constructor | by cbn; rewrite H3].
Qed.
End queues.

(** ** The drain *)

Lemma drain_loop_total fuel s :
  (size (receivedDataMap s) < fuel)%nat -> is_Some (drain_loop fuel s).
Proof.
  revert s. induction fuel as [|fuel IH]; intros s Hl; [lia|]. cbn [drain_loop].
  destruct (receivedDataMap s !! nextMessageId s) as [it|] eqn:E; [|by eexists].
  set (s1 := set_stream _ _ _ _ _). destruct (IH s1) as [[s' items] ->]; [|by eexists].
  cbn. rewrite map_size_delete, E. cbn.
  assert (size (receivedDataMap s) <> 0%nat); [|lia].
  rewrite map_size_non_empty_iff. intros E0. by rewrite E0, lookup_empty in E.
Qed.

Lemma drain_total s : is_Some (drainReceivedDataMap s).
Proof. apply drain_loop_total. lia. Qed.

(** The keys are message ids below 2^64 - 1, none older than the next one. *)
Definition map_ok (s : ReorderState) : Prop :=
  0 <= nextMessageId s < 2 ^ 64
  /\ forall id, is_Some (receivedDataMap s !! id) -> nextMessageId s <= id < 2 ^ 64 - 1.

(** The buffered item at [id] as it will be delivered. *)
Definition item_at (m : gmap Z ReceivedItem) (d : DeliveryItem) : Prop :=
  m !! messageId d = Some (mkReceivedItem (data d) (sourceConnIndex d)).

Definition drained (s s' : ReorderState) (items : list DeliveryItem) : Prop :=
  exists k : nat,
    nextMessageId s' = nextMessageId s + Z.of_nat k
    /\ messageId <$> items = seqZ (nextMessageId s) (Z.of_nat k)
    /\ Forall (item_at (receivedDataMap s)) items
    /\ (forall id, receivedDataMap s' !! id
                   = if decide (id < nextMessageId s + Z.of_nat k) then None
                     else receivedDataMap s !! id)
    /\ receivedDataMap s' !! nextMessageId s' = None
    /\ map_ok s'
    /\ gapTimerActive s' = gapTimerActive s /\ gapFirstSeen s' = gapFirstSeen s.

Lemma item_at_delete id m items :
  Forall (item_at (delete id m)) items -> Forall (item_at m) items.
Proof.
  intros H. eapply Forall_impl; [exact H|]. intros d Hd. unfold item_at in *.
  by apply lookup_delete_Some in Hd as [_ Hd].
Qed.

Lemma drain_loop_spec fuel s s' items :
  map_ok s -> drain_loop fuel s = Some (s', items) -> drained s s' items.
Proof.
  revert s s' items. induction fuel as [|fuel IH]; intros s s' items Hok Hd; [done|].
  cbn [drain_loop] in Hd. destruct Hok as [Hn Hm].
  destruct (receivedDataMap s !! nextMessageId s) as [it|] eqn:E.
  - pose proof (Hm _ (ex_intro _ it E)) as Hid.
    set (s1 := set_stream _ _ _ _ _) in Hd.
    destruct (drain_loop fuel s1) as [[s2 items2]|] eqn:Ed; [|done]. injection Hd as <- <-.
    assert (E1 : nextMessageId s1 = nextMessageId s + 1)
      by (cbn; apply u64_small; unfold is_u64; lia).
    assert (Hok1 : map_ok s1).
    { split; [rewrite E1; lia|]. intros id [x Hx]. cbn in Hx.
      apply lookup_delete_Some in Hx as [Hne Hx]. specialize (Hm id (ex_intro _ x Hx)). rewrite E1. lia. }
    destruct (IH _ _ _ Hok1 Ed) as (k & En & Eids & Hitems & Hmap & Hend & Hok2 & Ha & Hf).
    exists (S k). rewrite En, E1. split_and!.
    + lia.
    + cbn. rewrite Eids, E1. rewrite (seqZ_cons (nextMessageId s)) by lia.
      f_equal. f_equal; lia.
    + constructor; [unfold item_at; cbn; rewrite E; by destruct it | exact (item_at_delete _ _ _ Hitems)].
    + intros id. rewrite Hmap, E1. cbn [s1 set_stream receivedDataMap].
      destruct (decide (id < nextMessageId s + 1 + Z.of_nat k)); case_decide; try lia; [done|].
      apply lookup_delete_ne. lia.
    + by rewrite En, E1 in Hend.
    + done.
    + done.
    + done.
  - injection Hd as <- <-. exists 0%nat. split_and!; try done; [lia|].
    intros id. case_decide; [|done]. apply eq_None_not_Some. intros Hs%Hm. lia.
Qed.

Lemma drain_spec s :
  map_ok s -> exists s' items, drainReceivedDataMap s = Some (s', items) /\ drained s s' items.
Proof.
  intros Hok. destruct (drain_total s) as [[s' items] E]. exists s', items.
  split; [done|]. by eapply drain_loop_spec.
Qed.

(** ** Absorbing received items *)

Definition fresh_item (d : DeliveryItem) : Prop := 0 <= messageId d < 2 ^ 64 - 1.

Lemma process_item_fields now it s :
  let s' := (process_item now it s).1 in
  nextMessageId s' = nextMessageId s /\ gapTimerActive s' = gapTimerActive s
  /\ gapFirstSeen s' = gapFirstSeen s /\ notifiedMissingIds s' = notifiedMissingIds s
  /\ forall id, receivedDataMap s' !! id
     = match receivedDataMap s !! id with
       | Some x => Some x
       | None => if decide (id = messageId it /\ nextMessageId s <= id)
                 then Some (mkReceivedItem (data it) (sourceConnIndex it)) else None
       end.
Proof.
  cbv zeta. unfold process_item. cbv zeta.
  set (s1 := if _ && _ then _ else _).
  assert (H : nextMessageId s1 = nextMessageId s /\ gapTimerActive s1 = gapTimerActive s
              /\ gapFirstSeen s1 = gapFirstSeen s /\ notifiedMissingIds s1 = notifiedMissingIds s
              /\ receivedDataMap s1 = receivedDataMap s) by (unfold s1; by case_match).
  destruct H as (E1 & E2 & E3 & E4 & E5). rewrite E1.
  destruct (Z.ltb_spec (messageId it) (nextMessageId s)); cbn [fst].
  - rewrite E5. split_and!; try done. intros id. case_match; [done|]. rewrite decide_False; [done | lia].
  - cbn. rewrite E5. split_and!; try done. intros id.
    destruct (receivedDataMap s !! messageId it) as [x|] eqn:Ex.
    + destruct (receivedDataMap s !! id) eqn:Ei; [done|]. rewrite decide_False; [done | naive_solver].
    + destruct (decide (id = messageId it)) as [->|Hne].
      * rewrite lookup_insert_eq, Ex, decide_True; done.
      * rewrite lookup_insert_ne by done. case_match; [done|]. rewrite decide_False; naive_solver.
Qed.

(** The items that arrived before, in arrival order, and what the map holds. *)
Definition first_with_id (id : Z) (items : list DeliveryItem) : option DeliveryItem :=
  head (filter (fun d => messageId d = id) items).

Lemma process_items_fields now items s :
  let s' := (process_items now items s).1 in
  nextMessageId s' = nextMessageId s /\ gapTimerActive s' = gapTimerActive s
  /\ gapFirstSeen s' = gapFirstSeen s /\ notifiedMissingIds s' = notifiedMissingIds s
  /\ forall id, receivedDataMap s' !! id
     = match receivedDataMap s !! id with
       | Some x => Some x
       | None => if decide (nextMessageId s <= id)
                 then (fun d => mkReceivedItem (data d) (sourceConnIndex d)) <$> first_with_id id items
                 else None
       end.
Proof.
  revert s. induction items as [|it items IH]; intros s; cbv zeta.
  - cbn. split_and!; try done. intros id. case_match; [done|]. by case_decide.
  - cbn [process_items]. pose proof (process_item_fields now it s) as H1. cbv zeta in H1.
    destruct (process_item now it s) as [s1 g1]. cbn [fst] in H1.
    destruct H1 as (E1 & E2 & E3 & E4 & Hm1). specialize (IH s1). cbv zeta in IH.
    destruct (process_items now items s1) as [s2 g2]. cbn [fst] in IH |- *.
    destruct IH as (F1 & F2 & F3 & F4 & Hm2). rewrite F1, F2, F3, F4, E1, E2, E3, E4.
    split_and!; try done. intros id. rewrite Hm2, Hm1, E1.
    destruct (receivedDataMap s !! id) as [x|]; [done|].
    unfold first_with_id. rewrite filter_cons.
    destruct (decide (messageId it = id)) as [<-|Hne].
    + destruct (decide (nextMessageId s <= messageId it)) as [Hle|Hle].
      * rewrite !decide_True by done. done.
      * rewrite decide_False by naive_solver. done.
    + rewrite decide_False by naive_solver. done.
Qed.

Lemma first_with_id_Some id items d :
  first_with_id id items = Some d -> messageId d = id /\ d ∈ items.
Proof.
  unfold first_with_id. intros H. apply head_Some_elem_of in H.
  by apply list_elem_of_filter in H.
Qed.

Lemma map_ok_process now items s :
  map_ok s -> Forall fresh_item items -> map_ok (process_items now items s).1.
Proof.
  intros [Hn Hm] Hf. pose proof (process_items_fields now items s) as H. cbv zeta in H.
  destruct H as (E1 & _ & _ & _ & Hmap). split; rewrite E1; [done|]. intros id Hs.
  rewrite Hmap in Hs. destruct (receivedDataMap s !! id) eqn:E; [apply Hm; by eexists|].
  case_decide; [|by destruct Hs]. apply fmap_is_Some in Hs as [d Hd].
  apply first_with_id_Some in Hd as [<- Hin].
  rewrite Forall_forall in Hf. destruct (Hf d Hin). lia.
Qed.

(** ** The gap check and the notification *)

Lemma elem_of_sorted_keys m id : id ∈ sorted_keys m <-> is_Some (m !! id).
Proof.
  unfold sorted_keys. rewrite (merge_sort_Permutation Z.le), elem_of_elements. apply elem_of_dom.
Qed.

Lemma sorted_keys_sorted m : Sorted.StronglySorted Z.le (sorted_keys m).
Proof. apply Sorted.Sorted_StronglySorted; [exact Z.le_trans | apply (Sorted_merge_sort Z.le)]. Qed.

Lemma sorted_keys_nil m : sorted_keys m = [] -> m = ∅.
Proof.
  intros E. apply map_eq. intros id. rewrite lookup_empty.
  apply eq_None_not_Some. rewrite <- elem_of_sorted_keys, E. apply not_elem_of_nil.
Qed.

Lemma sorted_keys_head m k ks :
  sorted_keys m = k :: ks -> is_Some (m !! k) /\ forall id, is_Some (m !! id) -> k <= id.
Proof.
  intros E. split; [apply elem_of_sorted_keys; rewrite E; by left|].
  intros id Hid%elem_of_sorted_keys. pose proof (sorted_keys_sorted m) as Hs. rewrite E in Hs, Hid.
  apply Sorted.StronglySorted_inv in Hs as [_ Hs]. apply elem_of_cons in Hid as [->|Hid]; [lia|].
  rewrite List.Forall_forall in Hs. apply Hs. by apply list_elem_of_In.
Qed.

(** The state in which the skip drains. *)
Definition skipped (s : ReorderState) (skipTo : Z) : ReorderState :=
  set_gap false (gapFirstSeen s) (set_stream skipTo (receivedDataMap s) ∅ (lastDeliveredConnIndex s) s).

Lemma gap_check_spec timeout now s :
  map_ok s ->
  exists s' items, gap_check timeout now s = Some (s', items) /\ map_ok s' /\
    ((items = [] /\ nextMessageId s' = nextMessageId s /\ receivedDataMap s' = receivedDataMap s
      /\ (gapTimerActive s = true -> receivedDataMap s <> ∅ -> now - gapFirstSeen s < timeout)
      /\ (gapTimerActive s' = true <-> receivedDataMap s <> ∅)
      /\ (gapTimerActive s' = true ->
          gapFirstSeen s' = if gapTimerActive s then gapFirstSeen s else now))
     \/ (exists skipTo, gapTimerActive s = true /\ timeout <= now - gapFirstSeen s
           /\ is_Some (receivedDataMap s !! skipTo) /\ (forall id, is_Some (receivedDataMap s !! id) -> skipTo <= id)
           /\ nextMessageId s <= skipTo /\ drained (skipped s skipTo) s' items
           /\ gapTimerActive s' = false)).
Proof.
  intros Hok. unfold gap_check. destruct (sorted_keys (receivedDataMap s)) as [|k ks] eqn:E.
  - do 2 eexists. split; [done|]. split; [done|]. left. cbn. split_and!; try done.
    all: rewrite (sorted_keys_nil _ E); naive_solver.
  - destruct (sorted_keys_head _ _ _ E) as [Hk Hmin].
    assert (Hne : receivedDataMap s <> ∅) by (intros E0; rewrite E0, lookup_empty in Hk; by destruct Hk).
    destruct (gapTimerActive s) eqn:Ea; cbn [negb].
    + destruct (Z.leb_spec timeout (now - gapFirstSeen s)).
      * assert (Hok' : map_ok (skipped s k)).
        { destruct Hok as [H1 H2]. pose proof (H2 k Hk). split; [cbn; lia|].
          cbn. intros id Hid. pose proof (H2 id Hid). pose proof (Hmin id Hid). lia. }
        destruct (drain_spec (skipped s k) Hok') as (s' & items & Hd & Hdr).
        exists s', items. split; [exact Hd|]. split; [by destruct Hdr as (? & ? & ? & ? & ? & ? & ? & _)|].
        right. exists k. split_and!; try done; [by apply Hok | by destruct Hdr as (? & ? & ? & ? & ? & ? & ? & -> & _)].
      * do 2 eexists. split; [done|]. split; [done|]. left. rewrite Ea. split_and!; try done.
    + do 2 eexists. split; [done|]. split; [done|]. left. cbn. split_and!; try done.
Qed.

Lemma notify_fields interval now s :
  let s' := (sendMissingNotifications interval now s).1 in
  nextMessageId s' = nextMessageId s /\ receivedDataMap s' = receivedDataMap s
  /\ gapTimerActive s' = gapTimerActive s /\ gapFirstSeen s' = gapFirstSeen s.
Proof.
  cbv zeta. unfold sendMissingNotifications. case_match; [done|]. case_match; [done|].
  by case_match.
Qed.

(** ** One iteration *)

(** The gap timer does not expire in this iteration: something is still buffered
    after the drain only while the timer has run for less than the timeout. *)
Definition in_time (cfg : reorder_config) (clk : clock) (items : list DeliveryItem) (s : ReorderState) : Prop :=
  forall s2 out, drainReceivedDataMap (process_items (t_rx clk) items s).1 = Some (s2, out) ->
    gapTimerActive s2 = true -> receivedDataMap s2 <> ∅ ->
    t_gap clk - gapFirstSeen s2 < ms (reorderTimeoutMs cfg).

(** What an iteration does, in terms of the buffered and the new items; [quiet]
    rules out the skip. *)
Definition iteration_spec (timeout tgap : Z) (quiet : Prop) (items : list DeliveryItem) (s s' : ReorderState)
  (out : list DeliveryItem) : Prop :=
  exists s1 s2 out1 out2,
    map_ok s1 /\ nextMessageId s1 = nextMessageId s
    /\ (forall id, receivedDataMap s1 !! id
        = match receivedDataMap s !! id with
          | Some x => Some x
          | None => if decide (nextMessageId s <= id)
                    then (fun d => mkReceivedItem (data d) (sourceConnIndex d)) <$> first_with_id id items
                    else None
          end)
    /\ drained s1 s2 out1 /\ gapTimerActive s2 = gapTimerActive s /\ gapFirstSeen s2 = gapFirstSeen s
    /\ out = out1 ++ out2 /\ map_ok s' /\
    ((out2 = [] /\ nextMessageId s' = nextMessageId s2 /\ receivedDataMap s' = receivedDataMap s2
      /\ (gapTimerActive s = true -> receivedDataMap s2 <> ∅ -> tgap - gapFirstSeen s < timeout)
      /\ (gapTimerActive s' = true <-> receivedDataMap s2 <> ∅)
      /\ (gapTimerActive s' = true ->
          gapFirstSeen s' = if gapTimerActive s then gapFirstSeen s else tgap))
     \/ (exists skipTo s3, gapTimerActive s = true /\ timeout <= tgap - gapFirstSeen s
           /\ is_Some (receivedDataMap s2 !! skipTo)
           /\ (forall id, is_Some (receivedDataMap s2 !! id) -> skipTo <= id)
           /\ nextMessageId s2 <= skipTo /\ drained (skipped s2 skipTo) s3 out2
           /\ nextMessageId s' = nextMessageId s3 /\ receivedDataMap s' = receivedDataMap s3
           /\ gapTimerActive s' = false /\ ~ quiet)).

Lemma map_ok_same s s' :
  nextMessageId s' = nextMessageId s -> receivedDataMap s' = receivedDataMap s -> map_ok s -> map_ok s'.
Proof. unfold map_ok. by intros -> ->. Qed.

Lemma iteration_meets_spec cfg clk items s :
  map_ok s -> Forall fresh_item items ->
  exists s' o, reorder_iteration cfg clk items s = Some (s', o)
    /\ iteration_spec (ms (reorderTimeoutMs cfg)) (t_gap clk) (in_time cfg clk items s) items s s' (itemsToDeliver o).
Proof.
  intros Hok Hf. unfold reorder_iteration.
  pose proof (map_ok_process (t_rx clk) items s Hok Hf) as Hok1.
  pose proof (process_items_fields (t_rx clk) items s) as Hp. cbv zeta in Hp.
  unfold in_time. destruct (process_items (t_rx clk) items s) as [s1 got]. cbn [fst] in *.
  destruct Hp as (E1 & E2 & E3 & E4 & Hmap).
  destruct (drain_spec s1 Hok1) as (s2 & out1 & Edr & Hd). rewrite Edr.
  assert (Hok2 : map_ok s2) by (by destruct Hd as (? & ? & ? & ? & ? & ? & ? & _)).
  assert (Eg : gapTimerActive s2 = gapTimerActive s /\ gapFirstSeen s2 = gapFirstSeen s).
  { destruct Hd as (? & ? & ? & ? & ? & ? & ? & -> & ->). done. }
  destruct Eg as [Eg1 Eg2].
  destruct (gap_check_spec (ms (reorderTimeoutMs cfg)) (t_gap clk) s2 Hok2)
    as (s3 & out2 & -> & Hok3 & Hcase).
  pose proof (notify_fields (ms (missingNotifyIntervalMs cfg)) (t_notify clk) s3) as Hn. cbv zeta in Hn.
  destruct (sendMissingNotifications _ _ s3) as [s4 nt]. cbn [fst] in Hn.
  destruct Hn as (N1 & N2 & N3 & N4).
  do 2 eexists. split; [done|]. exists s1, s2, out1, out2. cbn [itemsToDeliver].
  split_and!; try done; [by eapply map_ok_same|].
  rewrite N1, N2, N3, N4, <- Eg1, <- Eg2.
  destruct Hcase as [Hc|(skipTo & Hc)]; [by left|]. right. exists skipTo, s3.
  destruct Hc as (Hact & Hto & [x Hx] & Hmin & Hle & Hdr & Hoff). split_and!; try done. intros Hq.
  assert (receivedDataMap s2 <> ∅) by (intros E; by rewrite E, lookup_empty in Hx).
  specialize (Hq s2 out1 eq_refl Hact ltac:(done)). lia.
Qed.

(** Ascending ids within [lo, hi). *)
Definition ascending (lo hi : Z) (l : list Z) : Prop :=
  Sorted.StronglySorted Z.lt l /\ Forall (fun x => lo <= x < hi) l.

Lemma ascending_seqZ n k : ascending n (n + k) (seqZ n k).
Proof.
  split.
  - destruct (decide (0 <= k)) as [Hk|]; [|rewrite seqZ_nil by lia; constructor].
    rewrite <- (Z2Nat.id k) by done. generalize (Z.to_nat k). clear Hk k. intros k.
    revert n. induction k as [|k IH]; intros n; [by rewrite seqZ_nil by lia; constructor|].
    rewrite seqZ_cons by lia. constructor; [by replace (Z.pred (Z.of_nat (S k))) with (Z.of_nat k) by lia|].
    apply List.Forall_forall. intros x Hx%list_elem_of_In%elem_of_seqZ. lia.
  - apply Forall_forall. intros x Hx%elem_of_seqZ. lia.
Qed.

Lemma ascending_app a b c d l1 l2 :
  b <= c -> a <= c -> b <= d -> ascending a b l1 -> ascending c d l2 -> ascending a d (l1 ++ l2).
Proof.
  intros Hbc Hac Hbd [Hs1 Hf1] [Hs2 Hf2]. split.
  - induction l1 as [|x l1 IH]; [done|]. apply Sorted.StronglySorted_inv in Hs1 as [Hs1 Hx].
    apply Forall_cons in Hf1 as [Hbx Hf1]. constructor; [by apply IH|].
    apply List.Forall_app. split; [done|]. apply List.Forall_forall. intros y Hy%list_elem_of_In.
    rewrite Forall_forall in Hf2. specialize (Hf2 y Hy). lia.
  - apply Forall_app. split; [eapply Forall_impl; [exact Hf1|] | eapply Forall_impl; [exact Hf2|]];
      cbn; intros; lia.
Qed.

(** Where a delivered or buffered item comes from. *)
Definition comes_from (m : gmap Z ReceivedItem) (items : list DeliveryItem) (d : DeliveryItem) : Prop :=
  item_at m d \/ d ∈ items.

Lemma iteration_step timeout tgap quiet items s s' out :
  map_ok s -> iteration_spec timeout tgap quiet items s s' out ->
  map_ok s' /\ nextMessageId s <= nextMessageId s'
  /\ ascending (nextMessageId s) (nextMessageId s') (messageId <$> out)
  /\ Forall (comes_from (receivedDataMap s) items) out
  /\ (forall d, item_at (receivedDataMap s') d -> comes_from (receivedDataMap s) items d).
Proof.
  intros Hok (s1 & s2 & out1 & out2 & Hok1 & E1 & Hmap & Hd & _ & _ & -> & Hok' & Hcase).
  assert (Hfrom : forall d, item_at (receivedDataMap s1) d -> comes_from (receivedDataMap s) items d).
  { intros d Hd1. unfold item_at in Hd1. rewrite Hmap in Hd1. unfold comes_from, item_at.
    destruct (receivedDataMap s !! messageId d) as [x|]; [by left|]. right.
    case_decide; [|done]. apply fmap_Some in Hd1 as (d' & Hf & E).
    apply first_with_id_Some in Hf as [Em Hin]. destruct d, d'. cbn in *. by simplify_eq. }
  destruct Hd as (k & En & Eids & Hitems & Hm2 & _). rewrite E1 in *.
  assert (Hlast : forall d, item_at (receivedDataMap s2) d -> item_at (receivedDataMap s1) d).
  { intros d. unfold item_at. rewrite Hm2. by case_decide. }
  split; [done|].
  assert (Ha1 : ascending (nextMessageId s) (nextMessageId s2) (messageId <$> out1))
    by (rewrite Eids, En; apply ascending_seqZ).
  assert (Hf1 : Forall (comes_from (receivedDataMap s) items) out1)
    by (eapply Forall_impl; [exact Hitems | auto]).
  destruct Hcase as [(-> & En' & Em' & _)|(skipTo & s3 & _ & _ & Hsk & _ & Hle & Hd3 & En' & Em' & _)].
  - rewrite app_nil_r, En', Em'. split_and!; [lia | done | done | auto].
  - destruct Hd3 as (k3 & En3 & Eids3 & Hit3 & Hm3 & _). cbn in En3, Eids3, Hit3, Hm3.
    rewrite En', Em'. split_and!.
    + lia.
    + rewrite fmap_app, Eids3, En3. eapply ascending_app; [exact Hle | lia | lia | done | apply ascending_seqZ].
    + apply Forall_app. split; [done|]. eapply Forall_impl; [exact Hit3 | auto].
    + intros d Hd3. apply Hfrom, Hlast. unfold item_at in *. rewrite Hm3 in Hd3. by case_decide.
Qed.

Lemma reorder_run_ascending cfg steps s :
  map_ok s -> Forall (fun st => Forall fresh_item st.2) steps ->
  exists s' os, reorder_run cfg steps s = Some (s', os)
    /\ map_ok s' /\ nextMessageId s <= nextMessageId s'
    /\ ascending (nextMessageId s) (nextMessageId s') (messageId <$> delivered os)
    /\ Forall (comes_from (receivedDataMap s) (concat (snd <$> steps))) (delivered os).
Proof.
  intros Hok Hf. revert s Hok. induction Hf as [|[clk items] steps Hit Hf IH]; intros s Hok.
  - exists s, []. split_and!; try done. split; constructor.
  - cbn [reorder_run]. cbn [snd] in Hit.
    destruct (iteration_meets_spec cfg clk items s Hok Hit) as (s1 & o & -> & Hspec).
    destruct (iteration_step _ _ _ _ _ _ _ Hok Hspec) as (Hok1 & Hle & Ha & Hfr & Hmap).
    destruct (IH s1 Hok1) as (s2 & os & -> & Hok2 & Hle2 & Ha2 & Hfr2).
    exists s2, (o :: os). split_and!; [done | done | lia | |].
    + unfold delivered in *. rewrite fmap_cons. cbn [concat]. rewrite fmap_app.
      apply (ascending_app _ (nextMessageId s1) (nextMessageId s1)); done || lia.
    + unfold delivered in *. rewrite !fmap_cons. cbn [concat snd]. apply Forall_app. split.
      * eapply Forall_impl; [exact Hfr|]. intros d [Hd|Hd]; [by left | right; apply elem_of_app; by left].
      * eapply Forall_impl; [exact Hfr2|]. intros d [Hd|Hd].
        -- destruct (Hmap d Hd) as [?|?]; [by left | right; apply elem_of_app; by left].
        -- right. apply elem_of_app. by right.
Qed.

Lemma map_ok_new n t : map_ok (newReorderState n t).
Proof. split; [cbn; lia|]. intros id [x Hx]. cbn in Hx. by rewrite lookup_empty in Hx. Qed.

(** C8. Whatever items with ids below 2^64 - 1 arrive, in whatever order, with
    duplicates, and with gaps that are skipped by timeout: every iteration
    terminates, the delivered message ids are strictly increasing, so no message
    is delivered twice or out of order, and every delivered item is one that was
    received.  The id 2^64 - 1 is left out because nextMessageId wraps to 0 after
    it and the order starts over (last_id_restarts_order). *)
Theorem delivery_strictly_increasing (cfg : reorder_config) (n : nat) (openedAt : Z)
  (steps : list (clock * list DeliveryItem)) :
  Forall (fun st => Forall fresh_item st.2) steps ->
  exists s' os, reorder_run cfg steps (newReorderState n openedAt) = Some (s', os)
    /\ Sorted.StronglySorted Z.lt (messageId <$> delivered os)
    /\ Forall (fun d => d ∈ concat (snd <$> steps)) (delivered os).
Proof.
  intros Hf. destruct (reorder_run_ascending cfg steps _ (map_ok_new n openedAt) Hf)
    as (s' & os & Hr & _ & _ & [Hs _] & Hfr).
  exists s', os. split_and!; [done | done |]. eapply Forall_impl; [exact Hfr|].
  intros d [Hd|Hd]; [|done]. unfold item_at in Hd. cbn in Hd. by rewrite lookup_empty in Hd.
Qed.

(** ** Exactly-once, in-order delivery when no gap outlives the timeout *)

Definition payload_of (d : DeliveryItem) : Z * list byte := (messageId d, data d).

Lemma payloads_fmap (f : Z -> list byte) items ids :
  messageId <$> items = ids -> Forall (fun d => data d = f (messageId d)) items ->
  payload_of <$> items = (fun id => (id, f id)) <$> ids.
Proof.
  intros <- Hf. rewrite <- list_fmap_compose. apply list_fmap_ext. intros i d Hd.
  rewrite Forall_lookup in Hf. unfold payload_of. cbn. by rewrite (Hf i d Hd).
Qed.

(** A message of the sender of [f]'s stream of [n] messages. *)
Definition sent_item (f : Z -> list byte) (n : Z) (d : DeliveryItem) : Prop :=
  0 <= messageId d < n /\ data d = f (messageId d).

Lemma comes_from_sent f n m items d :
  (forall d', item_at m d' -> sent_item f n d') -> Forall (sent_item f n) items ->
  comes_from m items d -> sent_item f n d.
Proof. intros Hm Hi [Hd|Hd]; [by apply Hm | by apply (proj1 (Forall_forall _ _) Hi)]. Qed.

Section complete.
Context (cfg : reorder_config) (f : Z -> list byte) (n : Z) (Hn : n < 2 ^ 64).

(** The gap timer never expires in the run of [steps] from [s]. *)
Fixpoint timer_quiet (steps : list (clock * list DeliveryItem)) (s : ReorderState) : Prop :=
  match steps with
  | [] => True
  | (clk, items) :: steps =>
      in_time cfg clk items s
      /\ forall s' o, reorder_iteration cfg clk items s = Some (s', o) -> timer_quiet steps s'
  end.

(** Every message still to be delivered is buffered or yet to arrive. *)
Definition covers (s : ReorderState) (steps : list (clock * list DeliveryItem)) : Prop :=
  forall id, nextMessageId s <= id < n ->
    is_Some (receivedDataMap s !! id) \/ id ∈ messageId <$> concat (snd <$> steps).

Record complete_inv (s : ReorderState) : Prop := {
  ci_ok : map_ok s;
  ci_next : nextMessageId s <= n;
  ci_gone : receivedDataMap s !! nextMessageId s = None;
  ci_sent : forall d, item_at (receivedDataMap s) d -> sent_item f n d;
}.

Lemma is_Some_item_at m id : is_Some (m !! id) -> exists d, messageId d = id /\ item_at m d.
Proof.
  intros [[dt c] Hx]. by exists (mkDeliveryItem id dt c).
Qed.

Lemma complete_step clk items steps s :
  complete_inv s -> Forall (sent_item f n) items -> in_time cfg clk items s -> covers s ((clk, items) :: steps) ->
  exists s' o, reorder_iteration cfg clk items s = Some (s', o)
    /\ complete_inv s' /\ covers s' steps /\ nextMessageId s <= nextMessageId s'
    /\ payload_of <$> itemsToDeliver o
       = (fun id => (id, f id)) <$> seqZ (nextMessageId s) (nextMessageId s' - nextMessageId s).
Proof.
  intros [Hok Hnext Hgone Hsent] Hit Htime Hcov.
  assert (Hfresh : Forall fresh_item items)
    by (eapply Forall_impl; [exact Hit|]; intros d [? _]; unfold fresh_item; lia).
  destruct (iteration_meets_spec cfg clk items s Hok Hfresh) as (s' & o & Hrun & Hspec).
  exists s', o. split; [done|].
  destruct (iteration_step _ _ _ _ _ _ _ Hok Hspec) as (Hok' & Hle & Ha & Hfr & Hmap').
  destruct Hspec as (s1 & s2 & out1 & out2 & Hok1 & E1 & Hmap & Hd & Eg & Ef & Eo & _ & Hcase).
  destruct Hcase as [(-> & En' & Em' & _ & Hact & Hseen)|(k & s3 & _ & _ & _ & _ & _ & _ & _ & _ & _ & Hq)]; [|done].
  rewrite app_nil_r in Eo. subst out1.
  destruct Hd as (k & En & Eids & _ & Hm2 & Hend & _). rewrite E1 in *.
  assert (Hout : Forall (sent_item f n) (itemsToDeliver o))
    by (eapply Forall_impl; [exact Hfr|]; intros d; by apply comes_from_sent).
  split; [constructor|split_and!].
  - done.
  - rewrite En', En. destruct k as [|k]; [lia|].
    assert (Hlast : nextMessageId s + Z.of_nat k ∈ messageId <$> itemsToDeliver o)
      by (rewrite Eids; apply elem_of_seqZ; lia).
    apply list_elem_of_fmap in Hlast as (d & Ed & Hd).
    rewrite Forall_forall in Hout. destruct (Hout d Hd). lia.
  - by rewrite Em', En'.
  - intros d Hd. apply Hmap' in Hd. exact (comes_from_sent f n _ items d Hsent Hit Hd).
  - intros id Hid. rewrite En', En in Hid. rewrite Em', Hm2, decide_False, Hmap by lia.
    destruct (Hcov id ltac:(lia)) as [[x ->]|Hin]; [left; by eexists|].
    cbn [fmap list_fmap concat snd] in Hin. rewrite fmap_app in Hin.
    apply elem_of_app in Hin as [Hin|Hin]; [|by right]. left.
    apply list_elem_of_fmap in Hin as (d & -> & Hd). rewrite decide_True by lia.
    destruct (receivedDataMap s !! messageId d); [by eexists|]. apply fmap_is_Some. unfold first_with_id.
    destruct (filter _ items) as [|y l] eqn:E; [|by eexists]. exfalso.
    eapply not_elem_of_nil. rewrite <- E. by apply list_elem_of_filter.
  - done.
  - rewrite En', En. replace (nextMessageId s + Z.of_nat k - nextMessageId s) with (Z.of_nat k) by lia.
    apply payloads_fmap; [done|]. eapply Forall_impl; [exact Hout | by intros d [_ ?]].
Qed.

Lemma complete_run steps s :
  complete_inv s -> Forall (fun st => Forall (sent_item f n) st.2) steps -> timer_quiet steps s -> covers s steps ->
  exists s' os, reorder_run cfg steps s = Some (s', os)
    /\ payload_of <$> delivered os = (fun id => (id, f id)) <$> seqZ (nextMessageId s) (n - nextMessageId s)
    /\ nextMessageId s' = n /\ receivedDataMap s' = ∅.
Proof.
  intros Hinv Hst. revert s Hinv. induction Hst as [|[clk items] steps Hs Hst IH]; intros s Hinv Hq Hcov.
  - exists s, []. destruct Hinv as [Hok Hnext Hgone Hsent].
    assert (En : nextMessageId s = n).
    { destruct (decide (nextMessageId s = n)) as [|Hne]; [done|].
      destruct (Hcov (nextMessageId s) ltac:(lia)) as [[x Hx]|Hin]; [congruence | by apply not_elem_of_nil in Hin]. }
    rewrite En, seqZ_nil by lia. split_and!; try done.
    apply map_eq. intros id. rewrite lookup_empty. apply eq_None_not_Some. intros Hid.
    destruct Hok as [_ Hm]. pose proof (Hm id Hid). apply is_Some_item_at in Hid as (d & <- & Hd).
    destruct (Hsent d Hd). lia.
  - destruct Hq as [Hq Hqs].
    destruct (complete_step clk items steps s Hinv Hs Hq Hcov) as (s1 & o & Hrun & Hinv1 & Hcov1 & Hle & Eo).
    destruct (IH s1 Hinv1 (Hqs _ _ Hrun) Hcov1) as (s2 & os & Hr & Eos & En & Em).
    exists s2, (o :: os). cbn [reorder_run]. rewrite Hrun, Hr. split_and!; [done | | done | done].
    unfold delivered in *. rewrite fmap_cons. cbn [concat]. rewrite fmap_app, Eo, Eos, <- fmap_app.
    f_equal. pose proof (ci_next _ Hinv1).
    replace (n - nextMessageId s) with ((nextMessageId s1 - nextMessageId s) + (n - nextMessageId s1)) by lia.
    rewrite seqZ_app by lia. do 2 f_equal. lia.
Qed.

(** A run shorter than the timeout is quiet. *)
Lemma timer_quiet_window (T : Z) steps s :
  map_ok s -> Forall (fun st => Forall fresh_item st.2) steps ->
  Forall (fun st => T <= t_gap st.1 < T + ms (reorderTimeoutMs cfg)) steps ->
  (gapTimerActive s = true -> T <= gapFirstSeen s) -> timer_quiet steps s.
Proof.
  intros Hok Hf. revert s Hok. induction Hf as [|[clk items] steps Hi Hf IH]; intros s Hok Ht Ha; [done|].
  apply Forall_cons in Ht as [Hclk Ht]. cbn [fst snd] in *. split.
  - intros s2 out Hd Hact _. pose proof (process_items_fields (t_rx clk) items s) as Hp. cbv zeta in Hp.
    pose proof (map_ok_process (t_rx clk) items s Hok Hi) as Hok1.
    destruct (process_items (t_rx clk) items s) as [s1 got]. cbn [fst] in *. destruct Hp as (_ & E2 & E3 & _).
    destruct (drain_spec s1 Hok1) as (s2' & out' & Ed & Hdr). rewrite Ed in Hd. injection Hd as -> ->.
    destruct Hdr as (_ & _ & _ & _ & _ & _ & _ & Ea & Ef). rewrite Ea, E2 in Hact. specialize (Ha Hact). rewrite Ef, E3. lia.
  - intros s' o Hr. destruct (iteration_meets_spec cfg clk items s Hok Hi) as (s1 & o1 & E & Hspec).
    rewrite Hr in E. injection E as <- <-. destruct (iteration_step _ _ _ _ _ _ _ Hok Hspec) as (Hok' & _).
    apply IH; [done | done |]. destruct Hspec as (? & s2 & ? & ? & _ & _ & _ & _ & _ & _ & _ & _ & Hcase).
    destruct Hcase as [(_ & _ & _ & _ & _ & Hseen)|(k & s3 & _ & _ & _ & _ & _ & _ & _ & _ & Hoff & _)]; [|by rewrite Hoff].
    intros Hact. rewrite (Hseen Hact). destruct (gapTimerActive s); [by apply Ha | lia].
Qed.

(** If the messages 0 .. n-1 all arrive, in any order over any
    connections, any number of times each and spread over the iterations in any
    way, while the gap timer never expires, then receiveCallback is
    called with exactly the n payloads, once each and in the order sent, and
    nothing stays buffered. *)
Theorem in_order_exactly_once (conns : nat) (openedAt : Z) (steps : list (clock * list DeliveryItem)) :
  0 <= n ->
  Forall (fun st => Forall (sent_item f n) st.2) steps -> timer_quiet steps (newReorderState conns openedAt) ->
  (forall id, 0 <= id < n -> id ∈ messageId <$> concat (snd <$> steps)) ->
  exists s' os, reorder_run cfg steps (newReorderState conns openedAt) = Some (s', os)
    /\ payload_of <$> delivered os = (fun id => (id, f id)) <$> seqZ 0 n
    /\ receivedDataMap s' = ∅.
Proof.
  intros H0 Hst Hq Hcov. destruct (complete_run steps (newReorderState conns openedAt)) as (s' & os & Hr & Ed & _ & Em).
  - constructor; [apply map_ok_new | done | by cbn; rewrite lookup_empty |].
    intros d Hd. unfold item_at in Hd. cbn in Hd. by rewrite lookup_empty in Hd.
  - done.
  - done.
  - intros id Hid. right. by apply Hcov.
  - exists s', os. cbn in Ed. rewrite Z.sub_0_r in Ed. done.
Qed.
End complete.

(** ** Timeout *)

(** C26. A gap cannot block the stream: when the timer has run for the reorder
    timeout and something is buffered, the iteration delivers at least one item
    and the next expected id moves on. *)
Theorem timeout_makes_progress (cfg : reorder_config) (clk : clock) (items : list DeliveryItem)
  (s : ReorderState) :
  map_ok s -> Forall fresh_item items ->
  gapTimerActive s = true -> receivedDataMap s <> ∅ ->
  ms (reorderTimeoutMs cfg) <= t_gap clk - gapFirstSeen s ->
  exists s' o, reorder_iteration cfg clk items s = Some (s', o)
    /\ itemsToDeliver o <> [] /\ nextMessageId s < nextMessageId s'.
Proof.
  intros Hok Hf Hact Hne Hto.
  destruct (iteration_meets_spec cfg clk items s Hok Hf) as (s' & o & Hrun & Hspec).
  exists s', o. split; [done|].
  destruct (iteration_step _ _ _ _ _ _ _ Hok Hspec) as (_ & _ & [_ Ha] & _).
  assert (Hnonempty : itemsToDeliver o <> []); [|split; [done|]].
  2: { destruct (itemsToDeliver o) as [|d l]; [done|]. apply Forall_cons in Ha as [Ha _]. lia. }
  destruct Hspec as (s1 & s2 & out1 & out2 & Hok1 & E1 & Hmap & Hd & Eg & Ef & -> & _ & Hcase).
  intros [-> ->]%app_eq_nil.
  destruct Hd as (k & En & Eids & _ & Hm2 & _).
  assert (Hs2 : receivedDataMap s2 <> ∅).
  { intros E0. apply map_choose in Hne as (id & x & Hx). specialize (Hm2 id).
    rewrite E0, lookup_empty, Hmap, Hx in Hm2. symmetry in Hm2.
    assert (k = 0%nat) as -> by (apply (f_equal length) in Eids; rewrite length_seqZ in Eids; cbn in Eids; lia).
    destruct Hok as [_ Hm]. pose proof (Hm id (ex_intro _ x Hx)). rewrite E1 in Hm2.
    by rewrite decide_False in Hm2 by lia. }
  destruct Hcase as [(_ & _ & _ & Hlt & _)|(skipTo & s3 & _ & _ & [x Hsk] & _ & _ & Hd3 & _)].
  - specialize (Hlt Hact Hs2). lia.
  - destruct Hd3 as (k3 & En3 & Eids3 & _ & Hm3 & Hend & _).
    apply (f_equal length) in Eids3. rewrite length_seqZ in Eids3. cbn in Eids3.
    assert (k3 = 0%nat) as -> by lia. cbn in En3. rewrite Z.add_0_r in En3.
    rewrite En3 in Hend. specialize (Hm3 skipTo). rewrite Hend, decide_False in Hm3 by (cbn; lia).
    cbn in Hm3. congruence.
Qed.

(** ** What a notification asks for *)

Lemma scan_gap_spec notified n id acc :
  (length acc < VC_MAX_MISSING_IDS_PER_NOTIFY)%nat ->
  exists new, scan_gap notified n id acc = acc ++ new
    /\ (length (acc ++ new) <= VC_MAX_MISSING_IDS_PER_NOTIFY)%nat
    /\ Forall (fun x => id <= x < id + Z.of_nat n /\ ~ (x ∈ notified)) new
    /\ (length (acc ++ new) = VC_MAX_MISSING_IDS_PER_NOTIFY
        \/ forall x, id <= x < id + Z.of_nat n -> x ∈ notified \/ x ∈ new).
Proof.
  revert id acc. induction n as [|n IH]; intros id acc Hl; cbn [scan_gap].
  - exists []. rewrite app_nil_r. split_and!; [done | lia | constructor | right; intros; lia].
  - destruct (decide (id ∈ notified)) as [Hin|Hnin].
    + destruct (IH (id + 1) acc Hl) as (new & E & H1 & H2 & H3). exists new. split_and!; [done | done | |].
      * eapply Forall_impl; [exact H2|]. cbn. intros; split; [lia | naive_solver].
      * destruct H3 as [?|H3]; [by left|]. right. intros x Hx.
        destruct (decide (x = id)) as [->|]; [by left | apply H3; lia].
    + rewrite length_app. cbn [length].
      destruct (Nat.leb_spec VC_MAX_MISSING_IDS_PER_NOTIFY (length acc + 1)) as [Hge|Hlt].
      * exists [id]. rewrite length_app. cbn [length].
        split_and!; [done | lia | constructor; [split; [lia | done] | constructor] | left; lia].
      * destruct (IH (id + 1) (acc ++ [id])) as (new & E & H1 & H2 & H3); [rewrite length_app; cbn; lia|].
        exists (id :: new). rewrite <- app_assoc in E, H1, H3. cbn [app] in *. split_and!; [done | done | |].
        -- constructor; [split; [lia | done]|]. eapply Forall_impl; [exact H2|]. cbn. intros; split; [lia | naive_solver].
        -- destruct H3 as [?|H3]; [by left|]. right. intros x Hx.
           destruct (decide (x = id)) as [->|]; [right; by left|].
           destruct (H3 x ltac:(lia)); [by left | right; by right].
Qed.

Lemma scan_keys_spec notified expected keys acc hi :
  (length acc < VC_MAX_MISSING_IDS_PER_NOTIFY)%nat -> Forall (fun k => k <= hi) keys ->
  exists new, scan_keys notified expected keys acc = acc ++ new
    /\ (length (acc ++ new) <= VC_MAX_MISSING_IDS_PER_NOTIFY)%nat
    /\ Forall (fun x => expected <= x < hi /\ ~ (x ∈ notified)) new
    /\ (length (acc ++ new) = VC_MAX_MISSING_IDS_PER_NOTIFY
        \/ forall k x, k ∈ keys -> expected <= x < k -> x ∈ notified \/ x ∈ new).
Proof.
  intros Hl Hk. revert acc Hl. induction Hk as [|k keys Hk Hks IH]; intros acc Hl; cbn [scan_keys].
  - exists []. rewrite app_nil_r. split_and!; [done | lia | constructor |].
    right. intros ? ? Hin. by apply not_elem_of_nil in Hin.
  - destruct (scan_gap_spec notified (Z.to_nat (k - expected)) expected acc Hl) as (n1 & -> & H1 & H2 & H3).
    assert (Hf1 : Forall (fun x => expected <= x < hi /\ ~ (x ∈ notified)) n1)
      by (eapply Forall_impl; [exact H2|]; cbn; intros; split; [lia | naive_solver]).
    destruct (Nat.leb_spec VC_MAX_MISSING_IDS_PER_NOTIFY (length (acc ++ n1))) as [Hge|Hlt].
    + exists n1. split_and!; [done | done | done | left; lia].
    + destruct (IH (acc ++ n1) Hlt) as (n2 & -> & G1 & G2 & G3).
      exists (n1 ++ n2). rewrite <- app_assoc in *. split_and!; [done | done | by apply Forall_app |].
      destruct G3 as [?|G3]; [by left|]. right. intros k' x [->|Hin]%elem_of_cons Hx.
      * destruct H3 as [?|H3]; [lia|]. destruct (H3 x ltac:(lia)); [by left | right; apply elem_of_app; by left].
      * destruct (G3 k' x Hin Hx); [by left | right; apply elem_of_app; by right].
Qed.

(** C35. A missing notification is always a well-formed packet: it has between 1
    and 64 ids, each a 64-bit id not older than the next expected one and not
    notified since the last skip or reset; and unless it is full it lists every
    id missing below any buffered message that was not notified before. *)
Theorem notification_well_formed (interval now : Z) (s s' : ReorderState) (ids : list Z) :
  map_ok s -> sendMissingNotifications interval now s = (s', Some ids) ->
  packet_ok (PktMissingNotify ids)
  /\ Forall (fun x => nextMessageId s <= x /\ ~ (x ∈ notifiedMissingIds s) /\ x ∈ notifiedMissingIds s') ids
  /\ (length ids = VC_MAX_MISSING_IDS_PER_NOTIFY
      \/ forall k x, is_Some (receivedDataMap s !! k) -> nextMessageId s <= x < k ->
            x ∈ notifiedMissingIds s \/ x ∈ ids).
Proof.
  intros [Hn Hm] Hs. unfold sendMissingNotifications in Hs.
  destruct (bool_decide _ || _); [done|]. destruct (now - gapFirstSeen s <? interval); [done|].
  destruct (scan_keys_spec (notifiedMissingIds s) (nextMessageId s) (sorted_keys (receivedDataMap s)) []
              (2 ^ 64 - 1)) as (new & E & H1 & H2 & H3).
  - unfold VC_MAX_MISSING_IDS_PER_NOTIFY. cbn. lia.
  - apply Forall_forall. intros k Hk%elem_of_sorted_keys%Hm. lia.
  - rewrite E in Hs. cbn [app] in *. destruct new as [|x new]; [done|].
    injection Hs as <- <-. split_and!.
    + split; [cbn in *; lia|]. eapply Forall_impl; [exact H2|]. cbn. unfold is_u64. intros; lia.
    + apply Forall_forall. intros y Hy. rewrite Forall_forall in H2. destruct (H2 y Hy).
      split_and!; [lia | done |]. cbn [notifiedMissingIds]. apply elem_of_union. right.
      exact (proj2 (elem_of_list_to_set (C := gset Z) y (x :: new)) Hy).
    + destruct H3 as [?|H3]; [by left|]. right. intros k y Hk Hy.
      apply (H3 k); [by apply elem_of_sorted_keys | done].
Qed.

(** ** Behaviours of the code that its comments do not describe *)

Definition item (id : Z) : DeliveryItem := mkDeliveryItem id [byte_of_Z id] 0.
Definition at_ms (t : Z) : clock := mkClock (ms t) (ms t) (ms t) (ms t).

(** A notification repeats ids and asks for messages already received:
    with 1 and 3 buffered and 0 expected it is sent for 0, 0, 1 and 2, because
    every buffered key restarts the scan at the expected id. *)
Theorem notify_duplicates_and_received :
  exists s os, reorder_run default_config [(at_ms 10, [item 1; item 3]); (at_ms 300, [])] (newReorderState 1 0)
               = Some (s, os)
    /\ missingNotify <$> os = [None; Some [0; 0; 1; 2]]
    /\ is_Some (receivedDataMap s !! 1).
Proof. do 2 eexists. split_and!; [vm_compute; reflexivity | reflexivity | by eexists]. Qed.

(** The gap timer is not restarted when one gap closes while another is
    open, so the second gap inherits the age of the first: message 2 is given up
    one millisecond after it was found missing instead of after 4 seconds. *)
Theorem second_gap_inherits_timer :
  exists s os, reorder_run default_config
      [(at_ms 10, [item 1]); (at_ms 4009, [item 0; item 3]); (at_ms 4010, [])] (newReorderState 1 0)
      = Some (s, os)
    /\ (fun o => messageId <$> itemsToDeliver o) <$> os = [[]; [0; 1]; [3]]
    /\ nextMessageId s = 4.
Proof. do 2 eexists. split_and!; [vm_compute; reflexivity | reflexivity | reflexivity]. Qed.

(** A skip that leaves a second gap stops the timer, and an iteration that
    received nothing then waits without a timeout: whatever the state, the
    messages still buffered stay until another message arrives. *)
Theorem skip_then_untimed_wait (cfg : reorder_config) (clk : clock) (s s' : ReorderState)
  (o : reorder_output) :
  map_ok s -> gapTimerActive s = true -> receivedDataMap s !! nextMessageId s = None ->
  ms (reorderTimeoutMs cfg) <= t_gap clk - gapFirstSeen s ->
  reorder_iteration cfg clk [] s = Some (s', o) ->
  receivedDataMap s' <> ∅ -> waits o = WaitUntimed.
Proof.
  intros Hok Hact Hgone Hto Hrun Hne. unfold reorder_iteration in Hrun. cbn [process_items] in Hrun.
  unfold drainReceivedDataMap in Hrun at 1. cbn [drain_loop] in Hrun. rewrite Hgone in Hrun.
  unfold gap_check in Hrun. rewrite Hact in Hrun. cbn [negb] in Hrun.
  destruct (sorted_keys (receivedDataMap s)) as [|k ks] eqn:E.
  - set (s0 := set_gap false (gapFirstSeen s) s) in Hrun.
    pose proof (notify_fields (ms (missingNotifyIntervalMs cfg)) (t_notify clk) s0) as Hn. cbv zeta in Hn.
    destruct (sendMissingNotifications _ _ s0) as [s4 nt]. injection Hrun as <- _.
    cbn [fst] in Hn. destruct Hn as (_ & Hm & _). destruct Hne. rewrite Hm. by apply sorted_keys_nil.
  - destruct (Z.leb_spec (ms (reorderTimeoutMs cfg)) (t_gap clk - gapFirstSeen s)); [|lia].
    assert (Hok' : map_ok (skipped s k)).
    { destruct (sorted_keys_head _ _ _ E) as [Hk Hmin]. destruct Hok as [H1 H2]. pose proof (H2 k Hk).
      split; [cbn; lia|]. cbn. intros id Hid. pose proof (H2 id Hid). pose proof (Hmin id Hid). lia. }
    destruct (drain_spec (skipped s k) Hok') as (s2 & items & Hd & Hdr).
    fold (skipped s k) in Hrun. rewrite Hd in Hrun.
    destruct Hdr as (? & _ & _ & _ & _ & _ & _ & Ha & _). cbn in Ha.
    unfold sendMissingNotifications in Hrun. rewrite Ha in Hrun. cbn [negb] in Hrun.
    rewrite orb_true_r in Hrun. injection Hrun as <- <-. cbn. unfold wait_decision. by rewrite Ha.
Qed.

(** ** The wake-up protocol with the IO thread

    The IO thread's two steps (try_enqueue, then the fetch_add of
    reorderEnqueueSeq, then a notify that matters only to a waiting thread)
    against the reorder thread's drain, load and wait, for one queue. *)

Inductive reorder_pc : Type := PcDrain | PcLoad | PcWait (lastProcessedSeq : Z) | PcAsleep (lastProcessedSeq : Z).

Record wake_state : Type := mkWakeState {
  wq : list DeliveryItem;
  wpending : nat;          (* enqueued, not yet counted *)
  wseq : Z;
  wtaken : list DeliveryItem;
  wpc : reorder_pc;
}.

Inductive wake_step : wake_state -> wake_state -> Prop :=
| io_enqueue q p n d pc x : wake_step (mkWakeState q p n d pc) (mkWakeState (q ++ [x]) (S p) n d pc)
| io_count q p n d pc : wake_step (mkWakeState q (S p) n d pc) (mkWakeState q p (n + 1) d pc)
| reorder_drain q p n d : wake_step (mkWakeState q p n d PcDrain) (mkWakeState [] p n (d ++ q) PcLoad)
| reorder_load q p n d : wake_step (mkWakeState q p n d PcLoad) (mkWakeState q p n d (PcWait n))
| reorder_sleep q p n d l : n <= l -> wake_step (mkWakeState q p n d (PcWait l)) (mkWakeState q p n d (PcAsleep l))
| reorder_go q p n d l : l < n -> wake_step (mkWakeState q p n d (PcWait l)) (mkWakeState q p n d PcDrain)
| reorder_wake q p n d l : l < n -> wake_step (mkWakeState q p n d (PcAsleep l)) (mkWakeState q p n d PcDrain).

Definition wake_init (s : wake_state) : Prop := s = mkWakeState [] 0 0 [] PcDrain.

(** Lost wake-up: lastProcessedSeq is loaded after the queues were drained,
    so an item enqueued and counted in between is neither taken nor noticed; the
    thread can go to sleep with that item in its queue, all IO work done, and no
    step of the reorder thread possible until some later item arrives. *)
Theorem wakeup_lost (x : DeliveryItem) :
  exists s, reachable wake_init wake_step s
    /\ wq s = [x] /\ wpending s = 0%nat /\ wtaken s = []
    /\ forall s', wake_step s s' -> exists y, s' = mkWakeState (wq s ++ [y]) 1 (wseq s) (wtaken s) (wpc s).
Proof.
  exists (mkWakeState [x] 0 1 [] (PcAsleep 1)). split_and!; [|done|done|done|].
  - eexists. split; [done|]. eapply rtc_l; [apply reorder_drain|].
    eapply rtc_l; [apply (io_enqueue _ _ _ _ _ x)|]. eapply rtc_l; [apply io_count|].
    eapply rtc_l; [apply reorder_load|]. eapply rtc_l; [apply reorder_sleep; cbn; lia|]. apply rtc_refl.
  - intros s' Hs. inversion Hs; subst; cbn; [by eexists | lia].
Qed.

(** ** Witnesses *)

Lemma delivery_strictly_increasing_witness :
  exists s' os, reorder_run default_config [(at_ms 10, [item 1; item 0; item 1])] (newReorderState 1 0) = Some (s', os)
    /\ Sorted.StronglySorted Z.lt (messageId <$> delivered os)
    /\ Forall (fun d => d ∈ concat (snd <$> [(at_ms 10, [item 1; item 0; item 1])])) (delivered os).
Proof.
  apply (delivery_strictly_increasing default_config 1 0 [(at_ms 10, [item 1; item 0; item 1])]).
  repeat constructor; unfold fresh_item; cbn; lia.
Defined.

(** Why [fresh_item] leaves out the last id: one packet that carries it, then the
    timeout, and the ids are delivered again from 0. *)
Lemma last_id_restarts_order :
  exists s' os, reorder_run default_config
      [(at_ms 0, [item (2 ^ 64 - 1)]); (at_ms 4000, []); (at_ms 4001, [item 0])] (newReorderState 1 0) = Some (s', os)
    /\ messageId <$> delivered os = [2 ^ 64 - 1; 0].
Proof.
  destruct (reorder_run _ _ _) as [[s' os]|] eqn:E; [|vm_compute in E; discriminate E].
  exists s', os. split; [done|].
  assert (H : (fun r => messageId <$> delivered r.2) <$> reorder_run default_config
      [(at_ms 0, [item (2 ^ 64 - 1)]); (at_ms 4000, []); (at_ms 4001, [item 0])] (newReorderState 1 0)
    = Some [2 ^ 64 - 1; 0]) by (vm_compute; reflexivity).
  rewrite E in H. by injection H.
Qed.

Lemma in_order_exactly_once_witness :
  exists s' os, reorder_run default_config [(at_ms 10, [item 2; item 1]); (at_ms 20, [item 0; item 1])]
                  (newReorderState 1 0) = Some (s', os)
    /\ payload_of <$> delivered os = (fun id => (id, [byte_of_Z id])) <$> seqZ 0 3
    /\ receivedDataMap s' = ∅.
Proof.
  apply (in_order_exactly_once default_config (fun id => [byte_of_Z id]) 3 ltac:(lia) 1 0
           [(at_ms 10, [item 2; item 1]); (at_ms 20, [item 0; item 1])]).
  - lia.
  - repeat (constructor; try (unfold sent_item; cbn; split; [lia | reflexivity])).
  - apply (timer_quiet_window default_config 0); [apply map_ok_new | | by repeat constructor | done].
    repeat constructor; unfold fresh_item; cbn; lia.
  - intros id Hid. assert (id = 0 \/ id = 1 \/ id = 2) as [->|[->| ->]] by lia; cbn; set_solver.
Defined.

(** Message 0 lost, 1 and 3 buffered since 10 ms. *)
Definition gap_example : ReorderState :=
  mkReorderState 0 (<[1 := mkReceivedItem [] 0]> {[ 3 := mkReceivedItem [] 0 ]}) ∅ (-1) true (ms 10) 0 [].

Lemma gap_example_ok : map_ok gap_example.
Proof.
  split; [cbn; lia|]. intros id [x Hx]. cbn in *.
  apply lookup_insert_Some in Hx as [[<- _]|[_ Hx]]; [lia|].
  apply lookup_singleton_Some in Hx as [<- _]. lia.
Qed.

Lemma timeout_makes_progress_witness :
  exists s' o, reorder_iteration default_config (at_ms 4010) [] gap_example = Some (s', o)
    /\ itemsToDeliver o <> [] /\ nextMessageId gap_example < nextMessageId s'.
Proof.
  apply (timeout_makes_progress default_config (at_ms 4010) [] gap_example).
  - exact gap_example_ok.
  - constructor.
  - reflexivity.
  - intros E. apply (f_equal (fun m => m !! 1)) in E. discriminate E.
  - vm_compute. discriminate.
Defined.

Lemma notification_well_formed_witness :
  packet_ok (PktMissingNotify [0; 0; 1; 2]).
Proof.
  refine (proj1 (notification_well_formed (ms 200) (ms 300) gap_example _ [0; 0; 1; 2] gap_example_ok _)).
  vm_compute. reflexivity.
Defined.

Lemma skip_then_untimed_wait_witness :
  exists s' o, reorder_iteration default_config (at_ms 4010) [] gap_example = Some (s', o)
    /\ messageId <$> itemsToDeliver o = [1] /\ is_Some (receivedDataMap s' !! 3) /\ waits o = WaitUntimed.
Proof.
  destruct (reorder_iteration default_config (at_ms 4010) [] gap_example) as [[s' o]|] eqn:E;
    [|vm_compute in E; discriminate E].
  exists s', o. pose proof E as E2. vm_compute in E2. injection E2 as <- <-.
  split_and!; [reflexivity | reflexivity | by eexists |].
  refine (skip_then_untimed_wait default_config (at_ms 4010) gap_example _ _ gap_example_ok _ _ _ E _).
  - reflexivity.
  - reflexivity.
  - vm_compute. discriminate.
  - intros E3. apply (f_equal (fun m => m !! 3)) in E3. discriminate E3.
Defined.
