(* ===== verification/SendThread.v ===== *)
(** * The send thread (src/common/TcpVCSendThread.h, TcpVCSendThread.cpp)

    Scoring and ordering of the data connections, sending one packet over the
    first connection that takes it, the resend path over the reserved
    connections, and one iteration of run() with its parts.  What the system
    calls return and what other threads do to a connection while it is in use
    are arguments; the bytes written, also through a descriptor number that
    another connection has taken over, are part of the result. *)

From Stdlib Require Import Sorted.
From S2P Require Import Prelude Bytes VcProtocol Socket TcpConnection IoThread BlockingQueue SentCache.

Definition TCP_RUNTIME_REFRESH_MS : Z := 250.
Definition MAX_RESEND_RETRIES : Z := 6.
Definition MAX_RESEND_BATCH : nat := 8.
Definition MAX_RESEND_TRACKED : nat := 2000.
Definition PARTIAL_SEND_BUDGET_MS : Z := 3000.

(** The objects the thread works on; a slot without connection is [None]. *)
Record SendConns : Type := mkSendConns {
  sc_connections : list (option nat);
  sc_heap : conn_heap;
  lastRuntimeRefresh : list Z;
}.

Definition conn_at (idx : nat) (sc : SendConns) : option (nat * TcpConnection) :=
  match mjoin (sc_connections sc !! idx) with
  | Some a => (fun c => (a, c)) <$> sc_heap sc !! a
  | None => None
  end.

Definition set_conn (a : nat) (c : TcpConnection) (sc : SendConns) : SendConns :=
  mkSendConns (sc_connections sc) (<[a := c]> (sc_heap sc)) (lastRuntimeRefresh sc).

(** ** Scoring *)

Definition refreshConnRuntimeInfo (now : Z) (sockopt : nat -> option tcp_info) (idx : nat)
  (sc : SendConns) : SendConns :=
  match conn_at idx sc with
  | None => sc
  | Some (a, c) =>
      if negb (connected c) then sc
      else if now - default 0 (lastRuntimeRefresh sc !! idx) <? ms TCP_RUNTIME_REFRESH_MS then sc
      else mkSendConns (sc_connections sc)
             (<[a := (refreshRuntimeInfoIfStale now (ms TCP_RUNTIME_REFRESH_MS) (sockopt idx) c).1]> (sc_heap sc))
             (<[idx := now]> (lastRuntimeRefresh sc))
  end.

(** The arithmetic of rateConnection: [int], with [timeoutEpisodes * 200] and
    the subtraction of it in uint32_t; [None] when the product of the failure
    count overflows [int], which C++ leaves undefined. *)
Definition score_of (info : RuntimeInfo) (reenqueue : option Z) : option Z :=
  let s1 := 10000 + i32 (congestionWindowBytes info / 200) in
  let s2 := s1 - i32 (smoothedRttUs info / 200) in
  let s3 := s2 - i32 (bytesInFlight info / 200) in
  let s4 := i32 (u32 (u32 s3 - u32 (timeoutEpisodes info * 200))) in
  match reenqueue with
  | None => Some (if 0 <? s4 then s4 else 0)
  | Some failCount =>
      let p := i32 failCount * 200 in
      if bool_decide (is_i32 p) && bool_decide (is_i32 (s4 - p))
      then Some (if 0 <? s4 - p then s4 - p else 0) else None
  end.

Definition rateConnection (now : Z) (sockopt : nat -> option tcp_info) (stats : list ConnSendStats)
  (idx : nat) (sc : SendConns) : option (SendConns * Z) :=
  match conn_at idx sc with
  | None => Some (sc, -1)
  | Some (_, c) =>
      if negb (connected c) then Some (sc, -1)
      else
        let sc' := refreshConnRuntimeInfo now sockopt idx sc in
        match conn_at idx sc' with
        | None => Some (sc', -1)
        | Some (_, c') =>
            let info := lastRuntimeInfo c' in
            if isInExponentialBackoff info then Some (sc', -1)
            else match score_of info (reenqueueCount <$> stats !! idx) with
                 | Some score => Some (sc', score)
                 | None => None
                 end
        end
  end.

(** [scores[i] = rateConnection(i, ...)] for [n] connections from [i]. *)
Fixpoint rate_all (now : Z) (sockopt : nat -> option tcp_info) (stats : list ConnSendStats)
  (i n : nat) (sc : SendConns) : option (SendConns * list Z) :=
  match n with
  | O => Some (sc, [])
  | S n =>
      match rateConnection now sockopt stats i sc with
      | None => None
      | Some (sc1, score) =>
          match rate_all now sockopt stats (S i) n sc1 with
          | None => None
          | Some (sc2, scores) => Some (sc2, score :: scores)
          end
      end
  end.

(** ** Ordering *)

Definition score_at (scores : list Z) (i : nat) : Z := default (-1) (scores !! i).

Definition bestScore (scores : list Z) : Z := foldl Z.max (-1) scores.

Definition uniformScores (scores : list Z) : bool :=
  match scores with
  | [] => true
  | s :: rest => forallb (Z.eqb s) rest
  end.

(** std::stable_sort with [scores[a] > scores[b]]. *)
Fixpoint insert_by (scores : list Z) (a : nat) (l : list nat) : list nat :=
  match l with
  | [] => [a]
  | b :: l' => if score_at scores b <=? score_at scores a then a :: l else b :: insert_by scores a l'
  end.

Definition stable_sort (scores : list Z) (l : list nat) : list nat :=
  foldr (insert_by scores) [] l.

(** std::rotate of the first [n] elements, the element at [pick] coming first. *)
Definition rotate_prefix (pick n : nat) (l : list nat) : list nat :=
  drop pick (take n l) ++ take pick (take n l) ++ drop n l.

(** The leading run with the best score. *)
Fixpoint leading (scores : list Z) (best : Z) (l : list nat) : nat :=
  match l with
  | [] => 0
  | i :: l => if score_at scores i =? best then S (leading scores best l) else 0
  end.

Definition build_order (scores : list Z) (roundRobinStart : nat) : list nat :=
  let numDataConns := length scores in
  let order0 := seq 0 numDataConns in
  let order1 := if negb (uniformScores scores) then stable_sort scores order0 else order0 in
  let best := bestScore scores in
  let rotateCount := if 0 <=? best then leading scores best order1 else numDataConns in
  if (1 <? rotateCount)%nat
  then rotate_prefix (roundRobinStart mod rotateCount) rotateCount order1
  else order1.

(** ** Sending one packet on one connection *)

(** When another thread disconnects the connection while it is in use: at a look
    at isConnected(), before the getSocketFd() of the poll or of the send, or
    after getSocketFd() gave the number.  By the time of send(2) that number is
    then closed, or open again as the socket of connection [reused]. *)
Inductive moment : Type :=
| Never
| BeforeCheck
| BeforePoll
| BeforeSend
| InSend (reused : option nat).

#[export] Instance moment_eq_dec : EqDecision moment.
Proof. solve_decision. Defined.

Definition others_at (stage m : moment) (c : TcpConnection) : TcpConnection :=
  if decide (m = stage) then (disconnect c).1 else c.

(** SendTcpDirect on getSocketFd(): the connection after it, the result, and the
    connection whose stream takes the bytes when it is another one.  The number
    -1 and a closed one fail with EBADF. *)
Definition send_call (m : moment) (r : os_send) (c : TcpConnection) : TcpConnection * os_send * option nat :=
  let c1 := others_at BeforeSend m c in
  if socketFd c1 =? -1 then (c1, SendErr EBADF, None)
  else match m with
       | InSend None => ((disconnect c1).1, SendErr EBADF, None)
       | InSend (Some b) => ((disconnect c1).1, r, Some b)
       | _ => (c1, r, None)
       end.

(** The bytes of a packet written so far: to the connection's own stream, and
    then to another connection's. *)
Record written : Type := mkWritten {
  own : nat;
  stray : option (nat * nat);
}.

Definition unwritten : written := mkWritten 0 None.

Definition totalSent (w : written) : nat :=
  own w + match stray w with Some (_, k) => k | None => 0 end.

Definition add_written (other : option nat) (n : nat) (w : written) : written :=
  match other with
  | None => mkWritten (own w + n) (stray w)
  | Some b => mkWritten (own w) (Some (b, n))
  end.

(** One pass of the flush loop: whether the thread is running, what other
    threads do to the connection, whether poll finds the socket writable, what
    send returns, and the milliseconds since the first write. *)
Record flush_pass : Type := mkFlushPass {
  fp_running : bool;
  fp_drop : moment;
  fp_writable : bool;
  fp_send : os_send;
  fp_elapsedMs : Z;
}.

(** The flush loop; [None] when the passes run out.  poll(2) never finds the
    descriptor -1 writable. *)
Fixpoint flush_loop (passes : list flush_pass) (size : nat) (c : TcpConnection) (w : written)
  : option (TcpConnection * written) :=
  if (size <=? totalSent w)%nat then Some (c, w)
  else match passes with
  | [] => None
  | p :: passes =>
      let c1 := others_at BeforeCheck (fp_drop p) c in
      if negb (connected c1) || negb (fp_running p) then Some (c1, w)
      else
        let c2 := others_at BeforePoll (fp_drop p) c1 in
        if (socketFd c2 =? -1) || negb (fp_writable p) then
          if PARTIAL_SEND_BUDGET_MS <=? fp_elapsedMs p then Some (c2, w)
          else flush_loop passes size c2 w
        else
          let '(c3, r, other) := send_call (fp_drop p) (fp_send p) c2 in
          let n := SendTcpDirect r in
          if 0 <? n then flush_loop passes size c3 (add_written other (Z.to_nat n) w)
          else if (n =? SOCKET_ERROR_WOULD_BLOCK) || (n =? SOCKET_ERROR_INTERRUPTED) then
            if PARTIAL_SEND_BUDGET_MS <=? fp_elapsedMs p then Some (c3, w)
            else flush_loop passes size c3 w
          else Some (c3, w)
  end.

(** What happens when a connection is tried: the connections other threads
    disconnect before it, what they do to it at the first send, what that
    returns, and the passes of the flush loop. *)
Record attempt : Type := mkAttempt {
  at_others : list nat;
  at_drop : moment;
  at_first : os_send;
  at_passes : list flush_pass;
}.

Definition quiet_attempt (first : os_send) (passes : list flush_pass) : attempt :=
  mkAttempt [] Never first passes.

Inductive send_result : Type :=
| SrSent            (* the whole packet is written *)
| SrPartial         (* some of it is; the connection was dropped *)
| SrClosed          (* nothing written, the connection was dropped *)
| SrBlocked.        (* nothing written, the connection stays *)

(** The common part of the two send paths: the result, the connection after it
    and the bytes written. *)
Definition send_on (data : list byte) (a : attempt) (c : TcpConnection)
  : option (send_result * TcpConnection * written) :=
  let '(c1, r, other) := send_call (at_drop a) (at_first a) c in
  let n := SendTcpDirect r in
  if 0 <? n then
    match flush_loop (at_passes a) (length data) c1 (add_written other (Z.to_nat n) unwritten) with
    | None => None
    | Some (c2, w) =>
        if (totalSent w <? length data)%nat then Some (SrPartial, (disconnect c2).1, w)
        else Some (SrSent, c2, w)
    end
  else if n =? SOCKET_ERROR_CLOSED then Some (SrClosed, (disconnect c1).1, unwritten)
  else Some (SrBlocked, c1, unwritten).

(** Other threads disconnect connections. *)
Definition disconnect_in (l : list nat) (h : conn_heap) : conn_heap :=
  foldr (alter (fun c => (disconnect c).1)) h l.

Definition interfere (l : list nat) (sc : SendConns) : SendConns :=
  mkSendConns (sc_connections sc) (disconnect_in l (sc_heap sc)) (lastRuntimeRefresh sc).

(** ** Sending a packet over the data connections *)

Inductive send_event : Type :=
| EvWire (conn : nat) (bytes : list byte)   (* written to the connection's stream *)
| EvStray (conn : nat) (bytes : list byte)  (* written there through a reused descriptor number *)
| EvDropped (conn : nat)                    (* disconnect(), then disconnectCallback *)
| EvResent (id : Z)                         (* a resend went out *)
| EvRequeued (id : Z) (counted : bool)      (* it did not, and is queued again *)
| EvGivenUp (id : Z)                        (* or is not *)
| EvTrackerCleared.                         (* resendRetryCount.clear() *)

Definition dropped (r : send_result) : bool :=
  match r with SrPartial | SrClosed => true | _ => false end.

(** The packet's bytes in the connection's own stream. *)
Definition own_bytes (data : list byte) (w : written) : list byte := take (own w) data.

Definition wire_events (a : nat) (r : send_result) (data : list byte) (w : written) : list send_event :=
  (if bool_decide (own_bytes data w = []) then [] else [EvWire a (own_bytes data w)])
  ++ match stray w with Some (b, k) => [EvStray b (take k (drop (own w) data))] | None => [] end
  ++ (if dropped r then [EvDropped a] else []).

Record SendState : Type := mkSendState {
  ss_conns : SendConns;
  ss_stats : list ConnSendStats;
  ss_tracker : list (gmap Z Z);
}.

(** Whether the loop tries connection [idx]. *)
Definition eligible (anyEligible : bool) (scores : list Z) (idx : nat) (sc : SendConns) : bool :=
  if anyEligible then negb (score_at scores idx <? 0)
  else match conn_at idx sc with Some (_, c) => connected c | None => false end.

(** The loop over [order]; [attempts] are the system's answers per connection.
    The flag is [sent].  The snapshot of the connections is the iteration's, so
    a slot replaced meanwhile is as if it were replaced after the loop. *)
Fixpoint send_ranks (data : list byte) (messageId nowMs : Z) (anyEligible : bool) (scores : list Z)
  (attempts : nat -> attempt) (order : list nat) (s : SendState)
  : option (SendState * list send_event * bool) :=
  match order with
  | [] => Some (s, [], false)
  | idx :: order =>
      let s0 := mkSendState (interfere (at_others (attempts idx)) (ss_conns s)) (ss_stats s) (ss_tracker s) in
      if negb (eligible anyEligible scores idx (ss_conns s0))
      then send_ranks data messageId nowMs anyEligible scores attempts order s0
      else match conn_at idx (ss_conns s0) with
      | None => None   (* scores[idx] >= 0 only for a connection *)
      | Some (a, c) =>
          let c1 := diagMarkSendEnd messageId nowMs (diagMarkSendStart messageId nowMs c) in
          match send_on data (attempts idx) c1 with
          | None => None
          | Some (r, c2, w) =>
              let conns := set_conn a c2 (ss_conns s0) in
              match r with
              | SrSent =>
                  match MessageTracker.recordMessage messageId (Z.of_nat idx) (ss_tracker s) with
                  | None => None
                  | Some tracker =>
                      Some (mkSendState conns (alter (count_success messageId nowMs) idx (ss_stats s)) tracker,
                            wire_events a r data w, true)
                  end
              | _ =>
                  match send_ranks data messageId nowMs anyEligible scores attempts order
                          (mkSendState conns (alter count_failure idx (ss_stats s)) (ss_tracker s)) with
                  | None => None
                  | Some (s', evs, sent) => Some (s', wire_events a r data w ++ evs, sent)
                  end
              end
          end
      end
  end.

Definition numDataConns (numConns : nat) : nat :=
  if (VC_FIRST_RESEND_CONN_INDEX <? numConns)%nat then VC_FIRST_RESEND_CONN_INDEX else numConns.

(** ** The thread *)

Record SendThread : Type := mkSendThread {
  st : SendState;
  sendQueue : BlockingQueue (list byte);
  resendQueue : BlockingQueue (list byte);
  pendingDataVec : option (list byte);
  roundRobinStart : nat;
  resendRoundRobin : nat;
  resendRetryCount : gmap Z Z;
}.

Definition set_st (s : SendState) (t : SendThread) : SendThread :=
  mkSendThread s (sendQueue t) (resendQueue t) (pendingDataVec t) (roundRobinStart t)
               (resendRoundRobin t) (resendRetryCount t).

Definition set_resend (q : BlockingQueue (list byte)) (rr : nat) (retry : gmap Z Z) (t : SendThread) : SendThread :=
  mkSendThread (st t) (sendQueue t) q (pendingDataVec t) (roundRobinStart t) rr retry.

Definition set_pending (q : BlockingQueue (list byte)) (pending : option (list byte)) (t : SendThread) : SendThread :=
  mkSendThread (st t) q (resendQueue t) pending (roundRobinStart t) (resendRoundRobin t) (resendRetryCount t).

Definition set_round_robin (n : nat) (t : SendThread) : SendThread :=
  mkSendThread (st t) (sendQueue t) (resendQueue t) (pendingDataVec t) n (resendRoundRobin t) (resendRetryCount t).

(** [packet->header.messageId] *)
Definition packet_message_id (data : list byte) : option Z := read_le 1 8 data.

(** The body of the loop after a packet was dequeued.  The result flag is
    false when the packet was neither sent nor kept. *)
Definition send_packet (now nowMs : Z) (sockopt : nat -> option tcp_info) (attempts : nat -> attempt)
  (data : list byte) (t : SendThread) : option (SendThread * list send_event * bool) :=
  let sc := ss_conns (st t) in
  let n := numDataConns (length (sc_connections sc)) in
  if (n =? 0)%nat || match mjoin (sc_connections sc !! 0%nat) with None => true | Some _ => false end
  then Some (t, [], false)
  else match packet_message_id data, rate_all now sockopt (ss_stats (st t)) 0 n sc with
  | Some messageId, Some (sc1, scores) =>
      let order := build_order scores (roundRobinStart t) in
      let t1 := set_round_robin ((roundRobinStart t + 1) mod n) t in
      match send_ranks data messageId nowMs (0 <=? bestScore scores) scores attempts order
              (mkSendState sc1 (ss_stats (st t)) (ss_tracker (st t))) with
      | None => None
      | Some (s', evs, sent) =>
          let t2 := set_st s' t1 in
          Some (if sent then t2 else set_pending (sendQueue t2) (Some data) t2, evs, true)
      end
  | _, _ => None
  end.

(** ** The resend path *)

(** The attempts of sendOnResendConn from [attempt] on, [remaining] of them; with the
    count of live connections and whether the packet was sent. *)
Fixpoint resend_attempts (data : list byte) (now : Z) (sockopt : nat -> option tcp_info)
  (attempts : nat -> attempt) (rr resendCount : nat) (attempt remaining aliveCount : nat) (sc : SendConns)
  : option (SendConns * list send_event * nat * bool) :=
  match remaining with
  | O => Some (sc, [], aliveCount, false)
  | S remaining =>
      let idx := (VC_FIRST_RESEND_CONN_INDEX + (rr + attempt) mod resendCount)%nat in
      let sc0 := interfere (at_others (attempts idx)) sc in
      match conn_at idx sc0 with
      | None => resend_attempts data now sockopt attempts rr resendCount (S attempt) remaining aliveCount sc0
      | Some (a, c) =>
          if negb (connected c)
          then resend_attempts data now sockopt attempts rr resendCount (S attempt) remaining aliveCount sc0
          else
            let sc1 := refreshConnRuntimeInfo now sockopt idx sc0 in
            match conn_at idx sc1 with
            | None => None
            | Some (_, c1) =>
                if isInExponentialBackoff (lastRuntimeInfo c1)
                then resend_attempts data now sockopt attempts rr resendCount (S attempt) remaining aliveCount sc1
                else match send_on data (attempts idx) c1 with
                | None => None
                | Some (r, c2, w) =>
                    let sc2 := set_conn a c2 sc1 in
                    match r with
                    | SrSent => Some (sc2, wire_events a r data w, S aliveCount, true)
                    | _ =>
                        match resend_attempts data now sockopt attempts rr resendCount (S attempt) remaining
                                (S aliveCount) sc2 with
                        | None => None
                        | Some (sc3, evs, alive, sent) => Some (sc3, wire_events a r data w ++ evs, alive, sent)
                        end
                    end
                end
            end
      end
  end.

Definition sendOnResendConn (data : list byte) (now : Z) (sockopt : nat -> option tcp_info)
  (attempts : nat -> attempt) (t : SendThread) : option (SendThread * list send_event) :=
  let sc := ss_conns (st t) in
  let n := length (sc_connections sc) in
  if (n <=? VC_FIRST_RESEND_CONN_INDEX)%nat then Some (t, [])
  else
    let resendCount := (n - VC_FIRST_RESEND_CONN_INDEX)%nat in
    match packet_message_id data,
          resend_attempts data now sockopt attempts (resendRoundRobin t) resendCount 0 resendCount 0 sc with
    | Some messageId, Some (sc', evs, aliveCount, sent) =>
        let t1 := set_st (mkSendState sc' (ss_stats (st t)) (ss_tracker (st t))) t in
        let rr := ((resendRoundRobin t + 1) mod resendCount)%nat in
        if sent then
          Some (set_resend (resendQueue t1) rr (delete messageId (resendRetryCount t1)) t1, evs ++ [EvResent messageId])
        else
          let retryCount := default 0 (resendRetryCount t1 !! messageId) in
          let retry0 := <[messageId := retryCount]> (resendRetryCount t1) in
          let countThisRetry := (0 <? aliveCount)%nat in
          if negb countThisRetry || (retryCount <? MAX_RESEND_RETRIES) then
            Some (set_resend (enqueue data (resendQueue t1)).1 rr
                    (if countThisRetry then <[messageId := u8 (retryCount + 1)]> retry0 else retry0) t1,
                  evs ++ [EvRequeued messageId countThisRetry])
          else Some (set_resend (resendQueue t1) rr (delete messageId retry0) t1, evs ++ [EvGivenUp messageId])
    | _, _ => None
    end.

(** [anyResendAlive] *)
Definition anyResendAlive (sc : SendConns) : bool :=
  existsb (fun idx => match conn_at idx sc with Some (_, c) => connected c | None => false end)
          (seq VC_FIRST_RESEND_CONN_INDEX (length (sc_connections sc) - VC_FIRST_RESEND_CONN_INDEX)).

(** One pass of the resend loop: dequeue, take the connections, send.  The flag is
    false when the queue was empty. *)
Definition resend_one (now : Z) (sockopt : nat -> option tcp_info) (attempts : nat -> attempt)
  (t : SendThread) : option (SendThread * list send_event * bool) :=
  let '(q, d) := tryDequeue (resendQueue t) in
  match d with
  | None => Some (t, [], false)
  | Some data =>
      match sendOnResendConn data now sockopt attempts
              (set_resend q (resendRoundRobin t) (resendRetryCount t) t) with
      | None => None
      | Some (t1, evs) => Some (t1, evs, true)
      end
  end.

(** The batch of resends; [batch] are the attempts of each of the at most
    MAX_RESEND_BATCH packets. *)
Fixpoint resend_batch (now : Z) (sockopt : nat -> option tcp_info) (batch : nat -> nat -> attempt)
  (i remaining : nat) (t : SendThread) : option (SendThread * list send_event) :=
  match remaining with
  | O => Some (t, [])
  | S remaining =>
      match resend_one now sockopt (batch i) t with
      | None => None
      | Some (t1, e1, false) => Some (t1, e1)
      | Some (t1, e1, true) =>
          match resend_batch now sockopt batch (S i) remaining t1 with
          | None => None
          | Some (t2, e2) => Some (t2, e1 ++ e2)
          end
      end
  end.

(** The bound on the retry tracker. *)
Definition clear_tracker (t : SendThread) : SendThread * list send_event :=
  if (MAX_RESEND_TRACKED <? base.size (resendRetryCount t))%nat
  then (set_resend (resendQueue t) (resendRoundRobin t) ∅ t, [EvTrackerCleared]) else (t, []).

Definition drain_resends (now : Z) (sockopt : nat -> option tcp_info) (batch : nat -> nat -> attempt)
  (t : SendThread) : option (SendThread * list send_event) :=
  match (if anyResendAlive (ss_conns (st t)) then resend_batch now sockopt batch 0 MAX_RESEND_BATCH t
         else Some (t, [])) with
  | None => None
  | Some (t1, evs) => let '(t2, e2) := clear_tracker t1 in Some (t2, evs ++ e2)
  end.

(** The second half of the loop body, on the data connections; [stillRunning] is
    isRunning() after the dequeue. *)
Definition send_data (now nowMs : Z) (sockopt : nat -> option tcp_info) (attempts : nat -> attempt)
  (stillRunning : bool) (t : SendThread) : option (SendThread * list send_event) :=
  let '(q, dataVec) := match pendingDataVec t with
                       | Some d => (sendQueue t, Some d)
                       | None => tryDequeue (sendQueue t)
                       end in
  let t1 := set_pending q None t in
  match dataVec with
  | None => Some (t1, [])
  | Some data =>
      if negb stillRunning then Some (t1, [])
      else match send_packet now nowMs sockopt attempts data t1 with
           | None => None
           | Some (t2, evs, _) => Some (t2, evs)
           end
  end.

(** One iteration of the while loop.  The result is [None] on undefined behaviour
    or when the flush passes run out. *)
Definition send_iteration (now nowMs : Z) (sockopt : nat -> option tcp_info)
  (batch : nat -> nat -> attempt) (attempts : nat -> attempt) (stillRunning : bool)
  (t : SendThread) : option (SendThread * list send_event) :=
  match drain_resends now sockopt batch t with
  | None => None
  | Some (t1, e1) =>
      match send_data now nowMs sockopt attempts stillRunning t1 with
      | None => None
      | Some (t2, e2) => Some (t2, e1 ++ e2)
      end
  end.

(** The thread at the grain at which others act between its steps: a whole
    iteration, or one of its parts. *)
Inductive thread_op : Type :=
| ThIterate (now nowMs : Z) (sockopt : nat -> option tcp_info) (batch : nat -> nat -> attempt)
            (attempts : nat -> attempt) (stillRunning : bool)
| ThResendOne (now : Z) (sockopt : nat -> option tcp_info) (attempts : nat -> attempt)
| ThClearTracker
| ThSendData (now nowMs : Z) (sockopt : nat -> option tcp_info) (attempts : nat -> attempt) (stillRunning : bool).

Definition run_thread_op (o : thread_op) (t : SendThread) : option (SendThread * list send_event) :=
  match o with
  | ThIterate now nowMs so batch ats still => send_iteration now nowMs so batch ats still t
  | ThResendOne now so ats => '(t1, evs, _) ← resend_one now so ats t; Some (t1, evs)
  | ThClearTracker => Some (clear_tracker t)
  | ThSendData now nowMs so ats still => send_data now nowMs so ats still t
  end.

Fixpoint run_thread_ops (os : list thread_op) (t : SendThread) : option (SendThread * list send_event) :=
  match os with
  | [] => Some (t, [])
  | o :: os =>
      '(t1, e1) ← run_thread_op o t;
      '(t2, e2) ← run_thread_ops os t1;
      Some (t2, e1 ++ e2)
  end.

Definition replaceConnection (slot : Z) (conn : nat) (now : Z) (t : SendThread) : SendThread :=
  let s := st t in
  let sc := ss_conns s in
  if (slot <? 0) || (Z.of_nat (length (sc_connections sc)) <=? slot) then t
  else
    let i := Z.to_nat slot in
    set_st (mkSendState
              (mkSendConns (<[i := Some conn]> (sc_connections sc)) (sc_heap sc)
                           (<[i := now]> (lastRuntimeRefresh sc)))
              (<[i := newConnSendStats]> (ss_stats s)) (ss_tracker s)) t.

(** ** The order in which connections are tried *)

Lemma insert_by_perm scores a l : insert_by scores a l ≡ₚ a :: l.
Proof.
  induction l as [|b l IH]; [done|]. cbn [insert_by]. case_match; [done|].
  rewrite IH. apply Permutation_swap.
Qed.

Lemma stable_sort_perm scores l : stable_sort scores l ≡ₚ l.
Proof. induction l as [|a l IH]; [done|]. cbn. by rewrite insert_by_perm, IH. Qed.

Definition by_score (scores : list Z) (a b : nat) : Prop := score_at scores b <= score_at scores a.

Lemma insert_by_sorted scores a l :
  StronglySorted (by_score scores) l -> StronglySorted (by_score scores) (insert_by scores a l).
Proof.
  induction 1 as [|b l Hs IH Hb]; cbn [insert_by]; [repeat constructor|].
  destruct (Z.leb_spec (score_at scores b) (score_at scores a)) as [Hle|Hgt].
  - constructor; [by constructor|]. constructor; [done|].
    eapply List.Forall_impl; [|exact Hb]. unfold by_score in *. intros; lia.
  - constructor; [done|]. apply List.Forall_forall. intros x Hx.
    apply list_elem_of_In in Hx. rewrite insert_by_perm in Hx.
    apply elem_of_cons in Hx as [->|Hx]; [unfold by_score; lia|].
    rewrite List.Forall_forall in Hb. apply Hb. by apply list_elem_of_In.
Qed.

Lemma stable_sort_sorted scores l : StronglySorted (by_score scores) (stable_sort scores l).
Proof. induction l as [|a l IH]; [constructor | by apply insert_by_sorted]. Qed.

(** Skipping the sort on equal scores changes nothing. *)
Lemma stable_sort_equal scores l :
  (forall a b, a ∈ l -> b ∈ l -> score_at scores a = score_at scores b) -> stable_sort scores l = l.
Proof.
  induction l as [|a l IH]; intros Heq; [done|]. cbn. fold (stable_sort scores l).
  rewrite IH by (intros; apply Heq; by right). destruct l as [|b l]; [done|]. cbn [insert_by].
  by rewrite (Heq a b), Z.leb_refl by (by left || (right; by left)).
Qed.

Lemma uniformScores_spec scores a b :
  uniformScores scores = true -> (a < length scores)%nat -> (b < length scores)%nat ->
  score_at scores a = score_at scores b.
Proof.
  destruct scores as [|s rest]; cbn; [lia|]. intros Hu Ha Hb.
  assert (H : forall i, (i < length (s :: rest))%nat -> score_at (s :: rest) i = s).
  { intros [|i] Hi; [done|]. cbn [length] in Hi. unfold score_at.
    change ((s :: rest) !! S i) with (rest !! i).
    destruct (lookup_lt_is_Some_2 rest i ltac:(lia)) as [x Hx]. rewrite Hx. cbn.
    rewrite forallb_forall in Hu. symmetry. apply Z.eqb_eq, Hu, list_elem_of_In.
    by eapply list_elem_of_lookup_2. }
  by rewrite !H.
Qed.

Lemma order1_sorted scores :
  (if negb (uniformScores scores) then stable_sort scores (seq 0 (length scores))
   else seq 0 (length scores))
  = stable_sort scores (seq 0 (length scores)).
Proof.
  destruct (uniformScores scores) eqn:E; cbn [negb]; [|done]. symmetry. apply stable_sort_equal.
  intros a b [_ Ha]%elem_of_seq [_ Hb]%elem_of_seq. by apply uniformScores_spec.
Qed.

Lemma rotate_prefix_perm pick n l : rotate_prefix pick n l ≡ₚ l.
Proof.
  unfold rotate_prefix. rewrite app_assoc, (Permutation_app_comm (drop pick _)).
  by rewrite take_drop, take_drop.
Qed.

Lemma build_order_perm scores rr : build_order scores rr ≡ₚ seq 0 (length scores).
Proof.
  unfold build_order. rewrite order1_sorted. case_match.
  - by rewrite rotate_prefix_perm, stable_sort_perm.
  - apply stable_sort_perm.
Qed.

Lemma foldl_max_spec l z :
  z <= foldl Z.max z l /\ (forall x, x ∈ l -> x <= foldl Z.max z l)
  /\ (foldl Z.max z l = z \/ foldl Z.max z l ∈ l).
Proof.
  revert z. induction l as [|y l IH]; intros z; cbn.
  - split_and!; [lia | intros x Hx; by apply not_elem_of_nil in Hx | by left].
  - destruct (IH (Z.max z y)) as (H1 & H2 & H3). split_and!; [lia | |].
    + intros x [->|Hx]%elem_of_cons; [lia | by apply H2].
    + destruct H3 as [H3|H3]; [|right; by right].
      destruct (Z.max_spec z y) as [[_ Em]|[_ Em]]; rewrite Em in *;
        [right; rewrite H3; by left | by left].
Qed.

Lemma bestScore_bound scores i :
  (i < length scores)%nat -> score_at scores i <= bestScore scores.
Proof.
  intros Hi. unfold score_at. destruct (lookup_lt_is_Some_2 scores i Hi) as [x Hx].
  rewrite Hx. apply foldl_max_spec. by eapply list_elem_of_lookup_2.
Qed.

Lemma bestScore_attained scores :
  0 <= bestScore scores -> exists i, (i < length scores)%nat /\ score_at scores i = bestScore scores.
Proof.
  intros H0. destruct (foldl_max_spec scores (-1)) as (_ & _ & [E|Hin]); unfold bestScore in *; [lia|].
  apply list_elem_of_lookup_1 in Hin as [i Hi]. exists i. split; [by eapply lookup_lt_Some|].
  unfold score_at. by rewrite Hi.
Qed.

(** The leading run is the set of best connections. *)
Lemma leading_spec scores best l :
  StronglySorted (by_score scores) l -> (forall i, i ∈ l -> score_at scores i <= best) ->
  take (leading scores best l) l = filter (fun i => score_at scores i = best) l.
Proof.
  induction 1 as [|a l Hs IH Ha]; intros Hb; [done|]. cbn [leading]. rewrite filter_cons.
  destruct (Z.eqb_spec (score_at scores a) best) as [E|N].
  - rewrite decide_True by done. cbn [take]. f_equal. apply IH. intros; apply Hb; by right.
  - rewrite decide_False by done. cbn [take]. symmetry.
    destruct (filter _ l) as [|x tl] eqn:Ef; [done|]. exfalso.
    assert (Hx : x ∈ filter (fun i => score_at scores i = best) l) by (rewrite Ef; by left).
    apply list_elem_of_filter in Hx as [Hx Hin]. rewrite List.Forall_forall in Ha.
    specialize (Ha x (proj1 (list_elem_of_In _ _) Hin)). specialize (Hb a ltac:(by left)).
    unfold by_score in Ha. lia.
Qed.

Lemma leading_le scores best l : (leading scores best l <= length l)%nat.
Proof. induction l as [|a l IH]; cbn; [lia|]. case_match; lia. Qed.

(** The connections tied at the top, in the order the sort leaves them. *)
Definition tied (scores : list Z) : list nat :=
  filter (fun i => score_at scores i = bestScore scores) (stable_sort scores (seq 0 (length scores))).

Lemma elem_of_sorted_seq scores i :
  i ∈ stable_sort scores (seq 0 (length scores)) <-> (i < length scores)%nat.
Proof. rewrite stable_sort_perm, elem_of_seq. lia. Qed.

Lemma leading_tied scores :
  let l := stable_sort scores (seq 0 (length scores)) in
  let k := leading scores (bestScore scores) l in
  take k l = tied scores /\ k = length (tied scores).
Proof.
  cbv zeta. set (l := stable_sort scores (seq 0 (length scores))).
  assert (E : take (leading scores (bestScore scores) l) l = tied scores).
  { apply leading_spec; [apply stable_sort_sorted|].
    intros i Hi%elem_of_sorted_seq. by apply bestScore_bound. }
  split; [done|]. rewrite <- E, length_take. pose proof (leading_le scores (bestScore scores) l). lia.
Qed.

Lemma build_order_eligible scores rr :
  0 <= bestScore scores ->
  exists rest, stable_sort scores (seq 0 (length scores)) = tied scores ++ rest
    /\ build_order scores rr
       = drop (rr mod length (tied scores)) (tied scores)
         ++ take (rr mod length (tied scores)) (tied scores) ++ rest.
Proof.
  intros H0. destruct (leading_tied scores) as [Et Ek].
  set (l := stable_sort scores (seq 0 (length scores))) in *.
  exists (drop (length (tied scores)) l).
  assert (El : l = tied scores ++ drop (length (tied scores)) l)
    by (rewrite <- Et, <- Ek at 1; by rewrite take_drop).
  split; [done|]. unfold build_order. rewrite order1_sorted. fold l.
  destruct (Z.leb_spec 0 (bestScore scores)); [|lia]. rewrite Ek.
  destruct (Nat.ltb_spec 1 (length (tied scores))) as [Hg|Hg].
  - unfold rotate_prefix. by rewrite <- Ek, Et, Ek.
  - assert (length (tied scores) = 0 \/ length (tied scores) = 1)%nat as [Hn|Hn] by lia.
    + apply length_zero_iff_nil in Hn. rewrite Hn, drop_nil, take_nil in *. done.
    + rewrite Hn, Nat.mod_1_r, drop_0, take_0. by rewrite <- Hn.
Qed.

Lemma tied_nonempty scores : 0 <= bestScore scores -> tied scores <> [].
Proof.
  intros H0 E. destruct (bestScore_attained scores H0) as (i & Hi & Es).
  apply (not_elem_of_nil i). rewrite <- E. apply list_elem_of_filter. split; [done|].
  by apply elem_of_sorted_seq.
Qed.

Lemma head_drop {A} p (l rest : list A) : (p < length l)%nat -> head (drop p l ++ rest) = l !! p.
Proof.
  intros Hp. destruct (lookup_lt_is_Some_2 l p Hp) as [x Hx].
  by rewrite (drop_S l x p Hx), Hx.
Qed.

Lemma build_order_head scores rr :
  0 <= bestScore scores ->
  head (build_order scores rr) = tied scores !! (rr mod length (tied scores))%nat.
Proof.
  intros H0. destruct (build_order_eligible scores rr H0) as (rest & _ & ->).
  apply head_drop, Nat.mod_upper_bound.
  pose proof (tied_nonempty scores H0). by destruct (tied scores).
Qed.

Lemma sorted_app_best scores best l1 l2 :
  Forall (fun i => score_at scores i = best) l1 -> StronglySorted (by_score scores) l2 ->
  (forall i, i ∈ l2 -> score_at scores i <= best) -> StronglySorted (by_score scores) (l1 ++ l2).
Proof.
  intros H1 H2 Hb. induction H1 as [|a l1 Ha H1 IH]; [done|]. cbn. constructor; [done|].
  apply List.Forall_forall. intros x Hx%list_elem_of_In. unfold by_score.
  apply elem_of_app in Hx as [Hx|Hx]; [|specialize (Hb x Hx); lia].
  rewrite Forall_forall in H1. rewrite (H1 x Hx). lia.
Qed.


(** Load balancing: while the scores stay the same, every connection tied
    at the best score is the first choice at least once in any [length scores]
    consecutive packets, wherever the round-robin counter starts. *)
Theorem ties_take_turns (scores : list Z) (rr i : nat) :
  0 <= bestScore scores -> (rr < length scores)%nat -> (i < length scores)%nat ->
  score_at scores i = bestScore scores ->
  exists j, (j < length scores)%nat
    /\ head (build_order scores ((rr + j) mod length scores)) = Some i.
Proof.
  intros H0 Hr Hi Hs. set (N := length scores) in *.
  assert (Hin : i ∈ tied scores) by (apply list_elem_of_filter; split; [done | by apply elem_of_sorted_seq]).
  apply list_elem_of_lookup_1 in Hin as [p Hp]. pose proof (lookup_lt_Some _ _ _ Hp) as Hlt.
  assert (Hg : (length (tied scores) <= N)%nat).
  { unfold tied. etrans; [apply length_filter|]. by rewrite stable_sort_perm, length_seq. }
  assert (Hmod : ((rr + (p + N - rr) mod N) mod N = p)%nat).
  { rewrite Nat.Div0.add_mod_idemp_r. replace (rr + (p + N - rr))%nat with (p + 1 * N)%nat by lia.
    rewrite Nat.Div0.mod_add. apply Nat.mod_small. lia. }
  exists ((p + N - rr) mod N)%nat. split; [apply Nat.mod_upper_bound; lia|].
  by rewrite Hmod, build_order_head, (Nat.mod_small p) by (done || lia).
Qed.

(** ** The score *)

Definition runtime_info_ok (info : RuntimeInfo) : Prop :=
  is_u32 (congestionWindowBytes info) /\ is_u32 (smoothedRttUs info) /\ is_u32 (bytesInFlight info)
  /\ 0 <= timeoutEpisodes info < 2 ^ 8.

(** The mixed int and uint32_t arithmetic of rateConnection computes the
    intended sum, clamped at 0, for every sample the kernel can report and up to
    ten million failures: no wrap-around and no signed overflow. *)
Theorem score_formula (info : RuntimeInfo) (fails : Z) :
  runtime_info_ok info -> 0 <= fails <= 10000000 ->
  score_of info (Some fails)
  = Some (Z.max 0 (10000 + congestionWindowBytes info / 200 - smoothedRttUs info / 200
                   - bytesInFlight info / 200 - 200 * timeoutEpisodes info - 200 * fails)).
Proof.
  intros (Hc & Hr & Hb & Ht) Hf. unfold score_of.
  assert (Hdiv : forall x, is_u32 x -> 0 <= x / 200 <= 21474836).
  { intros x Hx. unfold is_u32 in Hx. split; [apply Z.div_pos; lia | ].
    apply Z.lt_succ_r, Z.div_lt_upper_bound; lia. }
  pose proof (Hdiv _ Hc). pose proof (Hdiv _ Hr). pose proof (Hdiv _ Hb).
  rewrite !(i32_small (_ / 200)) by (unfold is_i32; lia).
  rewrite (u32_small (timeoutEpisodes info * 200)) by (unfold is_u32; lia).
  set (s3 := 10000 + congestionWindowBytes info / 200 - smoothedRttUs info / 200 - bytesInFlight info / 200).
  assert (E4 : i32 (u32 (u32 s3 - timeoutEpisodes info * 200)) = s3 - timeoutEpisodes info * 200).
  { unfold u32. rewrite Zminus_mod_idemp_l. apply i32_u32. unfold is_i32, s3. lia. }
  rewrite E4, (i32_small fails) by (unfold is_i32; lia).
  rewrite !bool_decide_eq_true_2 by (unfold is_i32, s3; lia). cbn [andb]. f_equal.
  destruct (Z.ltb_spec 0 (s3 - timeoutEpisodes info * 200 - fails * 200)); lia.
Qed.

(** ** Framing of the byte streams *)

(** What an event list writes to connection [a]. *)
Definition wire_of (a : nat) (evs : list send_event) : list byte :=
  concat (omap (fun e => match e with
                         | EvWire a' bs | EvStray a' bs => if decide (a' = a) then Some bs else None
                         | _ => None
                         end) evs).

(** No other connection's bytes went to connection [a]. *)
Definition stray_free (a : nat) (evs : list send_event) : Prop :=
  Forall (fun e => match e with EvStray b _ => b <> a | _ => True end) evs.

Lemma wire_of_app a e1 e2 : wire_of a (e1 ++ e2) = wire_of a e1 ++ wire_of a e2.
Proof. unfold wire_of. by rewrite omap_app, concat_app. Qed.

Lemma stray_free_app a e1 e2 : stray_free a (e1 ++ e2) <-> stray_free a e1 /\ stray_free a e2.
Proof. apply Forall_app. Qed.

Lemma wire_of_events a b r data w :
  stray_free b (wire_events a r data w) ->
  wire_of b (wire_events a r data w) = if decide (a = b) then own_bytes data w else [].
Proof.
  unfold wire_of, wire_events, stray_free. rewrite !omap_app, !concat_app, !Forall_app. intros (_ & Hs & _).
  match goal with |- context [concat (omap ?g (match stray w with _ => _ end))] =>
    assert (E2 : concat (omap g match stray w with
                                | Some (b', k) => [EvStray b' (take k (drop (own w) data))]
                                | None => [] end) = []) end.
  { revert Hs. destruct (stray w) as [[b' k]|]; [|done]. rewrite Forall_singleton. intros Hs. cbn. by case_decide. }
  rewrite E2.
  destruct (bool_decide_reflect (own_bytes data w = [])) as [->|Hne]; cbn.
  - destruct (dropped r); cbn; by case_decide.
  - case_decide; destruct (dropped r); cbn; by rewrite ?app_nil_r.
Qed.

Section framing.
Context (P : list byte -> Prop).

(** Whole packets, then a proper part of one only if the connection is dead. *)
Definition framed (alive : bool) (w : list byte) : Prop :=
  exists ps partial, w = concat ps ++ partial /\ Forall P ps
    /\ (partial = [] \/ (alive = false /\ exists rest, rest <> [] /\ P (partial ++ rest))).

Definition conn_alive (h : conn_heap) (a : nat) : bool :=
  match h !! a with Some c => connected c | None => true end.

(** A dead connection has no descriptor. *)
Definition link_ok (c : TcpConnection) : Prop := connected c = false -> socketFd c = -1.

Definition heap_ok (h : conn_heap) : Prop := forall a c, h !! a = Some c -> link_ok c.

Definition streams_ok (h : conn_heap) (evs : list send_event) : Prop :=
  heap_ok h /\ forall a, stray_free a evs -> framed (conn_alive h a) (wire_of a evs).

(** Changes that keep every link as it is or take it down. *)
Definition links_kept (h h' : conn_heap) : Prop :=
  heap_ok h' /\ forall a, conn_alive h' a = true -> conn_alive h a = true.

Lemma framed_weaken al al' w : (al' = true -> al = true) -> framed al w -> framed al' w.
Proof.
  intros Hal (ps & pt & -> & Hps & Hpt). exists ps, pt. split_and!; [done | done |].
  destruct Hpt as [?|[-> Hp]]; [by left|]. right. split; [|done]. destruct al'; [by rewrite Hal|done].
Qed.

Lemma streams_kept h h' evs : links_kept h h' -> streams_ok h evs -> streams_ok h' evs.
Proof.
  intros [Hok Hal] [_ Hf]. split; [done|]. intros a Ha. eapply framed_weaken; [by apply Hal | by apply Hf].
Qed.

(** Events that write nothing. *)
Lemma streams_note h evs e : (forall a, wire_of a e = []) -> streams_ok h evs -> streams_ok h (evs ++ e).
Proof.
  intros He [Hok Hf]. split; [done|]. intros a [Ha _]%stray_free_app. rewrite wire_of_app, He, app_nil_r. by apply Hf.
Qed.

Lemma disconnect_link c : link_ok c -> link_ok (disconnect c).1 /\ connected (disconnect c).1 = false.
Proof. unfold disconnect. destruct (connected c) eqn:E; by cbn. Qed.

Lemma others_at_link stage m c :
  link_ok c -> link_ok (others_at stage m c)
  /\ (connected (others_at stage m c) = true -> connected c = true).
Proof.
  intros Hl. unfold others_at. destruct (disconnect_link c Hl) as [H1 H2].
  case_decide; [|done]. split; [done|]. by rewrite H2.
Qed.

(** Bytes go to another connection only through one that is dead by then, and
    something is sent only through one that was alive. *)
Lemma send_call_link m r c c' r' other :
  link_ok c -> send_call m r c = (c', r', other) ->
  link_ok c' /\ (connected c' = true -> connected c = true)
  /\ (other = None \/ connected c' = false) /\ (0 < SendTcpDirect r' -> connected c = true).
Proof.
  intros Hl Hs. unfold send_call in Hs. destruct (others_at_link BeforeSend m c Hl) as [Hl1 Hc1].
  set (c1 := others_at BeforeSend m c) in *.
  destruct (Z.eqb_spec (socketFd c1) (-1)) as [|Hfd]; [injection Hs as <- <- <-; by split_and!; [..|left|]|].
  assert (Hup : connected c = true).
  { apply Hc1. destruct (connected c1) eqn:E; [done|]. exfalso. by apply Hfd, Hl1. }
  destruct (disconnect_link c1 Hl1) as [Hd1 Hd2].
  destruct m as [| | | |[b|]]; injection Hs as <- <- <-; split_and!; try done; try (by left); try (by right).
Qed.

Lemma flush_loop_link passes size c w c' w' :
  link_ok c -> stray w = None \/ connected c = false -> flush_loop passes size c w = Some (c', w') ->
  link_ok c' /\ (connected c' = true -> connected c = true) /\ (stray w' = None \/ connected c' = false).
Proof.
  revert c w. induction passes as [|p passes IH]; intros c w Hl Hw Hf; cbn [flush_loop] in Hf.
  { destruct (size <=? totalSent w)%nat; [|done]. by injection Hf as <- <-. }
  destruct (size <=? totalSent w)%nat; [by injection Hf as <- <-|].
  destruct (others_at_link BeforeCheck (fp_drop p) c Hl) as [Hl1 Hc1].
  set (c1 := others_at BeforeCheck (fp_drop p) c) in *.
  assert (Hw1 : stray w = None \/ connected c1 = false).
  { destruct Hw as [|Hd]; [by left|]. right. destruct (connected c1); [|done]. by rewrite <- Hd, Hc1. }
  destruct (negb (connected c1) || negb (fp_running p)) eqn:E1; [by injection Hf as <- <-|].
  apply orb_false_iff in E1 as [Hup1%negb_false_iff _].
  destruct Hw1 as [Hw1|]; [|congruence].
  destruct (others_at_link BeforePoll (fp_drop p) c1 Hl1) as [Hl2 Hc2].
  set (c2 := others_at BeforePoll (fp_drop p) c1) in *.
  assert (Hgo : forall c3 w3, link_ok c3 -> (connected c3 = true -> connected c = true) ->
            stray w3 = None \/ connected c3 = false ->
            (flush_loop passes size c3 w3 = Some (c', w') \/ (c3 = c' /\ w3 = w')) ->
            link_ok c' /\ (connected c' = true -> connected c = true) /\ (stray w' = None \/ connected c' = false)).
  { intros c3 w3 Hl3 Hc3 Hw3 [Hf3|[-> ->]]; [|done].
    destruct (IH c3 w3 Hl3 Hw3 Hf3) as (? & ? & ?). split_and!; auto. }
  destruct (_ || _).
  { apply (Hgo c2 w); [done | auto | by left|]. destruct (_ <=? _); [right; by injection Hf as <- <- | by left]. }
  destruct (send_call (fp_drop p) (fp_send p) c2) as [[c3 r] other] eqn:Es.
  destruct (send_call_link _ _ _ _ _ _ Hl2 Es) as (Hl3 & Hc3 & Ho & _).
  destruct (0 <? SendTcpDirect r).
  { apply (Hgo c3 (add_written other (Z.to_nat (SendTcpDirect r)) w)); [done | auto | | by left].
    destruct Ho as [->|]; [by left | by right]. }
  apply (Hgo c3 w); [done | auto | by left|].
  destruct (_ || _); [|right; by injection Hf as <- <-].
  destruct (_ <=? _); [right; by injection Hf as <- <- | by left].
Qed.

(** Bytes in the own stream were written while it was up, and are the whole
    packet unless it is down now. *)
Lemma send_on_link data at_ c r c2 w :
  link_ok c -> send_on data at_ c = Some (r, c2, w) ->
  link_ok c2 /\ (connected c2 = true -> connected c = true)
  /\ (own w = 0%nat \/ (connected c = true /\ ((length data <= own w)%nat \/ connected c2 = false))).
Proof.
  intros Hl Hs. unfold send_on in Hs.
  destruct (send_call (at_drop at_) (at_first at_) c) as [[c1 r1] other] eqn:E1.
  destruct (send_call_link _ _ _ _ _ _ Hl E1) as (Hl1 & Hc1 & Ho & Hup).
  destruct (Z.ltb_spec 0 (SendTcpDirect r1)) as [Hpos|_].
  - specialize (Hup Hpos). destruct (flush_loop _ _ _ _) as [[c3 w3]|] eqn:Ef; [|done].
    assert (Hst : stray (add_written other (Z.to_nat (SendTcpDirect r1)) unwritten) = None \/ connected c1 = false)
      by (destruct Ho as [->|Ho]; [by left | by right]).
    destruct (flush_loop_link _ _ _ _ _ _ Hl1 Hst Ef)
      as (Hl3 & Hc3 & Hw3).
    destruct (disconnect_link c3 Hl3) as [Hd1 Hd2].
    destruct (Nat.ltb_spec (totalSent w3) (length data)) as [|Hge]; injection Hs as <- <- <-.
    + split_and!; [done | by rewrite Hd2 |]. right. auto.
    + split_and!; [done | auto |]. right. split; [done|]. destruct Hw3 as [Hw3|]; [|by right]. left.
      unfold totalSent in Hge. rewrite Hw3 in Hge. lia.
  - destruct (disconnect_link c1 Hl1) as [Hd1 Hd2].
    destruct (_ =? SOCKET_ERROR_CLOSED); injection Hs as <- <- <-; split_and!; try done; try (by left); auto.
    by rewrite Hd2.
Qed.

Lemma send_on_framed h evs a c data at_ r c1 c2 w :
  streams_ok h evs -> h !! a = Some c -> P data ->
  connected c1 = connected c -> socketFd c1 = socketFd c ->
  send_on data at_ c1 = Some (r, c2, w) ->
  streams_ok (<[a := c2]> h) (evs ++ wire_events a r data w).
Proof.
  intros [Hok Hf] Ha HP Ec Es Hs. pose proof (Hok a c Ha) as Hlink.
  assert (Hlink1 : link_ok c1) by (unfold link_ok; rewrite Ec, Es; done).
  destruct (send_on_link _ _ _ _ _ _ Hlink1 Hs) as (Hl2 & Hc2 & Hw). rewrite Ec in Hc2, Hw. split.
  - intros b cb Hb. apply lookup_insert_Some in Hb as [[_ <-]|[_ Hb]]; [done | by eapply Hok].
  - intros b [Hb1 Hb2]%stray_free_app. rewrite wire_of_app, wire_of_events by done.
    specialize (Hf b Hb1). unfold conn_alive in *.
    case_decide as E; [subst b|by rewrite lookup_insert_ne, app_nil_r by done].
    rewrite lookup_insert_eq. rewrite Ha in Hf. unfold own_bytes.
    destruct Hw as [->|[Hup Hw]]; [rewrite take_0, app_nil_r; by eapply framed_weaken|].
    rewrite Hup in Hf. destruct Hf as (ps & pt & -> & Hps & [->|[? _]]); [|done]. rewrite app_nil_r.
    destruct (decide (length data <= own w)%nat) as [Hge|Hlt].
    + exists (ps ++ [data]), []. rewrite concat_app. cbn. rewrite take_ge by done.
      split_and!; [by rewrite !app_nil_r | by apply Forall_app; split; [|repeat constructor] | by left].
    + exists ps, (take (own w) data). split_and!; [done | done |]. right.
      split; [by destruct Hw|]. exists (drop (own w) data). rewrite take_drop. split; [|done].
      intros E. apply (f_equal length) in E. rewrite length_drop in E. cbn in E. lia.
Qed.

Lemma refresh_kept now so idx sc :
  heap_ok (sc_heap sc) ->
  links_kept (sc_heap sc) (sc_heap (refreshConnRuntimeInfo now so idx sc))
  /\ sc_connections (refreshConnRuntimeInfo now so idx sc) = sc_connections sc.
Proof.
  intros Hok. unfold refreshConnRuntimeInfo, conn_at.
  destruct (mjoin (sc_connections sc !! idx)) as [a|]; [|done].
  destruct (sc_heap sc !! a) as [c|] eqn:Ha; cbn; [|done].
  repeat (case_match; [done|]). cbn. split; [|done].
  assert (Hsame : connected (refreshRuntimeInfoIfStale now (ms TCP_RUNTIME_REFRESH_MS) (so idx) c).1 = connected c
                  /\ socketFd (refreshRuntimeInfoIfStale now (ms TCP_RUNTIME_REFRESH_MS) (so idx) c).1 = socketFd c)
    by (unfold refreshRuntimeInfoIfStale; by case_match).
  destruct Hsame as [E1 E2]. split.
  - intros b cb Hb. apply lookup_insert_Some in Hb as [[_ <-]|[_ Hb]]; [|by eapply Hok].
    unfold link_ok. rewrite E1, E2. by apply (Hok a).
  - intros b. unfold conn_alive. destruct (decide (a = b)) as [->|Hne].
    + rewrite lookup_insert_eq, Ha, E1. done.
    + by rewrite lookup_insert_ne.
Qed.

Lemma conn_at_heap idx sc a c : conn_at idx sc = Some (a, c) -> sc_heap sc !! a = Some c.
Proof.
  unfold conn_at. destruct (mjoin _) as [a'|]; [|done].
  intros H. apply fmap_Some in H as (c' & Hc & [= -> ->]). done.
Qed.

Lemma links_kept_refl h : heap_ok h -> links_kept h h.
Proof. by split. Qed.

Lemma links_kept_trans h1 h2 h3 : links_kept h1 h2 -> links_kept h2 h3 -> links_kept h1 h3.
Proof. intros [_ H1] [H2 H3]. split; [done | auto]. Qed.

Lemma rate_all_kept now so stats i n sc sc' scores :
  heap_ok (sc_heap sc) -> rate_all now so stats i n sc = Some (sc', scores) ->
  links_kept (sc_heap sc) (sc_heap sc').
Proof.
  revert i sc sc' scores. induction n as [|n IH]; intros i sc sc' scores Hok Hr; cbn [rate_all] in Hr.
  - injection Hr as <- <-. by apply links_kept_refl.
  - destruct (rateConnection now so stats i sc) as [[sc1 s1]|] eqn:E; [|done].
    destruct (rate_all now so stats (S i) n sc1) as [[sc2 ss]|] eqn:E2; [|done]. injection Hr as <- <-.
    assert (Hk : links_kept (sc_heap sc) (sc_heap sc1)).
    { unfold rateConnection in E. destruct (refresh_kept now so i sc Hok) as [Hk _].
      destruct (conn_at i sc) as [[a c]|]; [|injection E as <- _; by apply links_kept_refl].
      destruct (connected c); cbn [negb] in E; [|injection E as <- _; by apply links_kept_refl].
      destruct (conn_at i (refreshConnRuntimeInfo now so i sc)) as [[a1 c1]|]; [|by injection E as <- _].
      destruct (isInExponentialBackoff _); [by injection E as <- _|].
      destruct (score_of _ _); [by injection E as <- _ | done]. }
    eapply links_kept_trans; [exact Hk|]. eapply IH; [apply Hk | exact E2].
Qed.

Lemma disconnect_kept a h : heap_ok h -> links_kept h (alter (fun c => (disconnect c).1) a h).
Proof.
  intros Hok. split.
  - intros b cb Hb. apply lookup_alter_Some in Hb as [(-> & c & Hc & ->)|[_ Hb]]; [|by eapply Hok].
    apply disconnect_link. by eapply Hok.
  - intros b. unfold conn_alive. destruct (decide (a = b)) as [->|Hne].
    + rewrite lookup_alter_eq. destruct (h !! b) as [c|] eqn:E; [|done]. cbn.
      by rewrite (proj2 (disconnect_link c (Hok b c E))).
    + by rewrite lookup_alter_ne.
Qed.

Lemma disconnect_in_kept l h : heap_ok h -> links_kept h (disconnect_in l h).
Proof.
  intros Hok. induction l as [|a l IH]; cbn; [by apply links_kept_refl|].
  eapply links_kept_trans; [exact IH | apply disconnect_kept, IH].
Qed.

Lemma interfere_ok l sc evs : streams_ok (sc_heap sc) evs -> streams_ok (sc_heap (interfere l sc)) evs.
Proof. intros Hok. eapply streams_kept; [apply disconnect_in_kept, Hok | done]. Qed.

Lemma send_ranks_framed data id nowMs any scores ats order s s' evs0 evs sent :
  P data -> streams_ok (sc_heap (ss_conns s)) evs0 ->
  send_ranks data id nowMs any scores ats order s = Some (s', evs, sent) ->
  streams_ok (sc_heap (ss_conns s')) (evs0 ++ evs).
Proof.
  intros HP. revert s s' evs0 evs sent. induction order as [|idx order IH]; intros s s' evs0 evs sent Hok Hs;
    cbn [send_ranks] in Hs.
  - injection Hs as <- <- _. by rewrite app_nil_r.
  - apply (interfere_ok (at_others (ats idx))) in Hok. cbn [ss_conns ss_stats ss_tracker] in Hs.
    destruct (negb _); [by eapply IH; [|exact Hs]|].
    destruct (conn_at idx _) as [[a c]|] eqn:Ea; [|done]. apply conn_at_heap in Ea.
    destruct (send_on data (ats idx) _) as [[[r c2] w]|] eqn:Es; [|done].
    assert (Hok' := fun E1 E2 => send_on_framed _ _ _ _ _ _ _ _ _ _ Hok Ea HP E1 E2 Es).
    specialize (Hok' eq_refl eq_refl).
    destruct r.
    { destruct (MessageTracker.recordMessage _ _ _) as [tr|]; [|done]. by injection Hs as <- <- _. }
    all: destruct (send_ranks _ _ _ _ _ _ _ _) as [[[s1 e1] b]|] eqn:Er; [|done].
    all: injection Hs as <- <- _; rewrite app_assoc; eapply IH; [|exact Er]; exact Hok'.
Qed.

Lemma resend_attempts_framed data now so ats rr n att remaining alive sc sc' evs0 evs alive' sent :
  P data -> streams_ok (sc_heap sc) evs0 ->
  resend_attempts data now so ats rr n att remaining alive sc = Some (sc', evs, alive', sent) ->
  streams_ok (sc_heap sc') (evs0 ++ evs).
Proof.
  intros HP. revert att alive sc sc' evs0 evs alive' sent.
  induction remaining as [|k IH]; intros att alive sc sc' evs0 evs alive' sent Hok Hs; cbn [resend_attempts] in Hs.
  - injection Hs as <- <- _ _. by rewrite app_nil_r.
  - set (idx := (VC_FIRST_RESEND_CONN_INDEX + (rr + att) mod n)%nat) in *.
    apply (interfere_ok (at_others (ats idx))) in Hok. set (sc0 := interfere (at_others (ats idx)) sc) in *.
    destruct (conn_at idx sc0) as [[a c]|] eqn:Ea; [|by eapply IH].
    destruct (connected c); cbn [negb] in Hs; [|by eapply IH].
    destruct (refresh_kept now so idx sc0 (proj1 Hok)) as [Hk Hconns].
    assert (Hok1 := streams_kept _ _ _ Hk Hok).
    destruct (conn_at idx (refreshConnRuntimeInfo now so idx sc0)) as [[a1 c1]|] eqn:Ea1; [|done].
    destruct (isInExponentialBackoff _); [by eapply IH|].
    destruct (send_on data (ats idx) c1) as [[[r c2] w]|] eqn:Es; [|done].
    assert (a1 = a) as ->.
    { unfold conn_at in Ea, Ea1. rewrite Hconns in Ea1.
      destruct (mjoin (sc_connections sc0 !! idx)) as [a'|]; [|done].
      apply fmap_Some in Ea as (? & _ & ?). apply fmap_Some in Ea1 as (? & _ & ?). by simplify_eq. }
    apply conn_at_heap in Ea1.
    pose proof (send_on_framed _ _ _ _ _ _ _ _ _ _ Hok1 Ea1 HP eq_refl eq_refl Es) as Hok2.
    destruct r; [by injection Hs as <- <- _ _|..].
    all: destruct (resend_attempts _ _ _ _ _ _ _ _ _ _) as [[[[s1 e1] al] b]|] eqn:Er; [|done].
    all: injection Hs as <- <- _ _; rewrite app_assoc; eapply IH; [|exact Er]; exact Hok2.
Qed.

(** The packets the thread holds. *)
Definition queued_ok (t : SendThread) : Prop :=
  Forall P (queue (sendQueue t)) /\ Forall P (queue (resendQueue t))
  /\ (forall d, pendingDataVec t = Some d -> P d).

Definition thread_ok (t : SendThread) (evs : list send_event) : Prop :=
  queued_ok t /\ streams_ok (sc_heap (ss_conns (st t))) evs.

Lemma tryDequeue_Forall (q : BlockingQueue (list byte)) :
  Forall P (queue q) ->
  Forall P (queue (tryDequeue q).1) /\ forall d, (tryDequeue q).2 = Some d -> P d.
Proof.
  intros Hq. unfold tryDequeue. destruct (queue q) as [|x l] eqn:E; cbn; [by rewrite E|].
  apply Forall_cons in Hq as [Hx Hl]. destruct (cancelled q); cbn.
  - rewrite E. split; [by constructor | done].
  - split; [done|]. by intros d [= <-].
Qed.

Lemma sendOnResendConn_ok data now so ats t t' evs0 evs :
  P data -> thread_ok t evs0 -> sendOnResendConn data now so ats t = Some (t', evs) ->
  thread_ok t' (evs0 ++ evs).
Proof.
  intros HP [(Hq1 & Hq2 & Hp) Hs] Hr. unfold sendOnResendConn in Hr.
  destruct (_ <=? VC_FIRST_RESEND_CONN_INDEX)%nat; [injection Hr as <- <-; by rewrite app_nil_r|].
  destruct (packet_message_id data) as [id|]; [|done].
  destruct (resend_attempts _ _ _ _ _ _ _ _ _ _) as [[[[sc' e] al] sent]|] eqn:E; [|done].
  pose proof (resend_attempts_framed _ _ _ _ _ _ _ _ _ _ _ evs0 _ _ _ HP Hs E) as Hs'.
  assert (Hn : forall x, (forall a, wire_of a [x] = []) -> streams_ok (sc_heap sc') (evs0 ++ e ++ [x]))
    by (intros x Hx; rewrite app_assoc; by apply streams_note).
  destruct sent; [injection Hr as <- <-; split; [by split_and! | by apply Hn]|].
  case_match; injection Hr as <- <-; (split; [|by apply Hn]); split_and!; cbn; try done.
  apply Forall_app. split; [done | by repeat constructor].
Qed.

Lemma resend_one_ok now so ats t t' evs0 evs b :
  thread_ok t evs0 -> resend_one now so ats t = Some (t', evs, b) -> thread_ok t' (evs0 ++ evs).
Proof.
  intros Hok Hr. unfold resend_one in Hr. destruct Hok as [(Hq1 & Hq2 & Hp) Hs].
  destruct (tryDequeue_Forall _ Hq2) as [Hq2' Hd].
  destruct (tryDequeue (resendQueue t)) as [q [d|]]; cbn [fst snd] in *;
    [|injection Hr as <- <- _; by rewrite app_nil_r].
  destruct (sendOnResendConn _ _ _ _ _) as [[t1 e1]|] eqn:E1; [|done]. injection Hr as <- <- _.
  eapply sendOnResendConn_ok; [by apply Hd | | exact E1]. by split.
Qed.

Lemma resend_batch_ok now so batch i k t t' evs0 evs :
  thread_ok t evs0 -> resend_batch now so batch i k t = Some (t', evs) -> thread_ok t' (evs0 ++ evs).
Proof.
  revert i t t' evs0 evs. induction k as [|k IH]; intros i t t' evs0 evs Hok Hr; cbn [resend_batch] in Hr.
  - injection Hr as <- <-. by rewrite app_nil_r.
  - destruct (resend_one _ _ _ _) as [[[t1 e1] [|]]|] eqn:E1; [| |done].
    + destruct (resend_batch _ _ _ _ _ _) as [[t2 e2]|] eqn:E2; [|done]. injection Hr as <- <-.
      rewrite app_assoc. eapply IH; [|exact E2]. by eapply resend_one_ok.
    + injection Hr as <- <-. by eapply resend_one_ok.
Qed.

Lemma clear_tracker_ok t evs0 : thread_ok t evs0 -> thread_ok (clear_tracker t).1 (evs0 ++ (clear_tracker t).2).
Proof.
  intros [Hq Hs]. unfold clear_tracker. case_match; cbn [fst snd]; [|by rewrite app_nil_r].
  split; [done | by apply streams_note].
Qed.

Lemma drain_resends_ok now so batch t t' evs0 evs :
  thread_ok t evs0 -> drain_resends now so batch t = Some (t', evs) -> thread_ok t' (evs0 ++ evs).
Proof.
  intros Hok Hr. unfold drain_resends in Hr.
  destruct (if anyResendAlive _ then _ else _) as [[t1 e1]|] eqn:E; [|done].
  assert (H1 : thread_ok t1 (evs0 ++ e1)).
  { destruct (anyResendAlive _); [by eapply resend_batch_ok|]. injection E as <- <-. by rewrite app_nil_r. }
  apply clear_tracker_ok in H1. destruct (clear_tracker t1) as [t2 e2]. injection Hr as <- <-. by rewrite app_assoc.
Qed.

Lemma send_packet_ok now nowMs so ats data t t' evs0 evs b :
  P data -> thread_ok t evs0 -> send_packet now nowMs so ats data t = Some (t', evs, b) ->
  thread_ok t' (evs0 ++ evs).
Proof.
  intros HP [(Hq1 & Hq2 & Hp) Hs] Hr. unfold send_packet in Hr.
  destruct (_ || _); [injection Hr as <- <- _; by rewrite app_nil_r|].
  destruct (packet_message_id data) as [id|]; [|done].
  destruct (rate_all _ _ _ _ _ _) as [[sc1 scores]|] eqn:Er; [|done].
  destruct (send_ranks _ _ _ _ _ _ _ _) as [[[s' e] sent]|] eqn:E; [|done]. injection Hr as <- <- _.
  pose proof (rate_all_kept _ _ _ _ _ _ _ _ (proj1 Hs) Er) as Hk.
  assert (Hs' : streams_ok (sc_heap (ss_conns s')) (evs0 ++ e)).
  { eapply send_ranks_framed; [exact HP | | exact E]. exact (streams_kept _ _ _ Hk Hs). }
  destruct sent; split; try done. split_and!; [done | done |]. by intros d [= <-].
Qed.

Lemma send_data_ok now nowMs so ats still t t' evs0 evs :
  thread_ok t evs0 -> send_data now nowMs so ats still t = Some (t', evs) -> thread_ok t' (evs0 ++ evs).
Proof.
  intros [(Hq1 & Hq2 & Hp) Hs] Hr. unfold send_data in Hr.
  destruct (tryDequeue_Forall _ Hq1) as [Hq1' Hd].
  set (qd := match pendingDataVec t with Some d => _ | None => _ end) in Hr.
  assert (Hqd : Forall P (queue qd.1) /\ forall d, qd.2 = Some d -> P d).
  { unfold qd. destruct (pendingDataVec t) as [d|]; [|done]. split; [done|]. intros d' [= <-]. by apply Hp. }
  destruct qd as [q dv]. cbn [fst snd] in *. destruct Hqd as [Hq Hdv].
  assert (Hok2 : thread_ok (set_pending q None t) evs0) by (split; [by split_and! | done]).
  destruct dv as [d|]; [|injection Hr as <- <-; by rewrite app_nil_r].
  destruct still; cbn [negb] in Hr; [|injection Hr as <- <-; by rewrite app_nil_r].
  destruct (send_packet _ _ _ _ _ _) as [[[t3 e3] b]|] eqn:E3; [|done]. injection Hr as <- <-.
  eapply send_packet_ok; [by apply Hdv | exact Hok2 | exact E3].
Qed.

Lemma run_thread_op_ok o t t' evs0 evs :
  thread_ok t evs0 -> run_thread_op o t = Some (t', evs) -> thread_ok t' (evs0 ++ evs).
Proof.
  intros Hok Hr. destruct o as [now nowMs so batch ats still|now so ats| |now nowMs so ats still];
    cbn [run_thread_op] in Hr.
  - unfold send_iteration in Hr. destruct (drain_resends _ _ _ _) as [[t1 e1]|] eqn:E1; [|done].
    destruct (send_data _ _ _ _ _ _) as [[t2 e2]|] eqn:E2; [|done]. injection Hr as <- <-.
    rewrite app_assoc. eapply send_data_ok; [by eapply drain_resends_ok | exact E2].
  - apply bind_Some in Hr as ([[t1 e1] b] & E & [= <- <-]). by eapply resend_one_ok.
  - injection Hr as Hr. apply clear_tracker_ok in Hok. by rewrite Hr in Hok.
  - by eapply send_data_ok.
Qed.
End framing.

(** What happens to the thread and the objects it shares. *)
Inductive st_op : Type :=
| OpThread (o : thread_op)
| OpEnqueue (data : list byte)                        (* sendQueue->enqueue *)
| OpEnqueueResend (data : list byte)                  (* resendQueue->enqueue *)
| OpDisconnect (conn : nat)                           (* by another thread *)
| OpReplace (slot : Z) (conn : nat) (fd now : Z).     (* a new connection object *)

Definition run_st_op (o : st_op) (t : SendThread) : option (SendThread * list send_event) :=
  match o with
  | OpThread o => run_thread_op o t
  | OpEnqueue d => Some (set_pending (enqueue d (sendQueue t)).1 (pendingDataVec t) t, [])
  | OpEnqueueResend d =>
      Some (set_resend (enqueue d (resendQueue t)).1 (resendRoundRobin t) (resendRetryCount t) t, [])
  | OpDisconnect a =>
      match sc_heap (ss_conns (st t)) !! a with
      | None => None
      | Some c => Some (set_st (mkSendState (set_conn a (disconnect c).1 (ss_conns (st t)))
                                            (ss_stats (st t)) (ss_tracker (st t))) t, [])
      end
  | OpReplace slot a fd now =>
      match sc_heap (ss_conns (st t)) !! a with
      | Some _ => None
      | None => Some (replaceConnection slot a now
                        (set_st (mkSendState (set_conn a (newTcpConnection fd).1 (ss_conns (st t)))
                                             (ss_stats (st t)) (ss_tracker (st t))) t), [])
      end
  end.

Fixpoint run_st_ops (os : list st_op) (t : SendThread) : option (SendThread * list send_event) :=
  match os with
  | [] => Some (t, [])
  | o :: os =>
      match run_st_op o t with
      | None => None
      | Some (t1, e1) =>
          match run_st_ops os t1 with
          | None => None
          | Some (t2, e2) => Some (t2, e1 ++ e2)
          end
      end
  end.

Definition op_packets (P : list byte -> Prop) (o : st_op) : Prop :=
  match o with OpEnqueue d | OpEnqueueResend d => P d | _ => True end.

Lemma run_st_op_ok P o t t' evs0 evs :
  op_packets P o -> thread_ok P t evs0 -> run_st_op o t = Some (t', evs) -> thread_ok P t' (evs0 ++ evs).
Proof.
  intros Ho Hok Hr. destruct o as [o|d|d|a|slot a fd now]; cbn [run_st_op] in Hr.
  - by eapply run_thread_op_ok.
  - injection Hr as <- <-. rewrite app_nil_r. destruct Hok as [(Hq1 & Hq2 & Hp) Hs].
    split; [|done]. split_and!; [|done|done]. cbn. apply Forall_app. split; [done | by repeat constructor].
  - injection Hr as <- <-. rewrite app_nil_r. destruct Hok as [(Hq1 & Hq2 & Hp) Hs].
    split; [|done]. split_and!; [done| |done]. cbn. apply Forall_app. split; [done | by repeat constructor].
  - destruct (sc_heap (ss_conns (st t)) !! a) as [c|] eqn:Ea; [|done]. injection Hr as <- <-.
    rewrite app_nil_r. destruct Hok as [Hq Hs]. split; [done|].
    pose proof (proj1 Hs a c Ea) as Hl. destruct (disconnect_link c Hl) as [Hl' Hd].
    eapply streams_kept; [|exact Hs]. cbn. split.
    + intros b cb Hb. apply lookup_insert_Some in Hb as [[_ <-]|[_ Hb]]; [done | by apply (proj1 Hs b)].
    + intros b. unfold conn_alive. destruct (decide (a = b)) as [->|Hne].
      * by rewrite lookup_insert_eq, Hd.
      * by rewrite lookup_insert_ne.
  - destruct (sc_heap (ss_conns (st t)) !! a) as [c|] eqn:Ea; [done|]. injection Hr as <- <-.
    rewrite app_nil_r. destruct Hok as [Hq Hs].
    assert (Hh : streams_ok P (<[a := (newTcpConnection fd).1]> (sc_heap (ss_conns (st t)))) evs0).
    { eapply streams_kept; [|exact Hs]. split.
      - intros b cb Hb. apply lookup_insert_Some in Hb as [[_ <-]|[_ Hb]]; [done | by apply (proj1 Hs b)].
      - intros b. unfold conn_alive. destruct (decide (a = b)) as [->|Hne]; [by rewrite Ea|].
        by rewrite lookup_insert_ne. }
    unfold replaceConnection. case_match; by split.
Qed.

Lemma run_st_ops_ok P os t t' evs0 evs :
  Forall (op_packets P) os -> thread_ok P t evs0 -> run_st_ops os t = Some (t', evs) ->
  thread_ok P t' (evs0 ++ evs).
Proof.
  intros Ho. revert t t' evs0 evs. induction Ho as [|o os Ho Hos IH]; intros t t' evs0 evs Hok Hr;
    cbn [run_st_ops] in Hr.
  - injection Hr as <- <-. by rewrite app_nil_r.
  - destruct (run_st_op o t) as [[t1 e1]|] eqn:E1; [|done].
    destruct (run_st_ops os t1) as [[t2 e2]|] eqn:E2; [|done]. injection Hr as <- <-.
    rewrite app_assoc. eapply IH; [|exact E2]. by eapply run_st_op_ok.
Qed.

(** The members before run(), every connection up. *)
Definition newSendThread (conns : list (option nat)) (h : conn_heap) (now : Z) : SendThread :=
  {| st := mkSendState (mkSendConns conns h (replicate (length conns) now))
                       (replicate (length conns) newConnSendStats)
                       (MessageTracker.newMessageTracker (length conns));
     sendQueue := newBlockingQueue; resendQueue := newBlockingQueue; pendingDataVec := None;
     roundRobinStart := 0; resendRoundRobin := 0; resendRetryCount := ∅ |}.

(** An undisturbed iteration is a sequence of its parts. *)
Lemma iteration_parts now nowMs so batch ats still t t' evs :
  send_iteration now nowMs so batch ats still t = Some (t', evs) ->
  exists k, (k <= MAX_RESEND_BATCH)%nat
    /\ run_thread_ops ((ThResendOne now so <$> (batch <$> seq 0 k)) ++ [ThClearTracker; ThSendData now nowMs so ats still]) t
       = Some (t', evs).
Proof.
  assert (Hb : forall k i t t1 e1, resend_batch now so batch i k t = Some (t1, e1) ->
    exists m, (m <= k)%nat /\ run_thread_ops (ThResendOne now so <$> (batch <$> seq i m)) t = Some (t1, e1)).
  { clear. intros k. induction k as [|k IH]; intros i t t1 e1 Hr; cbn [resend_batch] in Hr.
    { exists 0%nat. by split. }
    destruct (resend_one _ _ _ _) as [[[t2 e2] [|]]|] eqn:E1; [| |done].
    - destruct (resend_batch _ _ _ _ _ _) as [[t3 e3]|] eqn:E2; [|done]. injection Hr as <- <-.
      destruct (IH _ _ _ _ E2) as (m & Hm & Er). exists (S m). split; [lia|].
      cbn [seq fmap list_fmap run_thread_ops run_thread_op]. rewrite E1. cbn. by rewrite Er.
    - injection Hr as <- <-. exists 1%nat. split; [lia|].
      cbn [seq fmap list_fmap run_thread_ops run_thread_op]. rewrite E1. cbn. by rewrite app_nil_r. }
  assert (Happ : forall l1 l2 t t1 e1, run_thread_ops l1 t = Some (t1, e1) ->
    run_thread_ops (l1 ++ l2) t = ('(t2, e2) ← run_thread_ops l2 t1; Some (t2, e1 ++ e2))).
  { clear. intros l1 l2. induction l1 as [|o l1 IH]; intros t t1 e1 Hr; cbn [app run_thread_ops] in *.
    { injection Hr as <- <-. destruct (run_thread_ops l2 t) as [[t2 e2]|]; done. }
    apply bind_Some in Hr as ([t2 e2] & -> & Hr). apply bind_Some in Hr as ([t3 e3] & E3 & [= <- <-]).
    cbn. rewrite (IH _ _ _ E3). destruct (run_thread_ops l2 t3) as [[t4 e4]|]; [|done]. cbn. by rewrite app_assoc. }
  intros Hr. unfold send_iteration, drain_resends in Hr.
  destruct (if anyResendAlive _ then _ else _) as [[t1 e1]|] eqn:E1; [|done].
  destruct (clear_tracker t1) as [t2 e2] eqn:E2. destruct (send_data _ _ _ _ _ t2) as [[t3 e3]|] eqn:E3; [|done].
  injection Hr as <- <-.
  assert (H1 : exists m, (m <= MAX_RESEND_BATCH)%nat
                 /\ run_thread_ops (ThResendOne now so <$> (batch <$> seq 0 m)) t = Some (t1, e1)).
  { destruct (anyResendAlive _); [by apply Hb|]. injection E1 as <- <-. exists 0%nat. split; [lia | done]. }
  destruct H1 as (m & Hm & H1). exists m. split; [done|]. rewrite (Happ _ _ _ _ _ H1).
  cbn [run_thread_ops run_thread_op]. rewrite E2. cbn. rewrite E3. cbn. by rewrite app_nil_r, app_assoc.
Qed.

(** C6. Whatever the system calls answer, whichever packets are queued, and
    however other threads disconnect and replace connections, between the steps
    of the thread or in the middle of sending a packet: the bytes written to a
    connection are whole queued packets one after another, followed by a proper
    part of one more only if that connection is dead, so a packet is never
    continued after a gap or behind another's.  The one exception is a
    connection that was given the number of a descriptor another thread closed
    between the send thread's getSocketFd() and its send(2) ([EvStray]). *)
Theorem streams_carry_whole_packets (P : list byte -> Prop) (conns : list (option nat)) (h : conn_heap)
  (now : Z) (os : list st_op) (t : SendThread) (evs : list send_event) (a : nat) :
  heap_ok h -> Forall (op_packets P) os ->
  run_st_ops os (newSendThread conns h now) = Some (t, evs) ->
  stray_free a evs ->
  framed P (conn_alive (sc_heap (ss_conns (st t))) a) (wire_of a evs).
Proof.
  intros Hh Ho Hr Ha. change evs with ([] ++ evs).
  refine (proj2 (proj2 (run_st_ops_ok P os _ t [] evs Ho _ Hr)) a Ha).
  split; [split_and!; [constructor | constructor | done]|]. split; [done|].
  intros b _. exists [], []. split_and!; [done | constructor | by left].
Qed.

(** ** The retries of a resend *)

(** How often [id] was put back after a failure on live connections, since it was
    last sent, given up, or the tracker was cleared. *)
Definition count_retry (id : Z) (n : Z) (e : send_event) : Z :=
  match e with
  | EvRequeued i true => if decide (i = id) then n + 1 else n
  | EvResent i | EvGivenUp i => if decide (i = id) then 0 else n
  | EvTrackerCleared => 0
  | _ => n
  end.

Definition retries (id : Z) (evs : list send_event) : Z := foldl (count_retry id) 0 evs.

(** The tracker holds the counts, and none ever went above the bound. *)
Definition retries_ok (retry : gmap Z Z) (evs : list send_event) : Prop :=
  forall id, default 0 (retry !! id) = retries id evs
    /\ forall pre, pre `prefix_of` evs -> 0 <= retries id pre <= MAX_RESEND_RETRIES.

Lemma retries_ok_snoc retry retry' evs e :
  retries_ok retry evs ->
  (forall id, default 0 (retry' !! id) = count_retry id (default 0 (retry !! id)) e) ->
  (forall id, 0 <= count_retry id (default 0 (retry !! id)) e <= MAX_RESEND_RETRIES) ->
  retries_ok retry' (evs ++ [e]).
Proof.
  intros Hok He Hb id. destruct (Hok id) as [Er Hp].
  assert (E : retries id (evs ++ [e]) = count_retry id (default 0 (retry !! id)) e)
    by (unfold retries; rewrite foldl_app; cbn; by rewrite Er).
  split; [by rewrite He, E|]. intros pre [l El].
  destruct l as [|x l _] using rev_ind; [rewrite app_nil_r in El; subst pre; rewrite E; apply Hb|].
  rewrite app_assoc in El. apply app_inj_tail in El as [El _]. apply Hp. by exists l.
Qed.

Lemma retries_ok_wire retry evs e :
  Forall (fun e => forall id n, count_retry id n e = n) e -> retries_ok retry evs -> retries_ok retry (evs ++ e).
Proof.
  intros He. revert evs. induction He as [|x e Hx He IH]; intros evs Hok; [by rewrite app_nil_r|].
  rewrite cons_middle, app_assoc. apply IH. apply (retries_ok_snoc retry); [done | intros id; by rewrite Hx |].
  intros id. rewrite Hx. destruct (Hok id) as [-> Hp]. by apply Hp.
Qed.

Definition uncounted : send_event -> Prop := fun e => forall id n, count_retry id n e = n.

Lemma wire_events_uncounted a r data w : Forall uncounted (wire_events a r data w).
Proof.
  unfold wire_events. rewrite !Forall_app. split_and!; repeat case_match; by repeat constructor.
Qed.

Lemma send_ranks_uncounted data id nowMs any scores ats order s s' evs sent :
  send_ranks data id nowMs any scores ats order s = Some (s', evs, sent) -> Forall uncounted evs.
Proof.
  revert s s' evs sent. induction order as [|idx order IH]; intros s s' evs sent Hs; cbn [send_ranks] in Hs;
    [by injection Hs as <- <- <-|].
  cbn [ss_conns ss_stats ss_tracker] in Hs. destruct (negb _); [by eapply IH|].
  destruct (conn_at idx _) as [[a c]|]; [|done]. destruct (send_on _ _ _) as [[[r c2] w]|]; [|done].
  destruct r; [destruct (MessageTracker.recordMessage _ _ _); [|done]; injection Hs as _ <- _; apply wire_events_uncounted|..].
  all: destruct (send_ranks _ _ _ _ _ _ _ _) as [[[s1 e1] b]|] eqn:Er; [|done]; injection Hs as _ <- _.
  all: apply Forall_app; split; [apply wire_events_uncounted | by eapply IH].
Qed.

Lemma resend_attempts_uncounted data now so ats rr n att k alive sc sc' evs alive' sent :
  resend_attempts data now so ats rr n att k alive sc = Some (sc', evs, alive', sent) -> Forall uncounted evs.
Proof.
  revert att alive sc sc' evs alive' sent. induction k as [|k IH]; intros att alive sc sc' evs alive' sent Hs;
    cbn [resend_attempts] in Hs; [by injection Hs as _ <- _ _|].
  destruct (conn_at _ _) as [[a c]|]; [|by eapply IH]. destruct (negb _); [by eapply IH|].
  destruct (conn_at _ _) as [[a1 c1]|]; [|done]. destruct (isInExponentialBackoff _); [by eapply IH|].
  destruct (send_on _ _ _) as [[[r c2] w]|]; [|done].
  destruct r; [injection Hs as _ <- _ _; apply wire_events_uncounted|..].
  all: destruct (resend_attempts _ _ _ _ _ _ _ _ _ _) as [[[[s1 e1] al] b]|] eqn:Er; [|done]; injection Hs as _ <- _ _.
  all: apply Forall_app; split; [apply wire_events_uncounted | by eapply IH].
Qed.

Lemma sendOnResendConn_retries data now so ats t t' evs0 evs :
  retries_ok (resendRetryCount t) evs0 -> sendOnResendConn data now so ats t = Some (t', evs) ->
  retries_ok (resendRetryCount t') (evs0 ++ evs).
Proof.
  intros Hok Hr. unfold sendOnResendConn in Hr.
  destruct (_ <=? _)%nat; [injection Hr as <- <-; by rewrite app_nil_r|].
  destruct (packet_message_id data) as [id|]; [|done].
  destruct (resend_attempts _ _ _ _ _ _ _ _ _ _) as [[[[sc' e] al] sent]|] eqn:E; [|done].
  apply (retries_ok_wire _ _ _ (resend_attempts_uncounted _ _ _ _ _ _ _ _ _ _ _ _ _ _ E)) in Hok.
  cbn [resendRetryCount set_st] in Hr. set (c := default 0 (resendRetryCount t !! id)) in Hr.
  assert (Hc : 0 <= c <= MAX_RESEND_RETRIES) by (unfold c; destruct (Hok id) as [-> Hp]; by apply Hp).
  assert (Hother : forall m n, 0 <= default 0 (resendRetryCount t !! n) <= MAX_RESEND_RETRIES /\
            (id <> n -> default 0 (<[id := m]> (resendRetryCount t) !! n) = default 0 (resendRetryCount t !! n))).
  { intros m n. split; [destruct (Hok n) as [-> Hp]; by apply Hp|]. intros Hne. by rewrite lookup_insert_ne. }
  unfold MAX_RESEND_RETRIES in *.
  destruct sent.
  { injection Hr as <- <-. rewrite app_assoc. eapply retries_ok_snoc; [exact Hok|..]; intros n; cbn; case_decide as En.
    - subst n. by rewrite lookup_delete_eq.
    - by rewrite lookup_delete_ne.
    - unfold MAX_RESEND_RETRIES. lia.
    - by apply Hother. }
  destruct (negb (0 <? al)%nat || (c <? 6)) eqn:Ec; injection Hr as <- <-; rewrite app_assoc;
    (eapply retries_ok_snoc; [exact Hok|..]); intros n; cbn [resendRetryCount set_resend count_retry].
  - destruct (0 <? al)%nat; [|destruct (decide (id = n)) as [<-|En]; [by rewrite lookup_insert_eq | by apply Hother]].
    case_decide as En; [subst n|rewrite lookup_insert_ne by done; by apply Hother].
    rewrite lookup_insert_eq. cbn [default]. rewrite u8_small by (unfold is_u8; lia). done.
  - destruct (0 <? al)%nat; [|by apply Hother]. case_decide as En; [subst n | by apply Hother].
    cbn in Ec. apply Z.ltb_lt in Ec. fold c. unfold MAX_RESEND_RETRIES. lia.
  - case_decide as En; [subst n; by rewrite lookup_delete_eq|]. rewrite lookup_delete_ne by done. by apply Hother.
  - case_decide as En; [unfold MAX_RESEND_RETRIES; lia | by apply Hother].
Qed.

Lemma resend_one_retries now so ats t t' evs0 evs b :
  retries_ok (resendRetryCount t) evs0 -> resend_one now so ats t = Some (t', evs, b) ->
  retries_ok (resendRetryCount t') (evs0 ++ evs).
Proof.
  intros Hok Hr. unfold resend_one in Hr. destruct (tryDequeue (resendQueue t)) as [q [d|]];
    [|injection Hr as <- <- _; by rewrite app_nil_r].
  destruct (sendOnResendConn _ _ _ _ _) as [[t1 e1]|] eqn:E; [|done]. injection Hr as <- <- _.
  eapply sendOnResendConn_retries; [|exact E]. exact Hok.
Qed.

Lemma clear_tracker_retries t evs0 :
  retries_ok (resendRetryCount t) evs0 ->
  retries_ok (resendRetryCount (clear_tracker t).1) (evs0 ++ (clear_tracker t).2).
Proof.
  intros Hok. unfold clear_tracker. case_match; cbn [fst snd]; [|by rewrite app_nil_r].
  eapply retries_ok_snoc; [exact Hok|..]; intros id; cbn; [by rewrite lookup_empty | unfold MAX_RESEND_RETRIES; lia].
Qed.

Lemma send_data_retries now nowMs so ats still t t' evs0 evs :
  retries_ok (resendRetryCount t) evs0 -> send_data now nowMs so ats still t = Some (t', evs) ->
  retries_ok (resendRetryCount t') (evs0 ++ evs).
Proof.
  intros Hok Hr. unfold send_data in Hr.
  destruct (match pendingDataVec t with Some d => _ | None => _ end) as [q [d|]];
    [|injection Hr as <- <-; by rewrite app_nil_r].
  destruct (negb still); [injection Hr as <- <-; by rewrite app_nil_r|].
  destruct (send_packet _ _ _ _ _ _) as [[[t2 e2] b]|] eqn:E; [|done]. injection Hr as <- <-.
  unfold send_packet in E. destruct (_ || _); [injection E as <- <- _; by rewrite app_nil_r|].
  destruct (packet_message_id d); [|done]. destruct (rate_all _ _ _ _ _ _) as [[sc1 scores]|]; [|done].
  destruct (send_ranks _ _ _ _ _ _ _ _) as [[[s' e] sent]|] eqn:Er; [|done].
  apply (retries_ok_wire _ _ _ (send_ranks_uncounted _ _ _ _ _ _ _ _ _ _ _ Er)) in Hok.
  injection E as <- <- _. by destruct sent.
Qed.

Lemma run_thread_op_retries o t t' evs0 evs :
  retries_ok (resendRetryCount t) evs0 -> run_thread_op o t = Some (t', evs) ->
  retries_ok (resendRetryCount t') (evs0 ++ evs).
Proof.
  assert (Hb : forall so now batch k i t t1 evs0 e1, retries_ok (resendRetryCount t) evs0 ->
    resend_batch now so batch i k t = Some (t1, e1) -> retries_ok (resendRetryCount t1) (evs0 ++ e1)).
  { clear. intros so now batch k. induction k as [|k IH]; intros i t t1 evs0 e1 Hok Hr; cbn [resend_batch] in Hr.
    { injection Hr as <- <-. by rewrite app_nil_r. }
    destruct (resend_one _ _ _ _) as [[[t2 e2] [|]]|] eqn:E1; [| |done].
    - destruct (resend_batch _ _ _ _ _ _) as [[t3 e3]|] eqn:E2; [|done]. injection Hr as <- <-.
      rewrite app_assoc. eapply IH; [|exact E2]. by eapply resend_one_retries.
    - injection Hr as <- <-. by eapply resend_one_retries. }
  intros Hok Hr. destruct o as [now nowMs so batch ats still|now so ats| |now nowMs so ats still];
    cbn [run_thread_op] in Hr.
  - unfold send_iteration, drain_resends in Hr.
    destruct (if anyResendAlive _ then _ else _) as [[t1 e1]|] eqn:E1; [|done].
    assert (H1 : retries_ok (resendRetryCount t1) (evs0 ++ e1)).
    { destruct (anyResendAlive _); [by eapply Hb|]. injection E1 as <- <-. by rewrite app_nil_r. }
    apply clear_tracker_retries in H1. destruct (clear_tracker t1) as [t2 e2]. cbn [fst snd] in H1.
    destruct (send_data _ _ _ _ _ _) as [[t3 e3]|] eqn:E3; [|done]. injection Hr as <- <-.
    rewrite !app_assoc. eapply send_data_retries; [exact H1 | exact E3].
  - apply bind_Some in Hr as ([[t1 e1] b] & E & [= <- <-]). by eapply resend_one_retries.
  - injection Hr as Hr. apply clear_tracker_retries in Hok. by rewrite Hr in Hok.
  - by eapply send_data_retries.
Qed.

Lemma retries_ok_new conns h now : retries_ok (resendRetryCount (newSendThread conns h now)) [].
Proof.
  intros id. split; [done|]. intros pre ->%prefix_nil_inv. cbn. unfold MAX_RESEND_RETRIES. lia.
Qed.

Lemma run_st_ops_retries os t t' evs0 evs :
  retries_ok (resendRetryCount t) evs0 -> run_st_ops os t = Some (t', evs) ->
  retries_ok (resendRetryCount t') (evs0 ++ evs).
Proof.
  revert t evs0 evs. induction os as [|o os IH]; intros t evs0 evs Hok Hr; cbn [run_st_ops] in Hr.
  { injection Hr as <- <-. by rewrite app_nil_r. }
  destruct (run_st_op o t) as [[t1 e1]|] eqn:E1; [|done].
  destruct (run_st_ops os t1) as [[t2 e2]|] eqn:E2; [|done]. injection Hr as <- <-. rewrite app_assoc.
  eapply IH; [|exact E2].
  destruct o as [o|d|d|a|slot a fd now]; cbn [run_st_op] in E1; [by eapply run_thread_op_retries| | |..].
  - injection E1 as <- <-. by rewrite app_nil_r.
  - injection E1 as <- <-. by rewrite app_nil_r.
  - destruct (_ !! a); [|done]. injection E1 as <- <-. by rewrite app_nil_r.
  - destruct (_ !! a); [done|]. injection E1 as <- <-. rewrite app_nil_r.
    unfold replaceConnection. by case_match.
Qed.

(** C27. A message is put back in the resend queue at most MAX_RESEND_RETRIES
    times after rounds that failed on live connections, over any run of the
    thread and of the threads around it, before it is sent or given up; the
    count is what [resendRetryCount] holds, and clearing the tracker (above
    MAX_RESEND_TRACKED entries) is the one thing that starts it again.  After
    the last of them the next such round gives it up. *)
Theorem resend_retries_bounded (conns : list (option nat)) (h : conn_heap) (now : Z)
  (os : list st_op) (t : SendThread) (evs : list send_event) (id : Z) :
  run_st_ops os (newSendThread conns h now) = Some (t, evs) ->
  default 0 (resendRetryCount t !! id) = retries id evs
  /\ (forall pre, pre `prefix_of` evs -> 0 <= retries id pre <= MAX_RESEND_RETRIES)
  /\ (forall data tm so ats sc' e alive,
        let n := length (sc_connections (ss_conns (st t))) in
        (VC_FIRST_RESEND_CONN_INDEX < n)%nat -> packet_message_id data = Some id ->
        resend_attempts data tm so ats (resendRoundRobin t) (n - VC_FIRST_RESEND_CONN_INDEX) 0
          (n - VC_FIRST_RESEND_CONN_INDEX) 0 (ss_conns (st t)) = Some (sc', e, alive, false) ->
        exists t', sendOnResendConn data tm so ats t = Some (t', e ++ [
          if negb (0 <? alive)%nat then EvRequeued id false
          else if retries id evs <? MAX_RESEND_RETRIES then EvRequeued id true else EvGivenUp id])).
Proof.
  intros Hr. destruct (run_st_ops_retries os _ t [] evs (retries_ok_new conns h now) Hr id) as [E Hp]. split; [exact E|]. split; [exact Hp|].
  intros data tm so ats sc' e alive n Hn Hid Hatt. cbn [app] in E. unfold sendOnResendConn.
  destruct (Nat.leb_spec (length (sc_connections (ss_conns (st t)))) VC_FIRST_RESEND_CONN_INDEX); [lia|].
  unfold n in Hatt. rewrite Hid, Hatt. cbn [set_st resendRetryCount]. rewrite E.
  destruct (0 <? alive)%nat; cbn [negb orb]; [|by eexists]. destruct (_ <? _); by eexists.
Qed.

(** On a channel with at most 24 connections the resend queue is never
    read, whatever it holds: no resend connection exists, so the drain is
    skipped and sendOnResendConn, said to handle that case, is not called. *)
Theorem small_channel_never_resends (now : Z) (sockopt : nat -> option tcp_info)
  (batch : nat -> nat -> attempt) (t : SendThread) :
  (length (sc_connections (ss_conns (st t))) <= VC_FIRST_RESEND_CONN_INDEX)%nat ->
  exists t' evs, drain_resends now sockopt batch t = Some (t', evs) /\ resendQueue t' = resendQueue t
    /\ Forall (fun e => e = EvTrackerCleared) evs.
Proof.
  intros Hl. unfold drain_resends, anyResendAlive.
  replace (length (sc_connections (ss_conns (st t))) - VC_FIRST_RESEND_CONN_INDEX)%nat with 0%nat by lia.
  cbn [seq existsb]. unfold clear_tracker.
  destruct (_ <? base.size _)%nat; do 2 eexists; (split; [done|]); (split; [done | by repeat constructor]).
Qed.

(** A MISSING_NOTIFY travels through the same send path with message id 0 in
    its header, so after it is sent the tracker names its connection as the one
    that carried DATA message 0. *)
Theorem notify_recorded_as_message_zero (ids : list Z) (id nowMs : Z) (any : bool) (scores : list Z)
  (attempts : nat -> attempt) (order : list nat) (s s' : SendState) (evs : list send_event) :
  packet_message_id (encode_missing_notify ids) = Some id ->
  send_ranks (encode_missing_notify ids) id nowMs any scores attempts order s = Some (s', evs, true) ->
  exists idx, idx ∈ order
    /\ MessageTracker.getConnectionIndex 0 (ss_tracker s') = Some (Z.of_nat idx).
Proof.
  intros Hid' Hs. assert (Hid : packet_message_id (encode_missing_notify ids) = Some 0).
  { unfold packet_message_id, encode_missing_notify. cbv zeta. unfold encode_header.
    change (byte_of_Z (packet_type_code MISSING_NOTIFY) :: le_split 8 0)
      with ([byte_of_Z 3] ++ le_split 8 0).
    rewrite <- app_assoc. apply (read_le_split [_] 8). lia. }
  rewrite Hid in Hid'. injection Hid' as <-. clear Hid. set (data := encode_missing_notify ids) in *. clearbody data.
  revert s s' evs Hs. induction order as [|idx order IH]; intros s s' evs Hs; cbn [send_ranks] in Hs; [done|].
  assert (Hin : (exists i, i ∈ order
      /\ MessageTracker.getConnectionIndex 0 (ss_tracker s') = Some (Z.of_nat i)) ->
    exists i, i ∈ idx :: order
      /\ MessageTracker.getConnectionIndex 0 (ss_tracker s') = Some (Z.of_nat i)).
  { intros (i & Hi & E). exists i. split; [by right | done]. }
  cbn [ss_conns ss_stats ss_tracker] in Hs. destruct (negb _); [by eapply Hin, IH|].
  destruct (conn_at idx _) as [[a c]|]; [|done].
  destruct (send_on data (attempts idx) _) as [[[r c2] w]|]; [|done].
  destruct r.
  { destruct (MessageTracker.recordMessage 0 (Z.of_nat idx) (ss_tracker s)) as [tr|] eqn:Et; [|done].
    injection Hs as <- <-. exists idx. split; [by left|]. cbn.
    by rewrite (MessageTracker.get_record _ _ _ _ _ Et), decide_True. }
  all: destruct (send_ranks _ _ _ _ _ _ _ _) as [[[s1 e1] b]|] eqn:Er; [|done].
  all: injection Hs as -> <- ->; by eapply Hin, IH.
Qed.

(** ** Witnesses *)

(** Two live connections; every send takes everything. *)
Definition two_conns : SendThread :=
  newSendThread [Some 0%nat; Some 1%nat]
    (<[0%nat := (newTcpConnection 5).1]> {[ 1%nat := (newTcpConnection 6).1 ]}) 0.

Definition sends_all (n : nat) : attempt := quiet_attempt (SendOk n) [].

(** Message 4 is cut after three bytes, when another thread disconnects the
    connection between the poll and the next send; the other connection, which
    another thread has just added in slot 1, takes it whole. *)
Definition cut_run : list st_op :=
  [OpEnqueue (encode_data 4 [Byte.x41; Byte.x42]); OpDisconnect 1; OpReplace 1 2 7 0;
   OpThread (ThSendData 0 0 (fun _ => None)
     (fun i => if (i =? 0)%nat
               then quiet_attempt (SendOk 3) [mkFlushPass true BeforeSend true (SendOk 10) 0]
               else sends_all 13) true)].


Lemma ties_take_turns_witness :
  exists j, (j < length [10; 30; 30])%nat
    /\ head (build_order [10; 30; 30] ((1 + j) mod length [10; 30; 30])) = Some 2%nat.
Proof.
  apply (ties_take_turns [10; 30; 30] 1 2).
  - vm_compute. discriminate.
  - cbn. lia.
  - cbn. lia.
  - reflexivity.
Defined.

Lemma score_formula_witness :
  score_of (mkRuntimeInfo true true false false 0 50000 20000 0 0 1) (Some 2)
  = Some (Z.max 0 (10000 + 20000 / 200 - 50000 / 200 - 0 / 200 - 200 * 1 - 200 * 2)).
Proof.
  apply (score_formula (mkRuntimeInfo true true false false 0 50000 20000 0 0 1) 2).
  - unfold runtime_info_ok, is_u32; cbn; lia.
  - lia.
Defined.

Lemma streams_carry_whole_packets_witness :
  exists t evs, run_st_ops cut_run two_conns = Some (t, evs)
    /\ wire_of 0 evs = take 3 (encode_data 4 [Byte.x41; Byte.x42])
    /\ wire_of 2 evs = encode_data 4 [Byte.x41; Byte.x42]
    /\ framed (fun d => d = encode_data 4 [Byte.x41; Byte.x42])
              (conn_alive (sc_heap (ss_conns (st t))) 0) (wire_of 0 evs).
Proof.
  destruct (run_st_ops cut_run two_conns) as [[t evs]|] eqn:E; [|vm_compute in E; discriminate E].
  exists t, evs. split; [reflexivity|].
  assert (Hw : (wire_of 0 evs, wire_of 2 evs)
               = (take 3 (encode_data 4 [Byte.x41; Byte.x42]), encode_data 4 [Byte.x41; Byte.x42])
               /\ stray_free 0 evs).
  { pose proof E as E'. vm_compute in E'. injection E' as _ <-. split; [reflexivity | by repeat constructor]. }
  destruct Hw as [Hw Hs]. injection Hw as Hw0 Hw2. split; [exact Hw0|]. split; [exact Hw2|].
  apply (streams_carry_whole_packets (fun d => d = encode_data 4 [Byte.x41; Byte.x42])
    [Some 0%nat; Some 1%nat] (<[0%nat := (newTcpConnection 5).1]> {[ 1%nat := (newTcpConnection 6).1 ]})
    0 cut_run t evs 0); [ | repeat constructor | exact E | exact Hs].
  intros a c Ha. apply lookup_insert_Some in Ha as [[_ <-]|[_ Ha]]; [discriminate|].
  apply lookup_singleton_Some in Ha as [_ <-]. discriminate.
Defined.

(** The same cut, but the number read before the disconnect is already that of
    connection 1 when send(2) gets it: the rest of the packet goes there. *)
Lemma reused_number_gets_stray_bytes :
  exists t evs,
    run_st_ops [OpEnqueue (encode_data 4 [Byte.x41; Byte.x42]);
                OpThread (ThSendData 0 0 (fun _ => None)
                  (fun _ => quiet_attempt (SendOk 3) [mkFlushPass true (InSend (Some 1%nat)) true (SendOk 10) 0]) true)]
      two_conns = Some (t, evs)
    /\ wire_of 0 evs = take 3 (encode_data 4 [Byte.x41; Byte.x42])
    /\ wire_of 1 evs = drop 3 (encode_data 4 [Byte.x41; Byte.x42])
    /\ conn_alive (sc_heap (ss_conns (st t))) 1 = true
    /\ pendingDataVec t = None.
Proof.
  destruct (run_st_ops _ two_conns) as [[t evs]|] eqn:E; [|vm_compute in E; discriminate E].
  exists t, evs. vm_compute in E. injection E as <- <-. by split_and!.
Qed.

(** 25 connections of which only the resend one exists, blocked. *)
Definition blocked_resend : SendThread :=
  newSendThread (replicate 24 None ++ [Some 0%nat]) {[ 0%nat := (newTcpConnection 5).1 ]} 0.

(** Seven rounds in which the connection is blocked: six retries, then message 4
    is given up. *)
Definition blocked_run : list st_op :=
  OpEnqueueResend (encode_data 4 [Byte.x41])
  :: replicate 7 (OpThread (ThResendOne 0 (fun _ => None) (fun _ => quiet_attempt (SendErr EAGAIN) []))).

Lemma resend_retries_bounded_witness :
  exists t evs, run_st_ops blocked_run blocked_resend = Some (t, evs)
    /\ evs = replicate 6 (EvRequeued 4 true) ++ [EvGivenUp 4]
    /\ default 0 (resendRetryCount t !! 4) = retries 4 evs
    /\ retries 4 (replicate 6 (EvRequeued 4 true)) <= MAX_RESEND_RETRIES.
Proof.
  destruct (run_st_ops blocked_run blocked_resend) as [[t evs]|] eqn:E; [|vm_compute in E; discriminate E].
  exists t, evs. split; [reflexivity|].
  assert (He : evs = replicate 6 (EvRequeued 4 true) ++ [EvGivenUp 4])
    by (pose proof E as E'; vm_compute in E'; injection E' as _ <-; reflexivity).
  destruct (resend_retries_bounded (replicate 24 None ++ [Some 0%nat]) {[ 0%nat := (newTcpConnection 5).1 ]} 0
              blocked_run t evs 4 E) as (H1 & H2 & _).
  split; [exact He|]. split; [exact H1|]. apply H2. rewrite He. by exists [EvGivenUp 4].
Defined.

Lemma small_channel_never_resends_witness :
  exists t' evs, drain_resends 0 (fun _ => None) (fun _ _ => sends_all 0)
      (set_resend (enqueue (encode_data 4 [Byte.x41]) newBlockingQueue).1 0 ∅ two_conns) = Some (t', evs)
    /\ queue (resendQueue t') = [encode_data 4 [Byte.x41]].
Proof.
  destruct (small_channel_never_resends 0 (fun _ => None) (fun _ _ => sends_all 0)
     (set_resend (enqueue (encode_data 4 [Byte.x41]) newBlockingQueue).1 0 ∅ two_conns))
    as (t' & evs & E & Eq & _); [vm_compute; lia|].
  exists t', evs. split; [exact E|]. rewrite Eq. reflexivity.
Defined.

Lemma notify_recorded_as_message_zero_witness :
  exists s' evs idx, idx ∈ [1%nat]
    /\ send_ranks (encode_missing_notify [7]) 0 0 false [] (fun _ => sends_all 18) [1%nat] (st two_conns)
       = Some (s', evs, true)
    /\ MessageTracker.getConnectionIndex 0 (ss_tracker s') = Some (Z.of_nat idx).
Proof.
  destruct (send_ranks (encode_missing_notify [7]) 0 0 false [] (fun _ => sends_all 18) [1%nat] (st two_conns))
    as [[[s' evs] b]|] eqn:E; [|vm_compute in E; discriminate E].
  assert (b = true) as -> by (vm_compute in E; congruence).
  exists s', evs.
  destruct (notify_recorded_as_message_zero [7] 0 0 false [] (fun _ => sends_all 18)
              [1%nat] (st two_conns) s' evs eq_refl E) as (idx & Hin & Eq).
  exists idx. split; [exact Hin|]. split; [reflexivity | exact Eq].
Defined.
