(* ===== verification/SendSound.v ===== *)
(** * The send thread never goes wrong

    An iteration of the send thread, or a part of it, is defined in every state
    of the right shape, whatever other threads do to the connections meanwhile: no division by an empty tracker, no read outside a packet, no signed
    overflow in the score, no slot without connection, and the flush loops come
    to an end; and it keeps the shape.  The failure counters grow by at most one
    per iteration, which is what bounds the score's arithmetic. *)

From S2P Require Import Prelude Bytes VcProtocol Socket TcpConnection IoThread BlockingQueue SentCache SendThread.

(** ** What the system answers *)

(** No packet of the channel is longer. *)
Definition MAX_PACKET_SIZE : nat := sizeof_VCDataPacket + VC_MAX_DATA_PAYLOAD_SIZE.

(** The clock advances: from some pass on the budget is over, and the list goes on
    for as many passes as a packet has bytes.  Nothing is assumed of what poll
    and send answer. *)
Definition attempt_timed (at_ : attempt) : Prop :=
  exists early late, at_passes at_ = early ++ late
    /\ Forall (fun p => PARTIAL_SEND_BUDGET_MS <= fp_elapsedMs p) late
    /\ (MAX_PACKET_SIZE <= length late)%nat.

Definition tcp_info_ok (t : tcp_info) : Prop := is_u32 (tcpi_rtt t) /\ 0 <= tcpi_retransmits t < 2 ^ 8.

Definition sockopt_ok (so : nat -> option tcp_info) : Prop := forall i t, so i = Some t -> tcp_info_ok t.

(** ** The flush loop comes to an end *)

Lemma disconnect_down c : connected (disconnect c).1 = false.
Proof. unfold disconnect. destruct (connected c) eqn:E; by cbn. Qed.

(** Once bytes went elsewhere the connection is down. *)
Definition stray_down (c : TcpConnection) (w : written) : Prop := stray w = None \/ connected c = false.

Lemma send_call_stray m r c c' r' other w n :
  send_call m r c = (c', r', other) -> stray w = None -> stray_down c' (add_written other n w).
Proof.
  intros Hs Hw. unfold send_call in Hs. destruct (_ =? -1); [injection Hs as <- <- <-; by left|].
  destruct m as [| | | |[b|]]; injection Hs as <- <- <-; try (by left). right. apply disconnect_down.
Qed.

(** A pass ends the loop or leaves it to the rest with as much written, and with
    more once the budget is over. *)
Lemma flush_step p passes size c w :
  stray_down c w ->
  is_Some (flush_loop (p :: passes) size c w)
  \/ exists c' w', flush_loop (p :: passes) size c w = flush_loop passes size c' w' /\ stray_down c' w'
       /\ (totalSent w <= totalSent w')%nat
       /\ (PARTIAL_SEND_BUDGET_MS <= fp_elapsedMs p -> (totalSent w < totalSent w')%nat).
Proof.
  intros Hw. cbn [flush_loop]. destruct (size <=? totalSent w)%nat; [left; by eexists|].
  set (c1 := others_at BeforeCheck (fp_drop p) c).
  destruct (negb (connected c1) || negb (fp_running p)) eqn:E1; [left; by eexists|].
  apply orb_false_iff in E1 as [Hup%negb_false_iff _].
  assert (Hs : stray w = None).
  { destruct Hw as [|Hd]; [done|]. unfold c1, others_at in Hup. case_decide; [|congruence].
    by rewrite disconnect_down in Hup. }
  set (c2 := others_at BeforePoll (fp_drop p) c1). clearbody c2. clear Hw Hup c1.
  destruct (_ || _).
  { destruct (Z.leb_spec PARTIAL_SEND_BUDGET_MS (fp_elapsedMs p)); [left; by eexists|].
    right. exists c2, w. split_and!; [done | by left | lia | lia]. }
  destruct (send_call (fp_drop p) (fp_send p) c2) as [[c3 r] other] eqn:Es.
  destruct (Z.ltb_spec 0 (SendTcpDirect r)) as [Hpos|_].
  - right. do 2 eexists. split; [reflexivity|]. split; [by eapply send_call_stray|].
    assert (totalSent w < totalSent (add_written other (Z.to_nat (SendTcpDirect r)) w))%nat; [|lia].
    unfold totalSent, add_written. rewrite Hs. destruct other; cbn; rewrite ?Hs; lia.
  - destruct (_ || _); [|left; by eexists].
    destruct (Z.leb_spec PARTIAL_SEND_BUDGET_MS (fp_elapsedMs p)); [left; by eexists|].
    right. exists c3, w. split_and!; [done | by left | lia | lia].
Qed.

Lemma flush_ends early late size c w :
  stray_down c w -> Forall (fun p => PARTIAL_SEND_BUDGET_MS <= fp_elapsedMs p) late ->
  (size <= length late)%nat -> is_Some (flush_loop (early ++ late) size c w).
Proof.
  intros Hw Hl Hs. revert c w Hw. induction early as [|p early IH]; intros c w Hw; cbn [app].
  - assert (Hlen : (size - totalSent w <= length late)%nat) by lia. clear Hs. revert c w Hw Hlen.
    induction Hl as [|p late Hp Hl IH]; intros c w Hw Hlen.
    { cbn in Hlen |- *. destruct (Nat.leb_spec size (totalSent w)); [by eexists | lia]. }
    destruct (flush_step p late size c w Hw) as [?|(c' & w' & -> & Hw' & _ & Hlt)]; [done|].
    apply IH; [done|]. specialize (Hlt Hp). cbn in Hlen. lia.
  - destruct (flush_step p (early ++ late) size c w Hw) as [?|(c' & w' & -> & Hw' & _)]; [done|]. by apply IH.
Qed.

(** ** The shape of the thread's state *)

Definition filled (sc : SendConns) : Prop :=
  forall i, (i < length (sc_connections sc))%nat -> is_Some (conn_at i sc).

Definition infos_ok (h : conn_heap) : Prop :=
  forall a c, h !! a = Some c -> runtime_info_ok (lastRuntimeInfo c).

(** The slots, each with a connection object. *)
Definition conns_ok (slots : list (option nat)) (sc : SendConns) : Prop :=
  sc_connections sc = slots /\ filled sc /\ infos_ok (sc_heap sc).

Definition counts_ok (B : Z) (stats : list ConnSendStats) : Prop :=
  Forall (fun s => 0 <= reenqueueCount s <= B) stats.

Definition thread_shape (slots : list (option nat)) (B : Z) (t : SendThread) : Prop :=
  conns_ok slots (ss_conns (st t)) /\ counts_ok B (ss_stats (st t)) /\ length (ss_stats (st t)) = length slots
  /\ length (ss_tracker (st t)) = length slots.

Lemma counts_ok_mono B B' stats : B <= B' -> counts_ok B stats -> counts_ok B' stats.
Proof. intros HB Hs. eapply Forall_impl; [exact Hs|]. cbn. lia. Qed.

Lemma thread_shape_mono slots B B' t : B <= B' -> thread_shape slots B t -> thread_shape slots B' t.
Proof. intros HB (? & ? & ? & ?). split_and!; [done | by eapply counts_ok_mono | done | done]. Qed.

Lemma conns_ok_set slots a c sc :
  runtime_info_ok (lastRuntimeInfo c) -> conns_ok slots sc -> conns_ok slots (set_conn a c sc).
Proof.
  intros Hc (Hn & Hf & Hi). split_and!; [done | |].
  - intros i Hlt. specialize (Hf i Hlt). unfold conn_at in *. cbn [set_conn sc_connections sc_heap].
    destruct (mjoin _) as [b|]; [|by destruct Hf]. destruct (decide (a = b)) as [->|Hne].
    + rewrite lookup_insert_eq. by eexists.
    + by rewrite lookup_insert_ne.
  - intros b cb Hb. cbn in Hb. apply lookup_insert_Some in Hb as [[_ <-]|[_ Hb]]; [done | by eapply Hi].
Qed.

Lemma sample_ok up so : (forall t, so = Some t -> tcp_info_ok t) -> runtime_info_ok (sampleRuntimeInfo up so).
Proof.
  intros Hso. unfold sampleRuntimeInfo. destruct (negb up); [by split_and!|].
  destruct so as [t|]; [|by split_and!]. destruct (Hso t eq_refl) as [Hr Ht].
  split_and!; cbn; try apply u32_range; apply Hr || apply Ht.
Qed.

Lemma conn_at_info slots sc i a c : conns_ok slots sc -> conn_at i sc = Some (a, c) -> runtime_info_ok (lastRuntimeInfo c).
Proof. intros (_ & _ & Hi) Hc. eapply Hi. by eapply conn_at_heap. Qed.

Lemma refresh_conns_ok slots now so i sc :
  sockopt_ok so -> conns_ok slots sc -> conns_ok slots (refreshConnRuntimeInfo now so i sc).
Proof.
  intros Hso Hok. unfold refreshConnRuntimeInfo. destruct (conn_at i sc) as [[a c]|] eqn:E; [|done].
  case_match; [done|]. case_match; [done|].
  apply (conns_ok_set slots a (refreshRuntimeInfoIfStale now (ms TCP_RUNTIME_REFRESH_MS) (so i) c).1); [|done].
  unfold refreshRuntimeInfoIfStale. case_match; [by eapply conn_at_info|]. apply sample_ok. intros t. apply Hso.
Qed.

(** ** Scoring *)

Lemma score_total info oz :
  runtime_info_ok info -> (forall z, oz = Some z -> 0 <= z <= 10000000) -> is_Some (score_of info oz).
Proof.
  intros Hi Hz. destruct oz as [z|]; [|by eexists]. rewrite (score_formula info z Hi (Hz z eq_refl)). by eexists.
Qed.

Lemma rate_total slots B now so stats i sc :
  B <= 10000000 -> sockopt_ok so -> counts_ok B stats -> conns_ok slots sc ->
  exists sc' s, rateConnection now so stats i sc = Some (sc', s) /\ conns_ok slots sc'.
Proof.
  intros HB Hso Hst Hok. unfold rateConnection. destruct (conn_at i sc) as [[a c]|]; [|eauto].
  case_match; [eauto|]. pose proof (refresh_conns_ok slots now so i sc Hso Hok) as Hok'.
  destruct (conn_at i (refreshConnRuntimeInfo now so i sc)) as [[a' c']|] eqn:E; [|eauto].
  case_match; [eauto|]. destruct (score_total (lastRuntimeInfo c') (reenqueueCount <$> stats !! i)) as [s ->]; [| |eauto].
  - by eapply conn_at_info.
  - intros z Hz. apply fmap_Some in Hz as (x & Hx & ->). unfold counts_ok in Hst. rewrite Forall_lookup in Hst.
    specialize (Hst i x Hx). cbn in Hst. lia.
Qed.

Lemma rate_all_total slots B now so stats i k sc :
  B <= 10000000 -> sockopt_ok so -> counts_ok B stats -> conns_ok slots sc ->
  exists sc' scores, rate_all now so stats i k sc = Some (sc', scores) /\ conns_ok slots sc' /\ length scores = k.
Proof.
  intros HB Hso Hst. revert i sc. induction k as [|k IH]; intros i sc Hok; cbn [rate_all]; [by exists sc, []|].
  destruct (rate_total slots B now so stats i sc HB Hso Hst Hok) as (sc1 & s & -> & Hok1).
  destruct (IH (S i) sc1 Hok1) as (sc2 & ss & -> & Hok2 & Hl). exists sc2, (s :: ss). cbn. auto.
Qed.

(** ** Sending *)

Lemma others_at_info stage m c : lastRuntimeInfo (others_at stage m c) = lastRuntimeInfo c.
Proof. unfold others_at, disconnect. by repeat case_match. Qed.

Lemma disconnect_info c : lastRuntimeInfo (disconnect c).1 = lastRuntimeInfo c.
Proof. unfold disconnect. by case_match. Qed.

Lemma send_call_info m r c c' r' other :
  send_call m r c = (c', r', other) -> lastRuntimeInfo c' = lastRuntimeInfo c.
Proof.
  unfold send_call. destruct (_ =? -1); [intros [= <- _ _]; apply others_at_info|].
  destruct m as [| | | |[b|]]; intros [= <- _ _]; rewrite ?disconnect_info; apply others_at_info.
Qed.

Lemma flush_loop_info passes size c w c' w' :
  flush_loop passes size c w = Some (c', w') -> lastRuntimeInfo c' = lastRuntimeInfo c.
Proof.
  revert c w. induction passes as [|p passes IH]; intros c w Hf; cbn [flush_loop] in Hf;
    destruct (size <=? totalSent w)%nat; try (by injection Hf as <- _); [done|].
  set (c1 := others_at BeforeCheck (fp_drop p) c) in *.
  assert (E1 : lastRuntimeInfo c1 = lastRuntimeInfo c) by apply others_at_info. rewrite <- E1. clearbody c1. clear E1 c.
  destruct (negb (connected c1) || negb (fp_running p)); [by injection Hf as <- _|].
  set (c2 := others_at BeforePoll (fp_drop p) c1) in *.
  assert (E2 : lastRuntimeInfo c2 = lastRuntimeInfo c1) by apply others_at_info. rewrite <- E2. clearbody c2. clear E2 c1.
  destruct (_ || _); [destruct (_ <=? _); [by injection Hf as <- _ | by eapply IH]|].
  destruct (send_call _ _ _) as [[c3 r] other] eqn:E. rewrite <- (send_call_info _ _ _ _ _ _ E).
  destruct (0 <? _); [by eapply IH|]. destruct (_ || _); [|by injection Hf as <- _].
  destruct (_ <=? _); [by injection Hf as <- _ | by eapply IH].
Qed.

Lemma send_on_total data at_ c :
  (length data <= MAX_PACKET_SIZE)%nat -> attempt_timed at_ ->
  exists r c2 w, send_on data at_ c = Some (r, c2, w) /\ lastRuntimeInfo c2 = lastRuntimeInfo c.
Proof.
  intros Hd (early & late & Ep & Hl & Hlen). unfold send_on.
  destruct (send_call (at_drop at_) (at_first at_) c) as [[c1 r] other] eqn:E.
  pose proof (send_call_info _ _ _ _ _ _ E) as E1.
  destruct (0 <? SendTcpDirect r).
  - destruct (flush_ends early late (length data) c1 (add_written other (Z.to_nat (SendTcpDirect r)) unwritten))
      as [[c2 w] Ef]; [by eapply send_call_stray | done | lia |]. rewrite Ep, Ef.
    pose proof (flush_loop_info _ _ _ _ _ _ Ef) as E2.
    destruct (_ <? _)%nat; do 3 eexists; (split; [done|]); rewrite ?disconnect_info; congruence.
  - destruct (_ =? _); do 3 eexists; (split; [done|]); by rewrite ?disconnect_info.
Qed.

(** Others taking connections down keep the shape. *)
Lemma disconnect_in_lookup l (h : conn_heap) a :
  (is_Some (h !! a) -> is_Some (disconnect_in l h !! a)) /\ (infos_ok h -> infos_ok (disconnect_in l h)).
Proof.
  induction l as [|b l [IH1 IH2]]; cbn; [done|]. split.
  - intros Ha. apply lookup_alter_is_Some, IH1, Ha.
  - intros Hi x c Hc. apply lookup_alter_Some in Hc as [(-> & d & Hd & ->)|[_ Hc]]; [|by eapply IH2].
    rewrite disconnect_info. by eapply IH2.
Qed.

Lemma interfere_conns_ok slots l sc : conns_ok slots sc -> conns_ok slots (interfere l sc).
Proof.
  intros (Hn & Hf & Hi). split_and!; [done | | by apply (disconnect_in_lookup l _ 0)].
  intros i Hlt. specialize (Hf i Hlt). unfold conn_at in *. cbn [interfere sc_connections sc_heap].
  destruct (mjoin _) as [a|]; [|by destruct Hf]. apply fmap_is_Some in Hf.
  apply fmap_is_Some. by apply disconnect_in_lookup.
Qed.

Lemma counts_alter (f : ConnSendStats -> ConnSendStats) i B (order : list nat) (stats : list ConnSendStats) :
  (forall x, stats !! i = Some x -> 0 <= reenqueueCount (f x) <= B) ->
  (forall j x, stats !! j = Some x -> 0 <= reenqueueCount x <= B /\ (j ∈ i :: order -> reenqueueCount x <= B - 1)) ->
  (i ∉ order) ->
  forall j x, alter f i stats !! j = Some x -> 0 <= reenqueueCount x <= B /\ (j ∈ order -> reenqueueCount x <= B - 1).
Proof.
  intros Hf Hs Hni j x Hj. destruct (decide (i = j)) as [->|Hne].
  - rewrite list_lookup_alter_eq in Hj. apply fmap_Some in Hj as (y & Hy & ->). split; [by apply Hf | done].
  - rewrite list_lookup_alter_ne in Hj by done. destruct (Hs j x Hj) as [H1 H2]. split; [done|].
    intros Hin. apply H2. by right.
Qed.

Lemma send_ranks_total slots B data id nowMs any scores ats order s :
  0 <= B < 10000000 -> (length data <= MAX_PACKET_SIZE)%nat -> (forall i, attempt_timed (ats i)) ->
  conns_ok slots (ss_conns s) -> Forall (fun i => (i < length slots)%nat) order -> NoDup order ->
  (forall j x, ss_stats s !! j = Some x ->
     0 <= reenqueueCount x <= B + 1 /\ (j ∈ order -> reenqueueCount x <= B + 1 - 1)) ->
  (0 < length (ss_tracker s))%nat ->
  exists s' evs sent, send_ranks data id nowMs any scores ats order s = Some (s', evs, sent)
    /\ conns_ok slots (ss_conns s') /\ counts_ok (B + 1) (ss_stats s') /\ length (ss_stats s') = length (ss_stats s)
    /\ length (ss_tracker s') = length (ss_tracker s).
Proof.
  intros HB Hdata Hats Hok Hlt Hnd. revert s Hok. induction order as [|i order IH]; intros s Hok Hst Htr; cbn [send_ranks].
  - exists s, [], false. split_and!; try done. apply Forall_lookup. intros j x Hx. by apply (Hst j x).
  - apply Forall_cons in Hlt as [Hi Hlt]. apply NoDup_cons in Hnd as [Hni Hnd].
    apply (interfere_conns_ok slots (at_others (ats i))) in Hok.
    cbn [ss_conns ss_stats ss_tracker]. set (sc0 := interfere (at_others (ats i)) (ss_conns s)) in *.
    destruct (negb _).
    { apply (IH Hlt Hnd (mkSendState sc0 (ss_stats s) (ss_tracker s)) Hok); [|done].
      intros j x Hx. destruct (Hst j x Hx) as [H1 H2]. split; [done|].
      intros Hin. apply H2. by right. }
    destruct Hok as (Hn & Hf & Hinf). destruct (Hf i) as [[a c] Ea]; [by rewrite Hn|]. rewrite Ea.
    set (c1 := diagMarkSendEnd id nowMs _).
    destruct (send_on_total data (ats i) c1 Hdata (Hats i)) as (r & c2 & bytes & -> & E2).
    assert (Hok2 : conns_ok slots (set_conn a c2 sc0)).
    { apply conns_ok_set; [|done]. rewrite E2. change (runtime_info_ok (lastRuntimeInfo c)).
      by eapply (conn_at_info slots). }
    assert (Hrest : exists s' evs sent,
      send_ranks data id nowMs any scores ats order
        (mkSendState (set_conn a c2 sc0) (alter count_failure i (ss_stats s)) (ss_tracker s)) = Some (s', evs, sent)
      /\ conns_ok slots (ss_conns s') /\ counts_ok (B + 1) (ss_stats s') /\ length (ss_stats s') = length (ss_stats s)
      /\ length (ss_tracker s') = length (ss_tracker s)).
    { destruct (IH Hlt Hnd (mkSendState (set_conn a c2 sc0) (alter count_failure i (ss_stats s)) (ss_tracker s)))
        as (s' & evs & sent & E & H1 & H2 & H3 & H4); [done | | done |].
      - apply counts_alter; [|done|done]. intros x Hx. destruct (Hst i x Hx) as [H1 H2].
        specialize (H2 ltac:(by left)). cbn. rewrite u64_small by (unfold is_u64; lia). lia.
      - exists s', evs, sent. cbn [ss_stats ss_tracker] in *. rewrite length_alter in H3. auto. }
    destruct r; [|destruct Hrest as (s' & evs & sent & -> & Hrest); eauto 10..].
    unfold MessageTracker.recordMessage. rewrite shard_index_Some by done. do 3 eexists. split; [done|].
    cbn. rewrite !length_alter. split_and!; try done. apply Forall_lookup. intros j x Hx.
    apply (counts_alter (count_success id nowMs) i (B + 1) order (ss_stats s) ltac:(cbn; lia) Hst Hni j x Hx).
Qed.

(** ** The resend path *)

Lemma resend_attempts_total slots data now so ats rr rc k rem alive sc :
  length slots = (VC_FIRST_RESEND_CONN_INDEX + rc)%nat -> (0 < rc)%nat -> (length data <= MAX_PACKET_SIZE)%nat ->
  (forall i, attempt_timed (ats i)) -> sockopt_ok so -> conns_ok slots sc ->
  exists sc' evs alive' sent, resend_attempts data now so ats rr rc k rem alive sc = Some (sc', evs, alive', sent)
    /\ conns_ok slots sc'.
Proof.
  intros Hn Hrc Hdata Hats Hso. revert k alive sc. induction rem as [|rem IH]; intros k alive sc Hok; cbn [resend_attempts].
  { do 4 eexists. by split. }
  set (i := (VC_FIRST_RESEND_CONN_INDEX + (rr + k) mod rc)%nat).
  assert (Hi : (i < length slots)%nat) by (pose proof (Nat.mod_upper_bound (rr + k) rc ltac:(lia)); unfold i; lia).
  apply (interfere_conns_ok slots (at_others (ats i))) in Hok.
  set (sc0 := interfere (at_others (ats i)) sc) in *.
  destruct (conn_at i sc0) as [[a c]|] eqn:Ea; [|by apply IH]. destruct (negb (connected c)); [by apply IH|].
  pose proof (refresh_conns_ok slots now so i sc0 Hso Hok) as (Hn1 & Hf1 & Hi1).
  destruct (Hf1 i) as [[a1 c1] E1]; [by rewrite Hn1|]. rewrite E1.
  destruct (isInExponentialBackoff _); [by apply IH|].
  destruct (send_on_total data (ats i) c1 Hdata (Hats i)) as (r & c2 & bytes & -> & E2).
  assert (Hok2 : conns_ok slots (set_conn a c2 (refreshConnRuntimeInfo now so i sc0))).
  { apply conns_ok_set; [|done]. rewrite E2. by apply (conn_at_info slots _ _ _ _ (conj Hn1 (conj Hf1 Hi1)) E1). }
  destruct r; [do 4 eexists; by split|..].
  all: destruct (IH (S k) (S alive) _ Hok2) as (sc' & evs & al & sent & -> & Hok').
  all: do 4 eexists; by split.
Qed.

(** What the queues must hold for the thread to read the message id and to send
    it in bounded time. *)
Definition readable (d : list byte) : Prop :=
  is_Some (packet_message_id d) /\ (length d <= MAX_PACKET_SIZE)%nat.

Lemma encoded_readable p : packet_ok p -> readable (encode_packet p).
Proof.
  intros Hp. pose proof (encode_packet_min p Hp) as Hl. split.
  - apply read_le_is_Some. unfold VC_MIN_DATA_PACKET_SIZE, sizeof_VCDataPacket, sizeof_VCHeader in Hl. lia.
  - unfold MAX_PACKET_SIZE, VC_MAX_DATA_PAYLOAD_SIZE. destruct p as [id pl|id m|ids]; cbn [encode_packet].
    + rewrite length_encode_data. destruct Hp as [_ Hp]. unfold VC_MAX_DATA_PAYLOAD_SIZE in Hp. lia.
    + rewrite length_encode_resend_request. unfold sizeof_VCResendRequest, sizeof_VCDataPacket. lia.
    + rewrite length_encode_missing_notify. unfold sizeof_VCDataPacket, VC_MAX_MISSING_IDS_PER_NOTIFY. lia.
Qed.

Section sound.
Context (P : list byte -> Prop) (HP : forall d, P d -> readable d).
Context (slots : list (option nat)) (Hn : (0 < length slots)%nat) (now : Z) (so : nat -> option tcp_info) (Hso : sockopt_ok so).

Lemma sendOnResendConn_total B data ats t :
  P data -> (forall i, attempt_timed (ats i)) -> thread_shape slots B t ->
  exists t' evs, sendOnResendConn data now so ats t = Some (t', evs) /\ thread_shape slots B t'.
Proof.
  intros Hd Hats Hsh. destruct (HP data Hd) as [[id Hid] Hlen]. unfold sendOnResendConn. rewrite Hid.
  destruct Hsh as (Hc & Hs & Hl & Ht). rewrite (proj1 Hc).
  destruct (Nat.leb_spec (length slots) VC_FIRST_RESEND_CONN_INDEX); [exists t, []; by split_and!|].
  destruct (resend_attempts_total slots data now so ats (resendRoundRobin t) (length slots - VC_FIRST_RESEND_CONN_INDEX) 0
              (length slots - VC_FIRST_RESEND_CONN_INDEX) 0 (ss_conns (st t))) as (sc' & evs & al & sent & -> & Hok');
    [lia | lia | done | done | done | done |].
  destruct sent; [do 2 eexists; by split_and!|]. case_match; do 2 eexists; by split_and!.
Qed.

Lemma resend_one_total B ats t evs0 :
  (forall i, attempt_timed (ats i)) -> thread_ok P t evs0 -> thread_shape slots B t ->
  exists t' evs b, resend_one now so ats t = Some (t', evs, b) /\ thread_shape slots B t'.
Proof.
  intros Hats [(Hq1 & Hq2 & Hp) Hs] Hsh. unfold resend_one. destruct (tryDequeue_Forall P _ Hq2) as [Hq2' Hd].
  destruct (tryDequeue (resendQueue t)) as [q [d|]]; cbn [fst snd] in *; [|by exists t, [], false].
  set (t0 := set_resend q (resendRoundRobin t) (resendRetryCount t) t).
  destruct (sendOnResendConn_total B d ats t0 (Hd d eq_refl) Hats Hsh) as (t1 & e1 & -> & Hsh1). do 3 eexists. by split.
Qed.

Lemma resend_batch_total B batch i k t evs0 :
  (forall i j, attempt_timed (batch i j)) -> thread_ok P t evs0 -> thread_shape slots B t ->
  exists t' evs, resend_batch now so batch i k t = Some (t', evs) /\ thread_shape slots B t'.
Proof.
  intros Hats. revert i t evs0. induction k as [|k IH]; intros i t evs0 Hok Hsh; cbn [resend_batch]; [by exists t, []|].
  destruct (resend_one_total B (batch i) t evs0 (Hats i) Hok Hsh) as (t1 & e1 & b & E1 & Hsh1). rewrite E1.
  destruct b; [|do 2 eexists; by split].
  destruct (IH (S i) t1 (evs0 ++ e1) (resend_one_ok P now so (batch i) t t1 evs0 e1 true Hok E1) Hsh1) as (t2 & e2 & -> & Hsh2).
  do 2 eexists. by split.
Qed.

Lemma clear_tracker_shape B t : thread_shape slots B t -> thread_shape slots B (clear_tracker t).1.
Proof. intros Hsh. unfold clear_tracker. by case_match. Qed.

Lemma drain_resends_total B batch t evs0 :
  (forall i j, attempt_timed (batch i j)) -> thread_ok P t evs0 -> thread_shape slots B t ->
  exists t' evs, drain_resends now so batch t = Some (t', evs) /\ thread_shape slots B t'.
Proof.
  intros Hats Hok Hsh. unfold drain_resends.
  assert (H : exists t' evs, (if anyResendAlive (ss_conns (st t)) then resend_batch now so batch 0 MAX_RESEND_BATCH t
                              else Some (t, [])) = Some (t', evs) /\ thread_shape slots B t').
  { destruct (anyResendAlive _); [by eapply resend_batch_total | by exists t, []]. }
  destruct H as (t1 & e1 & -> & Hsh1). apply clear_tracker_shape in Hsh1.
  destruct (clear_tracker t1) as [t2 e2]. do 2 eexists. by split.
Qed.

Lemma order_lt scores rr : Forall (fun i => (i < length scores)%nat) (build_order scores rr).
Proof. apply Forall_forall. intros i. rewrite build_order_perm, elem_of_seq. lia. Qed.

Lemma order_nodup scores rr : NoDup (build_order scores rr).
Proof. rewrite build_order_perm. apply NoDup_seq. Qed.

Lemma send_packet_total B nowMs ats data t :
  0 <= B < 10000000 -> P data -> (forall i, attempt_timed (ats i)) -> thread_shape slots B t ->
  exists t' evs b, send_packet now nowMs so ats data t = Some (t', evs, b) /\ thread_shape slots (B + 1) t'.
Proof.
  intros HB Hd Hats Hsh. pose proof (thread_shape_mono slots B (B + 1) t ltac:(lia) Hsh) as Hsh1.
  unfold send_packet. destruct (_ || _); [do 3 eexists; by split|].
  destruct (HP data Hd) as [[id ->] Hdata]. destruct Hsh as (Hc & Hs & Hl & Ht).
  set (m := numDataConns _).
  assert (Hm : (m <= length slots)%nat).
  { unfold m, numDataConns. rewrite (proj1 Hc).
    destruct (Nat.ltb_spec VC_FIRST_RESEND_CONN_INDEX (length slots)); lia. }
  destruct (rate_all_total slots B now so (ss_stats (st t)) 0 m (ss_conns (st t)) ltac:(lia) Hso Hs Hc)
    as (sc1 & scores & -> & Hc1 & Hlen).
  destruct (send_ranks_total slots B data id nowMs (0 <=? bestScore scores) scores ats
              (build_order scores (roundRobinStart t)) (mkSendState sc1 (ss_stats (st t)) (ss_tracker (st t))))
    as (s' & evs & sent & -> & H1 & H2 & H3 & H4).
  - done.
  - done.
  - done.
  - done.
  - eapply Forall_impl; [apply order_lt|]. cbn. lia.
  - apply order_nodup.
  - intros j x Hx. cbn in Hx. unfold counts_ok in Hs. rewrite Forall_lookup in Hs. specialize (Hs j x Hx). cbn in Hs. lia.
  - cbn. lia.
  - do 3 eexists. split; [done|]. cbn [ss_stats ss_tracker] in *.
    assert (Hsh' : thread_shape slots (B + 1) (set_st s' (set_round_robin ((roundRobinStart t + 1) mod m) t))).
    { split_and!; [exact H1 | exact H2 | exact (eq_trans H3 Hl) | exact (eq_trans H4 Ht)]. }
    by destruct sent.
Qed.

Lemma send_data_total B nowMs ats still t evs0 :
  0 <= B < 10000000 -> (forall i, attempt_timed (ats i)) -> thread_ok P t evs0 -> thread_shape slots B t ->
  exists t' evs, send_data now nowMs so ats still t = Some (t', evs) /\ thread_shape slots (B + 1) t'.
Proof.
  intros HB Ha [(Hq1 & Hq2 & Hp) Hs] Hsh. unfold send_data.
  destruct (tryDequeue_Forall P _ Hq1) as [_ Hd].
  set (qd := match pendingDataVec t with Some d => _ | None => _ end).
  assert (Hdv : forall d, qd.2 = Some d -> P d).
  { unfold qd. destruct (pendingDataVec t) as [d|]; [|exact Hd]. intros d' [= <-]. by apply Hp. }
  assert (Hsh1 : thread_shape slots (B + 1) (set_pending qd.1 None t))
    by (apply (thread_shape_mono slots B); [lia | exact Hsh]).
  destruct qd as [q [d|]]; cbn [fst snd] in *; [|do 2 eexists; by split].
  destruct (negb still); [do 2 eexists; by split|].
  destruct (send_packet_total B nowMs ats d (set_pending q None t) HB (Hdv d eq_refl) Ha Hsh)
    as (t3 & e3 & b & -> & Hsh3).
  do 2 eexists. by split.
Qed.

End sound.

(** What the system answers to a step of the thread: readable samples, and a clock
    that advances. *)
Definition thread_op_ok (o : thread_op) : Prop :=
  match o with
  | ThIterate _ _ so batch ats _ =>
      sockopt_ok so /\ (forall i j, attempt_timed (batch i j)) /\ (forall i, attempt_timed (ats i))
  | ThResendOne _ so ats | ThSendData _ _ so ats _ => sockopt_ok so /\ forall i, attempt_timed (ats i)
  | ThClearTracker => True
  end.

Lemma run_thread_op_total P slots B o t evs0 :
  (forall d, P d -> readable d) -> (0 < length slots)%nat -> 0 <= B < 10000000 -> thread_op_ok o ->
  thread_ok P t evs0 -> thread_shape slots B t ->
  exists t' evs, run_thread_op o t = Some (t', evs) /\ thread_shape slots (B + 1) t'.
Proof.
  intros HP Hn HB Ho Hok Hsh.
  assert (Hup : forall t', thread_shape slots B t' -> thread_shape slots (B + 1) t')
    by (intros t'; apply thread_shape_mono; lia).
  destruct o as [now nowMs so batch ats still|now so ats| |now nowMs so ats still]; cbn [run_thread_op thread_op_ok] in *.
  - destruct Ho as (Hso & Hb & Ha). unfold send_iteration.
    destruct (drain_resends_total P HP slots Hn now so Hso B batch t evs0 Hb Hok Hsh) as (t1 & e1 & E1 & Hsh1).
    rewrite E1. pose proof (drain_resends_ok P now so batch t t1 evs0 e1 Hok E1) as Hok1.
    destruct (send_data_total P HP slots Hn now so Hso B nowMs ats still t1 (evs0 ++ e1) HB Ha Hok1 Hsh1)
      as (t2 & e2 & -> & Hsh2). do 2 eexists. by split.
  - destruct Ho as (Hso & Ha).
    destruct (resend_one_total P HP slots Hn now so Hso B ats t evs0 Ha Hok Hsh) as (t1 & e1 & b & -> & Hsh1).
    do 2 eexists. split; [done | by apply Hup].
  - do 2 eexists. split; [by rewrite (surjective_pairing (clear_tracker t))|]. by apply Hup, clear_tracker_shape.
  - destruct Ho as (Hso & Ha). by apply (send_data_total P HP slots Hn now so Hso B nowMs ats still t evs0).
Qed.
