(* ===== verification/SendWait.v ===== *)
(** * The waits of the send thread (src/common/TcpVCSendThread.cpp)

    When run() finds the send queue empty it waits on the Waker until one of the
    queues has work or the thread is to stop; when every connection refused a
    packet it waits on connAvailableCv.  Here those waits run against the threads
    that enqueue, stop the thread or replace connections, one atomic access at a
    time.  The wait for work loses no wake-up; the wait for a connection can lose
    the one of setRunning(false). *)

From S2P Require Import Prelude BlockingQueue.

Section idle_wait.
Context {A : Type}.

(** Where the send thread is; [d] is resendDrainable. *)
Inductive sender_pc : Type :=
| SRun                     (* elsewhere in the loop *)
| SEvalRunning (d : bool)  (* about to read isRunning(), holding waker->mtx *)
| SEvalSend (d : bool)     (* about to read sendQueue->approxSize() *)
| SEvalResend (d : bool)   (* about to read resendQueue->approxSize() *)
| SWait (d : bool)         (* blocked in wait_for *)
| SWoken (d : bool)        (* woken, about to take waker->mtx again *)
| SenderDone.

Definition holds_mtx (pc : sender_pc) : bool :=
  match pc with SEvalRunning _ | SEvalSend _ | SEvalResend _ => true | _ => false end.

(** [pushedS]: threads in sendQueue->enqueue between the push and the
    fetch_add; [countedS]: between the fetch_add and the notifier's lock; the
    same for the resend queue; [stopping]: threads in setRunning(false) between
    the store and the lock; [unlocked]: threads past lock and unlock, about to
    call notify_one. *)
Record wait_state : Type := mkWaitState {
  sendQueue : BlockingQueue A;
  resendQueue : BlockingQueue A;
  running : bool;
  sender : sender_pc;
  pushedS : nat;
  countedS : nat;
  pushedR : nat;
  countedR : nat;
  stopping : nat;
  unlocked : nat;
}.

(** The send thread's own steps. *)
Inductive sender_step : wait_state -> wait_state -> Prop :=
| s_resend q r run pS cS pR cR st u :
    (* resendQueue->tryDequeue() *)
    sender_step (mkWaitState q r run SRun pS cS pR cR st u)
                (mkWaitState q (tryDequeue r).1 run SRun pS cS pR cR st u)
| s_take q r run pS cS pR cR st u x :
    (tryDequeue q).2 = Some x ->
    sender_step (mkWaitState q r run SRun pS cS pR cR st u)
                (mkWaitState (tryDequeue q).1 r run SRun pS cS pR cR st u)
| s_idle q r run pS cS pR cR st u d :
    (* nothing to send: lock waker->mtx *)
    (tryDequeue q).2 = None ->
    sender_step (mkWaitState q r run SRun pS cS pR cR st u)
                (mkWaitState q r run (SEvalRunning d) pS cS pR cR st u)
| s_stop q r pS cS pR cR st u :
    (* the loop condition *)
    sender_step (mkWaitState q r false SRun pS cS pR cR st u)
                (mkWaitState q r false SenderDone pS cS pR cR st u)
| s_eval_running q r (run : bool) pS cS pR cR st u d :
    sender_step (mkWaitState q r run (SEvalRunning d) pS cS pR cR st u)
                (mkWaitState q r run (if run then SEvalSend d else SRun) pS cS pR cR st u)
| s_eval_send q r run pS cS pR cR st u d :
    sender_step (mkWaitState q r run (SEvalSend d) pS cS pR cR st u)
                (mkWaitState q r run (if 0 <? approxSize q then SRun else SEvalResend d) pS cS pR cR st u)
| s_eval_resend q r run pS cS pR cR st u d :
    (* all false: release waker->mtx and block, atomically *)
    sender_step (mkWaitState q r run (SEvalResend d) pS cS pR cR st u)
                (mkWaitState q r run (if d && (0 <? approxSize r) then SRun else SWait d) pS cS pR cR st u)
| s_timeout q r run pS cS pR cR st u d :
    (* IDLE_WAIT_MS over: wait_for returns whatever the predicate says *)
    sender_step (mkWaitState q r run (SWait d) pS cS pR cR st u)
                (mkWaitState q r run SRun pS cS pR cR st u)
| s_spurious q r run pS cS pR cR st u d :
    sender_step (mkWaitState q r run (SWait d) pS cS pR cR st u)
                (mkWaitState q r run (SWoken d) pS cS pR cR st u)
| s_relock q r run pS cS pR cR st u d :
    sender_step (mkWaitState q r run (SWoken d) pS cS pR cR st u)
                (mkWaitState q r run (SEvalRunning d) pS cS pR cR st u).

(** notify_one wakes the only thread that can wait. *)
Definition notified (pc : sender_pc) : sender_pc :=
  match pc with SWait d => SWoken d | pc => pc end.

(** Threads that have something to announce begin. *)
Inductive producer_begin : wait_state -> wait_state -> Prop :=
| p_push_send q r run pc pS cS pR cR st u x :
    producer_begin (mkWaitState q r run pc pS cS pR cR st u)
                   (mkWaitState (set_queue q (queue q ++ [x])) r run pc (S pS) cS pR cR st u)
| p_push_resend q r run pc pS cS pR cR st u x :
    producer_begin (mkWaitState q r run pc pS cS pR cR st u)
                   (mkWaitState q (set_queue r (queue r ++ [x])) run pc pS cS (S pR) cR st u)
| p_stop q r run pc pS cS pR cR st u :
    (* StopableThread::setRunning(false) *)
    producer_begin (mkWaitState q r run pc pS cS pR cR st u)
                   (mkWaitState q r false pc pS cS pR cR (S st) u)
| p_cancel_send q r run pc pS cS pR cR st u :
    producer_begin (mkWaitState q r run pc pS cS pR cR st u)
                   (mkWaitState (cancelWait q) r run pc pS cS pR cR st u)
| p_cancel_resend q r run pc pS cS pR cR st u :
    producer_begin (mkWaitState q r run pc pS cS pR cR st u)
                   (mkWaitState q (cancelWait r) run pc pS cS pR cR st u).

(** They go on: the counter, the lock of waker->mtx (and its unlock), the
    notification. *)
Inductive producer_step : wait_state -> wait_state -> Prop :=
| p_count_send q r run pc pS cS pR cR st u :
    producer_step (mkWaitState q r run pc (S pS) cS pR cR st u)
                  (mkWaitState (add_count 1 q) r run pc pS (S cS) pR cR st u)
| p_count_resend q r run pc pS cS pR cR st u :
    producer_step (mkWaitState q r run pc pS cS (S pR) cR st u)
                  (mkWaitState q (add_count 1 r) run pc pS cS pR (S cR) st u)
| p_lock_send q r run pc pS cS pR cR st u :
    holds_mtx pc = false ->
    producer_step (mkWaitState q r run pc pS (S cS) pR cR st u)
                  (mkWaitState q r run pc pS cS pR cR st (S u))
| p_lock_resend q r run pc pS cS pR cR st u :
    holds_mtx pc = false ->
    producer_step (mkWaitState q r run pc pS cS pR (S cR) st u)
                  (mkWaitState q r run pc pS cS pR cR st (S u))
| p_lock_stop q r run pc pS cS pR cR st u :
    holds_mtx pc = false ->
    producer_step (mkWaitState q r run pc pS cS pR cR (S st) u)
                  (mkWaitState q r run pc pS cS pR cR st (S u))
| p_notify q r run pc pS cS pR cR st u :
    producer_step (mkWaitState q r run pc pS cS pR cR st (S u))
                  (mkWaitState q r run (notified pc) pS cS pR cR st u).

Definition wait_step (s s' : wait_state) : Prop :=
  sender_step s s' \/ producer_begin s s' \/ producer_step s s'.

(** The thread starts on two queues at rest. *)
Definition wait_init (s : wait_state) : Prop :=
  exists q r, bq_wf q /\ bq_wf r /\ s = mkWaitState q r true SRun 0 0 0 0 0 0.

(** The predicate of wait_for. *)
Definition wait_predicate (d : bool) (s : wait_state) : bool :=
  negb (running s) || (0 <? approxSize (sendQueue s)) || (d && (0 <? approxSize (resendQueue s))).

(** The threads that are still to notify. *)
Definition to_notify (s : wait_state) : nat := countedS s + countedR s + stopping s + unlocked s.

(** ** The invariant

    While the predicate is evaluated nobody gets past the lock of the mutex, so
    whoever made a condition true after it was read is still before the lock. *)

Definition before_lock (s : wait_state) : nat := countedS s + countedR s + stopping s.

Definition eval_inv (s : wait_state) : Prop :=
  match sender s with
  | SEvalSend _ => running s = false -> (0 < before_lock s)%nat
  | SEvalResend _ => negb (running s) || (0 <? approxSize (sendQueue s)) = true -> (0 < before_lock s)%nat
  | SWait d => wait_predicate d s = true -> (0 < to_notify s)%nat
  | _ => True
  end.

Definition count_inv (q : BlockingQueue A) (pushed : nat) : Prop :=
  approxSize q = u64 (Z.of_nat (size q) - Z.of_nat pushed).

Definition wait_inv (s : wait_state) : Prop :=
  count_inv (sendQueue s) (pushedS s) /\ count_inv (resendQueue s) (pushedR s) /\ eval_inv s.

Lemma count_inv_push q n x : count_inv q n -> count_inv (set_queue q (queue q ++ [x])) (S n).
Proof.
  unfold count_inv, approxSize, size, set_queue; cbn. intros ->. f_equal.
  rewrite length_app. cbn [length]. lia.
Qed.

Lemma count_inv_count q n : count_inv q (S n) -> count_inv (add_count 1 q) n.
Proof.
  unfold count_inv, approxSize, size, add_count; cbn. intros ->. rewrite u64_add. f_equal. lia.
Qed.

Lemma count_inv_take q n : count_inv q n -> count_inv (tryDequeue q).1 n.
Proof.
  intros H. unfold tryDequeue. destruct (queue q) as [|x l] eqn:E; [exact H|].
  destruct (cancelled q); [exact H|].
  unfold count_inv, approxSize, size in *; cbn in *. rewrite H, E. cbn [length]. unfold Z.sub at 1. rewrite u64_add. f_equal. lia.
Qed.

Lemma count_inv_cancel q n : count_inv q n -> count_inv (cancelWait q) n.
Proof. done. Qed.

Lemma count_inv_empty q :
  count_inv q 0 -> approxSize q <= 0 -> Z.of_nat (size q) < 2 ^ 64 -> queue q = [].
Proof.
  unfold count_inv. intros H Hz Hl. rewrite H, u64_small in Hz by (unfold is_u64; lia).
  apply length_zero_iff_nil. unfold size in Hz. lia.
Qed.

Hint Resolve count_inv_push count_inv_count count_inv_take count_inv_cancel : vc.

Lemma sender_step_inv s s' : wait_inv s -> sender_step s s' -> wait_inv s'.
Proof.
  intros (Hq & Hr & He) Hs.
  destruct Hs; cbn in Hq, Hr; (split; [|split]); cbn; auto with vc; cbn in He |- *.
  - by destruct run.
  - destruct (Z.ltb_spec 0 (approxSize q)) as [?|?]; cbn; [done|].
    destruct run; cbn; [|by auto]. by destruct (Z.ltb_spec 0 (approxSize q)); [lia|].
  - destruct (d && (0 <? approxSize r)) eqn:E; cbn; [done|].
    unfold wait_predicate, to_notify; cbn. rewrite E, orb_false_r. intros H%He. cbn in H. lia.
Qed.

(** The conditions change only together with a thread that is to notify. *)
Lemma producer_begin_inv s s' : wait_inv s -> producer_begin s s' -> wait_inv s'.
Proof.
  intros (Hq & Hr & He) Hs.
  destruct Hs; cbn in Hq, Hr; (split; [|split]); cbn; auto with vc;
    destruct pc; cbn in *; unfold before_lock, to_notify, wait_predicate in *; cbn in *; auto; lia.
Qed.

Lemma producer_step_inv s s' : wait_inv s -> producer_step s s' -> wait_inv s'.
Proof.
  intros (Hq & Hr & He) Hs.
  destruct Hs; cbn in Hq, Hr; (split; [|split]); cbn; auto with vc;
    destruct pc; cbn in *; unfold before_lock, to_notify, wait_predicate in *; cbn in *;
    try done; intros Hp; try lia; specialize (He Hp); lia.
Qed.

Lemma wait_inv_reachable s : reachable wait_init wait_step s -> wait_inv s.
Proof.
  apply invariant_reachable.
  - intros ? (q & r & Hq & Hr & ->). unfold wait_inv, count_inv, approxSize, size; cbn.
    rewrite !Z.sub_0_r. auto.
  - intros ? ? H [Hs|[Hs|Hs]];
      eauto using sender_step_inv, producer_begin_inv, producer_step_inv.
Qed.

(** ** No wake-up is lost *)

(** One of the threads that are to notify can go on to do it by itself, and
    changes nothing the predicate reads. *)
Lemma notifier_wakes s d :
  sender s = SWait d -> (0 < to_notify s)%nat ->
  exists s', rtc producer_step s s' /\ sender s' = SWoken d
             /\ running s' = running s /\ sendQueue s' = sendQueue s /\ resendQueue s' = resendQueue s.
Proof.
  destruct s as [q r run pc pS cS pR cR st u]; unfold to_notify; cbn. intros -> Hn.
  assert (Hu : exists cS' cR' st' u',
    rtc producer_step (mkWaitState q r run (SWait d) pS cS pR cR st u)
                      (mkWaitState q r run (SWait d) pS cS' pR cR' st' (S u'))).
  { destruct u as [|u]; [|do 4 eexists; apply rtc_refl].
    destruct cS as [|cS]; [|do 4 eexists; by apply rtc_once, p_lock_send].
    destruct cR as [|cR]; [|do 4 eexists; by apply rtc_once, p_lock_resend].
    destruct st as [|st]; [lia|do 4 eexists; by apply rtc_once, p_lock_stop]. }
  destruct Hu as (cS' & cR' & st' & u' & Hu).
  eexists. split; [eapply rtc_r; [exact Hu|apply p_notify]|]. done.
Qed.

(** Once woken the thread leaves the wait if the predicate holds. *)
Lemma woken_leaves s d :
  sender s = SWoken d -> wait_predicate d s = true ->
  exists s', rtc sender_step s s' /\ sender s' = SRun.
Proof.
  destruct s as [q r run pc pS cS pR cR st u]; unfold wait_predicate; cbn. intros -> Hp.
  destruct run; cbn in Hp.
  2:{ eexists. split; [eapply rtc_l; [apply s_relock|]; apply rtc_once, s_eval_running|done]. }
  destruct (0 <? approxSize q) eqn:Eq; cbn in Hp.
  { eexists. split.
    - eapply rtc_l; [apply s_relock|]. eapply rtc_l; [apply s_eval_running|]. apply rtc_once, s_eval_send.
    - cbn. by rewrite Eq. }
  eexists. split.
  - eapply rtc_l; [apply s_relock|]. eapply rtc_l; [apply s_eval_running|].
    eapply rtc_l; [apply s_eval_send|]. rewrite Eq. apply rtc_once, s_eval_resend.
  - cbn. by rewrite Hp.
Qed.

(** C23. The idle wait of the send thread loses no wake-up, under every
    interleaving with the threads that enqueue, cancel and stop.  When it is
    blocked although the predicate holds, a thread is still to notify, its
    notification wakes the send thread, and the send thread then leaves the
    wait, nobody else moving.  When it is blocked and no enqueue or setRunning is
    in progress, the thread has not been stopped, the send queue is empty, and
    so is the resend queue if a resend connection was alive. *)
Theorem idle_wait_loses_no_wakeup (s : wait_state) (d : bool) :
  reachable wait_init wait_step s -> sender s = SWait d ->
  (wait_predicate d s = true ->
   (0 < to_notify s)%nat
   /\ exists s1 s2, rtc producer_step s s1 /\ sender s1 = SWoken d
                    /\ rtc sender_step s1 s2 /\ sender s2 = SRun)
  /\ (to_notify s = 0%nat -> pushedS s = 0%nat -> pushedR s = 0%nat ->
      Z.of_nat (size (sendQueue s)) < 2 ^ 64 -> Z.of_nat (size (resendQueue s)) < 2 ^ 64 ->
      running s = true /\ queue (sendQueue s) = [] /\ (d = true -> queue (resendQueue s) = [])).
Proof.
  intros (Hq & Hr & He)%wait_inv_reachable Hw. unfold eval_inv in He. rewrite Hw in He. split.
  - intros Hp. specialize (He Hp). split; [done|].
    destruct (notifier_wakes s d Hw He) as (s1 & H1 & Hs1 & Erun & Eq & Er).
    destruct (woken_leaves s1 d Hs1) as (s2 & H2 & Hs2);
      [unfold wait_predicate; by rewrite Erun, Eq, Er|].
    by exists s1, s2.
  - intros Hn HpS HpR Hls Hlr. rewrite HpS in Hq. rewrite HpR in Hr.
    destruct (wait_predicate d s) eqn:Ep; [specialize (He eq_refl); lia|].
    unfold wait_predicate in Ep. apply orb_false_iff in Ep as [[E1 E2]%orb_false_iff E3].
    split; [by destruct (running s)|]. split; [apply count_inv_empty; [done|lia|done]|].
    intros ->. apply count_inv_empty; [done|cbn in E3; lia|done].
Qed.
End idle_wait.

Arguments wait_state : clear implicits.

(** A message is queued while the thread is about to block. *)
Lemma idle_wait_loses_no_wakeup_witness :
  let q := (enqueue 7 newBlockingQueue).1 in
  let s := mkWaitState q newBlockingQueue true (SWait false) 0 1 0 0 0 0 in
  wait_predicate false s = true /\ (0 < to_notify s)%nat.
Proof.
  cbv zeta. set (s := mkWaitState _ _ _ _ _ _ _ _ _ _).
  assert (Hr : reachable wait_init wait_step s).
  { exists (mkWaitState newBlockingQueue newBlockingQueue true SRun 0 0 0 0 0 0).
    split; [by exists newBlockingQueue, newBlockingQueue|].
    eapply rtc_l; [left; by apply (s_idle _ _ _ _ _ _ _ _ _ false)|].
    eapply rtc_l; [left; apply s_eval_running|].
    eapply rtc_l; [left; apply s_eval_send|].
    eapply rtc_l; [right; left; apply (p_push_send _ _ _ _ _ _ _ _ _ _ 7)|].
    eapply rtc_l; [right; right; apply p_count_send|].
    apply rtc_once. left. apply s_eval_resend. }
  split; [reflexivity|].
  apply (idle_wait_loses_no_wakeup s false Hr eq_refl). reflexivity.
Defined.

(** ** Waiting for a connection

    After a packet no connection took.  [connected] is whether some data
    connection is; [replaced] and [stopped] count the threads between their
    change and their notify_one.  replaceConnection changes under
    connectionsMutex, setRunning(false) does not take it. *)

Inductive conn_pc : Type :=
| CRun
| CEvalRunning   (* holding connectionsMutex *)
| CEvalConns
| CWait
| CWoken.

Record conn_wait : Type := mkConnWait {
  cw_running : bool;
  connected : bool;
  cw_sender : conn_pc;
  replaced : nat;
  stopped : nat;
}.

Definition holds_connectionsMutex (pc : conn_pc) : bool :=
  match pc with CEvalRunning | CEvalConns => true | _ => false end.

Definition conn_notified (pc : conn_pc) : conn_pc :=
  match pc with CWait => CWoken | pc => pc end.

Inductive conn_wait_step : conn_wait -> conn_wait -> Prop :=
| w_not_sent (run c : bool) r t :
    conn_wait_step (mkConnWait run c CRun r t) (mkConnWait run c CEvalRunning r t)
| w_eval_running (run c : bool) r t :
    conn_wait_step (mkConnWait run c CEvalRunning r t)
                   (mkConnWait run c (if run then CEvalConns else CRun) r t)
| w_eval_conns (run c : bool) r t :
    conn_wait_step (mkConnWait run c CEvalConns r t)
                   (mkConnWait run c (if c then CRun else CWait) r t)
| w_timeout (run c : bool) r t :
    conn_wait_step (mkConnWait run c CWait r t) (mkConnWait run c CRun r t)
| w_spurious (run c : bool) r t :
    conn_wait_step (mkConnWait run c CWait r t) (mkConnWait run c CWoken r t)
| w_relock (run c : bool) r t :
    conn_wait_step (mkConnWait run c CWoken r t) (mkConnWait run c CEvalRunning r t)
| w_disconnect (run c : bool) pc r t :
    conn_wait_step (mkConnWait run c pc r t) (mkConnWait run false pc r t)
| w_replace (run c c' : bool) pc r t :
    holds_connectionsMutex pc = false ->
    conn_wait_step (mkConnWait run c pc r t) (mkConnWait run c' pc (S r) t)
| w_replace_notify (run c : bool) pc r t :
    conn_wait_step (mkConnWait run c pc (S r) t) (mkConnWait run c (conn_notified pc) r t)
| w_stop (run c : bool) pc r t :
    conn_wait_step (mkConnWait run c pc r t) (mkConnWait false c pc r (S t))
| w_stop_notify (run c : bool) pc r t :
    conn_wait_step (mkConnWait run c pc r (S t)) (mkConnWait run c (conn_notified pc) r t).

Definition conn_wait_init (s : conn_wait) : Prop := exists c, s = mkConnWait true c CRun 0 0.

Definition conn_wait_inv (s : conn_wait) : Prop :=
  cw_sender s = CWait -> connected s = true -> (0 < replaced s)%nat.

(** No replacement is missed: blocked with a connection to use, the thread
    that put it there is still to notify. *)
Theorem replacement_wakes (s : conn_wait) :
  reachable conn_wait_init conn_wait_step s ->
  cw_sender s = CWait -> connected s = true ->
  (0 < replaced s)%nat
  /\ exists s', conn_wait_step s s' /\ cw_sender s' = CWoken /\ connected s' = true.
Proof.
  intros Hr Hw Hc.
  assert (Hn : (0 < replaced s)%nat).
  { revert s Hr Hw Hc. apply (invariant_reachable conn_wait_init conn_wait_step conn_wait_inv).
    - intros ? [c ->]. done.
    - intros s s' H Hs. unfold conn_wait_inv in *.
      destruct Hs; cbn in *; try done; try (destruct run; done); try (destruct c; done);
        try (destruct pc; done); try lia; destruct pc; cbn in *; try done; auto. }
  split; [done|]. destruct s as [run c pc [|r] t]; cbn in *; [lia|]. subst.
  eexists. split; [apply w_replace_notify|]. done.
Qed.

(** setRunning(false) stores the flag and notifies without connectionsMutex:
    between the sender's read of the flag and its blocking both are missed,
    and only the timeout of 50 ms ends the wait. *)
Theorem stop_wakeup_lost :
  exists s, reachable conn_wait_init conn_wait_step s
    /\ cw_sender s = CWait /\ cw_running s = false /\ connected s = false
    /\ replaced s = 0%nat /\ stopped s = 0%nat.
Proof.
  exists (mkConnWait false false CWait 0 0). split; [|done].
  exists (mkConnWait true false CRun 0 0). split; [by exists false|].
  eapply rtc_l; [apply w_not_sent|].
  eapply rtc_l; [apply w_eval_running|].
  eapply rtc_l; [apply w_stop|].
  eapply rtc_l; [apply w_stop_notify|].
  apply rtc_once. apply (w_eval_conns false false).
Qed.
