(* ===== verification/Threads.v ===== *)
(** * Threads and lifetimes (src/common/StopableThread.cpp, TcpVirtualChannel::open)

    The base class of the IO, send and read threads: start, stop, join and
    destruction against the running worker.  Then who owns whom in an open
    channel: its threads hold callbacks that hold the channel. *)

From S2P Require Import Prelude.

(** ** StopableThread *)

Module StopableThread.

(** The worker: run() is a loop that tests isRunning(); a pass of its body may
    call stop() on its own thread, which waits for stopMutex. *)
Inductive worker_pc : Type :=
| WNone          (* not started *)
| WCheck         (* about to read isRunning() *)
| WBody
| WSelfStop      (* in stop(), waiting for stopMutex *)
| WReturned.

(** A stop() by another thread. *)
Inductive stop_pc : Type :=
| PIdle
| PLocked        (* holding stopMutex *)
| PJoin          (* running is false; in _thread.join(), still holding it *)
| PReturned.     (* it has returned, and no start() since *)

Record StopableThread : Type := mkThread {
  joinable : bool;
  running : bool;
  worker : worker_pc;
  stopper : stop_pc;
}.

Definition newThread : StopableThread := mkThread false true WNone PIdle.

(** Calls that do not wait.  [None]: std::terminate, by assigning to a
    joinable std::thread. *)
Definition start (t : StopableThread) : option StopableThread :=
  if joinable t then None
  else Some (mkThread true (running t) WCheck
               (match stopper t with PReturned => PIdle | p => p end)).

Definition isRunning (t : StopableThread) : bool := running t.
Definition setRunning (value : bool) (t : StopableThread) : StopableThread :=
  mkThread (joinable t) value (worker t) (stopper t).

Definition has_returned (t : StopableThread) : bool :=
  match worker t with WReturned => true | _ => false end.

(** What a call comes to: [Waits] when it joins a worker that has not returned,
    [Throws] for the system_error of a thread joining itself. *)
Inductive call_result : Type :=
| Done (t : StopableThread)
| Waits (t : StopableThread)
| Throws (t : StopableThread).

Definition unjoinable (t : StopableThread) : StopableThread :=
  mkThread false (running t) (worker t) (stopper t).

(** [self]: called by the worker. *)
Definition join (self : bool) (t : StopableThread) : call_result :=
  if self then Throws t
  else if has_returned t then Done (unjoinable t) else Waits t.

Definition stop (self : bool) (t : StopableThread) : call_result :=
  let t1 := setRunning false t in
  if joinable t1 then if negb self then join self t1 else Done t1
  else Done t1.

Definition joinThread (self : bool) (t : StopableThread) : call_result :=
  if joinable t then join self t else Done t.

Inductive thread_end : Type := NothingToDo | Detached | Joined | StillJoinable.

(** The destructor up to its second test of joinable(): what it did, and
    whether the code after the test runs. *)
Definition destructor (self : bool) (t : StopableThread) : call_result * thread_end :=
  if joinable t then
    if self then (Done (unjoinable t), Detached)
    else match join self (setRunning false t) with
         | Done t1 => (Done t1, Joined)
         | Waits t1 => (Waits t1, Joined)
         | Throws t1 => (Throws t1, StillJoinable)
         end
  else (Done t, NothingToDo).

(** The interleaving of a worker with a stop() by another thread. *)
Definition mutex_free (p : stop_pc) : bool :=
  match p with PLocked | PJoin => false | _ => true end.

Inductive thread_step : StopableThread -> StopableThread -> Prop :=
| t_start t t' : start t = Some t' -> thread_step t t'
| t_setRunning t : thread_step t (setRunning false t)
| t_check j (r : bool) p :
    thread_step (mkThread j r WCheck p) (mkThread j r (if r then WBody else WReturned) p)
| t_body j r p : thread_step (mkThread j r WBody p) (mkThread j r WCheck p)
| t_break j r p : thread_step (mkThread j r WBody p) (mkThread j r WReturned p)
| t_self_call j r p : thread_step (mkThread j r WBody p) (mkThread j r WSelfStop p)
| t_self_stop j r p :
    mutex_free p = true -> thread_step (mkThread j r WSelfStop p) (mkThread j false WBody p)
| t_stop_lock j r w p :
    mutex_free p = true -> thread_step (mkThread j r w p) (mkThread j r w PLocked)
| t_stop_clear (j : bool) r w :
    thread_step (mkThread j r w PLocked) (mkThread j false w (if j then PJoin else PReturned))
| t_stop_join j r :
    thread_step (mkThread j r WReturned PJoin) (mkThread false r WReturned PReturned).

Definition thread_init (t : StopableThread) : Prop := t = newThread.

Definition executing (w : worker_pc) : bool :=
  match w with WCheck | WBody | WSelfStop => true | _ => false end.

(** A worker that executes has its handle in the object; a stop() that has
    cleared the flag finds it clear for good. *)
Definition thread_inv (t : StopableThread) : Prop :=
  (executing (worker t) = true -> joinable t = true)
  /\ (stopper t = PReturned -> joinable t = false /\ running t = false)
  /\ (stopper t = PJoin -> running t = false /\ joinable t = true).

Lemma thread_inv_step t t' : thread_inv t -> thread_step t t' -> thread_inv t'.
Proof.
  intros (H1 & H2 & H3) Hs.
  destruct Hs as [t t' Hst|t|j r p|j r p|j r p|j r p|j r p Hm|j r w p Hm|j r w|j r]; unfold thread_inv in *; cbn in *.
  - unfold start in Hst. destruct (joinable t) eqn:Ej; [done|]. injection Hst as <-. cbn.
    split; [done|]. destruct (stopper t); split; try done. intros _. by destruct (H3 eq_refl).
  - split; [done|]. split; intros Hp; [by destruct (H2 Hp)|by destruct (H3 Hp)].
  - destruct r; tauto.
  - tauto.
  - split; [done|]. tauto.
  - tauto.
  - destruct p; naive_solver.
  - split; [done|]. by split.
  - destruct j; naive_solver.
  - naive_solver.
Qed.

Lemma thread_inv_reachable t : reachable thread_init thread_step t -> thread_inv t.
Proof.
  apply invariant_reachable; [|apply thread_inv_step]. intros ? ->. by repeat split.
Qed.

(** The worker's own steps. *)
Lemma worker_returns j p w :
  w = WCheck \/ w = WBody ->
  rtc thread_step (mkThread j false w p) (mkThread j false WReturned p).
Proof. intros [-> | ->]; apply rtc_once; [apply (t_check j false)|apply t_break]. Qed.

(** C30. stop() is final and does not hang.  In every interleaving: once a
    stop() of another thread has returned, and until the next start(), run() is
    not executing, the flag is clear and the destructor has nothing left to do;
    and a stop() that waits in join() gets there, unless the worker itself is
    waiting in stop(). *)
Theorem stop_is_final (t : StopableThread) :
  reachable thread_init thread_step t ->
  (stopper t = PReturned ->
   executing (worker t) = false /\ isRunning t = false
   /\ forall self, destructor self t = (Done t, NothingToDo) /\ joinThread self t = Done t)
  /\ (stopper t = PJoin -> executing (worker t) = true -> worker t <> WSelfStop ->
      exists t', rtc thread_step t t' /\ stopper t' = PReturned).
Proof.
  intros (H1 & H2 & H3)%thread_inv_reachable. split.
  - intros Hp. destruct (H2 Hp) as [Hj Hr]. unfold isRunning, destructor, joinThread.
    rewrite Hj. split; [|done]. destruct (executing (worker t)); [|done]. by rewrite H1 in Hj.
  - intros Hp Hw Hn. destruct (H3 Hp) as [Hr Hj]. destruct t as [j r w p]; cbn in *; subst.
    assert (Hd : w = WCheck \/ w = WBody) by (destruct w; naive_solver).
    exists (mkThread false false WReturned PReturned). split; [|reflexivity].
    eapply rtc_r; [by apply worker_returns|apply t_stop_join].
Qed.

(** stop() from the worker while another thread is in stop(): the lock is
    taken before the test that is to prevent the deadlock, and nobody moves
    again but to clear a clear flag. *)
Theorem concurrent_self_stop_deadlocks :
  exists t, reachable thread_init thread_step t /\ worker t = WSelfStop /\ stopper t = PJoin
            /\ forall t', thread_step t t' -> t' = t.
Proof.
  exists (mkThread true false WSelfStop PJoin). split.
  - exists newThread. split; [done|].
    eapply rtc_l; [by eapply t_start|].
    eapply rtc_l; [apply (t_check true true)|].
    eapply rtc_l; [apply t_self_call|].
    eapply rtc_l; [by apply t_stop_lock|].
    apply rtc_once, (t_stop_clear true).
  - repeat split. intros t' Hs. inversion Hs; subst; try done.
Qed.

(** The error path of the destructor is dead code: after the first test the
    thread is not joinable, whoever destroys it. *)
Theorem destructor_settles_thread (self : bool) (t : StopableThread) :
  match destructor self t with
  | (Done t', e) => joinable t' = false /\ (e = Detached <-> joinable t = true /\ self = true)
  | (Waits t', _) => self = false /\ has_returned t = false /\ running t' = false
  | (Throws _, _) => False
  end.
Proof.
  unfold destructor. destruct (joinable t) eqn:Ej, self; cbn; [done| |naive_solver|naive_solver].
  unfold join. cbn. unfold has_returned. cbn. destruct (worker t); cbn; naive_solver.
Qed.

(** start() does not set the flag: a thread started again after stop()
    returns at its first test. *)
Theorem restart_returns_at_once (t t' : StopableThread) :
  stop false t = Done t' -> exists t2, start t' = Some t2 /\ isRunning t2 = false /\ worker t2 = WCheck.
Proof.
  unfold stop, join. cbn. destruct (joinable t) eqn:Ej; cbn.
  - destruct (has_returned _); [|done]. intros [= <-]. by eexists.
  - intros [= <-]. unfold start. cbn. rewrite Ej. by eexists.
Qed.

(** A thread that a stop() from outside has joined. *)
Lemma stop_is_final_witness :
  executing WReturned = false
  /\ destructor false (mkThread false false WReturned PReturned)
     = (Done (mkThread false false WReturned PReturned), NothingToDo).
Proof.
  assert (Hr : reachable thread_init thread_step (mkThread false false WReturned PReturned)).
  { exists newThread. split; [done|].
    eapply rtc_l; [by eapply t_start|].
    eapply rtc_l; [by apply t_stop_lock|].
    eapply rtc_l; [apply (t_stop_clear true)|].
    eapply rtc_l; [apply (t_check true false)|].
    apply rtc_once, t_stop_join. }
  destruct (proj1 (stop_is_final _ Hr) eq_refl) as (H1 & _ & H3).
  split; [exact H1|apply (H3 false)].
Defined.

Lemma restart_returns_at_once_witness :
  exists t2, start (mkThread false false WReturned PIdle) = Some t2
             /\ isRunning t2 = false /\ worker t2 = WCheck.
Proof.
  apply (restart_returns_at_once (mkThread true true WReturned PIdle)). reflexivity.
Defined.
End StopableThread.

(** ** Who keeps an open channel alive

    open() captures shared_from_this() in the callbacks it gives to its IO
    thread and its send thread, which the channel owns.  An edge is a shared
    pointer; an object nobody points to is destroyed and its pointers go with
    it. *)

Module Lifetime.

Inductive object : Type := Outside | Channel | IoThread | SendThread.

#[export] Instance object_eq_dec : EqDecision object.
Proof. solve_decision. Defined.

Definition held (o : object) (refs : list (object * object)) : bool :=
  existsb (fun e => bool_decide (e.2 = o)) refs.

Definition release (o : object) (refs : list (object * object)) : list (object * object) :=
  if held o refs then refs else filter (fun e => e.1 <> o) refs.

(** Objects are released in the order their pointers go. *)
Definition collect (refs : list (object * object)) : list (object * object) :=
  release Channel (release IoThread (release SendThread (release Channel refs))).

Record lifetime : Type := mkLifetime {
  opened : bool;
  reorderRunning : bool;   (* the reorder thread runs; close() joins it *)
  refs : list (object * object);
}.

(** After open(): the registry, the UDP thread or the client holds the
    channel. *)
Definition after_open : lifetime :=
  mkLifetime true true
    [(Outside, Channel); (Channel, IoThread); (IoThread, Channel); (Channel, SendThread); (SendThread, Channel)].

Inductive lifetime_op : Type :=
| AllDead       (* disconnectCB finds no connection alive *)
| Close         (* close(), by a holder outside *)
| Forget.       (* the holders outside drop their pointers *)

Definition lifetime_step (op : lifetime_op) (l : lifetime) : lifetime :=
  match op with
  | AllDead => mkLifetime false (reorderRunning l) (refs l)
  | Close =>
      if bool_decide ((Outside, Channel) ∈ refs l) then
        mkLifetime false false
          (if opened l
           then collect (filter (fun e => e <> (Channel, SendThread) /\ e <> (Channel, IoThread)) (refs l))
           else refs l)
      else l
  | Forget => mkLifetime (opened l) (reorderRunning l) (collect (filter (fun e => e.1 <> Outside) (refs l)))
  end.

Definition lifetime_run (ops : list lifetime_op) : lifetime :=
  fold_left (fun l op => lifetime_step op l) ops after_open.

Definition destroyed (l : lifetime) : bool := negb (held Channel (refs l)).

(** The states after open(), up to the flags. *)
Definition cycle : list (object * object) :=
  [(Channel, IoThread); (IoThread, Channel); (Channel, SendThread); (SendThread, Channel)].

Lemma cycle_stays op l :
  (refs l = cycle \/ refs l = (Outside, Channel) :: cycle /\ opened l = false) ->
  let l' := lifetime_step op l in
  refs l' = cycle \/ refs l' = (Outside, Channel) :: cycle /\ opened l' = false.
Proof.
  destruct l as [o r e]; cbn. intros [-> | [-> ->]]; destruct op; cbn; auto.
Qed.

Lemma cycle_run ops l :
  (refs l = cycle \/ refs l = (Outside, Channel) :: cycle /\ opened l = false) ->
  held Channel (refs (fold_left (fun l op => lifetime_step op l) ops l)) = true.
Proof.
  revert l. induction ops as [|op ops IH]; intros l H; cbn.
  - by destruct H as [-> | [-> _]].
  - apply IH, cycle_stays, H.
Qed.

Lemma closed_run ops l :
  refs l = [(Outside, Channel)] /\ opened l = false \/ refs l = [] ->
  destroyed (fold_left (fun l op => lifetime_step op l) ops l) = true
  <-> refs l = [] \/ In Forget ops.
Proof.
  revert l. induction ops as [|op ops IH]; intros l H; cbn.
  - destruct H as [[E _] | E]; unfold destroyed; rewrite E; cbn; naive_solver.
  - destruct l as [o r e]; destruct H as [[E Ho] | E]; cbn in *; subst;
      (destruct op; cbn; (rewrite IH; [|cbn; auto]); cbn; naive_solver).
Qed.

(** C31. A channel is destroyed only if it was closed while open.  When its
    connections die first, the teardown of disconnectCB clears opened without
    resetting the threads, whose callbacks then keep the channel: no later
    close() and no dropping of pointers frees it, and unless close() is called
    its reorder thread keeps running. *)
Theorem channel_destroyed_iff (ops : list lifetime_op) :
  (destroyed (lifetime_run ops) = true <-> exists rest, ops = Close :: rest /\ In Forget rest)
  /\ (~ In Close ops -> reorderRunning (lifetime_run ops) = true).
Proof.
  split.
  - destruct ops as [|[] ops]; [cbn; naive_solver| | |];
      unfold lifetime_run; cbn [fold_left].
    + unfold destroyed. rewrite cycle_run by (right; done). naive_solver.
    + rewrite closed_run by (left; done). cbn. naive_solver.
    + unfold destroyed. rewrite cycle_run by (left; reflexivity). naive_solver.
  - unfold lifetime_run. assert (H : reorderRunning after_open = true) by done. revert H.
    generalize after_open. induction ops as [|op ops IH]; intros l H Hn; [done|].
    cbn. apply IH; [|naive_solver]. destruct op; cbn in *; [done|naive_solver|done].
Qed.
End Lifetime.
