(* ===== verification/Channel.v ===== *)
(** * The virtual channel (src/common/TcpVirtualChannel.h, TcpVirtualChannel.cpp)

    The channel object around the threads: construction, open, send, close, the
    disconnect callback, the answers to resend requests and missing
    notifications with the default callbacks, getDeadSlots and
    replaceConnection.  The reorder thread is in Reorder.v, the IO and send
    threads in IoThread.v and SendThread.v; here they are their running flags
    and the events that reach them. *)

From S2P Require Import Prelude Bytes VcProtocol Socket TcpConnection IoThread BlockingQueue SentCache.

Record Channel : Type := mkChannel {
  connections : list (option nat);
  heap : conn_heap;
  opened : bool;
  lastSendMessageId : Z;
  sendQueue : BlockingQueue (list byte);
  resendQueue : BlockingQueue (list byte);
  sentDataCache : Cache.SentDataCache (D := list byte);
  messageTracker : option (list (gmap Z Z));   (* [None] before open() *)
  connSendStats : list ConnSendStats;
  socketStatuses : list SocketStatus.SocketStatus;
  pendingResendIds : gmap Z Z;
  disconnectCallback : bool;     (* whether it is set *)
  ioRunning : option bool;       (* [None] when the thread object is gone *)
  sendRunning : option bool;
  reorderRunning : bool;
}.

Definition pendingResendTtl : Z := ms 2000.

(** Functional updates of the groups of members the operations change. *)
Definition set_run (c : Channel) (o : bool) (sq rq : BlockingQueue (list byte)) (io se : option bool)
  (re : bool) : Channel :=
  mkChannel (connections c) (heap c) o (lastSendMessageId c) sq rq (sentDataCache c) (messageTracker c)
    (connSendStats c) (socketStatuses c) (pendingResendIds c) (disconnectCallback c) io se re.

Definition set_heap (h : conn_heap) (c : Channel) : Channel :=
  mkChannel (connections c) h (opened c) (lastSendMessageId c) (sendQueue c) (resendQueue c)
    (sentDataCache c) (messageTracker c) (connSendStats c) (socketStatuses c) (pendingResendIds c)
    (disconnectCallback c) (ioRunning c) (sendRunning c) (reorderRunning c).

Definition set_sent (id : Z) (sq : BlockingQueue (list byte)) (cache : Cache.SentDataCache) (c : Channel)
  : Channel :=
  mkChannel (connections c) (heap c) (opened c) id sq (resendQueue c) cache (messageTracker c)
    (connSendStats c) (socketStatuses c) (pendingResendIds c) (disconnectCallback c) (ioRunning c)
    (sendRunning c) (reorderRunning c).

Definition set_resend (rq : BlockingQueue (list byte)) (sts : list SocketStatus.SocketStatus)
  (pending : gmap Z Z) (c : Channel) : Channel :=
  mkChannel (connections c) (heap c) (opened c) (lastSendMessageId c) (sendQueue c) rq
    (sentDataCache c) (messageTracker c) (connSendStats c) sts pending (disconnectCallback c)
    (ioRunning c) (sendRunning c) (reorderRunning c).

(** The constructor: one connection object per descriptor, at the addresses
    from [base] on. *)
Definition newChannel (base : nat) (fds : list SocketFd) (h : conn_heap) (callback : bool) : Channel :=
  {| connections := (fun i => Some (base + i)%nat) <$> seq 0 (length fds);
     heap := list_to_map (zip ((fun i => (base + i)%nat) <$> seq 0 (length fds))
                              ((fun fd => (newTcpConnection fd).1) <$> fds)) ∪ h;
     opened := false; lastSendMessageId := 0;
     sendQueue := newBlockingQueue; resendQueue := newBlockingQueue;
     sentDataCache := Cache.mkSentDataCache [] 128; messageTracker := None;
     connSendStats := []; socketStatuses := []; pendingResendIds := ∅;
     disconnectCallback := callback; ioRunning := None; sendRunning := None; reorderRunning := false |}.

(** open(): fresh statistics, cache, tracker and statuses for the connections,
    the three threads started, then the flag. *)
Definition open (c : Channel) : Channel :=
  let n := length (connections c) in
  {| connections := connections c; heap := heap c; opened := true;
     lastSendMessageId := lastSendMessageId c; sendQueue := sendQueue c; resendQueue := resendQueue c;
     sentDataCache := Cache.newSentDataCache n 128;
     messageTracker := Some (MessageTracker.newMessageTracker n);
     connSendStats := replicate n newConnSendStats;
     socketStatuses := (fun i => SocketStatus.newSocketStatus (Z.of_nat i)) <$> seq 0 n;
     pendingResendIds := pendingResendIds c; disconnectCallback := disconnectCallback c;
     ioRunning := Some true; sendRunning := Some true; reorderRunning := true |}.

Definition isOpen (c : Channel) : bool := opened c.

(** ** send *)

Inductive send_outcome : Type :=
| SendClosed
| SendEmpty
| SendTooBig
| SendBackpressure
| SendQueued (messageId : Z).

(** [data] is [None] for nullptr; the result is [None] only for the division by
    zero of a cache without shards. *)
Definition send (data : option (list byte)) (c : Channel) : option (Channel * send_outcome) :=
  if negb (opened c) then Some (c, SendClosed)
  else match data with
  | None | Some [] => Some (c, SendEmpty)
  | Some payload =>
      if (VC_MAX_DATA_PAYLOAD_SIZE <? length payload)%nat then Some (c, SendTooBig)
      else if SEND_QUEUE_DROP_THRESHOLD <? approxSize (sendQueue c) then Some (c, SendBackpressure)
      else
        let messageId := lastSendMessageId c in
        let dataVec := encode_data messageId payload in
        match Cache.insert messageId dataVec (sentDataCache c) with
        | None => None
        | Some cache =>
            Some (set_sent (u64 (messageId + 1)) (enqueue dataVec (sendQueue c)).1 cache c,
                  SendQueued messageId)
        end
  end.

(** ** Closing *)

Definition slot_alive (c : Channel) (slot : option nat) : bool :=
  match slot ≫= (heap c !!.) with Some t => TcpConnection.connected t | None => false end.

Definition aliveCount (c : Channel) : nat := length (filter (fun s => slot_alive c s = true) (connections c)).

(** [if (conn && conn->isConnected()) conn->disconnect();] over the vector *)
Fixpoint disconnect_all (slots : list (option nat)) (h : conn_heap) : conn_heap :=
  match slots with
  | [] => h
  | Some a :: slots => disconnect_all slots (alter (fun t => (disconnect t).1) a h)
  | None :: slots => disconnect_all slots h
  end.

(** disconnectCB, called by the IO and send threads after a connection died;
    the flag is whether disconnectCallback() is invoked. *)
Definition disconnectCB (c : Channel) : Channel * bool :=
  if negb (opened c) then (c, false)
  else if (0 <? aliveCount c)%nat then (c, false)
  else
    (set_heap (disconnect_all (connections c) (heap c))
       (set_run c false (cancelWait (sendQueue c)) (cancelWait (resendQueue c))
          ((fun _ => false) <$> ioRunning c) ((fun _ => false) <$> sendRunning c) (reorderRunning c)),
     disconnectCallback c).

(** close(): it never invokes disconnectCallback. *)
Definition close (c : Channel) : Channel :=
  let c1 :=
    if opened c then
      set_heap (disconnect_all (connections c) (heap c))
        (set_run c false (cancelWait (sendQueue c)) (cancelWait (resendQueue c)) None None (reorderRunning c))
    else c in
  mkChannel (connections c1) (heap c1) (opened c1) (lastSendMessageId c1) (sendQueue c1) (resendQueue c1)
    (Cache.clear (sentDataCache c1)) (MessageTracker.clear <$> messageTracker c1) (connSendStats c1)
    (socketStatuses c1) (pendingResendIds c1) (disconnectCallback c1) (ioRunning c1) (sendRunning c1) false.

(** ** Answers to the peer *)

(** The default resendCallback. *)
Definition default_resend (messageId : Z) (payload : list byte) (c : Channel) : Channel :=
  if negb (opened c) then c
  else set_resend (enqueue (encode_data messageId payload) (resendQueue c)).1 (socketStatuses c)
         (pendingResendIds c) c.

(** The default missingNotifyCallback. *)
Definition default_missing_notify (missingIds : list Z) (c : Channel) : Channel :=
  if negb (opened c) then c
  else set_sent (lastSendMessageId c) (enqueue (encode_missing_notify missingIds) (sendQueue c)).1
         (sentDataCache c) c.

(** Mark the connection that carried [messageId]; [None] when the tracker has
    no shards. *)
Definition mark_carrier (nowMs messageId : Z) (c : Channel) : option Channel :=
  match messageTracker c with
  | None => Some c
  | Some tr =>
      match MessageTracker.getConnectionIndex messageId tr with
      | None => None
      | Some i =>
          Some (if (0 <=? i) && (i <? Z.of_nat (length (socketStatuses c)))
                then set_resend (resendQueue c)
                       (alter (SocketStatus.markDegraded nowMs) (Z.to_nat i) (socketStatuses c))
                       (pendingResendIds c) c
                else c)
      end
  end.

(** [packet->data] and [packet->dataLength] of a cached packet. *)
Definition cached_payload (dataVec : list byte) : option (list byte) :=
  match read_le sizeof_VCHeader 2 dataVec with
  | Some n => sub_bytes sizeof_VCDataPacket (Z.to_nat n) dataVec
  | None => None
  end.

Definition processResendRequest (nowMs messageId : Z) (c : Channel) : option Channel :=
  match mark_carrier nowMs messageId c with
  | None => None
  | Some c1 =>
      match Cache.find messageId (sentDataCache c1) with
      | None => None
      | Some None => Some c1
      | Some (Some dataVec) =>
          match cached_payload dataVec with
          | None => None
          | Some payload => Some (default_resend messageId payload c1)
          end
      end
  end.

(** The loop over the ids of a missing notification. *)
Fixpoint missing_loop (now nowMs : Z) (ids : list Z) (c : Channel) : option Channel :=
  match ids with
  | [] => Some c
  | id :: ids =>
      match mark_carrier nowMs id c with
      | None => None
      | Some c1 =>
          match pendingResendIds c1 !! id with
          | Some _ => missing_loop now nowMs ids c1
          | None =>
              match Cache.find id (sentDataCache c1) with
              | None => None
              | Some None => missing_loop now nowMs ids c1
              | Some (Some dataVec) =>
                  match cached_payload dataVec with
                  | None => None
                  | Some payload =>
                      let c2 := default_resend id payload c1 in
                      missing_loop now nowMs ids
                        (set_resend (resendQueue c2) (socketStatuses c2) (<[id := now]> (pendingResendIds c2)) c2)
                  end
              end
          end
      end
  end.

Definition processMissingNotify (now nowMs : Z) (missingIds : list Z) (c : Channel) : option Channel :=
  let kept := filter (fun kv => (kv.1 ∈ missingIds) /\ (now - kv.2 < pendingResendTtl)) (pendingResendIds c) in
  missing_loop now nowMs missingIds (set_resend (resendQueue c) (socketStatuses c) kept c).

(** ** Slots *)

Definition getDeadSlots (c : Channel) : list Z :=
  omap (fun i => if slot_alive c (mjoin (connections c !! i)) then None else Some (Z.of_nat i))
       (seq 0 (length (connections c))).

(** replaceConnection with the new object at the fresh address [a]; the flag is
    whether the two threads are told (see IoThread.v and SendThread.v). *)
Definition replaceConnection (slotIndex : Z) (newFd : SocketFd) (a : nat) (c : Channel) : Channel * bool :=
  if (slotIndex <? 0) || (Z.of_nat (length (connections c)) <=? slotIndex) then (c, false)
  else
    let i := Z.to_nat slotIndex in
    (mkChannel (<[i := Some a]> (connections c)) (<[a := (newTcpConnection newFd).1]> (heap c)) (opened c)
       (lastSendMessageId c) (sendQueue c) (resendQueue c) (sentDataCache c) (messageTracker c)
       (<[i := newConnSendStats]> (connSendStats c))
       (<[i := SocketStatus.newSocketStatus (-1)]> (socketStatuses c))
       (pendingResendIds c) (disconnectCallback c) (ioRunning c) (sendRunning c) (reorderRunning c),
     true).

(** ** Sending *)

(** What an open channel guarantees about the members send() uses. *)
Record sendable (c : Channel) : Prop := {
  sd_open : opened c = true;
  sd_shards : (0 < length (Cache.shards (sentDataCache c)))%nat;
  sd_count : bq_wf (sendQueue c);
  sd_id : is_u64 (lastSendMessageId c);
}.

Lemma sendable_open c :
  (0 < length (connections c))%nat -> bq_wf (sendQueue c) -> is_u64 (lastSendMessageId c) -> sendable (open c).
Proof. intros Hn Hq Hi. constructor; cbn; try done. by rewrite length_replicate. Qed.

Lemma cache_insert_total id d (k : Cache.SentDataCache (D := list byte)) :
  (0 < length (Cache.shards k))%nat ->
  exists k', Cache.insert id d k = Some k' /\ length (Cache.shards k') = length (Cache.shards k).
Proof.
  intros Hl. unfold Cache.insert. rewrite shard_index_Some by done.
  eexists. split; [done|]. cbn. apply length_alter.
Qed.

Lemma send_accepts payload c :
  sendable c -> payload <> [] -> (length payload <= VC_MAX_DATA_PAYLOAD_SIZE)%nat ->
  (length (queue (sendQueue c)) <= 1000)%nat ->
  exists c', send (Some payload) c = Some (c', SendQueued (lastSendMessageId c))
    /\ sendable c' /\ lastSendMessageId c' = u64 (lastSendMessageId c + 1)
    /\ queue (sendQueue c') = queue (sendQueue c) ++ [encode_data (lastSendMessageId c) payload].
Proof.
  intros [Ho Hs Hq Hi] Hne Hl Hlen. unfold send. rewrite Ho. cbn [negb].
  destruct payload as [|x payload]; [done|].
  destruct (Nat.ltb_spec VC_MAX_DATA_PAYLOAD_SIZE (length (x :: payload))); [lia|].
  unfold approxSize. rewrite Hq, u64_small by (unfold is_u64; lia).
  destruct (Z.ltb_spec SEND_QUEUE_DROP_THRESHOLD (Z.of_nat (length (queue (sendQueue c)))));
    [unfold SEND_QUEUE_DROP_THRESHOLD in *; lia|].
  destruct (cache_insert_total (lastSendMessageId c) (encode_data (lastSendMessageId c) (x :: payload)) _ Hs)
    as (k & -> & Hk).
  eexists. split; [done|]. split; [|done]. constructor; cbn [set_sent opened sentDataCache sendQueue lastSendMessageId].
  - done.
  - by rewrite Hk.
  - by apply bq_wf_enqueue.
  - apply u64_range.
Qed.

Fixpoint send_all (payloads : list (list byte)) (c : Channel) : option (Channel * list send_outcome) :=
  match payloads with
  | [] => Some (c, [])
  | p :: ps =>
      match send (Some p) c with
      | None => None
      | Some (c1, o) =>
          match send_all ps c1 with
          | None => None
          | Some (c2, os) => Some (c2, o :: os)
          end
      end
  end.

(** The packets of consecutive messages from [id] on. *)
Fixpoint data_packets (id : Z) (payloads : list (list byte)) : list (list byte) :=
  match payloads with
  | [] => []
  | p :: ps => encode_data id p :: data_packets (id + 1) ps
  end.

(** Sending on an open channel: as long as the queue is below the drop
    threshold every payload of 1 to 2000 bytes is accepted and gets the next
    message id, without gaps, and the queue receives the encoded packets in
    that order. *)
Theorem send_assigns_consecutive_ids (payloads : list (list byte)) (c : Channel) :
  sendable c ->
  Forall (fun p => p <> [] /\ (length p <= VC_MAX_DATA_PAYLOAD_SIZE)%nat) payloads ->
  (length (queue (sendQueue c)) + length payloads <= 1001)%nat ->
  lastSendMessageId c + Z.of_nat (length payloads) < 2 ^ 64 ->
  exists c', send_all payloads c = Some (c', SendQueued <$> seqZ (lastSendMessageId c) (Z.of_nat (length payloads)))
    /\ sendable c' /\ lastSendMessageId c' = lastSendMessageId c + Z.of_nat (length payloads)
    /\ queue (sendQueue c') = queue (sendQueue c) ++ data_packets (lastSendMessageId c) payloads.
Proof.
  intros Hs Hp. revert c Hs. induction Hp as [|p ps [Hne Hl] Hps IH]; intros c Hs Hlen Hid.
  - exists c. cbn. rewrite app_nil_r. split_and!; [done | done | lia | done].
  - cbn [length send_all data_packets] in *.
    destruct (send_accepts p c Hs Hne Hl ltac:(lia)) as (c1 & -> & Hs1 & Hi1 & Hq1).
    assert (E1 : lastSendMessageId c1 = lastSendMessageId c + 1).
    { rewrite Hi1. apply u64_small. pose proof (sd_id _ Hs) as Hi. unfold is_u64 in *. lia. }
    destruct (IH c1 Hs1) as (c2 & -> & Hs2 & Hi2 & Hq2).
    { rewrite Hq1, length_app. cbn. lia. }
    { rewrite E1. lia. }
    exists c2. rewrite E1 in *. split_and!; [|done|lia|].
    + do 2 f_equal. rewrite (seqZ_cons (lastSendMessageId c)) by lia. rewrite fmap_cons. f_equal.
      do 2 f_equal; lia.
    + by rewrite Hq2, Hq1, <- app_assoc.
Qed.

(** ** Resending *)

Lemma cached_payload_encode id payload :
  (length payload <= VC_MAX_DATA_PAYLOAD_SIZE)%nat -> cached_payload (encode_data id payload) = Some payload.
Proof.
  intros Hl. unfold cached_payload. rewrite <- (app_nil_r (encode_data id payload)).
  rewrite read_data_length by done. rewrite Nat2Z.id. apply sub_data_payload.
Qed.

(** The cache holds packets under their own ids. *)
Definition cache_packets (c : Channel) : Prop :=
  (0 < length (Cache.shards (sentDataCache c)))%nat
  /\ forall id dv, Cache.find id (sentDataCache c) = Some (Some dv) ->
       exists p, dv = encode_data id p /\ (length p <= VC_MAX_DATA_PAYLOAD_SIZE)%nat.

Definition tracker_ok (c : Channel) : Prop :=
  match messageTracker c with Some tr => (0 < length tr)%nat | None => True end.

Definition cached (c : Channel) (id : Z) : Prop :=
  exists dv, Cache.find id (sentDataCache c) = Some (Some dv).

#[export] Instance cached_dec c id : Decision (cached c id).
Proof.
  destruct (Cache.find id (sentDataCache c)) as [[dv|]|] eqn:E; [left; by exists dv | right | right];
    intros [dv Hdv]; congruence.
Defined.

Lemma find_total id c : cache_packets c -> is_Some (Cache.find id (sentDataCache c)).
Proof. intros [Hl _]. unfold Cache.find. rewrite shard_index_Some by done. by eexists. Qed.

(** Everything but the statuses stays. *)
Definition same_but_status (c c' : Channel) : Prop :=
  exists sts, c' = set_resend (resendQueue c) sts (pendingResendIds c) c.

Lemma mark_carrier_ok nowMs id c :
  tracker_ok c -> exists c', mark_carrier nowMs id c = Some c' /\ same_but_status c c'.
Proof.
  intros Ht. unfold mark_carrier, tracker_ok in *.
  assert (Hself : same_but_status c c) by (exists (socketStatuses c); by destruct c).
  destruct (messageTracker c) as [tr|]; [|by exists c].
  unfold MessageTracker.getConnectionIndex. rewrite shard_index_Some by done.
  eexists. split; [done|]. case_match; [by eexists | done].
Qed.

(** The packet the cache holds for [id]. *)
Definition cached_packet (c : Channel) (id : Z) : list byte :=
  match Cache.find id (sentDataCache c) with Some (Some dv) => dv | _ => [] end.

(** A resend request answered from the cache puts exactly the bytes first
    sent, with the same message id, on the resend queue; a request for a message
    that is not cached changes nothing there. *)
Theorem resend_reproduces_packet (nowMs id : Z) (c : Channel) :
  opened c = true -> tracker_ok c -> cache_packets c ->
  exists c', processResendRequest nowMs id c = Some c'
    /\ queue (resendQueue c') = queue (resendQueue c) ++ (if decide (cached c id) then [cached_packet c id] else []).
Proof.
  intros Ho Ht Hc. unfold processResendRequest.
  destruct (mark_carrier_ok nowMs id c Ht) as (c1 & -> & sts & ->). cbn [sentDataCache set_resend].
  destruct (find_total id c Hc) as [[dv|] Hf]; unfold cached_packet; rewrite Hf.
  - destruct (proj2 Hc id dv Hf) as (p & -> & Hp). rewrite cached_payload_encode by done.
    eexists. split; [done|]. unfold default_resend. cbn [opened set_resend]. rewrite Ho. cbn.
    rewrite decide_True; [done | by exists (encode_data id p)].
  - eexists. split; [done|]. cbn. rewrite decide_False; [by rewrite app_nil_r|].
    intros [dv Hdv]. congruence.
Qed.

(** The result of the loop, given what was pending before. *)
Lemma missing_loop_spec now nowMs ids c :
  opened c = true -> tracker_ok c -> cache_packets c ->
  exists c' rs, missing_loop now nowMs ids c = Some c'
    /\ queue (resendQueue c') = queue (resendQueue c) ++ (cached_packet c <$> rs)
    /\ NoDup rs
    /\ Forall (fun id => id ∈ ids /\ cached c id /\ pendingResendIds c !! id = None) rs
    /\ (forall id, id ∈ ids -> cached c id -> pendingResendIds c !! id = None -> id ∈ rs).
Proof.
  intros Ho Ht Hc. revert c Ho Ht Hc. induction ids as [|id ids IH]; intros c Ho Ht Hc; cbn [missing_loop].
  - exists c, []. split_and!; [done | by rewrite app_nil_r | constructor | constructor |].
    intros id Hid. by apply not_elem_of_nil in Hid.
  - destruct (mark_carrier_ok nowMs id c Ht) as (c1 & -> & sts & ->). cbn [pendingResendIds set_resend].
    set (c1 := set_resend (resendQueue c) sts (pendingResendIds c) c).
    assert (Hskip : (is_Some (pendingResendIds c !! id) \/ ~ cached c id) ->
      exists c' rs, missing_loop now nowMs ids c1 = Some c'
        /\ queue (resendQueue c') = queue (resendQueue c) ++ (cached_packet c <$> rs) /\ NoDup rs
        /\ Forall (fun i => i ∈ id :: ids /\ cached c i /\ pendingResendIds c !! i = None) rs
        /\ (forall i, i ∈ id :: ids -> cached c i -> pendingResendIds c !! i = None -> i ∈ rs)).
    { intros Hs. destruct (IH c1 Ho Ht Hc) as (c' & rs & -> & Hq & Hnd & Hf & Hall).
      exists c', rs. split_and!; try done.
      - eapply Forall_impl; [exact Hf|]. intros i (Hi & Hci & Hpi). split_and!; [by right | done | done].
      - intros i [->|Hi]%elem_of_cons Hci Hpi; [|by apply Hall].
        destruct Hs as [[x Hx]|Hn]; [congruence | done]. }
    destruct (pendingResendIds c !! id) as [t|] eqn:Ep; [apply Hskip; by left; eexists|].
    destruct (find_total id c Hc) as [[dv|] Hf]; cbn [sentDataCache c1 set_resend]; rewrite Hf.
    + destruct (proj2 Hc id dv Hf) as (p & -> & Hp). rewrite cached_payload_encode by done.
      unfold default_resend. cbn [c1 opened set_resend]. rewrite Ho. cbn [negb].
      set (c2 := set_resend _ _ (<[id := now]> _) _).
      destruct (IH c2 Ho Ht Hc) as (c' & rs & -> & Hq & Hnd & Hfr & Hall).
      assert (Hnid : ~ (id ∈ rs)).
      { intros Hin. rewrite Forall_forall in Hfr. destruct (Hfr id Hin) as (_ & _ & Hpi).
        cbn in Hpi. by rewrite lookup_insert_eq in Hpi. }
      exists c', (id :: rs). split_and!.
      * done.
      * rewrite Hq. cbn [c2 resendQueue set_resend enqueue queue fst]. rewrite fmap_cons, <- app_assoc.
        cbn [app]. unfold cached_packet at 2. by rewrite Hf.
      * by constructor.
      * constructor; [split_and!; [by left | by exists (encode_data id p) | done]|].
        eapply Forall_impl; [exact Hfr|]. intros i (Hi & Hci & Hpi). cbn in Hpi.
        apply lookup_insert_None in Hpi as [Hpi _]. split_and!; [by right | done | done].
      * intros i Hi Hci Hpi. destruct (decide (i = id)) as [->|Hne]; [by left|]. right.
        apply elem_of_cons in Hi as [?|Hi]; [done|]. apply Hall; [done | done |].
        cbn. by rewrite lookup_insert_ne.
    + apply Hskip. right. intros [dv Hdv]. congruence.
Qed.

(** C16. A missing notification is answered once per id: the packets put on the
    resend queue are the original bytes of exactly those listed ids that are
    cached and were not already resent within the last two seconds in answer to
    a notification that this one repeats; an id listed twice is resent once. *)
Theorem missing_notify_resends_once (now nowMs : Z) (ids : list Z) (c : Channel) :
  opened c = true -> tracker_ok c -> cache_packets c ->
  exists c' rs, processMissingNotify now nowMs ids c = Some c'
    /\ queue (resendQueue c') = queue (resendQueue c) ++ (cached_packet c <$> rs)
    /\ NoDup rs
    /\ forall id, id ∈ rs <->
         id ∈ ids /\ cached c id
         /\ forall t, pendingResendIds c !! id = Some t -> pendingResendTtl <= now - t.
Proof.
  intros Ho Ht Hc. unfold processMissingNotify.
  set (kept := filter _ (pendingResendIds c)).
  destruct (missing_loop_spec now nowMs ids (set_resend (resendQueue c) (socketStatuses c) kept c) Ho Ht Hc)
    as (c' & rs & -> & Hq & Hnd & Hf & Hall).
  exists c', rs. split_and!; [done | exact Hq | done |].
  assert (Hk : forall id, id ∈ ids ->
            kept !! id = None <-> forall t, pendingResendIds c !! id = Some t -> pendingResendTtl <= now - t).
  { intros id Hid. unfold kept. rewrite map_lookup_filter_None. split.
    - intros [Hn|Hn] t Ht'; [congruence|]. specialize (Hn t Ht'). cbn in Hn.
      destruct (decide (now - t < pendingResendTtl)); [|lia]. exfalso. by apply Hn.
    - intros Hn. right. intros t Ht' [_ Hlt]. cbn in Hlt. specialize (Hn t Ht'). lia. }
  intros id. rewrite Forall_forall in Hf. split.
  - intros Hin. destruct (Hf id Hin) as (Hi & Hci & Hp). split_and!; [done | done | by apply Hk].
  - intros (Hi & Hci & Hp). apply Hall; [done | done | by apply Hk].
Qed.

(** ** Closing: at most one callback *)

(** What happens to an opened channel. *)
Inductive ch_op : Type :=
| ChDisconnectCB                                   (* by the IO or send thread *)
| ChClose
| ChKill (a : nat)                                 (* a connection is disconnected *)
| ChReplace (slot : Z) (fd : SocketFd) (a : nat)
| ChSend (data : option (list byte)).

Definition run_ch_op (o : ch_op) (c : Channel) : Channel * bool :=
  match o with
  | ChDisconnectCB => disconnectCB c
  | ChClose => (close c, false)
  | ChKill a => (set_heap (alter (fun t => (disconnect t).1) a (heap c)) c, false)
  | ChReplace slot fd a => ((replaceConnection slot fd a c).1, false)
  | ChSend d => (match send d c with Some (c', _) => c' | None => c end, false)
  end.

(** The number of disconnectCallback() invocations of a run. *)
Fixpoint callbacks (os : list ch_op) (c : Channel) : nat :=
  match os with
  | [] => 0
  | o :: os => let '(c', called) := run_ch_op o c in ((if called then 1 else 0) + callbacks os c')%nat
  end.

Lemma run_ch_op_opened o c :
  let '(c', called) := run_ch_op o c in
  (opened c = false -> opened c' = false /\ called = false)
  /\ (called = true -> opened c' = false).
Proof.
  destruct o as [| |a|slot fd a|d]; cbn [run_ch_op].
  - unfold disconnectCB. destruct (opened c) eqn:Ho; cbn [negb]; [|by rewrite Ho].
    destruct (0 <? aliveCount c)%nat; (split; [discriminate|]); [discriminate | by intros _].
  - split; [|done]. unfold close. intros Ho. rewrite Ho. split; [exact Ho | done].
  - by split.
  - split; [|done]. unfold replaceConnection. by case_match.
  - split; [|done]. unfold send. intros Ho. rewrite Ho. split; [exact Ho | done].
Qed.

(** The disconnect callback of a channel runs at most once in its life,
    however connections die and whichever threads report it, and not at all
    once close() has run. *)
Theorem disconnect_callback_at_most_once (os : list ch_op) (c : Channel) :
  (callbacks os c <= 1)%nat /\ callbacks os (close c) = 0%nat.
Proof.
  assert (H0 : forall os c, opened c = false -> callbacks os c = 0%nat).
  { induction os0 as [|o os0 IH]; intros c0 Ho; [done|]. cbn [callbacks].
    pose proof (run_ch_op_opened o c0) as Hr. destruct (run_ch_op o c0) as [c1 b].
    destruct (proj1 Hr Ho) as [Ho1 ->]. by rewrite IH. }
  split.
  - revert c. induction os as [|o os IH]; intros c; cbn [callbacks]; [lia|].
    pose proof (run_ch_op_opened o c) as Hr. destruct (run_ch_op o c) as [c1 b].
    destruct b; [|apply IH]. by rewrite H0 by by apply Hr.
  - apply H0. unfold close. destruct (opened c) eqn:Ho; cbn; done.
Qed.

(** A single dead connection does not close the channel: disconnectCB acts
    only when no connection is alive, and then it closes the channel, wakes both
    queues for good and stops the threads. *)
Theorem disconnectCB_only_when_all_dead (c : Channel) :
  disconnectCB c
  = if opened c && (aliveCount c =? 0)%nat
    then ((disconnectCB c).1, disconnectCallback c) else (c, false).
Proof.
  unfold disconnectCB. destruct (opened c); cbn [negb andb]; [|done].
  destruct (Nat.ltb_spec 0 (aliveCount c)); destruct (Nat.eqb_spec (aliveCount c) 0); done || lia.
Qed.

Lemma disconnectCB_effect c :
  opened c = true -> aliveCount c = 0%nat ->
  let c' := (disconnectCB c).1 in
  opened c' = false /\ cancelled (sendQueue c') = true /\ cancelled (resendQueue c') = true
  /\ sendRunning c' <> Some true /\ ioRunning c' <> Some true.
Proof.
  intros Ho Ha. unfold disconnectCB. rewrite Ho, Ha. cbn. by destruct (sendRunning c), (ioRunning c).
Qed.

(** ** Slots *)

Lemma elem_of_dead_slots c i :
  i ∈ getDeadSlots c <->
  0 <= i < Z.of_nat (length (connections c)) /\ slot_alive c (mjoin (connections c !! Z.to_nat i)) = false.
Proof.
  unfold getDeadSlots. rewrite list_elem_of_omap. split.
  - intros (n & Hn%elem_of_seq & E). case_match; [done|]. injection E as <-.
    rewrite Nat2Z.id. split; [lia | done].
  - intros [Hi Ha]. exists (Z.to_nat i). rewrite elem_of_seq, Ha. split; [lia|]. f_equal. lia.
Qed.

(** Repairing a slot: replaceConnection on a valid slot takes exactly that
    slot out of the dead ones and leaves every other slot as it was, and an
    invalid index changes nothing. *)
Theorem replace_repairs_slot (slot i : Z) (fd : SocketFd) (a : nat) (c : Channel) :
  heap c !! a = None ->
  (forall j, connections c !! j <> Some (Some a)) ->
  i ∈ getDeadSlots (replaceConnection slot fd a c).1
  <-> i ∈ getDeadSlots c /\ (i <> slot \/ ~ (0 <= slot < Z.of_nat (length (connections c)))).
Proof.
  intros Ha Hfresh. rewrite !elem_of_dead_slots. unfold replaceConnection.
  destruct (Z.ltb_spec slot 0); cbn [orb]; [cbn; naive_solver lia|].
  destruct (Z.leb_spec (Z.of_nat (length (connections c))) slot); [cbn; naive_solver lia|].
  cbn [fst connections]. rewrite length_insert.
  assert (Halive : forall s, s <> Some a ->
            match s ≫= (<[a := (newTcpConnection fd).1]> (heap c) !!.) with
            | Some t => TcpConnection.connected t | None => false end = slot_alive c s).
  { intros [b|] Hb; [|done]. cbn. unfold slot_alive. cbn. rewrite lookup_insert_ne by congruence. done. }
  destruct (decide (i = slot)) as [->|Hne].
  - rewrite list_lookup_insert_eq by lia. unfold slot_alive. cbn. rewrite lookup_insert_eq. cbn.
    split; [intros [_ ?]; done | intros [[? ?] [?|?]]; [done | lia]].
  - destruct (decide (0 <= i)) as [Hi|]; [|split; [lia | lia]].
    rewrite list_lookup_insert_ne by lia.
    assert (E : slot_alive (replaceConnection slot fd a c).1 (mjoin (connections c !! Z.to_nat i))
                = slot_alive c (mjoin (connections c !! Z.to_nat i))).
    { unfold slot_alive at 1, replaceConnection.
      destruct (Z.ltb_spec slot 0); [lia|]. cbn [orb].
      destruct (Z.leb_spec (Z.of_nat (length (connections c))) slot); [lia|]. cbn [fst heap].
      apply Halive. destruct (connections c !! Z.to_nat i) as [[b|]|] eqn:Eb; [|done|done].
      cbn. intros [= ->]. by apply (Hfresh (Z.to_nat i)). }
    unfold replaceConnection in E.
    destruct (Z.ltb_spec slot 0); [lia|]. cbn [orb] in E.
    destruct (Z.leb_spec (Z.of_nat (length (connections c))) slot); [lia|]. cbn [fst] in E.
    rewrite E. naive_solver lia.
Qed.

(** ** The resend suppression does not last *)

Definition two_sent : option Channel :=
  match send_all [[Byte.x41]; [Byte.x42]] (open (newChannel 0 [5] ∅ false)) with
  | Some (c, _) => Some c
  | None => None
  end.

(** pendingResendIds is meant to stop repeated resends for two seconds, but
    an id absent from the next notification is forgotten at once, although the
    receiver lists each id only once: notifications for 0, then 1, then 0 within
    two milliseconds resend message 0 twice. *)
Theorem pending_forgotten_by_next_notify :
  (c ← two_sent;
   c1 ← processMissingNotify (ms 0) 0 [0] c;
   c2 ← processMissingNotify (ms 1) 1 [1] c1;
   c3 ← processMissingNotify (ms 2) 2 [0] c2;
   Some (queue (resendQueue c3)))
  = Some [encode_data 0 [Byte.x41]; encode_data 1 [Byte.x42]; encode_data 0 [Byte.x41]].
Proof. vm_compute. reflexivity. Qed.

(** ** Witnesses *)

Lemma send_assigns_consecutive_ids_witness :
  exists c', send_all [[Byte.x41]; [Byte.x42]] (open (newChannel 0 [5] ∅ false))
             = Some (c', SendQueued <$> seqZ 0 2)
    /\ queue (sendQueue c') = [encode_data 0 [Byte.x41]; encode_data 1 [Byte.x42]].
Proof.
  destruct (send_assigns_consecutive_ids [[Byte.x41]; [Byte.x42]] (open (newChannel 0 [5] ∅ false)))
    as (c' & E & _ & _ & Eq).
  - apply sendable_open; cbn; [lia | reflexivity | unfold is_u64; lia].
  - repeat constructor; discriminate.
  - cbn. lia.
  - cbn. lia.
  - exists c'. split; [exact E | exact Eq].
Defined.

(** One message cached and nothing pending. *)
Definition one_sent : Channel :=
  set_sent 1 newBlockingQueue
    (default (Cache.newSentDataCache 1 128)
       (Cache.insert 0 (encode_data 0 [Byte.x41]) (Cache.newSentDataCache 1 128)))
    (open (newChannel 0 [5] ∅ false)).

Lemma one_sent_ok : opened one_sent = true /\ tracker_ok one_sent /\ cache_packets one_sent.
Proof.
  split_and!; [done | cbn; lia |]. split; [vm_compute; lia|].
  intros id dv Hf. unfold Cache.find in Hf.
  change (length (Cache.shards (sentDataCache one_sent))) with 1%nat in Hf. cbn [shard_index Nat.eqb] in Hf.
  rewrite Z.mod_1_r in Hf.
  change (Cache.shards (sentDataCache one_sent) !! Z.to_nat 0)
    with (Some (Cache.mkConnShard (<[0 := encode_data 0 [Byte.x41]]> ∅) [0])) in Hf.
  cbn [mbind option_bind Cache.items] in Hf. injection Hf as Hf.
  apply lookup_insert_Some in Hf as [[<- <-]|[_ Hf]]; [|by rewrite lookup_empty in Hf].
  exists [Byte.x41]. split; [done | cbn; unfold VC_MAX_DATA_PAYLOAD_SIZE; lia].
Qed.

Lemma resend_reproduces_packet_witness :
  exists c', processResendRequest 7 0 one_sent = Some c'
    /\ queue (resendQueue c') = queue (resendQueue one_sent)
         ++ (if decide (cached one_sent 0) then [cached_packet one_sent 0] else [])
    /\ cached_packet one_sent 0 = encode_data 0 [Byte.x41].
Proof.
  destruct one_sent_ok as (Ho & Ht & Hc).
  destruct (resend_reproduces_packet 7 0 one_sent Ho Ht Hc) as (c' & E & Eq).
  exists c'. split; [exact E|]. split; [exact Eq | vm_compute; reflexivity].
Defined.

Lemma missing_notify_resends_once_witness :
  exists c' rs, processMissingNotify (ms 5) 5 [0; 0; 9] one_sent = Some c'
    /\ queue (resendQueue c') = queue (resendQueue one_sent) ++ (cached_packet one_sent <$> rs)
    /\ NoDup rs.
Proof.
  destruct one_sent_ok as (Ho & Ht & Hc).
  destruct (missing_notify_resends_once (ms 5) 5 [0; 0; 9] one_sent Ho Ht Hc) as (c' & rs & E & Eq & Hnd & _).
  exists c', rs. split; [exact E|]. split; [exact Eq | exact Hnd].
Defined.

Lemma replace_repairs_slot_witness :
  0 ∈ getDeadSlots (replaceConnection 1 9 2 (set_heap ∅ (newChannel 0 [5; 6] ∅ false))).1
  <-> 0 ∈ getDeadSlots (set_heap ∅ (newChannel 0 [5; 6] ∅ false)) /\ (0 <> 1 \/ ~ (0 <= 1 < 2)).
Proof.
  apply (replace_repairs_slot 1 0 9 2 (set_heap ∅ (newChannel 0 [5; 6] ∅ false))).
  - reflexivity.
  - intros [|[|j]]; cbn; discriminate.
Defined.
