(* ===== verification/EndToEnd.v ===== *)
(** * From the sender's queue to the receiver's callback

    The receiving half of a channel put together as open() wires it: the IO
    thread reads the connections, its data callback is processReceivedData, and
    the reorder thread drains the queues.  With the encoding of send() this gives
    the channel's contract: the payloads come out once each and in order. *)

From S2P Require Import Prelude Bytes Fifo SpscQueue VcProtocol Socket TcpConnection IoThread Reorder.

Section end_to_end.
Context {Q : Type} `{HL : BoundedFifoLaws DeliveryItem Q}.

(** dataCb of open(): processReceivedData for every DATA event. *)
Fixpoint deliver_events (evs : list io_event) (qs : list Q) (seq : Z) : list Q * Z :=
  match evs with
  | [] => (qs, seq)
  | EvData id payload i :: evs =>
      let '(qs1, seq1, _) := processReceivedData (mkDeliveryItem id payload i) qs seq in
      deliver_events evs qs1 seq1
  | _ :: evs => deliver_events evs qs seq
  end.

(** The IO thread's visits to the connections from slot [i] on. *)
Fixpoint receive_conns (i : nat) (polls : list (list (list (list byte))))
  (conns : list (TcpConnection * ReadBuffer)) (qs : list Q) (seq : Z)
  : option (list (TcpConnection * ReadBuffer) * list Q * Z) :=
  match polls, conns with
  | ps :: polls, (c, b) :: conns =>
      match read_polls all_callbacks (Z.of_nat i) ps c b with
      | Some (Some c', b', evs) =>
          let '(qs1, seq1) := deliver_events evs qs seq in
          match receive_conns (S i) polls conns qs1 seq1 with
          | Some (conns', qs2, seq2) => Some ((c', b') :: conns', qs2, seq2)
          | None => None
          end
      | _ => None
      end
  | _, _ => Some (conns, qs, seq)
  end.

Record receiver : Type := mkReceiver {
  rc_conns : list (TcpConnection * ReadBuffer);
  rc_queues : list Q;
  rc_seq : Z;
  rc_reorder : ReorderState;
}.

(** What arrives on each connection, then one iteration of the reorder thread. *)
Definition receiver_round (cfg : reorder_config) (clk : clock) (polls : list (list (list (list byte))))
  (r : receiver) : option (receiver * reorder_output) :=
  match receive_conns 0 polls (rc_conns r) (rc_queues r) (rc_seq r) with
  | None => None
  | Some (conns, qs, seq) =>
      match drain_queues qs with
      | None => None
      | Some (items, qs') =>
          match reorder_iteration cfg clk items (rc_reorder r) with
          | None => None
          | Some (s, o) => Some (mkReceiver conns qs' seq s, o)
          end
      end
  end.

Fixpoint receiver_run (cfg : reorder_config) (rounds : list (clock * list (list (list (list byte)))))
  (r : receiver) : option (receiver * list reorder_output) :=
  match rounds with
  | [] => Some (r, [])
  | (clk, polls) :: rounds =>
      match receiver_round cfg clk polls r with
      | None => None
      | Some (r1, o) =>
          match receiver_run cfg rounds r1 with
          | None => None
          | Some (r2, os) => Some (r2, o :: os)
          end
      end
  end.

(** The DATA packets of one connection as the reorder thread sees them. *)
Definition data_items (i : nat) (ps : list packet) : list DeliveryItem :=
  omap (fun p => match p with
                 | PktData id payload => Some (mkDeliveryItem id payload (Z.of_nat i))
                 | _ => None
                 end) ps.

(** The items of all connections from slot [i] on, connection by connection. *)
Fixpoint round_items (i : nat) (pss : list (list packet)) : list DeliveryItem :=
  match pss with
  | [] => []
  | ps :: pss => data_items i ps ++ round_items (S i) pss
  end.

(** One connection in one round: after the bytes [l] of a packet begun before,
    the bytes [polls] complete the packets of [part] and begin another with the
    bytes next to them; at most as many DATA packets as its queue holds. *)
Definition carries (l : list byte) (part : list packet * list byte) (polls : list (list (list byte))) : Prop :=
  Forall packet_ok part.1 /\ partial_packet part.2 /\ Forall (Forall (fun bs => bs <> [])) polls
  /\ l ++ concat ((@concat byte) <$> polls) = concat (encode_packet <$> part.1) ++ part.2
  /\ (length (data_items 0 part.1) <= bf_capacity)%nat.

(** A live connection with the bytes [l] of a packet in its buffer. *)
Definition conn_has (l : list byte) (cb : TcpConnection * ReadBuffer) : Prop :=
  connected cb.1 = true /\ rb_wf cb.2 /\ begin cb.2 = l /\ partial_packet l.

Lemma length_data_items i j ps : length (data_items i ps) = length (data_items j ps).
Proof. induction ps as [|[]]; cbn; auto. Qed.

(** Delivering the events of connection [i] fills its queue only. *)
Lemma deliver_events_view i ps qs seq q :
  Forall bf_wf qs -> qs !! i = Some q ->
  (length (bf_view q) + length (data_items i ps) <= bf_capacity)%nat ->
  exists q' seq', deliver_events (concat (packet_events all_callbacks (Z.of_nat i) <$> ps)) qs seq
                  = (<[i := q']> qs, seq')
    /\ bf_wf q' /\ bf_view q' = bf_view q ++ data_items i ps.
Proof.
  revert qs q seq. induction ps as [|p ps IH]; intros qs q seq Hwf Hq Hl.
  - exists q, seq. cbn. rewrite app_nil_r, list_insert_id by done. split_and!; [done| |done].
    rewrite Forall_lookup in Hwf. by eapply Hwf.
  - rewrite fmap_cons. cbn [concat]. unfold packet_events at 1. cbn [all_callbacks IoThread.dataCallback
      IoThread.resendRequestCallback IoThread.missingNotifyCallback].
    destruct p as [id payload|id m|ids]; [|by apply IH|by apply IH].
    cbn [app deliver_events data_items omap list_omap length] in *. fold (data_items i ps) in *.
    unfold processReceivedData. cbn [sourceConnIndex].
    pose proof (lookup_lt_Some _ _ _ Hq) as Hi.
    destruct (Z.leb_spec 0 (Z.of_nat i)); [|lia].
    destruct (Z.ltb_spec (Z.of_nat i) (Z.of_nat (length qs))); [|lia]. cbn [andb].
    rewrite Nat2Z.id, Hq.
    assert (Hwq : bf_wf q) by (rewrite Forall_lookup in Hwf; by eapply Hwf).
    destruct (bf_enqueue_law (mkDeliveryItem id payload (Z.of_nat i)) q Hwq) as (Hw1 & Hb & Hv).
    destruct (bf_enqueue (mkDeliveryItem id payload (Z.of_nat i)) q) as [q1 ok]. cbn [fst snd] in *.
    destruct (Nat.ltb_spec (length (bf_view q)) bf_capacity); [|lia]. subst ok.
    destruct (IH (<[i := q1]> qs) q1 (u64 (seq + 1))) as (q2 & seq2 & E & Hw2 & Hv2).
    + by apply Forall_insert.
    + by apply list_lookup_insert_eq.
    + rewrite Hv, length_app. cbn. lia.
    + rewrite E, list_insert_insert_eq. exists q2, seq2. split_and!; [done | done |].
      by rewrite Hv2, Hv, <- app_assoc.
Qed.

Lemma receive_conns_items i ls pss polls conns qs1 qs2 seq :
  Forall3 carries ls pss polls -> Forall2 conn_has ls conns ->
  length qs1 = i -> length qs2 = length pss ->
  Forall bf_wf (qs1 ++ qs2) -> Forall (fun q => bf_view q = []) qs2 ->
  exists conns' qs2' seq', receive_conns i polls conns (qs1 ++ qs2) seq = Some (conns', qs1 ++ qs2', seq')
    /\ Forall2 conn_has pss.*2 conns' /\ length qs2' = length pss
    /\ Forall bf_wf (qs1 ++ qs2') /\ concat (bf_view <$> qs2') = round_items i pss.*1.
Proof.
  intros Hc. revert i conns qs1 qs2 seq.
  induction Hc as [|l [ps l'] pl ls pss polls (Hok & Hpar & Hne & Hcat & Hcap) Hc IH];
    intros i conns qs1 qs2 seq Hcl Hi Hlq Hwf He.
  - apply Forall2_nil_inv_l in Hcl as ->. destruct qs2; [|done]. exists [], [], seq. by split_and!.
  - apply Forall2_cons_inv_l in Hcl as ([c b] & conns' & (Hup & Hbw & Hb & Hl) & Hcl & ->). rename conns' into conns0.
    destruct qs2 as [|q qs2]; [done|]. apply Forall_cons in He as [Hq0 He].
    cbn [receive_conns fst snd] in *.
    destruct (read_polls_parts all_callbacks (Z.of_nat i) ps pl l l' c b Hup Hok Hne Hl Hpar Hcat Hbw Hb)
      as (b' & -> & Hbw' & Hb').
    assert (Hlk : (qs1 ++ q :: qs2) !! i = Some q) by (subst i; apply list_lookup_middle; done).
    destruct (deliver_events_view i ps (qs1 ++ q :: qs2) seq q Hwf Hlk) as (q' & seq1 & -> & Hwq' & Hvq').
    { rewrite Hq0. cbn. by rewrite (length_data_items i 0). }
    assert (Eins : <[i := q']> (qs1 ++ q :: qs2) = (qs1 ++ [q']) ++ qs2).
    { subst i. rewrite insert_app_r_alt, Nat.sub_diag by lia. cbn. by rewrite <- app_assoc. }
    rewrite Eins. rewrite !Forall_app, !Forall_cons in Hwf. destruct Hwf as (Hw1 & Hwq & Hw2).
    destruct (IH (S i) conns0 (qs1 ++ [q']) qs2 seq1) as (conns' & qs2' & seq2 & -> & Hcl' & Hlq' & Hwf' & Hcon).
    + done.
    + rewrite length_app. cbn. lia.
    + by injection Hlq.
    + rewrite !Forall_app, Forall_singleton. done.
    + done.
    + exists ((c, b') :: conns'), (q' :: qs2'), seq2. split_and!.
      * by rewrite <- app_assoc.
      * by constructor.
      * cbn. by rewrite Hlq'.
      * by rewrite <- app_assoc in Hwf'.
      * rewrite !fmap_cons. cbn [concat round_items fst]. by rewrite Hvq', Hq0, Hcon.
Qed.

(** One round hands the round's items to the reorder thread. *)
Lemma receiver_round_items cfg clk ls pss polls r :
  Forall3 carries ls pss polls -> Forall2 conn_has ls (rc_conns r) ->
  length (rc_queues r) = length pss -> Forall bf_wf (rc_queues r) ->
  Forall (fun q => bf_view q = []) (rc_queues r) ->
  exists conns qs seq,
    receiver_round cfg clk polls r
    = (fun so => (mkReceiver conns qs seq so.1, so.2)) <$> reorder_iteration cfg clk (round_items 0 pss.*1) (rc_reorder r)
    /\ Forall2 conn_has pss.*2 conns /\ length qs = length pss
    /\ Forall bf_wf qs /\ Forall (fun q => bf_view q = []) qs.
Proof.
  intros Hc Hcl Hlq Hwf He. unfold receiver_round.
  destruct (receive_conns_items 0 ls pss polls (rc_conns r) [] (rc_queues r) (rc_seq r) Hc Hcl eq_refl Hlq Hwf He)
    as (conns & qs & seq & E & Hcl' & Hlq' & Hwf' & Hcon).
  cbn [app] in *. rewrite E. destruct (drain_queues_view qs Hwf') as (qs' & Ed & Hw' & He' & Hlen).
  rewrite Ed, Hcon. exists conns, qs', seq. split_and!; try done; [|by rewrite Hlen].
  by destruct (reorder_iteration cfg clk (round_items 0 pss.*1) (rc_reorder r)) as [[]|].
Qed.

(** What every round completes on every connection: the packets and the bytes of
    the next one. *)
Definition parts : Type := list (clock * list (list packet * list byte)).

(** The bytes of [rounds] are the streams that [sent] cuts up, after [ls]. *)
Fixpoint streams_arrive (ls : list (list byte)) (sent : parts)
  (rounds : list (clock * list (list (list (list byte))))) : Prop :=
  match sent, rounds with
  | [], [] => True
  | (clk, pss) :: sent, (clk', polls) :: rounds =>
      clk = clk' /\ Forall3 carries ls pss polls /\ streams_arrive pss.*2 sent rounds
  | _, _ => False
  end.

(** The items the reorder thread gets, round by round. *)
Definition arrivals (sent : parts) : list (clock * list DeliveryItem) :=
  (fun r => (r.1, round_items 0 r.2.*1)) <$> sent.

Lemma receiver_run_items cfg ls sent rounds c q seq s s' os :
  streams_arrive ls sent rounds -> Forall2 conn_has ls c -> length q = length ls ->
  Forall bf_wf q -> Forall (fun q => bf_view q = []) q ->
  reorder_run cfg (arrivals sent) s = Some (s', os) ->
  exists r, receiver_run cfg rounds (mkReceiver c q seq s) = Some (r, os).
Proof.
  revert ls rounds c q seq s s' os. induction sent as [|[clk pss] sent IH];
    intros ls [|[clk' polls] rounds] c q seq s s' os Hr Hcl Hlq Hwf He Hrun; try done.
  - injection Hrun as <- <-. by eexists.
  - destruct Hr as (<- & Hc & Hr). cbn [arrivals fmap list_fmap reorder_run fst snd] in Hrun. fold (arrivals sent) in Hrun.
    pose proof (Forall3_length_lm _ _ _ _ Hc) as Hlen.
    destruct (receiver_round_items cfg clk ls pss polls (mkReceiver c q seq s) Hc)
      as (conns & qs & seq' & E & H2 & H3 & H4 & H5); cbn [rc_conns rc_queues]; try congruence; try done.
    cbn [receiver_run rc_reorder] in *. rewrite E.
    destruct (reorder_iteration cfg clk (round_items 0 pss.*1) s) as [[s1 o]|]; [|done].
    cbn [fmap option_fmap option_map fst snd].
    destruct (reorder_run cfg _ s1) as [[s2 os2]|] eqn:E2; [|done]. injection Hrun as <- <-.
    destruct (IH pss.*2 rounds conns qs seq' s1 s2 os2 Hr H2 ltac:(by rewrite length_fmap) H4 H5 E2) as (r & ->).
    by eexists.
Qed.

(** C2. End to end over TCP, in order and complete.  A sender's messages
    0 .. n-1 are put as DATA packets on the connections in any way (any
    connection, any order across connections, resent any number of times, mixed
    with other packets) and every connection's stream arrives cut anywhere, also
    within a packet from one round of the receiver to the next; [sent] says which
    packets each round completes.  If all n messages arrive, no round completes
    more DATA packets on a connection than its queue holds, and the gap timer
    never expires while something is buffered, then receiveCallback is called
    with exactly the n payloads, once each, in the order they were sent.  (The
    timer runs from the first gap until nothing is buffered, so it can expire
    although every single gap was short: second_gap_inherits_timer.) *)
Theorem channel_delivers_stream (cfg : reorder_config) (f : Z -> list byte) (n openedAt : Z)
  (numConns : nat) (c0 : list (TcpConnection * ReadBuffer)) (q0 : list Q)
  (sent : parts) (rounds : list (clock * list (list (list (list byte))))) :
  0 <= n < 2 ^ 64 ->
  Forall2 conn_has (replicate numConns []) c0 ->
  length q0 = numConns -> Forall bf_wf q0 -> Forall (fun q => bf_view q = []) q0 ->
  streams_arrive (replicate numConns []) sent rounds ->
  timer_quiet cfg (arrivals sent) (newReorderState numConns openedAt) ->
  Forall (fun r => Forall (sent_item f n) r.2) (arrivals sent) ->
  (forall id, 0 <= id < n -> id ∈ messageId <$> concat (snd <$> arrivals sent)) ->
  exists r os, receiver_run cfg rounds (mkReceiver c0 q0 0 (newReorderState numConns openedAt)) = Some (r, os)
    /\ payload_of <$> delivered os = (fun id => (id, f id)) <$> seqZ 0 n.
Proof.
  intros Hn Hcl Hlq Hwf He Hr Ht Hs Hcov.
  destruct (in_order_exactly_once cfg f n ltac:(lia) numConns openedAt (arrivals sent) ltac:(lia) Hs Ht Hcov)
    as (s' & os & Er & Ed & _).
  destruct (receiver_run_items cfg _ sent rounds c0 q0 0 (newReorderState numConns openedAt) s' os Hr Hcl) as (r & E); [by rewrite length_replicate | done..|].
  by exists r, os.
Qed.
End end_to_end.

(** ** The queues the code uses *)

(** std::unique_ptr<SpscQueue<DeliveryItem>> with the default capacity; a moved
    DeliveryItem keeps its plain members and loses its payload. *)
Definition moved_item (d : DeliveryItem) : DeliveryItem :=
  mkDeliveryItem (messageId d) [] (sourceConnIndex d).

Definition receive_queue : SpscQueue.SpscQueue (T := DeliveryItem) :=
  SpscQueue.newSpscQueue 1024 (mkDeliveryItem 0 [] (-1)).

#[local] Instance receive_fifo : BoundedFifo DeliveryItem (SpscQueue.SpscQueue (T := DeliveryItem)) :=
  SpscQueue.spsc_fifo moved_item 1024.

#[local] Instance receive_fifo_laws :
  BoundedFifoLaws DeliveryItem (SpscQueue.SpscQueue (T := DeliveryItem)).
Proof. apply SpscQueue.spsc_fifo_laws. lia. Defined.

Lemma receive_queue_ok : bf_wf receive_queue /\ bf_view receive_queue = [].
Proof.
  assert (H0 : (0 < 1024)%nat) by lia.
  pose proof (SpscQueue.spsc_rep_new 1024 H0 (mkDeliveryItem 0 [] (-1))) as Hr.
  pose proof (SpscQueue.spsc_rep_contents 1024 H0 _ _ Hr) as Hc. fold receive_queue in Hr, Hc.
  split; [|exact Hc].
  change (SpscQueue.spsc_rep 1024 receive_queue (SpscQueue.contents 1024 receive_queue)). by rewrite Hc.
Qed.

(** Message 1 arrives on connection 0, cut in two over two rounds, and message 0
    on connection 1 in the second. *)
Definition example_sent : parts :=
  [(at_ms 5, [([], take 4 (encode_data 1 [byte_of_Z 1])); ([], [])]);
   (at_ms 9, [([PktData 1 [byte_of_Z 1]], []); ([PktData 0 [byte_of_Z 0]], [])])].

Definition example_rounds : list (clock * list (list (list (list byte)))) :=
  [(at_ms 5, [[[take 4 (encode_data 1 [byte_of_Z 1])]]; []]);
   (at_ms 9, [[[drop 4 (encode_data 1 [byte_of_Z 1])]]; [[encode_data 0 [byte_of_Z 0]]]])].

Lemma example_packet_ok id : 0 <= id < 2 -> packet_ok (PktData id [byte_of_Z id]).
Proof. intros H. split; [unfold is_u64; lia | cbn; unfold VC_MAX_DATA_PAYLOAD_SIZE; lia]. Qed.

Lemma example_arrives : streams_arrive (Q := SpscQueue.SpscQueue) [[]; []] example_sent example_rounds.
Proof.
  pose proof (example_packet_ok 0 ltac:(lia)) as H0. pose proof (example_packet_ok 1 ltac:(lia)) as H1.
  assert (Hp : partial_packet (take 4 (encode_data 1 [byte_of_Z 1]))).
  { right. exists (PktData 1 [byte_of_Z 1]). split; [done|]. exists (drop 4 (encode_data 1 [byte_of_Z 1])).
    split; [vm_compute; discriminate | by rewrite take_drop]. }
  assert (Hc : forall l ps l' polls, Forall packet_ok ps -> partial_packet l' ->
            Forall (Forall (fun bs : list byte => bs <> [])) polls ->
            l ++ concat ((@concat byte) <$> polls) = concat (encode_packet <$> ps) ++ l' ->
            (length (data_items 0 ps) <= 1023)%nat -> carries (Q := SpscQueue.SpscQueue) l (ps, l') polls)
    by (by intros; split_and!).
  split; [done|]. split; [|split; [done|split; [|done]]]; (constructor; [|constructor; [|constructor]]); apply Hc;
    try done; try (by left); try (by repeat constructor); cbn; lia.
Qed.

Lemma channel_delivers_stream_witness :
  exists r os, receiver_run default_config example_rounds
      (mkReceiver (replicate 2 (reused_fd_conn, emptyReadBuffer)) (replicate 2 receive_queue) 0
         (newReorderState 2 0)) = Some (r, os)
    /\ payload_of <$> delivered os = (fun id => (id, [byte_of_Z id])) <$> seqZ 0 2.
Proof.
  destruct receive_queue_ok as [Hw Hv].
  assert (Hc : conn_has [] (reused_fd_conn, emptyReadBuffer)) by (split_and!; [done | apply rb_wf_empty | done | by left]).
  apply (channel_delivers_stream default_config (fun id => [byte_of_Z id]) 2 0 2 _ _ example_sent example_rounds).
  - lia.
  - by repeat constructor.
  - reflexivity.
  - by apply Forall_replicate.
  - by apply Forall_replicate.
  - exact example_arrives.
  - apply (timer_quiet_window default_config 0); [apply map_ok_new | | by repeat constructor | done].
    repeat constructor; vm_compute; done.
  - repeat constructor; vm_compute; done.
  - intros id Hid. assert (id = 0 \/ id = 1) as [->| ->] by lia; cbn; set_solver.
Defined.
