(* ===== verification/Tunnel.v ===== *)
(** * The tunnel: sender and receiver around a lossy network

    One direction of an open channel, both ends: TcpVirtualChannel::send, the
    answers to missing notifications and resend requests, the send thread on its
    connections, the bytes of every connection as TCP delivers them, the IO
    thread, the receive queues and the reorder thread.  Connections die and are
    replaced, also in the middle of a packet, what they had not delivered is
    lost, queues overflow, packets are resent and duplicated, the reverse
    direction may ask for anything, and descriptor numbers are reused.

    The specification is a queue that may drop: what comes out is a subsequence
    of what was accepted, in order, each message at most once, unchanged. *)

From S2P Require Import Prelude Bytes StreamParser Fifo SpscQueue VcProtocol Socket.
From S2P Require Import TcpConnection IoThread BlockingQueue SentCache Reorder SendThread Channel EndToEnd.

(** ** The specification *)

Module Spec.

Record lossy_queue : Type := mkLossyQueue {
  sent : list (list byte);
  next : Z;                       (* ids below it are delivered or given up *)
  out : list (Z * list byte);
}.

Definition empty_queue : lossy_queue := mkLossyQueue [] 0 [].

Inductive step : lossy_queue -> lossy_queue -> Prop :=
| accept l n o p :
    step (mkLossyQueue l n o) (mkLossyQueue (l ++ [p]) n o)
| deliver l n o id p :
    n <= id -> l !! Z.to_nat id = Some p ->
    step (mkLossyQueue l n o) (mkLossyQueue l (id + 1) (o ++ [(id, p)])).

(** What the queue promises its user. *)
Definition in_order (q : lossy_queue) : Prop :=
  Sorted.StronglySorted Z.lt (fst <$> out q)
  /\ Forall (fun m => 0 <= m.1 < next q /\ sent q !! Z.to_nat m.1 = Some m.2) (out q).

Lemma in_order_step q q' : 0 <= next q -> in_order q -> step q q' -> 0 <= next q' /\ in_order q'.
Proof.
  intros H0 [Hs Hf] Hst. destruct Hst as [l n o p|l n o id p Hle Hid]; cbn in *.
  - split; [done|]. split; [done|]. eapply Forall_impl; [exact Hf|]. intros m [Hm Hl]; cbn in *.
    split; [done|]. by apply lookup_app_l_Some.
  - split; [lia|]. split; cbn.
    + rewrite fmap_app. cbn.
      apply (ascending_app 0 n id (id + 1) (fst <$> o) [id]); [lia|lia|lia| |].
      * split; [done|]. apply Forall_fmap. eapply Forall_impl; [exact Hf|]. intros m [Hm _]. exact Hm.
      * split; repeat constructor; lia.
    + apply Forall_app. split.
      * eapply Forall_impl; [exact Hf|]. intros m [Hm Hl]; cbn in *. split; [lia|done].
      * repeat constructor; cbn; [lia|lia|done].
Qed.

Lemma in_order_run q : rtc step empty_queue q -> in_order q.
Proof.
  intros Hr.
  assert (H : 0 <= next q /\ in_order q); [|by destruct H].
  eapply (invariant_reachable (fun q => q = empty_queue) step (fun q => 0 <= next q /\ in_order q));
    [| |by exists empty_queue].
  - intros ? ->. split; [done|]. split; constructor.
  - intros ? ? [? ?]. by apply in_order_step.
Qed.
End Spec.

(** ** The system *)

Section tunnel.
Context {Q : Type} `{HL : BoundedFifoLaws DeliveryItem Q}.

(** A receiving slot: the sender's connection object at the other end, the bytes
    that arrived from it, and the descriptor the IO thread saw in the slot when
    it last prepared its poll ([prevFds]). *)
Record link : Type := mkLink {
  peer_conn : nat;
  received : list byte;
  seen_fd : SocketFd;
}.

(** [log], [accepted] and [outputs] record what happened: bytes written, payloads
    accepted by send(), items passed to receiveCallback; [mixed], whether the IO
    thread ever read bytes of one stream behind those of another. *)
Record tunnel : Type := mkTunnel {
  tx : Channel;
  th : SendThread;
  log : list send_event;
  accepted : list (list byte);
  rx : receiver (Q := Q);
  links : list link;
  outputs : list DeliveryItem;
  mixed : bool;
}.

(** The send thread shares the queues, the connection objects, the tracker and
    the statistics with the channel: what it sees before an iteration, and what
    the channel sees after it. *)
Definition attach (c : Channel) (t : SendThread) : SendThread :=
  let sc := ss_conns (st t) in
  mkSendThread
    (mkSendState (mkSendConns (sc_connections sc) (heap c) (lastRuntimeRefresh sc))
                 (connSendStats c) (default (ss_tracker (st t)) (messageTracker c)))
    (Channel.sendQueue c) (Channel.resendQueue c) (pendingDataVec t) (roundRobinStart t)
    (resendRoundRobin t) (resendRetryCount t).

Definition publish (t : SendThread) (c : Channel) : Channel :=
  mkChannel (Channel.connections c) (sc_heap (ss_conns (st t))) (opened c) (lastSendMessageId c)
    (SendThread.sendQueue t) (SendThread.resendQueue t) (sentDataCache c)
    ((fun _ => ss_tracker (st t)) <$> messageTracker c) (ss_stats (st t)) (socketStatuses c)
    (pendingResendIds c) (Channel.disconnectCallback c) (ioRunning c) (sendRunning c) (Channel.reorderRunning c).

(** The bytes the draining loop of readFromConnection takes off the socket. *)
Fixpoint recv_taken (rs : list (option os_recv)) : list byte :=
  match rs with
  | Some (RecvOk (x :: bs)) :: rs => (x :: bs) ++ recv_taken rs
  | _ => []
  end.

Definition accepted_by (o : send_outcome) (payload : option (list byte)) : list (list byte) :=
  match o, payload with SendQueued _, Some p => [p] | _, _ => [] end.

Definition set_tx (c : Channel) (s : tunnel) : tunnel :=
  mkTunnel c (th s) (log s) (accepted s) (rx s) (links s) (outputs s) (mixed s).

Definition set_rx_link (i : nat) (c : TcpConnection) (b : ReadBuffer) (l : link) (qs : list Q) (seq : Z)
  (mix : bool) (s : tunnel) : tunnel :=
  mkTunnel (tx s) (th s) (log s) (accepted s)
    (mkReceiver (<[i := (c, b)]> (rc_conns (rx s))) qs seq (rc_reorder (rx s)))
    (<[i := l]> (links s)) (outputs s) (mixed s || mix).

(** [currFd] of a slot that holds [c]. *)
Definition current_fd (c : TcpConnection) : SocketFd := if connected c then socketFd c else -1.

Inductive tunnel_step (s : tunnel) : tunnel -> Prop :=
| t_send payload c o :
    send payload (tx s) = Some (c, o) ->
    tunnel_step s (mkTunnel c (th s) (log s) (accepted s ++ accepted_by o payload) (rx s) (links s) (outputs s) (mixed s))
| t_missing_notify now nowMs ids c :          (* from the peer *)
    processMissingNotify now nowMs ids (tx s) = Some c -> tunnel_step s (set_tx c s)
| t_resend_request nowMs id c :
    processResendRequest nowMs id (tx s) = Some c -> tunnel_step s (set_tx c s)
| t_own_notify ids :                          (* for the other direction, by this end's reorder thread *)
    packet_ok (PktMissingNotify ids) -> tunnel_step s (set_tx (default_missing_notify ids (tx s)) s)
| t_disconnectCB : tunnel_step s (set_tx (disconnectCB (tx s)).1 s)
| t_close : tunnel_step s (set_tx (close (tx s)) s)
| t_kill a :                                  (* a connection dies *)
    tunnel_step s (set_tx (set_heap (alter (fun t => (disconnect t).1) a (heap (tx s))) (tx s)) s)
| t_replace slot fd a now :                   (* a new connection object in a slot *)
    heap (tx s) !! a = None ->
    tunnel_step s
      (mkTunnel (Channel.replaceConnection slot fd a (tx s)).1
                (SendThread.replaceConnection slot a now (th s))
                (log s) (accepted s) (rx s) (links s) (outputs s) (mixed s))
| t_thread o t evs :                          (* the send thread, others acting in its midst *)
    run_thread_op o (attach (tx s) (th s)) = Some (t, evs) ->
    tunnel_step s (mkTunnel (publish t (tx s)) t (log s ++ evs) (accepted s) (rx s) (links s) (outputs s) (mixed s))
| t_read i rs c b l c' b' evs qs seq :        (* any further piece of the stream, in any pieces *)
    rc_conns (rx s) !! i = Some (c, b) -> links s !! i = Some l -> connected c = true -> seen_fd l = socketFd c ->
    (received l ++ recv_taken rs) `prefix_of` wire_of (peer_conn l) (log s) ->
    readFromConnection all_callbacks (Z.of_nat i) rs (Some c) b = Some (Some c', b', evs) ->
    deliver_events evs (rc_queues (rx s)) (rc_seq (rx s)) = (qs, seq) ->
    tunnel_step s (set_rx_link i c' b' (mkLink (peer_conn l) (received l ++ recv_taken rs) (seen_fd l)) qs seq false s)
| t_read_stray i rs c b l c' b' evs qs seq :  (* recv on a number that was closed and reused since it was read *)
    rc_conns (rx s) !! i = Some (c, b) -> links s !! i = Some l -> connected c = true ->
    readFromConnection all_callbacks (Z.of_nat i) rs (Some c) b = Some (Some c', b', evs) ->
    deliver_events evs (rc_queues (rx s)) (rc_seq (rx s)) = (qs, seq) ->
    tunnel_step s (set_rx_link i c' b' l qs seq true s)
| t_prepare i c b l :                         (* the IO thread prepares its poll: the slot as it was *)
    rc_conns (rx s) !! i = Some (c, b) -> links s !! i = Some l ->
    tunnel_step s (set_rx_link i c (reset_buffer b (seen_fd l, current_fd c))
                     (mkLink (peer_conn l) (received l) (current_fd c)) (rc_queues (rx s)) (rc_seq (rx s)) false s)
| t_link i c0 b l c a :                       (* ... or with a new connection: the buffer goes if the number differs *)
    rc_conns (rx s) !! i = Some (c0, b) -> links s !! i = Some l ->
    let b' := reset_buffer b (seen_fd l, current_fd c) in
    tunnel_step s (set_rx_link i c b' (mkLink a [] (current_fd c)) (rc_queues (rx s)) (rc_seq (rx s))
                     (negb (bool_decide (begin b' = []))) s)
| t_rx_disconnect i c b l :                   (* another thread of the receiver drops the connection *)
    rc_conns (rx s) !! i = Some (c, b) -> links s !! i = Some l ->
    tunnel_step s (set_rx_link i (disconnect c).1 b l (rc_queues (rx s)) (rc_seq (rx s)) false s)
| t_reorder cfg clk items qs r o :
    drain_queues (rc_queues (rx s)) = Some (items, qs) ->
    reorder_iteration cfg clk items (rc_reorder (rx s)) = Some (r, o) ->
    tunnel_step s
      (mkTunnel (tx s) (th s) (log s) (accepted s) (mkReceiver (rc_conns (rx s)) qs (rc_seq (rx s)) r)
                (links s) (outputs s ++ itemsToDeliver o) (mixed s)).

(** Both ends just opened. *)
Definition tunnel_init (s : tunnel) : Prop :=
  exists base fds callback now conns qs n openedAt ls,
    let c := open (newChannel base fds ∅ callback) in
    s = mkTunnel c (newSendThread (Channel.connections c) (heap c) now) [] []
          (mkReceiver conns qs 0 (newReorderState n openedAt)) ls [] false
    /\ Forall (fun cb => cb.2 = emptyReadBuffer) conns
    /\ Forall (fun q => bf_wf q /\ bf_view q = []) qs
    /\ length ls = length conns /\ Forall (fun l => received l = [] /\ seen_fd l = -1) ls.

(** No descriptor number was used by two connections at once: neither end read or
    wrote through a number that had become another connection's, and no slot got
    a new connection with the number of the old one while an unfinished packet
    of the old one was in its buffer. *)
Definition clean (s : tunnel) : Prop := mixed s = false /\ forall a, stray_free a (log s).

(** ** What is known of the packets in the system *)

(** A packet this end may have produced when [acc] was accepted. *)
Definition known (acc : list (list byte)) (p : packet) : Prop :=
  packet_ok p
  /\ match p with PktData id payload => acc !! Z.to_nat id = Some payload | _ => True end.

Definition known_bytes (acc : list (list byte)) (d : list byte) : Prop :=
  exists p, known acc p /\ d = encode_packet p.

Lemma known_mono acc l p : known acc p -> known (acc ++ l) p.
Proof.
  intros [Hok Hp]. split; [done|]. destruct p; [|done|done]. by apply lookup_app_l_Some.
Qed.

Lemma known_bytes_mono acc l d : known_bytes acc d -> known_bytes (acc ++ l) d.
Proof. intros (p & Hp & ->). exists p. split; [by apply known_mono | done]. Qed.

Lemma framed_mono (P P' : list byte -> Prop) alive w :
  (forall d, P d -> P' d) -> framed P alive w -> framed P' alive w.
Proof.
  intros HP (ps & pt & -> & Hps & Hpt). exists ps, pt. split_and!; [done | by eapply Forall_impl |].
  destruct Hpt as [?|(Ha & r & Hr & Hp)]; [by left|]. right. split; [done|]. exists r. auto.
Qed.

Lemma streams_mono (P P' : list byte -> Prop) h evs :
  (forall d, P d -> P' d) -> streams_ok P h evs -> streams_ok P' h evs.
Proof. intros HP [Hh Hf]. split; [done|]. intros a Ha. eapply framed_mono; [exact HP | by apply Hf]. Qed.

(** A connection's stream is the front of a stream of known packets. *)
Lemma framed_stream acc alive w :
  framed (known_bytes acc) alive w ->
  exists ps rest, w ++ rest = concat (encode_packet <$> ps) /\ Forall (known acc) ps.
Proof.
  intros (ds & pt & -> & Hds & Hpt).
  assert (Hps : exists ps, concat ds = concat (encode_packet <$> ps) /\ Forall (known acc) ps).
  { induction Hds as [|d ds (p & Hp & ->) Hds IH]; [by exists []|]. destruct IH as (ps & E & Hk).
    exists (p :: ps). split; [csimpl; by rewrite E | by constructor]. }
  destruct Hps as (ps & -> & Hk). destruct Hpt as [->|(_ & r & _ & p & Hp & E)].
  - exists ps, []. by rewrite !app_nil_r.
  - exists (ps ++ [p]), r. rewrite <- app_assoc, E, fmap_app, concat_app. cbn.
    rewrite app_nil_r. split; [done|]. apply Forall_app. split; [done | by constructor].
Qed.

(** ** The sending end *)

Definition cache_known (acc : list (list byte)) (c : Channel) : Prop :=
  forall id dv, Cache.find id (sentDataCache c) = Some (Some dv) ->
    exists p, dv = encode_data id p /\ known acc (PktData id p).

Record sender_inv (acc : list (list byte)) (c : Channel) (pending : option (list byte)) (evs : list send_event)
  : Prop := {
  si_id : lastSendMessageId c = Z.of_nat (length acc);
  si_cache : cache_known acc c;
  si_send : Forall (known_bytes acc) (queue (Channel.sendQueue c));
  si_resend : Forall (known_bytes acc) (queue (Channel.resendQueue c));
  si_pending : forall d, pending = Some d -> known_bytes acc d;
  si_streams : streams_ok (known_bytes acc) (heap c) evs;
}.

(** Operations that queue only known packets and take connections down at most. *)
Lemma sender_inv_update acc c c' pending evs :
  sender_inv acc c pending evs ->
  lastSendMessageId c' = lastSendMessageId c ->
  (forall id dv, Cache.find id (sentDataCache c') = Some (Some dv) ->
     Cache.find id (sentDataCache c) = Some (Some dv)) ->
  (Forall (known_bytes acc) (queue (Channel.sendQueue c)) -> Forall (known_bytes acc) (queue (Channel.sendQueue c'))) ->
  (Forall (known_bytes acc) (queue (Channel.resendQueue c)) -> Forall (known_bytes acc) (queue (Channel.resendQueue c'))) ->
  links_kept (heap c) (heap c') ->
  sender_inv acc c' pending evs.
Proof.
  intros [H1 H2 H3 H4 H5 H6] Eid Hc Hs Hr Hl. constructor; auto.
  - by rewrite Eid.
  - intros id dv Hf. by apply H2, Hc.
  - by eapply streams_kept.
Qed.

Lemma sender_send acc c pending evs payload c' o :
  Z.of_nat (length acc) < 2 ^ 64 - 1 ->
  sender_inv acc c pending evs -> send payload c = Some (c', o) ->
  sender_inv (acc ++ accepted_by o payload) c' pending evs.
Proof.
  intros Hlen Hinv Hs. unfold send in Hs.
  destruct (opened c); cbn [negb] in Hs; [|injection Hs as <- <-; by rewrite app_nil_r].
  destruct payload as [[|x pl]|]; [injection Hs as <- <-; by rewrite app_nil_r | | injection Hs as <- <-; by rewrite app_nil_r].
  destruct (Nat.ltb_spec VC_MAX_DATA_PAYLOAD_SIZE (length (x :: pl))) as [|Hl];
    [injection Hs as <- <-; by rewrite app_nil_r|].
  destruct (_ <? approxSize _); [injection Hs as <- <-; by rewrite app_nil_r|].
  destruct (Cache.insert _ _ _) as [k|] eqn:Ek; [|done]. injection Hs as <- <-. cbn [accepted_by].
  destruct Hinv as [H1 H2 H3 H4 H5 H6].
  set (p := x :: pl) in *.
  assert (Hnew : known (acc ++ [p]) (PktData (lastSendMessageId c) p)).
  { rewrite H1. split; [split; [unfold is_u64; lia | done]|]. rewrite Nat2Z.id. apply list_lookup_middle. done. }
  assert (Hb : forall d, known_bytes acc d -> known_bytes (acc ++ [p]) d) by (intros; by apply known_bytes_mono).
  constructor; cbn -[encode_data].
  - rewrite H1, length_app. cbn. rewrite u64_small; unfold is_u64; lia.
  - intros id dv Hf. destruct (Cache.find_insert _ _ _ _ _ _ Ek Hf) as [[-> ->]|Hf']; [by exists p|].
    destruct (H2 id dv Hf') as (p' & -> & Hp'). exists p'. split; [done | by apply known_mono].
  - apply Forall_app. split; [by eapply Forall_impl|]. constructor; [|done].
    by exists (PktData (lastSendMessageId c) p).
  - by eapply Forall_impl.
  - auto.
  - by eapply streams_mono.
Qed.


(** Changes outside the fields the invariant speaks of. *)
Lemma sender_set_resend acc c pending evs q sts ids :
  Forall (known_bytes acc) (queue q) ->
  sender_inv acc c pending evs -> sender_inv acc (Channel.set_resend q sts ids c) pending evs.
Proof. intros Hq [H1 H2 H3 H4 H5 H6]. by constructor. Qed.

Lemma sender_mark acc c pending evs nowMs id c' :
  mark_carrier nowMs id c = Some c' -> sender_inv acc c pending evs -> sender_inv acc c' pending evs.
Proof.
  intros Hm Hinv. unfold mark_carrier in Hm. destruct (messageTracker c) as [tr|]; [|by injection Hm as <-].
  destruct (MessageTracker.getConnectionIndex id tr) as [i|]; [|done]. injection Hm as <-.
  case_match; [|done]. apply sender_set_resend; [by apply si_resend in Hinv | done].
Qed.

(** What the cache holds is resent as it was sent. *)
Lemma sender_resend acc c pending evs id dv payload :
  Cache.find id (sentDataCache c) = Some (Some dv) -> cached_payload dv = Some payload ->
  sender_inv acc c pending evs -> sender_inv acc (default_resend id payload c) pending evs.
Proof.
  intros Hf Hp Hinv. destruct (si_cache _ _ _ _ Hinv id dv Hf) as (p & -> & Hk).
  destruct Hk as [[Hid Hl] Hlk]. rewrite cached_payload_encode in Hp by done. injection Hp as <-.
  unfold default_resend. destruct (negb (opened c)); [done|]. apply sender_set_resend; [|done].
  apply Forall_app. split; [by apply si_resend in Hinv|]. constructor; [|done].
  by exists (PktData id p).
Qed.

Lemma sender_resend_request acc c pending evs nowMs id c' :
  processResendRequest nowMs id c = Some c' -> sender_inv acc c pending evs -> sender_inv acc c' pending evs.
Proof.
  unfold processResendRequest. intros Hr Hinv. destruct (mark_carrier nowMs id c) as [c1|] eqn:E; [|done].
  pose proof (sender_mark _ _ _ _ _ _ _ E Hinv) as Hinv1.
  destruct (Cache.find id (sentDataCache c1)) as [[dv|]|] eqn:Ef; [|by injection Hr as <-|done].
  destruct (cached_payload dv) as [payload|] eqn:Ep; [|done]. injection Hr as <-.
  exact (sender_resend _ _ _ _ _ _ _ Ef Ep Hinv1).
Qed.

Lemma sender_missing_notify acc c pending evs now nowMs ids c' :
  processMissingNotify now nowMs ids c = Some c' -> sender_inv acc c pending evs -> sender_inv acc c' pending evs.
Proof.
  unfold processMissingNotify. set (kept := filter _ _). intros Hr Hinv.
  assert (Hinv0 : sender_inv acc (Channel.set_resend (Channel.resendQueue c) (socketStatuses c) kept c) pending evs).
  { apply sender_set_resend; [by apply si_resend in Hinv | done]. }
  revert Hr Hinv0. generalize (Channel.set_resend (Channel.resendQueue c) (socketStatuses c) kept c).
  clear Hinv kept c. induction ids as [|id ids IH]; intros c Hr Hinv; cbn [missing_loop] in Hr; [by injection Hr as <-|].
  destruct (mark_carrier nowMs id c) as [c1|] eqn:E; [|done].
  pose proof (sender_mark _ _ _ _ _ _ _ E Hinv) as Hinv1.
  destruct (pendingResendIds c1 !! id); [by eapply IH|].
  destruct (Cache.find id (sentDataCache c1)) as [[dv|]|] eqn:Ef; [|by eapply IH|done].
  destruct (cached_payload dv) as [payload|] eqn:Ep; [|done]. eapply IH; [exact Hr|].
  pose proof (sender_resend _ _ _ _ _ _ _ Ef Ep Hinv1) as Hinv2.
  apply sender_set_resend; [by apply si_resend in Hinv2 | done].
Qed.

Lemma sender_own_notify acc c pending evs ids :
  packet_ok (PktMissingNotify ids) -> sender_inv acc c pending evs ->
  sender_inv acc (default_missing_notify ids c) pending evs.
Proof.
  intros Hok [H1 H2 H3 H4 H5 H6]. unfold default_missing_notify. destruct (negb (opened c)); [done|].
  constructor; try done. cbn [set_sent Channel.sendQueue enqueue queue fst]. apply Forall_app. split; [done|].
  constructor; [|done]. by exists (PktMissingNotify ids).
Qed.

Lemma disconnect_all_kept slots h : heap_ok h -> links_kept h (disconnect_all slots h).
Proof.
  revert h. induction slots as [|[a|] slots IH]; intros h Hok; cbn [disconnect_all].
  - by apply links_kept_refl.
  - pose proof (disconnect_kept a h Hok) as Hk. eapply links_kept_trans; [exact Hk | apply IH, Hk].
  - by apply IH.
Qed.

(** Taking the channel down only stops things: nothing new is queued. *)
Lemma sender_down acc c pending evs c' :
  lastSendMessageId c' = lastSendMessageId c ->
  (forall id dv, Cache.find id (sentDataCache c') = Some (Some dv) -> Cache.find id (sentDataCache c) = Some (Some dv)) ->
  queue (Channel.sendQueue c') = queue (Channel.sendQueue c) ->
  queue (Channel.resendQueue c') = queue (Channel.resendQueue c) ->
  links_kept (heap c) (heap c') ->
  sender_inv acc c pending evs -> sender_inv acc c' pending evs.
Proof.
  intros Ei Hc Es Er Hl Hinv. apply (sender_inv_update acc c); [done | done | done | by rewrite Es | by rewrite Er | done].
Qed.

Lemma sender_disconnectCB acc c pending evs :
  sender_inv acc c pending evs -> sender_inv acc (disconnectCB c).1 pending evs.
Proof.
  intros Hinv. unfold disconnectCB. case_match; [done|]. case_match; [done|].
  apply (sender_down acc c); try done. apply disconnect_all_kept, Hinv.
Qed.

Lemma find_clear {D} id (k : Cache.SentDataCache (D := D)) dv : Cache.find id (Cache.clear k) <> Some (Some dv).
Proof.
  unfold Cache.find, Cache.clear; cbn [Cache.shards]. rewrite length_fmap. destruct (shard_index _ _) as [i|]; [|done].
  rewrite list_lookup_fmap. destruct (Cache.shards k !! i); [|done]. cbn. by rewrite lookup_empty.
Qed.

Lemma sender_close acc c pending evs :
  sender_inv acc c pending evs -> sender_inv acc (close c) pending evs.
Proof.
  intros Hinv. unfold close.
  apply (sender_down acc c); cbn -[Cache.clear];
    [by case_match | intros id dv Hf; by apply find_clear in Hf | by case_match | by case_match | | done].
  destruct (opened c); cbn; [apply disconnect_all_kept, Hinv | apply links_kept_refl, Hinv].
Qed.

Lemma sender_kill acc c pending evs a :
  sender_inv acc c pending evs ->
  sender_inv acc (set_heap (alter (fun t => (disconnect t).1) a (heap c)) c) pending evs.
Proof. intros Hinv. apply (sender_down acc c); try done. apply disconnect_kept, Hinv. Qed.

Lemma sender_replace acc c pending evs slot fd a :
  heap c !! a = None -> sender_inv acc c pending evs ->
  sender_inv acc (Channel.replaceConnection slot fd a c).1 pending evs.
Proof.
  intros Ha Hinv. unfold Channel.replaceConnection. case_match; [done|].
  apply (sender_down acc c); try done. cbn. split.
  - intros b cb Hb. apply lookup_insert_Some in Hb as [[_ <-]|[_ Hb]]; [done|].
    by apply (proj1 (si_streams _ _ _ _ Hinv) b).
  - intros b. unfold conn_alive. destruct (decide (a = b)) as [->|Hne]; [by rewrite Ha|]. by rewrite lookup_insert_ne.
Qed.

Lemma sender_thread acc c t evs0 o t' evs :
  sender_inv acc c (pendingDataVec t) evs0 ->
  run_thread_op o (attach c t) = Some (t', evs) ->
  sender_inv acc (publish t' c) (pendingDataVec t') (evs0 ++ evs).
Proof.
  intros [H1 H2 H3 H4 H5 H6] Hs.
  assert (Hok : thread_ok (known_bytes acc) (attach c t) evs0) by (split; [by split_and! | done]).
  destruct (run_thread_op_ok _ _ _ _ evs0 _ Hok Hs) as [(Hq1 & Hq2 & Hp) Hst].
  by constructor.
Qed.

(** ** The receiving end *)

Definition known_item (acc : list (list byte)) (d : DeliveryItem) : Prop :=
  0 <= messageId d /\ acc !! Z.to_nat (messageId d) = Some (Reorder.data d).

Definition known_event (acc : list (list byte)) (e : io_event) : Prop :=
  match e with EvData id payload _ => known acc (PktData id payload) | _ => True end.

Lemma known_item_mono acc l d : known_item acc d -> known_item (acc ++ l) d.
Proof. intros [? ?]. split; [done | by apply lookup_app_l_Some]. Qed.

Lemma known_item_fresh acc d :
  Z.of_nat (length acc) < 2 ^ 64 - 1 -> known_item acc d -> fresh_item d.
Proof. intros Hl [H0 Hd]. apply lookup_lt_Some in Hd. unfold fresh_item. lia. Qed.

Definition queues_known (acc : list (list byte)) (qs : list Q) : Prop :=
  Forall (fun q => bf_wf q /\ Forall (known_item acc) (bf_view q)) qs.

(** What one connection has brought: known packets, and the beginning of
    another in the read buffer. *)
Definition link_inv (acc : list (list byte)) (evs : list send_event) (b : ReadBuffer) (l : link) : Prop :=
  rb_wf b /\ received l `prefix_of` wire_of (peer_conn l) evs
  /\ exists reported, Forall (known acc) reported
       /\ received l = concat (encode_packet <$> reported) ++ begin b.

Lemma deliver_events_app e1 e2 qs seq :
  deliver_events (e1 ++ e2) qs seq
  = (let '(qs1, seq1) := deliver_events e1 qs seq in deliver_events e2 qs1 seq1).
Proof.
  revert qs seq. induction e1 as [|[id p i|m|ids|e|] e1 IH]; intros qs seq; cbn [app deliver_events]; try apply IH; [done|].
  destruct (processReceivedData _ qs seq) as [[qs1 seq1] ok]. apply IH.
Qed.

(** A full queue drops the item; nothing else gets in. *)
Lemma deliver_known acc evs qs seq :
  Forall (known_event acc) evs -> queues_known acc qs -> queues_known acc (deliver_events evs qs seq).1.
Proof.
  intros He. revert qs seq. induction He as [|e evs He Hes IH]; intros qs seq Hq; [done|].
  destruct e as [id p i|m|ids|e|]; cbn [deliver_events]; try (by apply IH).
  unfold processReceivedData. cbn [sourceConnIndex].
  destruct (_ && _); [|by apply IH]. destruct (qs !! Z.to_nat i) as [q|] eqn:Ei; [|by apply IH].
  destruct (proj1 (Forall_lookup _ _) Hq _ _ Ei) as [Hw Hv].
  destruct (bf_enqueue_law (mkDeliveryItem id p i) q Hw) as (Hw1 & _ & Hv1).
  destruct (bf_enqueue (mkDeliveryItem id p i) q) as [q1 ok]. cbn [fst] in *.
  assert (Hq1 : queues_known acc (<[Z.to_nat i := q1]> qs)).
  { apply Forall_insert; [done|]. split; [done|]. rewrite Hv1. apply Forall_app. split; [done|].
    case_match; [|constructor]. constructor; [|constructor]. destruct He as [[[Hid _] _] Hl]. by split. }
  destruct ok; by apply IH.
Qed.

Lemma append_app x y b : append (x ++ y) b = append y (append x b).
Proof. unfold append. cbn. by rewrite app_assoc. Qed.

Lemma recv_loop_taken acc cb rs c b go c' b' evs :
  recv_loop cb rs c b = Some (go, c', b', evs) ->
  b' = append (recv_taken rs) b /\ Forall (known_event acc) evs.
Proof.
  assert (Hdrop : forall c, Forall (known_event acc) (drop_connection cb c).2).
  { intros c0. unfold drop_connection. destruct (disconnect c0) as [c1 e]. cbn [snd]. apply Forall_app. split.
    - apply Forall_fmap, Forall_true. done.
    - destruct (vcDisconnectCallback cb); repeat constructor. }
  assert (Hnil : append [] b = b) by (unfold append; rewrite app_nil_r; by destruct b).
  revert b Hnil. induction rs as [|[r|] rs IH]; intros b Hnil Hr; cbn [recv_loop] in Hr; [done| |].
  2: { injection Hr as <- <- <- <-. cbn [recv_taken]. by rewrite Hnil. }
  destruct (Z.ltb_spec 0 (RecvTcpDirect r)) as [Hpos|Hn].
  - apply RecvTcpDirect_pos in Hpos as (x & bs & ->).
    cbn [recv_taken recv_bytes] in *. rewrite append_app. apply IH; [|exact Hr].
    unfold append. rewrite app_nil_r. done.
  - assert (Ht : recv_taken (Some r :: rs) = []) by (by destruct r as [[|x bs]|e]).
    rewrite Ht, Hnil. specialize (Hdrop c). destruct (drop_connection cb c) as [c1 e1]. cbn [snd] in Hdrop.
    repeat case_match; injection Hr as <- <- <- <-; (split; [done|]); done || constructor.
Qed.

(** A connection that is still up after a read is the one that was read. *)
Lemma read_keeps cb i rs c b c' b' evs :
  readFromConnection cb i rs (Some c) b = Some (Some c', b', evs) -> connected c' = true -> c' = c.
Proof.
  unfold readFromConnection. destruct (negb (connected c)); [by intros [= <- _ _]|].
  assert (Hdrop : forall c1 e1, drop_connection cb c = (c1, e1) -> connected c1 = false).
  { intros c1 e1. unfold drop_connection. pose proof (disconnect_link c) as Hd. unfold disconnect in *.
    destruct (connected c) eqn:E; cbn [negb] in *; intros [= <- _]; done. }
  assert (Hl : forall rs b go c1 b1 e1, recv_loop cb rs c b = Some (go, c1, b1, e1) -> connected c1 = true -> c1 = c).
  { clear rs b b' evs. intros rs. induction rs as [|[r|] rs IH]; intros b go c1 b1 e1 Hr Hup; cbn [recv_loop] in Hr;
      [done | | by injection Hr as _ <- _ _].
    destruct (0 <? RecvTcpDirect r); [by eapply IH|].
    destruct (drop_connection cb c) as [c2 e2]. specialize (Hdrop c2 e2 eq_refl).
    repeat case_match; injection Hr as _ <- _ _; congruence. }
  clear Hdrop. destruct (recv_loop cb rs c b) as [[[[go c1] b1] e1]|] eqn:El; [|done].
  destruct go; [destruct (parse_buffer cb i b1) as [[b2 e2]|]; [|done]|]; intros [= <- _ _]; by eapply Hl.
Qed.

(** A piece of the stream is read: the packets it completes are known ones. *)
Lemma read_known acc (evs0 : list send_event) h i rs c b l oc b' evs :
  framed (known_bytes acc) (conn_alive h (peer_conn l)) (wire_of (peer_conn l) evs0) ->
  link_inv acc evs0 b l -> connected c = true ->
  (received l ++ recv_taken rs) `prefix_of` wire_of (peer_conn l) evs0 ->
  readFromConnection all_callbacks i rs (Some c) b = Some (oc, b', evs) ->
  link_inv acc evs0 b' (mkLink (peer_conn l) (received l ++ recv_taken rs) (seen_fd l)) /\ Forall (known_event acc) evs.
Proof.
  intros Hfr (Hwf & _ & rep & Hrep & Erec) Hc Hpre Hr. unfold readFromConnection in Hr. rewrite Hc in Hr. cbn [negb] in Hr.
  destruct (recv_loop all_callbacks rs c b) as [[[[go c1] b1] e1]|] eqn:El; [|done].
  destruct (recv_loop_taken acc _ _ _ _ _ _ _ _ El) as [-> He1].
  pose proof (rb_wf_append (recv_taken rs) b Hwf) as Hwf1.
  pose proof (begin_append (recv_taken rs) b Hwf) as Hb1.
  destruct go.
  2: { injection Hr as <- <- <-. split; [|done]. split; [done|]. split; [done|]. exists rep. split; [done|].
       cbn [received]. by rewrite Erec, Hb1, app_assoc. }
  destruct (framed_stream _ _ _ Hfr) as (ps & rest & Eps & Hps). destruct Hpre as [r1 Epre]. rewrite Epre in Eps.
  assert (Hok : forall ps, Forall (known acc) ps -> Forall packet_ok ps)
    by (intros ps' Hps'; eapply Forall_impl; [exact Hps' | by intros p [? _]]).
  destruct (encode_stream_prefix (HL := io_parser_laws all_callbacks i) rep ps
              (begin b ++ recv_taken rs ++ r1 ++ rest) emptyReadBuffer rb_wf_empty eq_refl (Hok _ Hrep) (Hok _ Hps))
    as (qs1 & qs2 & -> & _ & E2).
  { rewrite Erec, <- !app_assoc in Eps. exact Eps. }
  apply Forall_app in Hps as [_ Hqs2].
  destruct (parse_prefix (HL := io_parser_laws all_callbacks i) qs2 (append (recv_taken rs) b) (r1 ++ rest)
              (Hok _ Hqs2) Hwf1) as (ps1 & ps2 & s' & -> & Hp & Hwf' & Hv' & _).
  { change (begin (append (recv_taken rs) b) ++ r1 ++ rest = concat (encode_packet <$> qs2)).
    rewrite Hb1, <- app_assoc. exact E2. }
  change (parse_buffer all_callbacks i (append (recv_taken rs) b) 
          = Some (s', concat (packet_events all_callbacks i <$> ps1))) in Hp.
  rewrite Hp in Hr. injection Hr as <- <- <-.
  apply Forall_app in Hqs2 as [Hps1 Hps2]. split.
  - split; [done|]. split; [by exists r1|]. exists (rep ++ ps1). split; [by apply Forall_app|].
    cbn [received]. rewrite Erec, fmap_app, concat_app, <- !app_assoc. f_equal.
    apply (app_inv_tail (r1 ++ rest)). rewrite <- !app_assoc.
    change (begin b ++ recv_taken rs ++ r1 ++ rest = concat (encode_packet <$> (ps1 ++ ps2))) in E2. rewrite E2.
    change (begin s' ++ r1 ++ rest = concat (encode_packet <$> ps2)) in Hv'. 
    by rewrite Hv', fmap_app, concat_app.
  - apply Forall_app. split; [done|]. apply Forall_concat, Forall_fmap.
    eapply Forall_impl; [exact Hps1|]. intros [id p|id m|ids] Hk; apply Forall_singleton; [exact Hk | done | done].
Qed.

(** ** Refinement *)

(** The specification delivers ascending known messages. *)
Lemma spec_delivers l items n lo hi o :
  n <= lo -> ascending lo hi (messageId <$> items) -> Forall (known_item l) items -> n <= hi ->
  exists n', rtc Spec.step (Spec.mkLossyQueue l n o) (Spec.mkLossyQueue l n' (o ++ (payload_of <$> items)))
             /\ n' <= hi.
Proof.
  intros Hn [Hs Hb] Hk Hhi. revert n lo o Hn Hs Hb Hhi.
  induction Hk as [|d items [H0 Hl] Hk IH]; intros n lo o Hn Hs Hb Hhi.
  - exists n. cbn. by rewrite app_nil_r.
  - rewrite fmap_cons in *. apply Sorted.StronglySorted_inv in Hs as [Hs Hd].
    apply Forall_cons in Hb as [Hb0 Hb].
    destruct (IH (messageId d + 1) (messageId d + 1) (o ++ [payload_of d])) as (n' & Hr & Hn'); [lia | done | | lia |].
    + apply Forall_forall. intros x Hx. rewrite Forall_forall in Hb. specialize (Hb x Hx).
      apply list_elem_of_In in Hx. rewrite List.Forall_forall in Hd. specialize (Hd x Hx). lia.
    + exists n'. split; [|done]. eapply rtc_l; [|rewrite <- app_assoc in Hr; exact Hr].
      apply Spec.deliver; [lia | done].
Qed.

(** What is in a slot's buffer matters while its connection is up. *)
Definition slot_inv (acc : list (list byte)) (evs : list send_event) (c : TcpConnection) (b : ReadBuffer) (l : link)
  : Prop :=
  rb_wf b /\ (connected c = true -> link_inv acc evs b l /\ (seen_fd l = socketFd c \/ begin b = [])).

Record tunnel_inv (s : tunnel) : Prop := {
  ti_sender : sender_inv (accepted s) (tx s) (pendingDataVec (th s)) (log s);
  ti_links : forall i c b l, rc_conns (rx s) !! i = Some (c, b) -> links s !! i = Some l ->
               slot_inv (accepted s) (log s) c b l;
  ti_queues : queues_known (accepted s) (rc_queues (rx s));
  ti_map : map_ok (rc_reorder (rx s));
  ti_buffered : forall d, item_at (receivedDataMap (rc_reorder (rx s))) d -> known_item (accepted s) d;
  ti_spec : exists n, rtc Spec.step Spec.empty_queue
                          (Spec.mkLossyQueue (accepted s) n (payload_of <$> outputs s))
                      /\ n <= nextMessageId (rc_reorder (rx s));
}.

Lemma link_inv_grow acc l evs evs' b k :
  link_inv acc evs b k -> link_inv (acc ++ l) (evs ++ evs') b k.
Proof.
  intros (Hw & Hp & rep & Hr & E). split; [done|]. split; [rewrite wire_of_app; by apply prefix_app_r|].
  exists rep. split; [|done]. eapply Forall_impl; [exact Hr|]. intros p. apply known_mono.
Qed.

Lemma slot_inv_grow acc l evs evs' c b k :
  slot_inv acc evs c b k -> slot_inv (acc ++ l) (evs ++ evs') c b k.
Proof.
  intros [Hw Hl]. split; [done|]. intros Hup. destruct (Hl Hup) as [H1 H2]. split; [by apply link_inv_grow | done].
Qed.

(** The buffer after the poll is prepared. *)
Lemma reset_buffer_begin b fds : begin b = [] -> begin (reset_buffer b fds) = [].
Proof. unfold reset_buffer. by case_match. Qed.

Lemma slot_inv_prepare acc evs c b l :
  slot_inv acc evs c b l ->
  slot_inv acc evs c (reset_buffer b (seen_fd l, current_fd c)) (mkLink (peer_conn l) (received l) (current_fd c)).
Proof.
  intros [Hw Hl]. split; [by apply reset_buffer_wf|]. intros Hup. destruct (Hl Hup) as [(_ & Hp & rep & Hr & E) Hs].
  assert (Eb : begin (reset_buffer b (seen_fd l, current_fd c)) = begin b).
  { unfold reset_buffer, current_fd. rewrite Hup. cbn. destruct Hs as [->|Hs]; [by rewrite Z.eqb_refl|].
    destruct (_ =? _); [done | by rewrite Hs]. }
  split; [|left; unfold current_fd; by rewrite Hup].
  split; [by apply reset_buffer_wf|]. split; [done|]. exists rep. split; [done|]. cbn [received]. by rewrite Eb.
Qed.

(** A step of the sending end. *)
Lemma inv_sender_step s c t evs l :
  tunnel_inv s ->
  sender_inv (accepted s ++ l) c (pendingDataVec t) (log s ++ evs) -> (length l <= 1)%nat ->
  tunnel_inv (mkTunnel c t (log s ++ evs) (accepted s ++ l) (rx s) (links s) (outputs s) (mixed s)).
Proof.
  intros [_ Hl Hq Hm Hb (n & Hr & Hn)] Hs Hlen. constructor; cbn; try done.
  - intros i c0 b k Hc Hk. apply slot_inv_grow. by eapply Hl.
  - eapply Forall_impl; [exact Hq|]. intros q [Hw Hv]. split; [done|].
    eapply Forall_impl; [exact Hv|]. intros d. apply known_item_mono.
  - intros d Hd. apply known_item_mono. by apply Hb.
  - exists n. split; [|done]. destruct l as [|p [|]]; [by rewrite app_nil_r| |cbn in Hlen; lia].
    eapply rtc_r; [exact Hr | constructor].
Qed.

(** The same when nothing is accepted and nothing is written. *)
Lemma inv_quiet_step s c t :
  tunnel_inv s -> sender_inv (accepted s) c (pendingDataVec t) (log s) ->
  tunnel_inv (mkTunnel c t (log s) (accepted s) (rx s) (links s) (outputs s) (mixed s)).
Proof.
  intros Hi Hs. pose proof (inv_sender_step s c t [] [] Hi) as Hx. rewrite !app_nil_r in Hx.
  apply Hx; [done | cbn; lia].
Qed.

(** A step of the IO thread on slot [i]. *)
Lemma inv_read_step s i c b l qs seq mix :
  tunnel_inv s -> slot_inv (accepted s) (log s) c b l -> queues_known (accepted s) qs ->
  tunnel_inv (set_rx_link i c b l qs seq mix s).
Proof.
  intros [Hs Hl Hq Hm Hb Hr] Hli Hqs. constructor; cbn; try done.
  intros j c0 b0 l0 Hc Hk. destruct (decide (i = j)) as [->|Hne].
  - apply list_lookup_insert_Some in Hc as [(_ & [= <- <-] & _)|[? _]]; [|done].
    apply list_lookup_insert_Some in Hk as [(_ & <- & _)|[? _]]; [done|done].
  - rewrite list_lookup_insert_ne in Hc by done. rewrite list_lookup_insert_ne in Hk by done. by eapply Hl.
Qed.

Lemma inv_reorder_step s cfg clk items qs r o :
  Z.of_nat (length (accepted s)) < 2 ^ 64 - 1 -> tunnel_inv s ->
  drain_queues (rc_queues (rx s)) = Some (items, qs) ->
  reorder_iteration cfg clk items (rc_reorder (rx s)) = Some (r, o) ->
  tunnel_inv (mkTunnel (tx s) (th s) (log s) (accepted s) (mkReceiver (rc_conns (rx s)) qs (rc_seq (rx s)) r)
                (links s) (outputs s ++ itemsToDeliver o) (mixed s)).
Proof.
  intros Hlen [Hs Hl Hq Hm Hb (n & Hr & Hn)] Hd Hi.
  destruct (drain_queues_view (rc_queues (rx s))) as (qs' & Ed & Hw' & He' & _).
  { eapply Forall_impl; [exact Hq | by intros q [? _]]. }
  rewrite Ed in Hd. injection Hd as <- <-.
  assert (Hk : Forall (known_item (accepted s)) (concat (bf_view <$> rc_queues (rx s)))).
  { apply Forall_concat, Forall_fmap. eapply Forall_impl; [exact Hq | by intros q [_ ?]]. }
  destruct (iteration_meets_spec cfg clk (concat (bf_view <$> rc_queues (rx s))) (rc_reorder (rx s)) Hm)
    as (r' & o' & E & Hspec).
  { eapply Forall_impl; [exact Hk|]. intros d. by apply known_item_fresh. }
  rewrite E in Hi. injection Hi as -> ->.
  destruct (iteration_step _ _ _ _ _ _ _ Hm Hspec) as (Hm' & Hle & Ha & Hfr & Hmap).
  assert (Hfrom : forall d, comes_from (receivedDataMap (rc_reorder (rx s))) (concat (bf_view <$> rc_queues (rx s))) d ->
            known_item (accepted s) d).
  { intros d [Hd|Hd]; [by apply Hb | by apply (proj1 (Forall_forall _ _) Hk)]. }
  constructor; cbn; try done.
  - apply Forall_forall. intros q Hin. rewrite Forall_forall in Hw'. rewrite Forall_forall in He'.
    split; [by apply Hw' | rewrite (He' q Hin); constructor].
  - intros d Hd. apply Hfrom, Hmap, Hd.
  - rewrite fmap_app.
    destruct (spec_delivers (accepted s) (itemsToDeliver o) n _ _ (payload_of <$> outputs s) Hn Ha) as (n' & Hr' & Hn').
    + eapply Forall_impl; [exact Hfr | exact Hfrom].
    + lia.
    + exists n'. split; [by etrans | done].
Qed.

Lemma clean_before s s' : tunnel_step s s' -> clean s' -> clean s.
Proof.
  intros Hst [Hm Hs].
  assert (Hm0 : (mixed s = true -> mixed s' = true) /\ exists e, log s' = log s ++ e).
  { destruct Hst; cbn; (split; [by intros -> | first [by exists []; rewrite app_nil_r | by eexists]]). }
  destruct Hm0 as [Hmono [e He]]. split.
  - destruct (mixed s); [|done]. specialize (Hmono eq_refl). congruence.
  - intros a. specialize (Hs a). rewrite He in Hs. by apply stray_free_app in Hs as [? _].
Qed.

Lemma tunnel_inv_step s s' :
  Z.of_nat (length (accepted s)) < 2 ^ 64 - 1 -> clean s' -> tunnel_inv s -> tunnel_step s s' -> tunnel_inv s'.
Proof.
  intros Hlen Hcl Hi Hst. pose proof (ti_sender s Hi) as Hs. pose proof (clean_before s s' Hst Hcl) as [_ Hclean].
  destruct Hst as [payload c o E|now nowMs ids c E|nowMs id c E|ids Hok| | |a|slot fd a now Ha
                    |o t evs E|i rs c b l c' b' evs qs seq Hc Hk Hup Hfd Hpre Hrd Hdl
                    |i rs c b l c' b' evs qs seq Hc Hk Hup Hrd Hdl|i c b l Hc Hk|i c0 b l c a Hc Hk b'|i c b l Hc Hk
                    |cfg clk items qs r o Hd E].
  - pose proof (inv_sender_step s c (th s) [] (accepted_by o payload) Hi) as Hx. rewrite app_nil_r in Hx.
    apply Hx; [by eapply sender_send|]. unfold accepted_by. repeat case_match; cbn; lia.
  - apply inv_quiet_step; [done | by eapply sender_missing_notify].
  - apply inv_quiet_step; [done | by eapply sender_resend_request].
  - apply inv_quiet_step; [done | by apply sender_own_notify].
  - apply inv_quiet_step; [done | by apply sender_disconnectCB].
  - apply inv_quiet_step; [done | by apply sender_close].
  - apply inv_quiet_step; [done | by apply sender_kill].
  - apply inv_quiet_step; [done|]. apply sender_replace; [done|].
    unfold SendThread.replaceConnection. by case_match.
  - pose proof (inv_sender_step s (publish t (tx s)) t evs [] Hi) as Hx. rewrite app_nil_r in Hx.
    apply Hx; [by eapply sender_thread | cbn; lia].
  - destruct (proj2 (ti_links s Hi _ _ _ _ Hc Hk) Hup) as [Hli _].
    destruct (read_known (accepted s) (log s) (heap (tx s)) _ _ _ _ _ _ _ _
                (proj2 (si_streams _ _ _ _ Hs) _ (Hclean _)) Hli Hup Hpre Hrd) as [Hli' He].
    pose proof (deliver_known (accepted s) evs (rc_queues (rx s)) (rc_seq (rx s)) He (ti_queues s Hi)) as Hq.
    rewrite Hdl in Hq. apply inv_read_step; [done | | exact Hq]. split; [apply Hli'|]. intros Hup'. split; [done|].
    left. by rewrite (read_keeps _ _ _ _ _ _ _ _ Hrd Hup').
  - exfalso. destruct Hcl as [Hm _]. cbn in Hm. by destruct (mixed s).
  - apply inv_read_step; [done | by apply slot_inv_prepare, (ti_links s Hi i) | apply Hi].
  - assert (Hb' : begin b' = []).
    { destruct Hcl as [Hm _]. cbn in Hm. apply orb_false_iff in Hm as [_ Hm%negb_false_iff]. by apply bool_decide_eq_true in Hm. }
    assert (Hw' : rb_wf b') by (apply reset_buffer_wf, (proj1 (ti_links s Hi _ _ _ _ Hc Hk))).
    apply inv_read_step; [done | | apply Hi]. split; [done|]. intros _. split; [|by right].
    split; [done|]. split; [apply prefix_nil|]. exists []. cbn. by rewrite Hb'.
  - apply inv_read_step; [done | | apply Hi]. split; [exact (proj1 (ti_links s Hi _ _ _ _ Hc Hk))|].
    intros Hup. exfalso. revert Hup. unfold disconnect. destruct (connected c) eqn:Ec; cbn; congruence.
  - by eapply inv_reorder_step.
Qed.

Lemma sender_inv_init base fds callback : sender_inv [] (open (newChannel base fds ∅ callback)) None [].
Proof.
  constructor; cbn; try done.
  - intros id dv Hf. exfalso. unfold Cache.find in Hf. cbn [Cache.shards Cache.newSentDataCache] in Hf.
    destruct (shard_index _ _) as [i|]; [|done]. injection Hf as Hf. apply bind_Some in Hf as (sh & Hsh & Hit).
    apply lookup_replicate in Hsh as [-> _]. cbn in Hit. by rewrite lookup_empty in Hit.
  - split.
    + intros a t Ha. rewrite map_union_empty in Ha. apply elem_of_list_to_map_2, elem_of_zip_r in Ha.
      by apply list_elem_of_fmap in Ha as (fd & -> & _).
    + intros a. exists [], []. split_and!; [done | constructor | by left].
Qed.

Lemma tunnel_inv_init s : tunnel_init s -> tunnel_inv s.
Proof.
  intros (base & fds & cb & now & conns & qs & n & openedAt & ls & -> & Hc & Hq & Hl & Hls).
  constructor; cbn -[open].
  - apply sender_inv_init.
  - intros i c b l Hi Hk. rewrite Forall_lookup in Hc. specialize (Hc _ _ Hi). cbn in Hc. subst b.
    rewrite Forall_lookup in Hls. destruct (Hls _ _ Hk) as [Hr _]. split; [apply rb_wf_empty|]. intros _.
    split; [|by right]. split; [apply rb_wf_empty|]. rewrite Hr. split; [apply prefix_nil|]. exists []. by split.
  - eapply Forall_impl; [exact Hq|]. intros q [Hw Hv]. split; [done|]. rewrite Hv. constructor.
  - apply map_ok_new.
  - intros d Hd. unfold item_at in Hd. cbn in Hd. by rewrite lookup_empty in Hd.
  - exists 0. by split; [|cbn].
Qed.

Lemma accepted_grows s s' : tunnel_step s s' -> (length (accepted s) <= length (accepted s'))%nat.
Proof. intros Hst. destruct Hst; cbn; rewrite ?length_app; lia. Qed.

Lemma tunnel_inv_reachable s :
  reachable tunnel_init tunnel_step s -> Z.of_nat (length (accepted s)) < 2 ^ 64 - 1 -> clean s -> tunnel_inv s.
Proof.
  revert s. apply (invariant_reachable tunnel_init tunnel_step
    (fun s => Z.of_nat (length (accepted s)) < 2 ^ 64 - 1 -> clean s -> tunnel_inv s)).
  - intros s Hs _ _. by apply tunnel_inv_init.
  - intros s s' IH Hst Hlen Hcl. pose proof (accepted_grows s s' Hst).
    apply (tunnel_inv_step s); [lia | done | apply IH; [lia | by eapply clean_before] | done].
Qed.

(** C1. The channel refines a queue that may drop: in every reachable state of
    sender, network and receiver, whatever was lost, cut, duplicated, resent,
    reordered across connections, dropped by full queues or skipped by timeout,
    and whichever connections died and were replaced, even in the middle of a
    packet, there is a run of the specification that accepted the payloads send()
    accepted and has output exactly what receiveCallback got; so the output is in
    order, each message once at most and with the bytes that were sent.  This
    excludes the runs in which a descriptor number was reused under one of the
    threads ([clean]): a slot replaced by a connection with the number of the old
    one while its buffer held an unfinished packet, and send(2) or recv(2)
    on a number closed since it was read.  In those streams mix
    (IoThread.fd_reuse_mixes_streams, SendThread.reused_number_gets_stray_bytes). *)
Theorem tunnel_refines_lossy_queue (s : tunnel) :
  reachable tunnel_init tunnel_step s -> Z.of_nat (length (accepted s)) < 2 ^ 64 - 1 -> clean s ->
  exists q, rtc Spec.step Spec.empty_queue q /\ Spec.in_order q
    /\ Spec.sent q = accepted s /\ Spec.out q = payload_of <$> outputs s.
Proof.
  intros Hr Hl Hcl. destruct (ti_spec s (tunnel_inv_reachable s Hr Hl Hcl)) as (n & Hrun & _).
  eexists. split; [exact Hrun|]. split; [by apply Spec.in_order_run | done].
Qed.
End tunnel.

(** ** A run: one message through the tunnel *)

#[local] Existing Instance receive_fifo.
#[local] Existing Instance receive_fifo_laws.

Definition run_channel : Channel := open (newChannel 0 [5] ∅ false).

Definition run_thread : SendThread := newSendThread (Channel.connections run_channel) (heap run_channel) 0.

Definition run0 : tunnel (Q := SpscQueue.SpscQueue) :=
  mkTunnel run_channel run_thread [] []
    (mkReceiver [(reused_fd_conn, emptyReadBuffer)] [receive_queue] 0 (newReorderState 1 0)) [mkLink 0 [] (-1)] [] false.

Definition run_sent : Channel * send_outcome :=
  default (run_channel, SendClosed) (send (Some [Byte.x41]) run_channel).

Definition run1 : tunnel :=
  mkTunnel run_sent.1 run_thread [] (accepted_by run_sent.2 (Some [Byte.x41])) (rx run0) (links run0) [] false.

Definition run_iterated : SendThread * list send_event :=
  default (run_thread, [])
    (send_iteration 0 0 (fun _ => None) (fun _ _ => sends_all 12) (fun _ => sends_all 12) true
       (attach (tx run1) (th run1))).

Definition run2 : tunnel :=
  mkTunnel (publish run_iterated.1 (tx run1)) run_iterated.1 run_iterated.2 (accepted run1) (rx run1) (links run1) [] false.

Definition run_recv : list (option os_recv) := [Some (RecvOk (encode_data 0 [Byte.x41])); Some (RecvErr EAGAIN)].

Definition run_read : option TcpConnection * ReadBuffer * list io_event :=
  default (None, emptyReadBuffer, [])
    (readFromConnection all_callbacks 0 run_recv (Some reused_fd_conn) emptyReadBuffer).

Definition run_delivered : list SpscQueue.SpscQueue * Z := deliver_events run_read.2 [receive_queue] 0.

(** The IO thread prepares its poll, then reads. *)
Definition run_seen : link := mkLink 0 [] (current_fd reused_fd_conn).

Definition run2' : tunnel :=
  set_rx_link 0 reused_fd_conn (reset_buffer emptyReadBuffer (-1, current_fd reused_fd_conn)) run_seen
    [receive_queue] 0 false run2.

Definition run3 : tunnel :=
  set_rx_link 0 (default reused_fd_conn run_read.1.1) run_read.1.2
    (mkLink 0 (recv_taken run_recv) (current_fd reused_fd_conn)) run_delivered.1 run_delivered.2 false run2'.

Definition run_drained : list DeliveryItem * list SpscQueue.SpscQueue :=
  default ([], []) (drain_queues run_delivered.1).

Definition run_reordered : ReorderState * reorder_output :=
  default (newReorderState 1 0, mkReorderOutput [] None NoWait)
    (reorder_iteration default_config (at_ms 5) run_drained.1 (newReorderState 1 0)).

Definition run4 : tunnel :=
  mkTunnel (tx run3) (th run3) (log run3) (accepted run3)
    (mkReceiver (rc_conns (rx run3)) run_drained.2 (rc_seq (rx run3)) run_reordered.1) (links run3)
    (itemsToDeliver run_reordered.2) false.

Lemma Some_default {A} (d : A) (x : option A) : is_Some x -> x = Some (default d x).
Proof. by intros [y ->]. Qed.

Lemma run_reachable : reachable tunnel_init tunnel_step run4.
Proof.
  exists run0. split.
  - exists 0%nat, [5], false, 0, [(reused_fd_conn, emptyReadBuffer)], [receive_queue], 1%nat, 0, [mkLink 0 [] (-1)].
    destruct receive_queue_ok as [Hw Hv]. by split_and!; [|repeat constructor..].
  - apply (rtc_l _ _ run1).
    { apply (t_send run0 (Some [Byte.x41]) run_sent.1 run_sent.2). rewrite <- surjective_pairing.
      apply Some_default. vm_compute. eexists; reflexivity. }
    apply (rtc_l _ _ run2).
    { apply (t_thread run1 (ThIterate 0 0 (fun _ => None) (fun _ _ => sends_all 12) (fun _ => sends_all 12) true)
               run_iterated.1 run_iterated.2). cbn [run_thread_op]. rewrite <- surjective_pairing.
      apply Some_default. vm_compute. eexists; reflexivity. }
    apply (rtc_l _ _ run2').
    { by apply (t_prepare run2 0 reused_fd_conn emptyReadBuffer (mkLink 0 [] (-1))). }
    apply (rtc_l _ _ run3).
    { apply (t_read run2' 0 run_recv reused_fd_conn emptyReadBuffer run_seen (default reused_fd_conn run_read.1.1)
               run_read.1.2 run_read.2 run_delivered.1 run_delivered.2);
        [reflexivity | reflexivity | reflexivity | reflexivity | | |].
      - exists []. vm_compute. reflexivity.
      - vm_compute. reflexivity.
      - by rewrite <- surjective_pairing. }
    apply rtc_once.
    apply (t_reorder run3 default_config (at_ms 5) run_drained.1 run_drained.2 run_reordered.1 run_reordered.2).
    + rewrite <- surjective_pairing. apply Some_default. vm_compute. eexists; reflexivity.
    + rewrite <- surjective_pairing. apply Some_default. vm_compute. eexists; reflexivity.
Qed.

Lemma tunnel_refines_lossy_queue_witness :
  exists q, rtc Spec.step Spec.empty_queue q /\ Spec.in_order q
    /\ Spec.sent q = [[Byte.x41]] /\ Spec.out q = [(0, [Byte.x41])].
Proof.
  assert (Ha : accepted run4 = [[Byte.x41]]) by (vm_compute; reflexivity).
  assert (Ho : payload_of <$> outputs run4 = [(0, [Byte.x41])]) by (vm_compute; reflexivity).
  destruct (tunnel_refines_lossy_queue run4 run_reachable) as (q & Hr & Hi & Hs & Hout).
  - rewrite Ha. cbn. lia.
  - split; [reflexivity|]. intros a.
    assert (Hl : log run4 = [EvWire 0 (encode_data 0 [Byte.x41])]) by (vm_compute; reflexivity).
    rewrite Hl. by repeat constructor.
  - exists q. rewrite Hs, Hout. split_and!; assumption.
Defined.
