(* ===== verification/SenderSound.v ===== *)
(** * One end of the channel never goes wrong

    The operations of the sending end as a program: what the user, the peer and
    the system do to an opened channel and its send thread, one after another.
    Each is defined in every state they can reach, whatever the order: no
    division by zero in the cache or the tracker, no empty slot, no read outside
    a packet, no signed overflow, no endless flush. *)

From S2P Require Import Prelude Bytes Fifo VcProtocol Socket TcpConnection IoThread.
From S2P Require Import BlockingQueue SentCache Reorder SendThread SendSound Channel EndToEnd Tunnel.

(** ** The operations *)

Inductive sender_op : Type :=
| OpSend (payload : option (list byte))
| OpMissingNotify (now nowMs : Z) (ids : list Z)      (* from the peer *)
| OpResendRequest (nowMs id : Z)
| OpOwnNotify (ids : list Z)                          (* by this end's reorder thread *)
| OpDisconnectCB
| OpClose
| OpKill (a : nat)
| OpReplaceSlot (slot : Z) (fd now : Z)               (* the new object gets a fresh address *)
| OpThreadStep (o : thread_op).                       (* an iteration of the send thread, or a part of one *)

Section sender.
Context {Q : Type}.
Abbreviation tunnel := (Tunnel.tunnel (Q := Q)).

Definition fresh_addr (h : conn_heap) : nat := fresh (dom h : gset nat).

Definition set_end (c : Channel) (t : SendThread) (evs : list send_event) (l : list (list byte)) (s : tunnel) : tunnel :=
  mkTunnel c t (log s ++ evs) (accepted s ++ l) (rx s) (links s) (outputs s) (mixed s).

Definition run_sender_op (o : sender_op) (s : tunnel) : option tunnel :=
  match o with
  | OpSend payload =>
      '(c, out) ← send payload (tx s); Some (set_end c (th s) [] (accepted_by out payload) s)
  | OpMissingNotify now nowMs ids => c ← processMissingNotify now nowMs ids (tx s); Some (set_end c (th s) [] [] s)
  | OpResendRequest nowMs id => c ← processResendRequest nowMs id (tx s); Some (set_end c (th s) [] [] s)
  | OpOwnNotify ids => Some (set_end (default_missing_notify ids (tx s)) (th s) [] [] s)
  | OpDisconnectCB => Some (set_end (disconnectCB (tx s)).1 (th s) [] [] s)
  | OpClose => Some (set_end (close (tx s)) (th s) [] [] s)
  | OpKill a => Some (set_end (set_heap (alter (fun t => (disconnect t).1) a (heap (tx s))) (tx s)) (th s) [] [] s)
  | OpReplaceSlot slot fd now =>
      let a := fresh_addr (heap (tx s)) in
      Some (set_end (Channel.replaceConnection slot fd a (tx s)).1
                    (SendThread.replaceConnection slot a now (th s)) [] [] s)
  | OpThreadStep o =>
      '(t, evs) ← run_thread_op o (attach (tx s) (th s));
      Some (set_end (publish t (tx s)) t evs [] s)
  end.

Fixpoint run_sender_ops (os : list sender_op) (s : tunnel) : option tunnel :=
  match os with
  | [] => Some s
  | o :: os => s' ← run_sender_op o s; run_sender_ops os s'
  end.

(** What the callers and the system keep to. *)
Definition op_ok (o : sender_op) : Prop :=
  match o with
  | OpOwnNotify ids => packet_ok (PktMissingNotify ids)
  | OpThreadStep o => thread_op_ok o
  | _ => True
  end.

(** ** The invariant *)

(** The parts of the channel that are sized by its connections. *)
Record channel_shape (n : nat) (c : Channel) : Prop := {
  cs_conns : length (Channel.connections c) = n;
  cs_statuses : length (socketStatuses c) = n;
  cs_shards : length (Cache.shards (sentDataCache c)) = n;
  cs_tracker : exists tr, messageTracker c = Some tr /\ length tr = n;
}.

Record end_ok (n : nat) (B : Z) (s : tunnel) : Prop := {
  eo_sender : sender_inv (accepted s) (tx s) (pendingDataVec (th s)) (log s);
  eo_channel : channel_shape n (tx s);
  eo_thread : thread_shape (Channel.connections (tx s)) B (attach (tx s) (th s));
}.

(** What an operation leaves alone when it only queues packets and marks
    statuses. *)
Record same_stores (c c' : Channel) : Prop := {
  sm_conns : Channel.connections c' = Channel.connections c;
  sm_heap : heap c' = heap c;
  sm_cache : sentDataCache c' = sentDataCache c;
  sm_tracker : messageTracker c' = messageTracker c;
  sm_stats : connSendStats c' = connSendStats c;
  sm_statuses : length (socketStatuses c') = length (socketStatuses c);
}.

#[local] Instance same_stores_po : PreOrder same_stores.
Proof. split; [by constructor|]. intros x y z [] []. constructor; congruence. Qed.

Lemma channel_shape_same n c c' : same_stores c c' -> channel_shape n c -> channel_shape n c'.
Proof. intros [E1 _ E3 E4 _ E6] [H1 H2 H3 H4]. constructor; rewrite ?E1, ?E3, ?E4, ?E6; done. Qed.

Lemma thread_shape_same B c c' t :
  same_stores c c' -> thread_shape (Channel.connections c) B (attach c t) -> thread_shape (Channel.connections c') B (attach c' t).
Proof. intros [E1 E2 _ E4 E5 _]. unfold attach. by rewrite E1, E2, E4, E5. Qed.

Lemma mark_carrier_total n nowMs id c :
  (0 < n)%nat -> channel_shape n c -> exists c', mark_carrier nowMs id c = Some c' /\ same_stores c c'.
Proof.
  intros Hn [_ _ _ (tr & Htr & Hl)]. unfold mark_carrier. rewrite Htr.
  unfold MessageTracker.getConnectionIndex. rewrite shard_index_Some by lia.
  eexists. split; [done|]. case_match; constructor; try done. apply length_alter.
Qed.

Lemma default_resend_same id p c : same_stores c (default_resend id p c).
Proof. unfold default_resend. case_match; by constructor. Qed.

Lemma cached_payload_total acc c n id :
  (0 < n)%nat -> channel_shape n c -> cache_known acc c ->
  exists r, Cache.find id (sentDataCache c) = Some r
    /\ forall dv, r = Some dv -> is_Some (cached_payload dv).
Proof.
  intros Hn [_ _ Hsh _] Hk. unfold Cache.find. rewrite shard_index_Some by lia. eexists. split; [done|].
  intros dv Hdv. destruct (Hk id dv) as (p & -> & [[_ Hp] _]).
  - unfold Cache.find. rewrite shard_index_Some by lia. by rewrite Hdv.
  - rewrite cached_payload_encode by done. by eexists.
Qed.

Lemma resend_request_total acc n nowMs id c :
  (0 < n)%nat -> channel_shape n c -> cache_known acc c ->
  exists c', processResendRequest nowMs id c = Some c' /\ same_stores c c'.
Proof.
  intros Hn Hsh Hk. unfold processResendRequest.
  destruct (mark_carrier_total n nowMs id c Hn Hsh) as (c1 & -> & Hs1).
  destruct (cached_payload_total acc c n id Hn Hsh Hk) as (r & Hr & Hp). rewrite (sm_cache _ _ Hs1), Hr.
  destruct r as [dv|]; [|by exists c1]. destruct (Hp dv eq_refl) as [p ->].
  eexists. split; [done|]. etrans; [exact Hs1 | apply default_resend_same].
Qed.

Lemma missing_loop_total acc n now nowMs ids c :
  (0 < n)%nat -> channel_shape n c -> cache_known acc c ->
  exists c', missing_loop now nowMs ids c = Some c' /\ same_stores c c'.
Proof.
  intros Hn. revert c. induction ids as [|id ids IH]; intros c Hsh Hk; cbn [missing_loop]; [by exists c|].
  destruct (mark_carrier_total n nowMs id c Hn Hsh) as (c1 & -> & Hs1).
  assert (Hgo : forall c2, same_stores c c2 -> exists c', missing_loop now nowMs ids c2 = Some c' /\ same_stores c c').
  { intros c2 Hs2. destruct (IH c2) as (c' & E & Hs'); [by eapply channel_shape_same | |].
    - intros id' dv Hf. apply (Hk id' dv). by rewrite <- (sm_cache _ _ Hs2).
    - exists c'. split; [exact E | by etrans]. }
  destruct (pendingResendIds c1 !! id); [by apply Hgo|].
  destruct (cached_payload_total acc c n id Hn Hsh Hk) as (r & Hr & Hp). rewrite (sm_cache _ _ Hs1), Hr.
  destruct r as [dv|]; [|by apply Hgo]. destruct (Hp dv eq_refl) as [p ->]. apply Hgo.
  etrans; [exact Hs1|]. etrans; [apply (default_resend_same id p)|]. by constructor.
Qed.

Lemma missing_notify_total acc n now nowMs ids c :
  (0 < n)%nat -> channel_shape n c -> cache_known acc c ->
  exists c', processMissingNotify now nowMs ids c = Some c' /\ same_stores c c'.
Proof.
  intros Hn Hsh Hk. unfold processMissingNotify. set (kept := filter _ _).
  destruct (missing_loop_total acc n now nowMs ids
              (Channel.set_resend (Channel.resendQueue c) (socketStatuses c) kept c) Hn) as (c' & -> & Hs).
  - by destruct Hsh; constructor.
  - exact Hk.
  - exists c'. split; [done|]. etrans; [|exact Hs]. by constructor.
Qed.

(** ** Connections that go down or are replaced *)

(** Every slot filled, for the heap and the slots as arguments. *)
Lemma conns_ok_heap sl slots h h' refresh refresh' :
  (forall a, is_Some (h !! a) -> is_Some (h' !! a)) -> infos_ok h' ->
  conns_ok sl (mkSendConns slots h refresh) -> conns_ok sl (mkSendConns slots h' refresh').
Proof.
  intros Hh Hi (Hn & Hf & _). split_and!; [done | | done]. intros i Hlt. specialize (Hf i Hlt).
  unfold conn_at in *. cbn [sc_connections sc_heap] in *. destruct (mjoin _) as [a|]; [|by destruct Hf].
  apply fmap_is_Some in Hf. by apply fmap_is_Some, Hh.
Qed.

Lemma disconnect_keeps a h :
  (forall b, is_Some (h !! b) -> is_Some (alter (fun t => (disconnect t).1) a h !! b))
  /\ (infos_ok h -> infos_ok (alter (fun t => (disconnect t).1) a h)).
Proof.
  split.
  - intros b. by rewrite lookup_alter_is_Some.
  - intros Hi b c Hc. apply lookup_alter_Some in Hc as [(-> & d & Hd & ->)|[_ Hc]]; [|by eapply Hi].
    rewrite disconnect_info. by eapply Hi.
Qed.

Lemma disconnect_all_keeps slots h :
  (forall b, is_Some (h !! b) -> is_Some (disconnect_all slots h !! b))
  /\ (infos_ok h -> infos_ok (disconnect_all slots h)).
Proof.
  revert h. induction slots as [|[a|] slots IH]; intros h; cbn [disconnect_all]; [by split| |apply IH].
  destruct (disconnect_keeps a h) as [H1 H2].
  destruct (IH (alter (fun t => (disconnect t).1) a h)) as [H3 H4]. split; auto.
Qed.

Lemma thread_shape_heap sl B c c' t :
  (forall a, is_Some (heap c !! a) -> is_Some (heap c' !! a)) -> (infos_ok (heap c) -> infos_ok (heap c')) ->
  connSendStats c' = connSendStats c ->
  length (default (ss_tracker (st t)) (messageTracker c')) = length (default (ss_tracker (st t)) (messageTracker c)) ->
  thread_shape sl B (attach c t) -> thread_shape sl B (attach c' t).
Proof.
  intros Hh Hi Es Et (Hc & Hs & Hl & Ht). unfold thread_shape, attach in *.
  cbn [st ss_conns ss_stats ss_tracker] in *. rewrite Es, Et. split_and!; try done.
  pose proof (proj2 (proj2 Hc)) as Hinf. eapply conns_ok_heap; [exact Hh | by apply Hi | exact Hc].
Qed.

Lemma lookup_fresh_addr (h : conn_heap) : h !! fresh_addr h = None.
Proof. apply (not_elem_of_dom (D := gset nat)), (is_fresh (dom h : gset nat)). Qed.

Lemma conns_ok_replace slots h r r' i a c :
  runtime_info_ok (lastRuntimeInfo c) -> conns_ok slots (mkSendConns slots h r) ->
  conns_ok (<[i := Some a]> slots) (mkSendConns (<[i := Some a]> slots) (<[a := c]> h) r').
Proof.
  intros Hc (Hn & Hf & Hi). split_and!.
  - done.
  - intros j Hlt. cbn in Hlt. rewrite length_insert in Hlt. unfold conn_at. cbn [sc_connections sc_heap].
    destruct (decide (i = j)) as [<-|Hne].
    + rewrite list_lookup_insert_eq by done. cbn. rewrite lookup_insert_eq. by eexists.
    + rewrite list_lookup_insert_ne by done. specialize (Hf j Hlt). unfold conn_at in Hf.
      cbn [sc_connections sc_heap] in Hf. destruct (mjoin _) as [b|]; [|by destruct Hf].
      apply fmap_is_Some in Hf. apply fmap_is_Some. destruct (decide (a = b)) as [->|Hab].
      * rewrite lookup_insert_eq. by eexists.
      * by rewrite lookup_insert_ne.
  - intros b cb Hb. cbn in Hb. apply lookup_insert_Some in Hb as [[_ <-]|[_ Hb]]; [done|]. by eapply Hi.
Qed.

(** A slot gets a new connection object, in the channel and in the thread. *)
Lemma replace_shapes n B slot fd a now c t :
  channel_shape n c -> thread_shape (Channel.connections c) B (attach c t) -> 0 <= B ->
  let c' := (Channel.replaceConnection slot fd a c).1 in
  let t' := SendThread.replaceConnection slot a now t in
  channel_shape n c' /\ thread_shape (Channel.connections c') B (attach c' t') /\ pendingDataVec t' = pendingDataVec t.
Proof.
  intros Hsh Hth HB. cbv zeta. assert (Esl : sc_connections (ss_conns (st t)) = Channel.connections c) by apply Hth. unfold Channel.replaceConnection, SendThread.replaceConnection. rewrite Esl.
  destruct (_ || _) eqn:E; [done|]. apply orb_false_iff in E as [E1%Z.ltb_ge E2%Z.leb_gt].
  destruct Hsh as [H1 H2 H3 H4]. destruct Hth as (Hc & Hs & Hl & Ht).
  cbn [attach st ss_conns ss_stats ss_tracker] in Hc, Hs, Hl, Ht. split_and!.
  - constructor; cbn; rewrite ?length_insert; done.
  - cbn [fst Channel.connections]. unfold thread_shape, attach.
    cbn [st ss_conns ss_stats ss_tracker set_st Channel.connections heap connSendStats messageTracker sc_connections].
    split_and!.
    + rewrite Esl in Hc. eapply conns_ok_replace; [by split_and! | exact Hc].
    + apply Forall_insert; [done | cbn; lia].
    + by rewrite !length_insert.
    + by rewrite length_insert.
  - done.
Qed.

(** ** Every operation is defined and keeps the invariant *)

Lemma send_total n payload c t :
  (0 < n)%nat -> channel_shape n c ->
  exists c' o, send payload c = Some (c', o) /\ channel_shape n c'
    /\ attach c' t = mkSendThread (st (attach c t)) (Channel.sendQueue c') (Channel.resendQueue c') (pendingDataVec t)
                       (roundRobinStart t) (resendRoundRobin t) (resendRetryCount t)
    /\ Channel.connections c' = Channel.connections c.
Proof.
  intros Hn Hsh. unfold send. destruct (negb (opened c)); [by exists c, SendClosed|].
  destruct payload as [[|x p]|]; [by exists c, SendEmpty| |by exists c, SendEmpty].
  destruct (_ <? _)%nat; [by exists c, SendTooBig|]. destruct (_ <? _); [by exists c, SendBackpressure|].
  destruct Hsh as [H1 H2 H3 H4].
  destruct (cache_insert_total (lastSendMessageId c) (encode_data (lastSendMessageId c) (x :: p)) (sentDataCache c))
    as (k & -> & Hk); [lia|].
  do 2 eexists. split; [done|]. split_and!; [|done|done]. constructor; cbn -[encode_data]; by rewrite ?Hk.
Qed.

(** How the operations re-establish [end_ok]: a new channel and thread, only a
    new channel, and one that shares the stores of the old. *)
Section end_ok_steps.
Context (n : nat) (B : Z) (s : tunnel).

Definition advanced (s' : tunnel) : Prop :=
  end_ok n (B + 1) s' /\ (length (accepted s') <= S (length (accepted s)))%nat.

Lemma end_ok_step c' t' l :
  sender_inv (accepted s ++ l) c' (pendingDataVec t') (log s) -> channel_shape n c' ->
  thread_shape (Channel.connections c') B (attach c' t') -> (length l <= 1)%nat -> advanced (set_end c' t' [] l s).
Proof.
  intros H1 H2 H3 H4. split; [|cbn; rewrite length_app; lia].
  constructor; cbn; [by rewrite app_nil_r | done | by eapply thread_shape_mono; [|exact H3]; lia].
Qed.

Lemma end_ok_quiet c' :
  sender_inv (accepted s) c' (pendingDataVec (th s)) (log s) -> channel_shape n c' ->
  thread_shape (Channel.connections c') B (attach c' (th s)) -> advanced (set_end c' (th s) [] [] s).
Proof. intros H1 H2 H3. apply end_ok_step; [by rewrite app_nil_r | done | done | cbn; lia]. Qed.

Lemma end_ok_same c' :
  end_ok n B s -> same_stores (tx s) c' -> sender_inv (accepted s) c' (pendingDataVec (th s)) (log s) ->
  advanced (set_end c' (th s) [] [] s).
Proof.
  intros [_ Hsh Hth] Hc' H1. apply end_ok_quiet; [done | by eapply channel_shape_same | by eapply thread_shape_same].
Qed.

Lemma disconnectCB_advances : end_ok n B s -> advanced (set_end (disconnectCB (tx s)).1 (th s) [] [] s).
Proof.
  intros He. pose proof (sender_disconnectCB _ _ _ _ (eo_sender _ _ _ He)) as Hs'. revert Hs'. unfold disconnectCB.
  destruct (negb (opened (tx s))); [intros Hs'; by apply end_ok_same|].
  destruct (_ <? _)%nat; [intros Hs'; by apply end_ok_same|].
  intros Hs'. destruct (disconnect_all_keeps (Channel.connections (tx s)) (heap (tx s))) as [K1 K2].
  destruct He as [_ Hsh Hth]. apply end_ok_quiet; [done | by destruct Hsh; constructor |].
  by apply (thread_shape_heap _ B (tx s)).
Qed.

Lemma close_fields c :
  Channel.connections (close c) = Channel.connections c /\ connSendStats (close c) = connSendStats c
  /\ socketStatuses (close c) = socketStatuses c /\ sentDataCache (close c) = Cache.clear (sentDataCache c)
  /\ messageTracker (close c) = MessageTracker.clear <$> messageTracker c
  /\ (forall a, is_Some (heap c !! a) -> is_Some (heap (close c) !! a))
  /\ (infos_ok (heap c) -> infos_ok (heap (close c))).
Proof.
  unfold close. destruct (opened c); split_and!; try done; apply disconnect_all_keeps.
Qed.

Lemma close_advances : end_ok n B s -> advanced (set_end (close (tx s)) (th s) [] [] s).
Proof.
  intros [Hs [H1 H2 H3 (tr & Htr & Hl)] Hth].
  destruct (close_fields (tx s)) as (E1 & E2 & E3 & E4 & E5 & Ha & Hi).
  apply end_ok_quiet; [by apply sender_close | |].
  - constructor; rewrite ?E1, ?E3, ?E4, ?E5; [done | done | by cbn; rewrite length_fmap |].
    exists (MessageTracker.clear tr). rewrite Htr. split; [done | by rewrite <- Hl; apply length_fmap].
  - rewrite E1. apply (thread_shape_heap _ B (tx s)); [done | done | done | | done].
    rewrite E5, Htr. cbn. apply length_fmap.
Qed.

Lemma thread_advances o :
  (0 < n)%nat -> 0 <= B < 10000000 -> end_ok n B s -> thread_op_ok o ->
  exists t evs, run_thread_op o (attach (tx s) (th s)) = Some (t, evs)
    /\ advanced (set_end (publish t (tx s)) t evs [] s).
Proof.
  intros Hn HB [Hs Hsh Hth] Ho.
  assert (Hok : thread_ok (known_bytes (accepted s)) (attach (tx s) (th s)) (log s)).
  { destruct Hs as [H1 H2 H3 H4 H5 H6]. split; [by split_and! | done]. }
  destruct Hsh as [H1 H2 H3 (tr & Htr & Hl)]. rewrite <- H1 in Hn.
  destruct (run_thread_op_total (known_bytes (accepted s)) _ B o (attach (tx s) (th s)) (log s)
              ltac:(intros d (p & [Hp _] & ->); by apply encoded_readable) Hn HB Ho Hok Hth)
    as (t' & evs & E & Hc & Hst & Hls & Hlt).
  exists t', evs. split; [done|]. split; [|cbn; rewrite length_app; cbn; lia].
  constructor; cbn.
  - rewrite app_nil_r. by eapply sender_thread.
  - constructor; cbn; [done..|]. rewrite Htr. exists (ss_tracker (st t')). split; [done | by rewrite Hlt].
  - split_and!; [|done|done|by cbn; rewrite Htr]. cbn. revert Hc. by destruct (ss_conns (st t')).
Qed.
End end_ok_steps.

Lemma sender_op_ok n B o s :
  (0 < n)%nat -> 0 <= B < 10000000 -> Z.of_nat (length (accepted s)) < 2 ^ 64 - 1 -> op_ok o -> end_ok n B s ->
  exists s', run_sender_op o s = Some s' /\ end_ok n (B + 1) s'
    /\ (length (accepted s') <= S (length (accepted s)))%nat.
Proof.
  intros Hn HB Hacc Ho He. assert (He' := He). destruct He' as [Hs Hsh Hth].
  change (exists s', run_sender_op o s = Some s' /\ advanced n B s s').
  pose proof (si_cache _ _ _ _ Hs) as Hk.
  destruct o as [payload|now nowMs ids|nowMs id|ids| | |a|slot fd now|o];
    cbn [run_sender_op op_ok] in *.
  - destruct (send_total n payload (tx s) (th s) Hn Hsh) as (c' & o & E & Hsh' & Ea & Ec). rewrite E.
    eexists. split; [done|]. apply end_ok_step; [by eapply sender_send | done | by rewrite Ec, Ea |].
    unfold accepted_by. repeat case_match; cbn; lia.
  - destruct (missing_notify_total _ n now nowMs ids _ Hn Hsh Hk) as (c' & E & Hs'). rewrite E.
    eexists. split; [done|]. apply end_ok_same; [done | done | by eapply sender_missing_notify].
  - destruct (resend_request_total _ n nowMs id _ Hn Hsh Hk) as (c' & E & Hs'). rewrite E.
    eexists. split; [done|]. apply end_ok_same; [done | done | by eapply sender_resend_request].
  - eexists. split; [done|]. apply end_ok_same; [done | | by apply sender_own_notify].
    unfold default_missing_notify. case_match; by constructor.
  - eexists. split; [done|]. by apply disconnectCB_advances.
  - eexists. split; [done|]. by apply close_advances.
  - eexists. split; [done|]. destruct (disconnect_keeps a (heap (tx s))) as [K1 K2].
    apply end_ok_quiet; [by apply sender_kill | by destruct Hsh; constructor |].
    by apply (thread_shape_heap _ B (tx s)).
  - eexists. split; [done|]. pose proof (lookup_fresh_addr (heap (tx s))) as Ha.
    set (a := fresh_addr (heap (tx s))) in *.
    destruct (replace_shapes n B slot fd a now (tx s) (th s) Hsh Hth ltac:(lia)) as (H1 & H2 & H3).
    apply end_ok_step; [rewrite app_nil_r, H3; by apply sender_replace | done | done | cbn; lia].
  - destruct (thread_advances n B s o Hn HB He Ho) as (t' & evs & E & Hadv).
    rewrite E. by eexists.
Qed.

(** A freshly opened channel with its send thread, over [fds]. *)
Definition opened_end (base : nat) (fds : list SocketFd) (callback : bool) (now : Z) (r : receiver (Q := Q))
  (ls : list link) : tunnel :=
  let c := open (newChannel base fds ∅ callback) in
  mkTunnel c (newSendThread (Channel.connections c) (heap c) now) [] [] r ls [] false.

Lemma new_heap_lookup base fds callback i fd :
  fds !! i = Some fd -> heap (newChannel base fds ∅ callback) !! (base + i)%nat = Some (newTcpConnection fd).1.
Proof.
  intros Hi. cbn. rewrite map_union_empty. apply elem_of_list_to_map_1'.
  - intros c Hc. apply list_elem_of_lookup in Hc as (j & Hj). apply lookup_zip_Some in Hj as [Hj1 Hj2].
    rewrite list_lookup_fmap in Hj1. rewrite list_lookup_fmap in Hj2.
    apply fmap_Some in Hj1 as (k & Hk & E). apply lookup_seq in Hk as [-> _]. apply fmap_Some in Hj2 as (fd' & Hfd & ->).
    assert (i = j) as -> by lia. congruence.
  - apply list_elem_of_lookup. exists i. apply lookup_zip_Some. rewrite !list_lookup_fmap, Hi. split; [|done].
    rewrite lookup_seq_lt by (by eapply lookup_lt_Some). done.
Qed.

Lemma end_ok_opened base fds callback now r ls :
  end_ok (length fds) 0 (opened_end base fds callback now r ls).
Proof.
  constructor.
  - apply sender_inv_init.
  - constructor; cbn; rewrite ?length_fmap, ?length_seq, ?length_replicate; try done.
    eexists. split; [done|]. unfold MessageTracker.newMessageTracker. by rewrite length_replicate.
  - split_and!.
    + split_and!; [done| |].
      * intros i Hi. cbn in Hi. rewrite length_fmap, length_seq in Hi.
        destruct (lookup_lt_is_Some_2 fds i Hi) as [fd Hfd].
        unfold conn_at. cbn [opened_end tx th attach st ss_conns sc_connections newSendThread open newChannel
          Channel.connections sc_heap]. rewrite list_lookup_fmap, lookup_seq_lt by done. cbn [fmap option_fmap option_map mjoin option_join].
        apply fmap_is_Some. exists (newTcpConnection fd).1. exact (new_heap_lookup base fds callback i fd Hfd).
      * intros a t Ha. cbn in Ha. rewrite map_union_empty in Ha. apply elem_of_list_to_map_2, elem_of_zip_r in Ha.
        apply list_elem_of_fmap in Ha as (fd & -> & _). by split_and!.
    + apply Forall_replicate. cbn. lia.
    + cbn. by rewrite length_replicate.
    + cbn. unfold MessageTracker.newMessageTracker. by rewrite length_replicate.
Qed.

Lemma sender_ops_ok n os B s :
  (0 < n)%nat -> 0 <= B -> B + Z.of_nat (length os) <= 10000000 ->
  Z.of_nat (length (accepted s)) + Z.of_nat (length os) < 2 ^ 64 - 1 ->
  Forall op_ok os -> end_ok n B s ->
  exists s', run_sender_ops os s = Some s' /\ end_ok n (B + Z.of_nat (length os)) s'.
Proof.
  intros Hn HB Hlen Hacc Hos. revert B s HB Hlen Hacc.
  induction Hos as [|o os Ho Hos IH]; intros B s HB Hlen Hacc Hok; cbn [run_sender_ops length] in *.
  - exists s. by rewrite Z.add_0_r.
  - destruct (sender_op_ok n B o s Hn ltac:(lia) ltac:(lia) Ho Hok) as (s1 & E & Hok1 & Hl1). rewrite E.
    destruct (IH (B + 1) s1 ltac:(lia) ltac:(lia) ltac:(lia) Hok1) as (s2 & E2 & Hok2).
    exists s2. split; [exact E2|]. by replace (B + Z.of_nat (S (length os))) with (B + 1 + Z.of_nat (length os)) by lia.
Qed.

(** C5. The sending end of a channel over at least one connection never goes
    wrong: up to ten million operations by the user, the peer, the connections
    and the send thread, in any order, are all defined (the cache and tracker
    are never empty, every slot holds a connection, packets are never read past
    their end, the score does not overflow), and every vector keeps one entry per
    connection.  In particular the flush loops end, whatever poll and send answer
    and whatever other threads do: only a clock that advances past the budget of
    PARTIAL_SEND_BUDGET_MS is assumed, and from then on every pass that does not
    leave the loop writes a byte of a packet of at most MAX_PACKET_SIZE bytes. *)
Theorem sender_never_stuck (base : nat) (fds : list SocketFd) (callback : bool) (now : Z) (r : receiver (Q := Q))
  (ls : list link) (os : list sender_op) :
  fds <> [] -> Z.of_nat (length os) <= 10000000 -> Forall op_ok os ->
  exists s, run_sender_ops os (opened_end base fds callback now r ls) = Some s
    /\ channel_shape (length fds) (tx s)
    /\ length (connSendStats (tx s)) = length fds
    /\ sc_connections (ss_conns (st (th s))) = Channel.connections (tx s).
Proof.
  intros Hn Hlen Hos.
  destruct (sender_ops_ok (length fds) os 0 (opened_end base fds callback now r ls)) as (s & E & [_ Hsh Hth]).
  - destruct fds; cbn; [done | lia].
  - lia.
  - lia.
  - cbn. lia.
  - done.
  - apply end_ok_opened.
  - exists s. split; [exact E|]. split; [done|]. destruct Hth as ((Hc & _) & _ & Hl & _).
    rewrite <- (cs_conns _ _ Hsh). by split.
Qed.
End sender.

(** The operations are steps of the tunnel. *)
Lemma sender_op_step {Q} `{BoundedFifo DeliveryItem Q} o (s s' : Tunnel.tunnel (Q := Q)) :
  op_ok o -> run_sender_op o s = Some s' -> tunnel_step s s'.
Proof.
  intros Ho Hr. destruct o as [payload|now nowMs ids|nowMs id|ids| | |a|slot fd now|o];
    cbn [run_sender_op op_ok] in *.
  - apply bind_Some in Hr as ([c out] & E & [= <-]). unfold set_end. rewrite app_nil_r. by eapply t_send.
  - apply bind_Some in Hr as (c & E & [= <-]). unfold set_end. rewrite !app_nil_r. by eapply t_missing_notify.
  - apply bind_Some in Hr as (c & E & [= <-]). unfold set_end. rewrite !app_nil_r. by eapply t_resend_request.
  - injection Hr as <-. unfold set_end. rewrite !app_nil_r. by apply t_own_notify.
  - injection Hr as <-. unfold set_end. rewrite !app_nil_r. apply t_disconnectCB.
  - injection Hr as <-. unfold set_end. rewrite !app_nil_r. apply t_close.
  - injection Hr as <-. unfold set_end. rewrite !app_nil_r. apply t_kill.
  - injection Hr as <-. unfold set_end. rewrite !app_nil_r. apply t_replace, lookup_fresh_addr.
  - apply bind_Some in Hr as ([t evs] & E & [= <-]). unfold set_end. rewrite app_nil_r. by eapply t_thread.
Qed.

(** ** A run *)

(** The first send takes [n] bytes; then the socket is never writable, until the
    budget is over. *)
Definition stalled : list flush_pass :=
  replicate MAX_PACKET_SIZE (mkFlushPass true Never false (SendErr EAGAIN) PARTIAL_SEND_BUDGET_MS).

Definition sends_ending (n : nat) : attempt := quiet_attempt (SendOk n) stalled.

Lemma sends_ending_timed n : attempt_timed (sends_ending n).
Proof.
  exists [], stalled. split_and!; [done | | by unfold stalled; rewrite length_replicate].
  apply Forall_replicate. cbn. lia.
Qed.

Definition busy_ops : list sender_op :=
  [OpSend (Some [Byte.x41; Byte.x42]);
   OpThreadStep (ThIterate 0 0 (fun _ => None) (fun _ _ => sends_ending 13) (fun _ => sends_ending 4) true);
   OpReplaceSlot 0 7 0; OpThreadStep ThClearTracker;
   OpThreadStep (ThSendData 0 0 (fun _ => None) (fun _ => sends_ending 13) true);
   OpMissingNotify 0 0 [0; 3]; OpThreadStep (ThResendOne 0 (fun _ => None) (fun _ => sends_ending 13));
   OpResendRequest 0 0; OpOwnNotify [4]; OpKill 1; OpDisconnectCB; OpClose;
   OpSend (Some [Byte.x43])].

Lemma sender_never_stuck_witness :
  exists s, run_sender_ops busy_ops (opened_end (Q := unit) 0 [5] false 0 (mkReceiver [] [] 0 (newReorderState 1 0)) []) = Some s
    /\ channel_shape 1 (tx s) /\ accepted s = [[Byte.x41; Byte.x42]]
    /\ log s = [EvWire 0 (take 4 (encode_data 0 [Byte.x41; Byte.x42])); EvDropped 0;
                EvWire 1 (encode_data 0 [Byte.x41; Byte.x42])].
Proof.
  destruct (sender_never_stuck (Q := unit) 0 [5] false 0 (mkReceiver [] [] 0 (newReorderState 1 0)) [] busy_ops)
    as (s & E & Hsh & _).
  - discriminate.
  - cbn. lia.
  - pose proof sends_ending_timed as Hs.
    repeat constructor; try (intros; apply Hs); cbn; unfold is_u64; lia || done.
  - exists s. split; [exact E|]. split; [exact Hsh|].
    assert (Hp : (fun s => (accepted s, log s)) <$> run_sender_ops busy_ops
                   (opened_end (Q := unit) 0 [5] false 0 (mkReceiver [] [] 0 (newReorderState 1 0)) [])
                 = Some ([[Byte.x41; Byte.x42]],
                         [EvWire 0 (take 4 (encode_data 0 [Byte.x41; Byte.x42])); EvDropped 0;
                          EvWire 1 (encode_data 0 [Byte.x41; Byte.x42])]))
      by (vm_compute; reflexivity).
    rewrite E in Hp. injection Hp as Ha Hl. by split.
Defined.
