(* ===== verification/Recovery.v ===== *)
(** * A lost message comes back

    The loop that repairs a gap, through both ends: the reorder thread notices
    the missing id and notifies, the peer's channel answers from its cache, the
    send thread puts the packet on a resend connection, and its arrival lets the
    reorder thread deliver it.  Each part is the code's own step; the theorem at
    the end chains them. *)

From S2P Require Import Prelude Bytes StreamParser VcProtocol Socket TcpConnection IoThread BlockingQueue.
From S2P Require Import SentCache Reorder SendThread SendSound Channel EndToEnd Tunnel SenderSound.

(** ** The receiver notices *)

(** The message [k] is missing, something later is buffered, and the gap is old
    enough to be notified and too young to be skipped. *)
Record gap (cfg : reorder_config) (clk : clock) (k : Z) (r : ReorderState) : Prop := {
  gap_ok : map_ok r;
  gap_next : nextMessageId r = k;
  gap_missing : receivedDataMap r !! k = None;
  gap_later : receivedDataMap r <> ∅;
  gap_unnotified : k ∉ notifiedMissingIds r;
  gap_active : gapTimerActive r = true;
  gap_due : ms (missingNotifyIntervalMs cfg) <= t_notify clk - gapFirstSeen r;
  gap_young : t_gap clk - gapFirstSeen r < ms (reorderTimeoutMs cfg);
}.

Lemma scan_gap_appends notified n id acc : exists l, scan_gap notified n id acc = acc ++ l.
Proof.
  revert id acc. induction n as [|n IH]; intros id acc; cbn [scan_gap]; [exists []; by rewrite app_nil_r|].
  destruct (decide _); [apply IH|]. destruct (_ <=? _)%nat; [by eexists|].
  destruct (IH (id + 1) (acc ++ [id])) as [l ->]. eexists. by rewrite <- app_assoc.
Qed.

Lemma scan_keys_appends notified k keys acc : exists l, scan_keys notified k keys acc = acc ++ l.
Proof.
  revert acc. induction keys as [|k2 keys IH]; intros acc; cbn [scan_keys]; [exists []; by rewrite app_nil_r|].
  destruct (scan_gap_appends notified (Z.to_nat (k2 - k)) k acc) as [l ->]. destruct (_ <=? _)%nat; [by eexists|].
  destruct (IH (acc ++ l)) as [l' ->]. eexists. by rewrite <- app_assoc.
Qed.

(** The expected id, when it was not notified before, comes first. *)
Lemma scan_keys_head notified k k1 keys :
  k ∉ notified -> k < k1 -> exists ids, scan_keys notified k (k1 :: keys) [] = k :: ids.
Proof.
  intros Hk Hlt. cbn [scan_keys].
  assert (Hg : exists l, scan_gap notified (Z.to_nat (k1 - k)) k [] = [k] ++ l).
  { replace (Z.to_nat (k1 - k)) with (S (Z.to_nat (k1 - k - 1))) by lia. cbn [scan_gap].
    rewrite decide_False by done. destruct (_ <=? _)%nat; [by exists [] | apply scan_gap_appends]. }
  destruct Hg as [l ->]. destruct (_ <=? _)%nat; [by eexists|].
  destruct (scan_keys_appends notified k keys ([k] ++ l)) as [l' ->]. by eexists.
Qed.

Lemma gap_notified cfg clk k r :
  gap cfg clk k r ->
  exists r1 o ids, reorder_iteration cfg clk [] r = Some (r1, o)
    /\ itemsToDeliver o = [] /\ missingNotify o = Some (k :: ids) /\ packet_ok (PktMissingNotify (k :: ids))
    /\ map_ok r1 /\ nextMessageId r1 = k /\ receivedDataMap r1 = receivedDataMap r.
Proof.
  intros [Hok Hn Hm Hl Hu Ha Hd Hy]. unfold reorder_iteration. cbn [process_items].
  unfold drainReceivedDataMap. cbn [drain_loop]. rewrite Hn, Hm.
  unfold gap_check. destruct (sorted_keys (receivedDataMap r)) as [|k1 keys] eqn:Ek; [by apply sorted_keys_nil in Ek|].
  rewrite Ha. cbn [negb]. destruct (Z.leb_spec (ms (reorderTimeoutMs cfg)) (t_gap clk - gapFirstSeen r)); [lia|].
  unfold sendMissingNotifications. rewrite Ha, Ek, Hn. rewrite bool_decide_false by done. cbn [orb negb].
  destruct (Z.ltb_spec (t_notify clk - gapFirstSeen r) (ms (missingNotifyIntervalMs cfg))); [lia|].
  assert (Hk1 : k < k1).
  { destruct (sorted_keys_head _ _ _ Ek) as [Hs _]. destruct (proj2 Hok k1 Hs) as [Hle _]. rewrite Hn in Hle.
    destruct (decide (k = k1)) as [->|]; [|lia]. rewrite Hm in Hs. by destruct Hs. }
  destruct (scan_keys_head (notifiedMissingIds r) k k1 keys Hu Hk1) as [ids Eids]. rewrite Eids.
  do 3 eexists. split; [done|]. cbn [itemsToDeliver missingNotify app]. split_and!; try done.
  2: { by apply (map_ok_same r). }
  destruct (scan_keys_spec (notifiedMissingIds r) k (sorted_keys (receivedDataMap r)) [] (2 ^ 64 - 1)) as (new & E & H1 & H2 & _).
  - unfold VC_MAX_MISSING_IDS_PER_NOTIFY. cbn. lia.
  - apply Forall_forall. intros x Hx%elem_of_sorted_keys%(proj2 Hok). lia.
  - rewrite Ek, Eids in E. cbn [app] in E. subst new. destruct Hok as [Hr _]. split; [cbn in *; lia|].
    eapply Forall_impl; [exact H2|]. cbn. unfold is_u64. intros; lia.
Qed.

(** When the message arrives it is the first to be delivered. *)
Lemma gap_filled cfg clk k p r items :
  map_ok r -> nextMessageId r = k -> receivedDataMap r !! k = None ->
  Forall fresh_item items -> (exists d, d ∈ items /\ messageId d = k) ->
  (forall d, d ∈ items -> messageId d = k -> Reorder.data d = p) ->
  exists r2 o, reorder_iteration cfg clk items r = Some (r2, o)
    /\ head (payload_of <$> itemsToDeliver o) = Some (k, p).
Proof.
  intros Hok Hn Hm Hf (d & Hd & Hid) Hp.
  destruct (iteration_meets_spec cfg clk items r Hok Hf) as (r2 & o & E & Hspec). exists r2, o. split; [done|].
  destruct Hspec as (s1 & s2 & out1 & out2 & Hok1 & E1 & Hmap & Hdr & _ & _ & -> & _).
  assert (Hk : exists x, receivedDataMap s1 !! k = Some x /\ ri_data x = p).
  { rewrite Hmap, Hm, decide_True by lia. unfold first_with_id.
    destruct (filter (fun d => messageId d = k) items) as [|d' l] eqn:Ef.
    - exfalso. apply (not_elem_of_nil d). rewrite <- Ef. by apply list_elem_of_filter.
    - assert (Hd' : d' ∈ filter (fun d => messageId d = k) items) by (rewrite Ef; by left).
      apply list_elem_of_filter in Hd' as [Hi Hin]. eexists. split; [done|]. cbn. by apply Hp. }
  destruct Hk as (x & Hx & Hxp). destruct Hdr as (j & En & Eids & Hitems & Hm2 & Hend & _).
  rewrite E1, Hn in *. destruct j as [|j].
  - exfalso. rewrite En in Hend. replace (k + Z.of_nat 0) with k in * by lia.
    rewrite Hm2, decide_False in Hend by lia. congruence.
  - rewrite seqZ_cons in Eids by lia. destruct out1 as [|d1 out1]; [done|]. rewrite fmap_cons in Eids.
    injection Eids as Ed1 _. apply Forall_cons in Hitems as [Hd1 _]. unfold item_at in Hd1. rewrite Ed1, Hx in Hd1.
    injection Hd1 as ->. cbn in *. unfold payload_of. by rewrite Ed1, <- Hxp.
Qed.

(** ** The peer answers from its cache *)

Lemma missing_loop_appends now nowMs ids c c' :
  missing_loop now nowMs ids c = Some c' ->
  exists l, queue (Channel.resendQueue c') = queue (Channel.resendQueue c) ++ l
    /\ cancelled (Channel.resendQueue c') = cancelled (Channel.resendQueue c).
Proof.
  assert (Hmark : forall nowMs id c c', mark_carrier nowMs id c = Some c' -> Channel.resendQueue c' = Channel.resendQueue c).
  { clear. intros nowMs id c c'. unfold mark_carrier. destruct (messageTracker c) as [tr|]; [|by intros [= <-]].
    destruct (MessageTracker.getConnectionIndex id tr); [|done]. intros [= <-]. by case_match. }
  revert c. induction ids as [|id ids IH]; intros c Hr; cbn [missing_loop] in Hr.
  { injection Hr as <-. exists []. by rewrite app_nil_r. }
  destruct (mark_carrier nowMs id c) as [c1|] eqn:E; [|done]. rewrite <- (Hmark _ _ _ _ E).
  destruct (pendingResendIds c1 !! id); [by apply IH|].
  destruct (Cache.find id (sentDataCache c1)) as [[dv|]|]; [|by apply IH|done].
  destruct (cached_payload dv) as [payload|]; [|done].
  destruct (IH _ Hr) as (l & El & Ec). cbn [set_resend Channel.resendQueue] in El, Ec. unfold default_resend in El, Ec.
  destruct (negb (opened c1)); [by exists l|]. cbn [set_resend Channel.resendQueue enqueue queue cancelled fst] in El, Ec.
  exists (encode_data id payload :: l). by rewrite El, <- app_assoc.
Qed.

(** The first id of the notification is the first to be resent. *)
Lemma missing_first_resent now nowMs k p ids c c' :
  opened c = true -> Cache.find k (sentDataCache c) = Some (Some (encode_data k p)) ->
  (length p <= VC_MAX_DATA_PAYLOAD_SIZE)%nat -> pendingResendIds c !! k = None ->
  processMissingNotify now nowMs (k :: ids) c = Some c' ->
  exists l, queue (Channel.resendQueue c') = queue (Channel.resendQueue c) ++ encode_data k p :: l
    /\ cancelled (Channel.resendQueue c') = cancelled (Channel.resendQueue c).
Proof.
  intros Ho Hf Hp Hpend Hr. unfold processMissingNotify in Hr. set (kept := filter _ (pendingResendIds c)) in Hr.
  assert (Hk : kept !! k = None) by (apply map_lookup_filter_None; by left).
  revert Hk Hr. generalize kept. clear kept. intros kept Hk Hr. cbn [missing_loop] in Hr.
  set (c0 := set_resend (Channel.resendQueue c) (socketStatuses c) kept c) in Hr.
  assert (Hmark : forall c1, mark_carrier nowMs k c0 = Some c1 ->
            exists sts, c1 = set_resend (Channel.resendQueue c) sts kept c).
  { intros c1. unfold mark_carrier. destruct (messageTracker c0) as [tr|]; [|intros [= <-]; by exists (socketStatuses c)].
    destruct (MessageTracker.getConnectionIndex k tr) as [i|]; [|done]. intros [= <-].
    destruct (_ && _); [|by exists (socketStatuses c)].
    by exists (alter (SocketStatus.markDegraded nowMs) (Z.to_nat i) (socketStatuses c)). }
  destruct (mark_carrier nowMs k c0) as [c1|] eqn:E; [|done]. destruct (Hmark c1 eq_refl) as [sts ->].
  cbn [set_resend pendingResendIds sentDataCache] in Hr. rewrite Hk, Hf, cached_payload_encode in Hr by done.
  apply missing_loop_appends in Hr as (l & El & Ec). exists l. unfold default_resend in El, Ec.
  cbn [set_resend opened] in El, Ec. rewrite Ho in El, Ec. cbn [negb set_resend Channel.resendQueue enqueue queue cancelled fst] in El, Ec.
  by rewrite El, <- app_assoc.
Qed.

(** ** The send thread puts it on a connection *)

(** A resend connection that works: alive, open, not backed off now nor at the
    next sample, and no other slot has the same object. *)
Definition healthy (so : nat -> option tcp_info) (idx a : nat) (sc : SendConns) : Prop :=
  exists c, conn_at idx sc = Some (a, c) /\ connected c = true /\ socketFd c <> -1
    /\ isInExponentialBackoff (lastRuntimeInfo c) = false
    /\ isInExponentialBackoff (sampleRuntimeInfo true (so idx)) = false
    /\ forall i, i <> idx -> mjoin (sc_connections sc !! i) <> Some a.

Lemma conn_at_Some i sc a c :
  conn_at i sc = Some (a, c) <-> mjoin (sc_connections sc !! i) = Some a /\ sc_heap sc !! a = Some c.
Proof.
  unfold conn_at. split.
  - destruct (mjoin _) as [b|]; [|done]. intros Hc. by apply fmap_Some in Hc as (? & ? & [= -> ->]).
  - by intros [-> ->].
Qed.

Lemma healthy_set_other so idx b sc i a c c' :
  conn_at i sc = Some (a, c) -> i <> idx -> healthy so idx b sc -> healthy so idx b (set_conn a c' sc).
Proof.
  intros [Hm _]%conn_at_Some Hi (d & [Hb Hd]%conn_at_Some & Hup & Hfd & Hbo & Hso & Hu).
  exists d. split_and!; try done. apply conn_at_Some. split; [done|]. cbn.
  rewrite lookup_insert_ne; [done|]. intros ->. by apply (Hu i Hi).
Qed.

Lemma conn_at_set i sc a c c' : conn_at i sc = Some (a, c) -> conn_at i (set_conn a c' sc) = Some (a, c').
Proof. intros [Hm _]%conn_at_Some. apply conn_at_Some. split; [done|]. apply lookup_insert_eq. Qed.

Lemma healthy_refresh now so i idx b sc :
  healthy so idx b sc -> healthy so idx b (refreshConnRuntimeInfo now so i sc).
Proof.
  intros Hh. unfold refreshConnRuntimeInfo. destruct (conn_at i sc) as [[a c]|] eqn:E; [|done].
  case_match; [done|]. case_match; [done|]. set (c' := (refreshRuntimeInfoIfStale _ _ _ c).1).
  destruct (decide (i = idx)) as [->|Hne].
  - destruct Hh as (d & Hb & Hup & Hfd & Hbo & Hso & Hu). rewrite E in Hb. injection Hb as <- <-.
    exists c'. split_and!; try done; try (unfold c', refreshRuntimeInfoIfStale; case_match; [done|]; cbn; by rewrite ?Hup).
    exact (conn_at_set idx sc a c c' E).
  - exact (healthy_set_other so idx b sc i a c c' E Hne Hh).
Qed.

Lemma conn_at_refresh now so i sc a c :
  conn_at i sc = Some (a, c) -> exists c', conn_at i (refreshConnRuntimeInfo now so i sc) = Some (a, c').
Proof.
  intros E. unfold refreshConnRuntimeInfo. rewrite E. case_match; [by eexists|]. case_match; [by eexists|].
  eexists. exact (conn_at_set i sc a c _ E).
Qed.

(** No descriptor number is reused while the packet is sent. *)
Definition no_reuse (at_ : attempt) : Prop :=
  (forall b, at_drop at_ <> InSend (Some b))
  /\ Forall (fun p => forall b, fp_drop p <> InSend (Some b)) (at_passes at_).

(** Other threads leave object [a] alone, and the first send on connection [idx]. *)
Definition undisturbed (idx a : nat) (ats : nat -> attempt) : Prop :=
  at_drop (ats idx) = Never /\ (forall i, (a ∉ at_others (ats i)) /\ no_reuse (ats i)).

Lemma send_call_own m r c c' r' other :
  (forall b, m <> InSend (Some b)) -> send_call m r c = (c', r', other) -> other = None.
Proof.
  intros Hm. unfold send_call. destruct (_ =? -1); [by intros [= _ _ <-]|].
  destruct m as [| | | |[b|]]; try (by intros [= _ _ <-]). by destruct (Hm b).
Qed.

Lemma flush_loop_own passes size c w c' w' :
  Forall (fun p => forall b, fp_drop p <> InSend (Some b)) passes -> stray w = None ->
  flush_loop passes size c w = Some (c', w') -> stray w' = None.
Proof.
  intros Hp. revert c w. induction Hp as [|p passes Hp _ IH]; intros c w Hw Hf; cbn [flush_loop] in Hf;
    destruct (size <=? totalSent w)%nat; try (by injection Hf as _ <-); [done|].
  destruct (_ || _); [by injection Hf as _ <-|].
  destruct (_ || _); [destruct (_ <=? _); [by injection Hf as _ <- | by eapply IH]|].
  destruct (send_call _ _ _) as [[c3 r] other] eqn:E. pose proof (send_call_own _ _ _ _ _ _ Hp E) as ->.
  destruct (0 <? _); [by eapply IH; [|exact Hf]|]. destruct (_ || _); [|by injection Hf as _ <-].
  destruct (_ <=? _); [by injection Hf as _ <- | by eapply IH].
Qed.

Lemma send_on_sent data at_ c c' w :
  no_reuse at_ -> send_on data at_ c = Some (SrSent, c', w) -> own_bytes data w = data.
Proof.
  intros [Hd Hp] Hs. unfold send_on in Hs. destruct (send_call _ _ _) as [[c1 r] other] eqn:E.
  pose proof (send_call_own _ _ _ _ _ _ Hd E) as ->.
  destruct (0 <? _); [|destruct (_ =? _); discriminate].
  destruct (flush_loop _ _ _ _) as [[c2 w2]|] eqn:Ef; [|done].
  assert (Hw : stray w2 = None) by (by eapply flush_loop_own; [exact Hp | |exact Ef]).
  destruct (Nat.ltb_spec (totalSent w2) (length data)) as [|Hge]; [done|]. injection Hs as _ <-.
  unfold own_bytes. unfold totalSent in Hge. rewrite Hw in Hge. apply take_ge. lia.
Qed.

(** A connection that takes the whole packet at once. *)
Lemma send_on_takes data at_ c :
  socketFd c <> -1 -> data <> [] -> at_drop at_ = Never -> at_first at_ = SendOk (length data) ->
  send_on data at_ c = Some (SrSent, c, mkWritten (length data) None).
Proof.
  intros Hfd Hne Hd Ha. unfold send_on, send_call, others_at. rewrite Hd, Ha, decide_False by done.
  destruct (Z.eqb_spec (socketFd c) (-1)); [done|].
  assert (Hr : SendTcpDirect (SendOk (length data)) = Z.of_nat (length data)) by (by destruct data).
  rewrite Hr, Nat2Z.id. destruct data as [|x data]; [done|]. destruct (Z.ltb_spec 0 (Z.of_nat (length (x :: data)))); [|cbn in *; lia].
  assert (Ef : forall ps n, flush_loop ps n c (mkWritten n None) = Some (c, mkWritten n None)).
  { intros ps n'. destruct ps; cbn [flush_loop]; unfold totalSent; cbn [own stray]; by rewrite Nat.add_0_r, Nat.leb_refl. }
  cbn [add_written unwritten own stray Nat.add]. rewrite Ef. unfold totalSent. cbn [own stray].
  by rewrite Nat.add_0_r, Nat.ltb_irrefl.
Qed.

Lemma wire_events_in a data w : data <> [] -> own_bytes data w = data -> EvWire a data ∈ wire_events a SrSent data w.
Proof. intros Hne Hw. unfold wire_events. rewrite Hw, bool_decide_false by done. by left. Qed.

Lemma healthy_interfere so idx b l sc : b ∉ l -> healthy so idx b sc -> healthy so idx b (interfere l sc).
Proof.
  intros Hb (c & [Hm Hc]%conn_at_Some & H). exists c. split; [|exact H]. apply conn_at_Some. split; [done|].
  cbn. induction l as [|a l IH]; [done|]. apply not_elem_of_cons in Hb as [Hab Hb]. cbn [disconnect_in foldr].
  rewrite lookup_alter_ne by done. by apply IH.
Qed.

(** The attempts of one resend reach the working connection or end before it
    with the packet sent. *)
Lemma resend_attempts_reach data now so ats rr rc k rem alive sc sc' evs alive' sent idx b :
  data <> [] -> undisturbed idx b ats -> at_first (ats idx) = SendOk (length data) -> healthy so idx b sc ->
  (exists j, (k <= j < k + rem)%nat /\ idx = (VC_FIRST_RESEND_CONN_INDEX + (rr + j) mod rc)%nat) ->
  resend_attempts data now so ats rr rc k rem alive sc = Some (sc', evs, alive', sent) ->
  sent = true /\ healthy so idx b sc' /\ exists a, EvWire a data ∈ evs.
Proof.
  intros Hne [Hdrop Hun] Hat. revert k alive sc sc' evs alive' sent.
  induction rem as [|rem IH]; intros k alive sc sc' evs alive' sent Hh (j & Hj & Ej) Hr; [lia|].
  cbn [resend_attempts] in Hr. set (i := (VC_FIRST_RESEND_CONN_INDEX + (rr + k) mod rc)%nat) in *.
  apply (healthy_interfere so idx b (at_others (ats i)) sc (proj1 (Hun i))) in Hh.
  set (sc0 := interfere (at_others (ats i)) sc) in *.
  assert (Hnext : i <> idx -> exists j, (S k <= j < S k + rem)%nat
            /\ idx = (VC_FIRST_RESEND_CONN_INDEX + (rr + j) mod rc)%nat).
  { intros Hi. exists j. split; [|done]. assert (j <> k) by (intros ->; done). lia. }
  destruct (decide (i = idx)) as [Ei|Hi].
  - rewrite Ei in Hr. pose proof Hh as (c & Ea & Hup & _). rewrite Ea, Hup in Hr. cbn [negb] in Hr.
    destruct (conn_at_refresh now so idx sc0 b c Ea) as [c1 E1]. rewrite E1 in Hr.
    pose proof (healthy_refresh now so idx idx b sc0 Hh) as Hh1.
    destruct Hh1 as (c1' & E1' & Hup1 & Hfd1 & Hbo1 & Hso1 & Hu1). rewrite E1 in E1'. injection E1' as <-.
    rewrite Hbo1, (send_on_takes data (ats idx) c1 Hfd1 Hne Hdrop Hat) in Hr. injection Hr as <- <- _ <-.
    split; [done|]. split; [|exists b; apply wire_events_in; [done | by apply take_ge]].
    exists c1. split_and!; try done. by eapply conn_at_set.
  - specialize (Hnext Hi). destruct (conn_at i sc0) as [[a c]|] eqn:Ea; [|by eapply IH].
    destruct (negb (connected c)); [by eapply IH|].
    pose proof (healthy_refresh now so i idx b sc0 Hh) as Hh1.
    destruct (conn_at_refresh now so i sc0 a c Ea) as [c1 E1]. rewrite E1 in Hr.
    destruct (isInExponentialBackoff _); [by eapply IH|].
    destruct (send_on data (ats i) c1) as [[[r c2] w]|] eqn:Es; [|done].
    pose proof (healthy_set_other so idx b _ i a c1 c2 E1 Hi Hh1) as Hh2.
    destruct r.
    { injection Hr as <- <- _ <-. apply (send_on_sent _ _ _ _ _ (proj2 (Hun i))) in Es. split_and!; [done | done |].
      exists a. by apply wire_events_in. }
    all: destruct (resend_attempts _ _ _ _ _ _ _ _ _ _) as [[[[s3 e3] al3] b3]|] eqn:Er; [|done].
    all: injection Hr as <- <- _ <-; destruct (IH _ _ _ _ _ _ _ Hh2 Hnext Er) as (Hs & Hh3 & x & Hx).
    all: split_and!; [done | done |]; exists x; apply elem_of_app; by right.
Qed.

Lemma rotation_hits rc rr m : (m < rc)%nat -> exists j, (j < rc)%nat /\ ((rr + j) mod rc = m)%nat.
Proof.
  intros Hm. pose proof (Nat.mod_upper_bound rr rc ltac:(lia)) as Hq. set (q := (rr mod rc)%nat) in *.
  assert (Hmod : forall j, ((rr + j) mod rc = (q + j) mod rc)%nat)
    by (intros j; unfold q; by rewrite Nat.Div0.add_mod_idemp_l).
  destruct (Nat.le_gt_cases q m).
  - exists (m - q)%nat. split; [lia|]. rewrite Hmod. replace (q + (m - q))%nat with m by lia. by apply Nat.mod_small.
  - exists (m + rc - q)%nat. split; [lia|]. rewrite Hmod. replace (q + (m + rc - q))%nat with (m + 1 * rc)%nat by lia.
    rewrite Nat.Div0.mod_add. by apply Nat.mod_small.
Qed.

Lemma healthy_lt so idx b sc : healthy so idx b sc -> (idx < length (sc_connections sc))%nat.
Proof.
  intros (c & [Hm _]%conn_at_Some & _). destruct (sc_connections sc !! idx) eqn:E; [|done]. by eapply lookup_lt_Some.
Qed.

Lemma sendOnResendConn_reach data now so ats t t' evs idx b :
  (VC_FIRST_RESEND_CONN_INDEX <= idx)%nat ->
  data <> [] -> undisturbed idx b ats -> at_first (ats idx) = SendOk (length data) ->
  healthy so idx b (ss_conns (st t)) ->
  sendOnResendConn data now so ats t = Some (t', evs) ->
  healthy so idx b (ss_conns (st t')) /\ SendThread.resendQueue t' = SendThread.resendQueue t
  /\ exists a, EvWire a data ∈ evs.
Proof.
  intros Hlo Hne Hun Hat Hh Hr. pose proof (healthy_lt _ _ _ _ Hh) as Hhi. unfold sendOnResendConn in Hr.
  destruct (Nat.leb_spec (length (sc_connections (ss_conns (st t)))) VC_FIRST_RESEND_CONN_INDEX); [lia|].
  destruct (packet_message_id data) as [id|]; [|done].
  set (rc := (length (sc_connections (ss_conns (st t))) - VC_FIRST_RESEND_CONN_INDEX)%nat) in *.
  destruct (resend_attempts _ _ _ _ _ _ _ _ _ _) as [[[[sc' e] al] sent]|] eqn:E; [|done].
  destruct (rotation_hits rc (resendRoundRobin t) (idx - VC_FIRST_RESEND_CONN_INDEX)) as (j & Hj & Ej); [lia|].
  destruct (fun H => resend_attempts_reach _ _ _ _ _ _ _ _ _ _ _ _ _ _ idx b Hne Hun Hat Hh H E) as (-> & Hh' & x & Hx).
  - exists j. split; lia.
  - injection Hr as <- <-. split_and!; [done | done |]. exists x. apply elem_of_app. by left.
Qed.

(** Every packet at one of the first positions of the resend queue is written
    out, whatever happens on the other connections. *)
Lemma resend_batch_reach m k i now so batch t t' evs idx b :
  (VC_FIRST_RESEND_CONN_INDEX <= idx)%nat -> (m < k)%nat -> healthy so idx b (ss_conns (st t)) ->
  cancelled (SendThread.resendQueue t) = false ->
  Forall (fun d => d <> []) (queue (SendThread.resendQueue t)) ->
  (forall j d, (j <= m)%nat -> queue (SendThread.resendQueue t) !! j = Some d ->
     at_first (batch (i + j)%nat idx) = SendOk (length d)) -> (forall j, undisturbed idx b (batch j)) ->
  resend_batch now so batch i k t = Some (t', evs) ->
  forall d, queue (SendThread.resendQueue t) !! m = Some d -> exists a, EvWire a d ∈ evs.
Proof.
  intros Hlo. revert m i t t' evs. induction k as [|k IH]; intros m i t t' evs Hm Hh Hc Hne Hat Hun Hr d Hd; [lia|].
  cbn [resend_batch] in Hr. unfold resend_one, tryDequeue in Hr.
  destruct (queue (SendThread.resendQueue t)) as [|d0 q] eqn:Eq; [done|]. rewrite Hc in Hr.
  set (t0 := SendThread.set_resend _ (resendRoundRobin t) (resendRetryCount t) t) in Hr.
  destruct (sendOnResendConn d0 now so (batch i) t0) as [[t1 e1]|] eqn:E1; [|done].
  destruct (resend_batch now so batch (S i) k t1) as [[t2 e2]|] eqn:E2; [|done]. injection Hr as <- <-.
  apply Forall_cons in Hne as [Hne0 Hne].
  pose proof (Hat 0%nat d0 ltac:(lia) eq_refl) as Hat0. rewrite Nat.add_0_r in Hat0.
  destruct (sendOnResendConn_reach d0 now so (batch i) t0 t1 e1 idx b Hlo Hne0 (Hun i) Hat0 Hh E1) as (Hh1 & Eq1 & x & Hx).
  destruct m as [|m].
  - injection Hd as ->. exists x. apply elem_of_app. by left.
  - assert (Hq1 : queue (SendThread.resendQueue t1) = q) by (by rewrite Eq1).
    destruct (IH m (S i) t1 t2 e2 ltac:(lia) Hh1) with (d := d) as (y & Hy); rewrite ?Hq1; try done.
    + by rewrite Eq1.
    + intros j d' Hj Hd'. rewrite Nat.add_succ_comm. apply Hat; [lia | done].
    + exists y. apply elem_of_app. by right.
Qed.

Lemma anyResendAlive_healthy so idx b sc :
  (VC_FIRST_RESEND_CONN_INDEX <= idx)%nat -> healthy so idx b sc -> anyResendAlive sc = true.
Proof.
  intros Hlo Hh. pose proof (healthy_lt _ _ _ _ Hh) as Hhi. destruct Hh as (c & Ha & Hup & _).
  apply existsb_exists. exists idx. split; [apply in_seq; lia | by rewrite Ha].
Qed.

Lemma send_iteration_reach m now nowMs so batch ats still t t' evs idx b :
  (VC_FIRST_RESEND_CONN_INDEX <= idx)%nat -> (m < MAX_RESEND_BATCH)%nat -> healthy so idx b (ss_conns (st t)) ->
  cancelled (SendThread.resendQueue t) = false ->
  Forall (fun d => d <> []) (queue (SendThread.resendQueue t)) ->
  (forall j d, (j <= m)%nat -> queue (SendThread.resendQueue t) !! j = Some d ->
     at_first (batch j idx) = SendOk (length d)) -> (forall j, undisturbed idx b (batch j)) ->
  send_iteration now nowMs so batch ats still t = Some (t', evs) ->
  forall d, queue (SendThread.resendQueue t) !! m = Some d -> exists a, EvWire a d ∈ evs.
Proof.
  intros Hlo Hm Hh Hc Hne Hat Hun Hr d Hd. unfold send_iteration, drain_resends in Hr.
  rewrite (anyResendAlive_healthy _ _ _ _ Hlo Hh) in Hr.
  destruct (resend_batch now so batch 0 MAX_RESEND_BATCH t) as [[t1 e1]|] eqn:E; [|done].
  destruct (resend_batch_reach m _ 0 now so batch t t1 e1 idx b Hlo Hm Hh Hc Hne Hat Hun E d Hd) as (a & Ha).
  exists a. destruct (clear_tracker t1) as [t2 e2]. destruct (send_data _ _ _ _ _ _) as [[t3 e3]|]; [|done].
  injection Hr as _ <-. rewrite !elem_of_app. auto.
Qed.

(** A packet that arrives alone is reported. *)
Lemma packet_parses i p :
  packet_ok p ->
  exists b, parse_buffer all_callbacks i (append (encode_packet p) emptyReadBuffer)
            = Some (b, packet_events all_callbacks i p).
Proof.
  intros Hp. destruct (stream_chunks (HL := io_parser_laws all_callbacks i) [p] [encode_packet p] emptyReadBuffer)
    as (b & Hf & _).
  - by constructor.
  - apply rb_wf_empty.
  - done.
  - cbn. done.
  - exists b. cbn [feed_chunks sp_parse sp_feed io_parser] in Hf.
    destruct (parse_buffer all_callbacks i (append (encode_packet p) emptyReadBuffer)) as [[b1 e1]|]; [|done].
    injection Hf as <- He. rewrite app_nil_r in He. rewrite He. unfold stream_events. cbn. by rewrite app_nil_r.
Qed.

(** The first [length q1 + 1] packets of a queue. *)
Lemma lookup_first {A} (q1 : list A) x l j d :
  (j <= length q1)%nat -> (q1 ++ x :: l) !! j = Some d -> (q1 ++ [x]) !! j = Some d.
Proof.
  intros Hj Hd. replace (q1 ++ x :: l) with ((q1 ++ [x]) ++ l) in Hd by (by rewrite <- app_assoc).
  rewrite lookup_app_l in Hd; [done|]. rewrite length_app. cbn. lia.
Qed.

(** ** The whole loop *)

(** C4. A lost message comes back.  The receiver waits for [k], has later
    messages, has not notified [k] before (an id is asked for once: if its resend
    is lost too, the timeout skips it), and the gap is past the notification
    interval and younger than the reorder timeout; the sender still has [k] in
    its cache and has not just resent it, its resend queue is short, and one
    resend connection works and is left alone by other threads while the queue is
    drained, no descriptor number being reused.  Then: the next iteration of the
    reorder thread sends a notification that starts with [k]; the peer parses
    exactly that, and its next send iteration writes the packet as it was first
    sent to a connection; and when it arrives, with whatever else, the reorder
    thread delivers message [k] with the accepted payload first. *)
Theorem lost_message_recovered {Q : Type} (cfg : reorder_config) (clk : clock) (now nowMs : Z)
  (so : nat -> option tcp_info) (batch : nat -> nat -> attempt) (ats : nat -> attempt)
  (n : nat) (B k : Z) (idx b : nat) (s : tunnel (Q := Q)) (r : ReorderState) :
  (0 < n)%nat -> 0 <= B < 9999999 -> Z.of_nat (length (accepted s)) < 2 ^ 64 - 2 -> end_ok n B s ->
  thread_op_ok (ThIterate now nowMs so batch ats true) ->
  gap cfg clk k r ->
  opened (tx s) = true -> cached (tx s) k -> pendingResendIds (tx s) !! k = None ->
  cancelled (Channel.resendQueue (tx s)) = false ->
  (length (queue (Channel.resendQueue (tx s))) < MAX_RESEND_BATCH)%nat ->
  (VC_FIRST_RESEND_CONN_INDEX <= idx)%nat -> healthy so idx b (ss_conns (st (attach (tx s) (th s)))) ->
  (forall j d, (queue (Channel.resendQueue (tx s)) ++ [cached_packet (tx s) k]) !! j = Some d ->
     at_first (batch j idx) = SendOk (length d)) ->
  (forall j, undisturbed idx b (batch j)) ->
  exists r1 o1 ids buf c1 t1 evs a p,
    reorder_iteration cfg clk [] r = Some (r1, o1) /\ missingNotify o1 = Some (k :: ids)
    /\ parse_buffer all_callbacks 0 (append (encode_missing_notify (k :: ids)) emptyReadBuffer)
       = Some (buf, [EvMissingNotify (k :: ids)])
    /\ processMissingNotify now nowMs (k :: ids) (tx s) = Some c1
    /\ send_iteration now nowMs so batch ats true (attach c1 (th s)) = Some (t1, evs)
    /\ EvWire a (encode_data k p) ∈ evs /\ accepted s !! Z.to_nat k = Some p
    /\ forall clk2 items, Forall fresh_item items -> (exists d, d ∈ items /\ messageId d = k) ->
         (forall d, d ∈ items -> messageId d = k -> Reorder.data d = p) ->
         exists r2 o2, reorder_iteration cfg clk2 items r1 = Some (r2, o2)
           /\ head (payload_of <$> itemsToDeliver o2) = Some (k, p).
Proof.
  intros Hn HB Hacc Hend Hop Hgap Ho [dv Hf] Hpend Hcan Hlen Hlo Hh Hat Hun.
  destruct (gap_notified cfg clk k r Hgap) as (r1 & o1 & ids & E1 & _ & En & Hpk & Hok1 & Hn1 & Hm1).
  destruct (si_cache _ _ _ _ (eo_sender _ _ _ Hend) k dv Hf) as (p & -> & [Hkok Hkp]).
  assert (Ecp : cached_packet (tx s) k = encode_data k p) by (unfold cached_packet; by rewrite Hf).
  rewrite Ecp in Hat.
  (* the notification reaches the peer *)
  destruct (packet_parses 0 (PktMissingNotify (k :: ids)) Hpk) as [buf Hbuf].
  (* the peer queues the packet *)
  destruct (sender_op_ok n B (OpMissingNotify now nowMs (k :: ids)) s Hn ltac:(lia) ltac:(lia) I Hend)
    as (s1 & Es1 & Hend1 & Hacc1).
  cbn [run_sender_op] in Es1. apply bind_Some in Es1 as (c1 & Ec1 & [= <-]).
  destruct (missing_first_resent now nowMs k p ids (tx s) c1 Ho Hf (proj2 Hkok) Hpend Ec1) as (l & Eq & Ecan).
  (* the send thread writes it *)
  destruct (sender_op_ok n (B + 1) (OpThreadStep (ThIterate now nowMs so batch ats true)) (set_end c1 (th s) [] [] s) Hn
              ltac:(lia) ltac:(lia) Hop Hend1)
    as (s2 & Es2 & _ & _).
  cbn [run_sender_op run_thread_op] in Es2. apply bind_Some in Es2 as ([t1 evs] & Et1 & _).
  cbn [set_end tx th] in Et1.
  assert (Hheap : heap c1 = heap (tx s)).
  { destruct (missing_notify_total (accepted s) n now nowMs (k :: ids) (tx s) Hn (eo_channel _ _ _ Hend)
                (si_cache _ _ _ _ (eo_sender _ _ _ Hend))) as (c' & Ec' & Hsame).
    rewrite Ec1 in Ec'. injection Ec' as <-. apply Hsame. }
  assert (Hne : Forall (fun d => d <> []) (queue (Channel.resendQueue c1))).
  { pose proof (si_resend _ _ _ _ (eo_sender _ _ _ Hend1)) as Hq. eapply Forall_impl; [exact Hq|].
    intros d (q & [Hq' _] & ->) E. pose proof (encode_packet_min q Hq') as Hmin. rewrite E in Hmin.
    unfold VC_MIN_DATA_PACKET_SIZE, sizeof_VCDataPacket in Hmin. cbn in Hmin. lia. }
  destruct (send_iteration_reach (length (queue (Channel.resendQueue (tx s)))) now nowMs so batch ats true
              (attach c1 (th s)) t1 evs idx b Hlo Hlen) with (d := encode_data k p) as (a & Ha).
  - unfold attach in Hh |- *. cbn [st ss_conns] in *. by rewrite Hheap.
  - cbn. by rewrite Ecan.
  - exact Hne.
  - intros j d Hj Hd. cbn in Hd. rewrite Eq in Hd. apply Hat. by eapply lookup_first.
  - exact Hun.
  - exact Et1.
  - cbn. rewrite Eq. by apply list_lookup_middle.
  - exists r1, o1, ids, buf, c1, t1, evs, a, p. split_and!; try done.
    intros clk2 items Hfr Hin Hdata. apply (gap_filled cfg clk2 k p r1 items); try done.
    rewrite Hm1. apply Hgap.
Qed.

(** ** Witness: message 0 is lost on a channel of 25 connections *)

Definition lost_first : ReorderState :=
  mkReorderState 0 {[ 1 := mkReceivedItem [Byte.x42] 3 ]} ∅ (-1) true 0 0 [].

Definition wide_fds : list SocketFd := seqZ 5 25.

Definition wide_end : tunnel (Q := unit) :=
  opened_end 0 wide_fds false 0 (mkReceiver [] [] 0 (newReorderState 25 0)) [].

Lemma lost_first_gap : gap default_config (at_ms 300) 0 lost_first.
Proof.
  constructor; try done.
  split; [cbn; lia|]. intros id [x Hx]. cbn in Hx. apply lookup_singleton_Some in Hx as [<- _]. cbn. lia.
Qed.

Lemma lost_message_recovered_witness :
  exists s r1 o1 ids c1 t1 evs a p,
    run_sender_ops [OpSend (Some [Byte.x41])] wide_end = Some s
    /\ reorder_iteration default_config (at_ms 300) [] lost_first = Some (r1, o1)
    /\ missingNotify o1 = Some (0 :: ids)
    /\ processMissingNotify 0 0 (0 :: ids) (tx s) = Some c1
    /\ send_iteration 0 0 (fun _ => None) (fun _ _ => sends_ending 12) (fun _ => sends_ending 12) true
         (attach c1 (th s)) = Some (t1, evs)
    /\ EvWire a (encode_data 0 p) ∈ evs /\ accepted s !! 0%nat = Some p.
Proof.
  destruct (sender_ops_ok 25 [OpSend (Some [Byte.x41])] 0 wide_end) as (s & E & Hend).
  { lia. } { lia. } { cbn; lia. } { cbn; lia. } { by repeat constructor. } { exact (end_ok_opened 0 wide_fds false 0 _ []). }
  assert (Hp : (fun s => (accepted s, opened (tx s), Channel.connections (tx s),
                          (connected <$> heap (tx s) !! 24%nat, socketFd <$> heap (tx s) !! 24%nat,
                           (fun c => isInExponentialBackoff (lastRuntimeInfo c)) <$> heap (tx s) !! 24%nat),
                          sc_connections (ss_conns (st (th s))),
                          Cache.find 0 (sentDataCache (tx s)), pendingResendIds (tx s) !! 0, Channel.resendQueue (tx s)))
               <$> run_sender_ops [OpSend (Some [Byte.x41])] wide_end
               = Some ([[Byte.x41]], true, Some <$> seq 0 25, (Some true, Some 29, Some false), Some <$> seq 0 25,
                       Some (Some (encode_data 0 [Byte.x41])), None, newBlockingQueue))
    by (vm_compute; reflexivity).
  rewrite E in Hp. injection Hp as Hacc Ho Hconns Hup Hfd Hbo Hslots Hfind Hpend Hrq.
  destruct (lost_message_recovered default_config (at_ms 300) 0 0 (fun _ => None) (fun _ _ => sends_ending 12)
              (fun _ => sends_ending 12) 25 1 0 24 24 s lost_first)
    as (r1 & o1 & ids & b & c1 & t1 & evs & a & p & E1 & En & _ & Ec & Et & Ha & Hpl & _).
  - lia.
  - lia.
  - rewrite Hacc. cbn. lia.
  - exact Hend.
  - split; [done|]. by split; intros; apply sends_ending_timed.
  - exact lost_first_gap.
  - exact Ho.
  - by exists (encode_data 0 [Byte.x41]).
  - exact Hpend.
  - by rewrite Hrq.
  - rewrite Hrq. cbn. unfold MAX_RESEND_BATCH. lia.
  - done.
  - destruct (heap (tx s) !! 24%nat) as [c|] eqn:Eh; [|done]. exists c.
    injection Hup as Hup. injection Hfd as Hfd. injection Hbo as Hbo. split_and!; try done.
    + apply conn_at_Some. split; [|exact Eh]. cbn. by rewrite Hslots.
    + by rewrite Hfd.
    + intros i Hi. cbn [attach st ss_conns sc_connections]. rewrite Hslots. intros Hm.
      do 25 (destruct i as [|i]; [first [by destruct Hi | discriminate Hm]|]). discriminate Hm.
  - intros j d Hj. rewrite Hrq in Hj. unfold cached_packet in Hj. rewrite Hfind in Hj.
    destruct j as [|j]; [by injection Hj as <- | done].
  - intros j. split; [done|]. intros i. split; [apply not_elem_of_nil|]. split; [done|].
    by apply Forall_replicate.
  - exists s, r1, o1, ids, c1, t1, evs, a, p. by split_and!.
Defined.
