(* ===== verification/Double.v ===== *)
(** * double

    A [double] is an IEEE 754 binary64 number of the Standard Library's SpecFloat,
    each C++ operation the correctly rounded one.  Its order is strict on all
    values: NaN is not comparable. *)

From S2P Require Import Prelude.
From Stdlib Require Import SpecFloat.

Abbreviation double := spec_float.

Definition of_int (z : Z) : double := binary_normalize 53 1024 z 0 false.
Definition dadd : double -> double -> double := SFadd 53 1024.
Definition dsub : double -> double -> double := SFsub 53 1024.
Definition dmul : double -> double -> double := SFmul 53 1024.
Definition ddiv : double -> double -> double := SFdiv 53 1024.
Definition dlt (a b : double) : bool := SFltb a b.
Definition dle (a b : double) : bool := SFleb a b.

(** The double nearest to the decimal literal [num]/[den]. *)
Definition lit (num den : Z) : double := ddiv (of_int num) (of_int den).

(** [static_cast<int>] truncates; it is undefined on NaN and infinities, and the
    value given here for them is never used. *)
Definition to_int (d : double) : Z :=
  match d with
  | S754_finite s m e =>
      let a := if 0 <=? e then Zpos m * 2 ^ e else Zpos m / 2 ^ (- e) in
      if s then - a else a
  | _ => 0
  end.

(** [static_cast<int>(std::round(d))]: halves go away from zero. *)
Definition round_int (d : double) : Z :=
  match d with
  | S754_finite s m e =>
      let a := if 0 <=? e then Zpos m * 2 ^ e else (2 * Zpos m + 2 ^ (- e)) / (2 * 2 ^ (- e)) in
      if s then - a else a
  | _ => 0
  end.

(** numeric_limits<double>::max() and lowest(). *)
Definition DBL_MAX : double := S754_finite false (2 ^ 53 - 1) 971.
Definition DBL_LOWEST : double := S754_finite true (2 ^ 53 - 1) 971.

(** ** The order *)

(** Sign, exponent and mantissa, arranged so that the order is lexicographic. *)
Definition dkey (d : double) : option (Z * Z * Z) :=
  match d with
  | S754_nan => None
  | S754_infinity s => Some (if s then -2 else 2, 0, 0)
  | S754_zero _ => Some (0, 0, 0)
  | S754_finite false m e => Some (1, e, Zpos m)
  | S754_finite true m e => Some (-1, - e, Zneg m)
  end.

Definition key_lt (x y : Z * Z * Z) : Prop :=
  x.1.1 < y.1.1 \/ (x.1.1 = y.1.1 /\ (x.1.2 < y.1.2 \/ (x.1.2 = y.1.2 /\ x.2 < y.2))).

Lemma dlt_key a b :
  dlt a b = true <-> exists x y, dkey a = Some x /\ dkey b = Some y /\ key_lt x y.
Proof.
  unfold dlt, SFltb, key_lt.
  assert (Hsome : forall x y : Z * Z * Z, (exists x' y', Some x = Some x' /\ Some y = Some y' /\ key_lt x' y') <-> key_lt x y).
  { intros x y. split; [intros (? & ? & [= <-] & [= <-] & ?); done | intros; by exists x, y]. }
  unfold key_lt in Hsome.
  destruct a as [sa|sa| |[] ma ea], b as [sb|sb| |[] mb eb]; cbn [SFcompare dkey];
    try (destruct sa); try (destruct sb); rewrite ?Hsome; cbn [fst snd];
    try (split; [by intros | intros (? & ? & ? & ? & ?); done]);
    try (split; [intros ?; try done; lia | intros ?; try done; lia]).
  - change (Pos.compare_cont Eq ma mb) with (Pos.compare ma mb).
    destruct (Z.compare_spec ea eb); [|split; [done|lia]|split; [|lia]; lia].
    destruct (Pos.compare_spec ma mb); cbn [CompOpp]; split; (done || lia).
  - change (Pos.compare_cont Eq ma mb) with (Pos.compare ma mb).
    destruct (Z.compare_spec ea eb); [|split; [lia|lia]|split; [done|lia]].
    destruct (Pos.compare_spec ma mb); split; (done || lia).
Qed.

Lemma dlt_irrefl a : dlt a a = false.
Proof.
  destruct (dlt a a) eqn:E; [|done]. apply dlt_key in E as (x & y & Hx & Hy & H).
  rewrite Hx in Hy. injection Hy as <-. unfold key_lt in H. lia.
Qed.

Lemma dlt_trans a b c : dlt a b = true -> dlt b c = true -> dlt a c = true.
Proof.
  rewrite !dlt_key. intros (x & y & Hx & Hy & H1) (y' & z & Hy' & Hz & H2).
  rewrite Hy in Hy'. injection Hy' as <-. exists x, z. split_and!; [done..|]. unfold key_lt in *. lia.
Qed.
