(* ===== verification/NetworkScore.v ===== *)
(** * The network score (src/common/NetworkScore.h, NetworkScoreCalculator.h,
      NetworkScoreCalculator.cpp and TcpVirtualChannel::getNetworkScore)

    Numbers of type double are those of Double.v; an integer operand is converted
    first, as the usual arithmetic conversions do.  The entries of the three
    vectors are the objects themselves: in a channel none of the pointers is
    null. *)

From S2P Require Import Prelude TcpConnection IoThread VcProtocol BlockingQueue SentCache Channel.
From Stdlib Require Import SpecFloat.
From S2P Require Import Double.

(** ** The four scores *)

(** kThresholds after its first entry, {0.0, 100}. *)
Definition kThresholds : list (Z * Z) :=
  [(80, 100); (160, 75); (300, 50); (600, 25); (1500, 10); (3000, 0)].

(** The loop over the brackets. *)
Fixpoint interpolate (avgRttMs : double) (from : Z * Z) (l : list (Z * Z)) : Z :=
  match l with
  | [] => 0
  | to :: l =>
      if dle (of_int from.1) avgRttMs && dlt avgRttMs (of_int to.1) then
        let range := dsub (of_int to.1) (of_int from.1) in
        let ratio := ddiv (dsub avgRttMs (of_int from.1)) range in
        round_int (dadd (of_int from.2) (dmul ratio (of_int (to.2 - from.2))))
      else interpolate avgRttMs to l
  end.

Definition scoreLatency (avgRttMs : double) : Z :=
  if dle avgRttMs (of_int 0) then 100
  else if dle (of_int 3000) avgRttMs then 0
  else interpolate avgRttMs (0, 100) kThresholds.

Definition cwnd_score (avgCwndKB : double) (connScore : Z) : Z :=
  if dlt (of_int 0) avgCwndKB then
    if dle (of_int 128) avgCwndKB then 100
    else if dle (of_int 64) avgCwndKB then 85
    else if dle (of_int 32) avgCwndKB then 70
    else if dle (of_int 16) avgCwndKB then 50
    else if dle (of_int 8) avgCwndKB then 30
    else 10
  else connScore.

Definition conn_score (aliveCount totalConnections : Z) : Z :=
  to_int (dmul (if 0 <? totalConnections then ddiv (of_int aliveCount) (of_int totalConnections) else of_int 0)
               (of_int 100)).

Definition blend (cwndScore connScore : Z) : Z :=
  to_int (dadd (dmul (of_int cwndScore) (lit 6 10)) (dmul (of_int connScore) (lit 4 10))).

Definition scoreThroughput (avgCwndKB : double) (totalTxCount aliveCount totalConnections : Z) : Z :=
  if totalTxCount =? 0 then (if 0 <? aliveCount then 70 else 0)
  else
    let connScore := conn_score aliveCount totalConnections in
    blend (cwnd_score avgCwndKB connScore) connScore.

Definition scoreStability (totalReenqueueCount totalTxCount degradedCount deadCount aliveCount : Z) : Z :=
  let score := 100 - deadCount * 15 - degradedCount * 8 in
  let score :=
    if 0 <? totalTxCount then
      let reenqueueRate := ddiv (of_int totalReenqueueCount) (of_int totalTxCount) in
      if dlt (lit 20 100) reenqueueRate then score - 40
      else if dlt (lit 10 100) reenqueueRate then score - 30
      else if dlt (lit 5 100) reenqueueRate then score - 20
      else if dlt (lit 1 100) reenqueueRate then score - 10
      else score
    else score in
  let score := if (aliveCount =? 0) && (0 <? deadCount) then 0 else score in
  Z.max 0 (Z.min 100 score).

Definition scoreQueueHealth (sendQueueDepth : Z) : Z :=
  if sendQueueDepth =? 0 then 100
  else if SEND_QUEUE_DROP_THRESHOLD <=? sendQueueDepth then 0
  else
    let ratio := ddiv (of_int sendQueueDepth) (of_int SEND_QUEUE_DROP_THRESHOLD) in
    round_int (dmul (of_int 100) (dsub (of_int 1) ratio)).

(** ** compute *)

Record NetworkScore : Type := mkNetworkScore {
  overall : Z;
  latency : Z;
  throughput : Z;
  stability : Z;
  queueHealth : Z;
  avgRttMs : double;
  avgCwndKB : double;
  totalTxCount : Z;
  totalReenqueueCount : Z;
  degradedCount : Z;
  deadCount : Z;
  aliveCount : Z;
  sendQueueDepth : Z;
}.

(** The local variables of the aggregation loop. *)
Record totals : Type := mkTotals {
  t_alive : Z;
  t_dead : Z;
  t_degraded : Z;
  t_rttUs : double;
  t_rttSamples : Z;
  t_cwndBytes : double;
  t_cwndSamples : Z;
  t_tx : Z;
  t_reenq : Z;
}.

Definition no_totals : totals := mkTotals 0 0 0 (of_int 0) 0 (of_int 0) 0 0 0.

Definition conn_counts_alive (info : RuntimeInfo) (st : ConnSendStats) : bool :=
  if supported info then valid info else valid info || statsValid st.

(** One iteration; [None] when isCurrentlyDegraded is undefined. *)
Definition aggregate_one (nowMs : Z) (x : RuntimeInfo * ConnSendStats * SocketStatus.SocketStatus) (t : totals)
  : option totals :=
  let '(info, st, status) := x in
  let tx := u64 (t_tx t + txCount st) in
  let reenq := u64 (t_reenq t + reenqueueCount st) in
  if conn_counts_alive info st then
    let has_rtt := supported info && (0 <? smoothedRttUs info) in
    let has_cwnd := supported info && (0 <? congestionWindowBytes info) in
    match SocketStatus.isCurrentlyDegraded nowMs 10000 status with
    | None => None
    | Some deg =>
        Some (mkTotals (t_alive t + 1) (t_dead t) (if deg then t_degraded t + 1 else t_degraded t)
                (if has_rtt then dadd (t_rttUs t) (of_int (smoothedRttUs info)) else t_rttUs t)
                (if has_rtt then t_rttSamples t + 1 else t_rttSamples t)
                (if has_cwnd then dadd (t_cwndBytes t) (of_int (congestionWindowBytes info)) else t_cwndBytes t)
                (if has_cwnd then t_cwndSamples t + 1 else t_cwndSamples t) tx reenq)
    end
  else
    Some (mkTotals (t_alive t) (t_dead t + 1) (t_degraded t) (t_rttUs t) (t_rttSamples t) (t_cwndBytes t)
            (t_cwndSamples t) tx reenq).

Fixpoint aggregate (nowMs : Z) (xs : list (RuntimeInfo * ConnSendStats * SocketStatus.SocketStatus)) (t : totals)
  : option totals :=
  match xs with
  | [] => Some t
  | x :: xs => match aggregate_one nowMs x t with None => None | Some t' => aggregate nowMs xs t' end
  end.

Definition weighted (l t s q : Z) : Z :=
  to_int (dadd (dadd (dadd (dmul (of_int l) (lit 25 100)) (dmul (of_int t) (lit 25 100)))
                     (dmul (of_int s) (lit 35 100)))
               (dmul (of_int q) (lit 15 100))).

(** [zip] stops at the shortest of the three, as the loop bound does. *)
Definition compute (nowMs : Z) (infos : list RuntimeInfo) (sendStats : list ConnSendStats)
  (statuses : list SocketStatus.SocketStatus) (depth : Z) : option NetworkScore :=
  let xs := zip (zip infos sendStats) statuses in
  match aggregate nowMs xs no_totals with
  | None => None
  | Some t =>
      let rtt := if 0 <? t_rttSamples t
                 then ddiv (ddiv (t_rttUs t) (of_int (t_rttSamples t))) (of_int 1000) else of_int 0 in
      let cwnd := if 0 <? t_cwndSamples t
                  then ddiv (ddiv (t_cwndBytes t) (of_int (t_cwndSamples t))) (of_int 1024) else of_int 0 in
      let l := scoreLatency rtt in
      let th := scoreThroughput cwnd (t_tx t) (t_alive t) (Z.of_nat (length xs)) in
      let st := scoreStability (t_reenq t) (t_tx t) (t_degraded t) (t_dead t) (t_alive t) in
      let q := scoreQueueHealth depth in
      Some (mkNetworkScore (weighted l th st q) l th st q rtt cwnd (t_tx t) (t_reenq t) (t_degraded t)
              (t_dead t) (t_alive t) depth)
  end.

(** getNetworkScore: refresh and read the runtime info of the connected slots,
    an empty one for the others. *)
Fixpoint sample_infos (now : Z) (sockopt : nat -> option tcp_info) (slots : list (option nat)) (h : conn_heap)
  : conn_heap * list RuntimeInfo :=
  match slots with
  | [] => (h, [])
  | slot :: slots =>
      match slot ≫= (fun a => t ← h !! a; Some (a, t)) with
      | Some (a, t) =>
          if TcpConnection.connected t then
            let t' := (refreshRuntimeInfoIfStale now (ms 500) (sockopt a) t).1 in
            let '(h', infos) := sample_infos now sockopt slots (<[a := t']> h) in
            (h', lastRuntimeInfo t' :: infos)
          else let '(h', infos) := sample_infos now sockopt slots h in (h', emptyRuntimeInfo :: infos)
      | None => let '(h', infos) := sample_infos now sockopt slots h in (h', emptyRuntimeInfo :: infos)
      end
  end.

Definition getNetworkScore (now nowMs : Z) (sockopt : nat -> option tcp_info) (c : Channel)
  : Channel * option NetworkScore :=
  let '(h', infos) := sample_infos now sockopt (connections c) (heap c) in
  (set_heap h' c, compute nowMs infos (connSendStats c) (socketStatuses c) (approxSize (sendQueue c))).

(** ** Ranges *)

Definition in_percent (z : Z) : bool := (0 <=? z) && (z <=? 100).

Lemma in_percent_iff z : in_percent z = true <-> 0 <= z <= 100.
Proof. unfold in_percent. rewrite andb_true_iff, !Z.leb_le. done. Qed.

(** A bounded check by evaluation. *)
Lemma forallb_seqZ (P : Z -> bool) (lo n z : Z) :
  forallb P (seqZ lo n) = true -> lo <= z < lo + n -> P z = true.
Proof. rewrite forallb_forall. intros H Hz. apply H, list_elem_of_In, elem_of_seqZ. lia. Qed.

Lemma queue_health_table :
  forallb (fun d => in_percent (scoreQueueHealth d)) (seqZ 0 1000) = true.
Proof. vm_compute. reflexivity. Qed.

Lemma scoreQueueHealth_range d : 0 <= d -> 0 <= scoreQueueHealth d <= 100.
Proof.
  intros Hd. destruct (decide (d < 1000)) as [Hl|Hl].
  - apply in_percent_iff. apply (forallb_seqZ _ 0 1000 d queue_health_table). lia.
  - unfold scoreQueueHealth, SEND_QUEUE_DROP_THRESHOLD.
    destruct (Z.eqb_spec d 0); [lia|]. destruct (Z.leb_spec 1000 d); lia.
Qed.

Lemma scoreStability_range r t dg de al : 0 <= scoreStability r t dg de al <= 100.
Proof. unfold scoreStability. lia. Qed.

(** The connection share of a channel of at most 32 connections. *)
Lemma conn_score_table :
  forallb (fun n => forallb (fun a => in_percent (conn_score a n)) (seqZ 0 (n + 1))) (seqZ 0 33) = true.
Proof. vm_compute. reflexivity. Qed.

Lemma conn_score_range a n : 0 <= a <= n -> n <= 32 -> 0 <= conn_score a n <= 100.
Proof.
  intros Ha Hn. apply in_percent_iff.
  pose proof (forallb_seqZ _ 0 33 n conn_score_table ltac:(lia)) as H.
  apply (forallb_seqZ _ 0 (n + 1) a H). lia.
Qed.

Lemma blend_table :
  forallb (fun cs => forallb (fun cw => in_percent (blend cw cs)) [100; 85; 70; 50; 30; 10; cs]) (seqZ 0 101) = true.
Proof. vm_compute. reflexivity. Qed.

Lemma cwnd_score_cases avg cs : In (cwnd_score avg cs) [100; 85; 70; 50; 30; 10; cs].
Proof.
  unfold cwnd_score. cbn [In]. destruct (dlt (of_int 0) avg); [|tauto].
  repeat match goal with |- context [if ?b then _ else _] => destruct b end; tauto.
Qed.

Lemma scoreThroughput_range avg tx a n : 0 <= a <= n -> n <= 32 -> 0 <= scoreThroughput avg tx a n <= 100.
Proof.
  intros Ha Hn. unfold scoreThroughput. destruct (tx =? 0); [destruct (0 <? a); lia|].
  pose proof (conn_score_range a n Ha Hn) as Hc. apply in_percent_iff.
  pose proof (forallb_seqZ _ 0 101 (conn_score a n) blend_table ltac:(lia)) as H. cbv beta in H.
  rewrite forallb_forall in H. apply H, cwnd_score_cases.
Qed.

(** Every connection is counted alive or dead, and only live ones degraded. *)
Lemma aggregate_counts nowMs xs t t' :
  aggregate nowMs xs t = Some t' -> 0 <= t_alive t -> 0 <= t_degraded t <= t_alive t ->
  t_alive t <= t_alive t' /\ t_dead t <= t_dead t' /\ 0 <= t_degraded t' <= t_alive t'
  /\ t_alive t' + t_dead t' = t_alive t + t_dead t + Z.of_nat (length xs).
Proof.
  revert t. induction xs as [|[[info st] status] xs IH]; intros t E Ha Hd; cbn [aggregate] in E.
  { injection E as <-. cbn [length]. lia. }
  unfold aggregate_one in E. cbn [length]. destruct (conn_counts_alive info st).
  - destruct (SocketStatus.isCurrentlyDegraded nowMs 10000 status) as [deg|]; [|done].
    apply IH in E; cbn [t_alive t_dead t_degraded] in E |- *; destruct deg; lia.
  - apply IH in E; cbn [t_alive t_dead t_degraded] in E |- *; lia.
Qed.

(** C36. On a channel of at most 32 connections the stability, throughput and
    queue scores are percentages whatever the statistics hold, every connection
    is counted either alive or dead, only live ones as degraded, and when all
    are dead the stability is 0. *)
Theorem network_score_well_formed (nowMs : Z) (infos : list RuntimeInfo) (stats : list ConnSendStats)
  (statuses : list SocketStatus.SocketStatus) (depth : Z) (r : NetworkScore) :
  compute nowMs infos stats statuses depth = Some r ->
  0 <= depth -> (length infos <= VC_TCP_CONNECTIONS)%nat ->
  0 <= stability r <= 100 /\ 0 <= throughput r <= 100 /\ 0 <= queueHealth r <= 100
  /\ aliveCount r + deadCount r = Z.of_nat ((length infos `min` length stats) `min` length statuses)
  /\ 0 <= degradedCount r <= aliveCount r
  /\ (aliveCount r = 0 -> 0 < deadCount r -> stability r = 0).
Proof.
  unfold compute. set (xs := zip (zip infos stats) statuses).
  assert (El : length xs = ((length infos `min` length stats) `min` length statuses)%nat)
    by (unfold xs; rewrite !length_zip_with; done).
  destruct (aggregate nowMs xs no_totals) as [t|] eqn:E; [|done]. intros [= <-] Hd Hl.
  apply aggregate_counts in E as (Ha & Hde & Hdg & Hsum); [|cbn; lia..].
  change (t_alive no_totals) with 0 in *. change (t_dead no_totals) with 0 in *.
  cbn [stability throughput queueHealth aliveCount deadCount degradedCount].
  assert (Z.of_nat (length xs) <= 32) by (rewrite El; unfold VC_TCP_CONNECTIONS in Hl; lia).
  split; [apply scoreStability_range|]. split; [apply scoreThroughput_range; lia|].
  split; [by apply scoreQueueHealth_range|]. split; [lia|]. split; [done|].
  intros H0 Hdead. unfold scoreStability. rewrite H0. cbn [Z.eqb andb].
  destruct (Z.ltb_spec 0 (t_dead t)); [|lia]. cbn. done.
Qed.

(** A perfect connection set scores 100, and the latency score follows its code:
    full marks up to 80 ms, 78 at 150 ms, nothing from 3 s on. *)
Example perfect_is_100 : weighted 100 100 100 100 = 100.
Proof. vm_compute. reflexivity. Qed.

Example latency_scores :
  scoreLatency (of_int 3) = 100 /\ scoreLatency (of_int 80) = 100 /\ scoreLatency (of_int 150) = 78
  /\ scoreLatency (of_int 300) = 50 /\ scoreLatency (of_int 2999) = 0 /\ scoreLatency (of_int 3000) = 0.
Proof. vm_compute. done. Qed.

Definition ex_info : RuntimeInfo := mkRuntimeInfo true true false false 200000 20000 65536 0 0 0.

Lemma network_score_well_formed_witness :
  exists r, compute 5000 [ex_info; emptyRuntimeInfo; emptyRuntimeInfo]
      [mkConnSendStats 9 4000 100 3 0 true; mkConnSendStats 0 0 40 0 0 true; newConnSendStats]
      [SocketStatus.markDegraded 4000 (SocketStatus.newSocketStatus 0); SocketStatus.newSocketStatus 1;
       SocketStatus.newSocketStatus 2] 250 = Some r
    /\ 0 <= stability r <= 100 /\ aliveCount r + deadCount r = 3.
Proof.
  destruct (compute 5000 [ex_info; emptyRuntimeInfo; emptyRuntimeInfo]
      [mkConnSendStats 9 4000 100 3 0 true; mkConnSendStats 0 0 40 0 0 true; newConnSendStats]
      [SocketStatus.markDegraded 4000 (SocketStatus.newSocketStatus 0); SocketStatus.newSocketStatus 1;
       SocketStatus.newSocketStatus 2] 250) as [r|] eqn:E; [|vm_compute in E; discriminate].
  destruct (network_score_well_formed _ _ _ _ _ r E) as (H1 & _ & _ & H2 & _).
  - lia.
  - cbn. unfold VC_TCP_CONNECTIONS. lia.
  - exists r. split; [reflexivity|]. split; [exact H1 | exact H2].
Defined.
