(* ===== verification/Diagnostics.v ===== *)
(** * Diagnostics of the reorder thread (src/common/TcpVirtualChannel.cpp, NetworkScore.cpp)

    What the thread logs and reports: the warning of a reorder timeout with the
    connection it suspects, the periodic health log, the warning of a slow
    callback and NetworkScore::format.  Clock readings are in nanoseconds; what
    the operating system answers is an argument. *)

From stdpp Require Import pretty sorting.
From S2P Require Import Prelude Bytes VcProtocol TcpConnection IoThread BlockingQueue SentCache Reorder Channel.
From S2P Require Import Double NetworkScore.
From Stdlib Require Import SpecFloat.

#[local] Open Scope list_scope.
#[local] Open Scope Z_scope.

(** duration_cast<milliseconds> truncates. *)
Definition to_ms (ns : Z) : Z := Z.quot ns 1000000.

(** ** The suspect of a timeout *)

(** suspectConn, suspectLastRx and suspectAgeMs. *)
Definition suspect : Type := Z * Z * Z.

Definition is_candidate (missingStart : Z) (r : RxInfo) : bool :=
  lastRxValid r && (lastRxMessageId r <? missingStart).

Definition suspect_step (now missingStart : Z) (i : Z) (r : RxInfo) (s : suspect) : suspect :=
  let '(conn, lastRx, age) := s in
  if negb (is_candidate missingStart r) then s
  else
    let ageMs := to_ms (now - lastRxTime r) in
    if (conn =? -1) || (lastRxMessageId r <? lastRx) || ((lastRxMessageId r =? lastRx) && (age <? ageMs))
    then (i, lastRxMessageId r, ageMs) else s.

(** The loop from connection [i]. *)
Fixpoint find_suspect (now missingStart i : Z) (rx : list RxInfo) (s : suspect) : suspect :=
  match rx with
  | [] => s
  | r :: rx => find_suspect now missingStart (i + 1) rx (suspect_step now missingStart i r s)
  end.

Definition suspect_of (now missingStart : Z) (rx : list RxInfo) : suspect :=
  find_suspect now missingStart 0 rx (-1, 0, 0).

(** ** The buffered messages by connection *)

(** bufByConn and bufUnknown. *)
Fixpoint count_buffered (items : list ReceivedItem) (bufByConn : list nat) (bufUnknown : nat) : list nat * nat :=
  match items with
  | [] => (bufByConn, bufUnknown)
  | it :: items =>
      let i := ri_sourceConnIndex it in
      if (0 <=? i) && (i <? Z.of_nat (length bufByConn))
      then count_buffered items (alter S (Z.to_nat i) bufByConn) bufUnknown
      else count_buffered items bufByConn (S bufUnknown)
  end.

Definition buffered_by_conn (numConns : nat) (m : gmap Z ReceivedItem) : list nat * nat :=
  count_buffered (snd <$> map_to_list m) (replicate numConns 0%nat) 0.

(** ** Texts *)

Section texts.
#[local] Open Scope string_scope.

(** Elements from index [i], with a comma before each but that of index 0. *)
Fixpoint joined {A} (f : Z -> A -> string) (i : Z) (l : list A) : string :=
  match l with
  | []%list => ""
  | (x :: l)%list => (if (0 <? i)%Z then "," else "") +:+ f i x +:+ joined f (i + 1) l
  end.

Definition bufferedSummary (b : list nat * nat) : string :=
  "bufByConn=[" +:+ joined (fun i n => pretty i +:+ ":" +:+ pretty n) 0 b.1
  +:+ (if (0 <? b.2)%nat then ",u:" +:+ pretty b.2 else "") +:+ "]".

Definition rxSummary (now : Z) (rx : list RxInfo) : string :=
  "rx=[" +:+ joined (fun i r =>
      if lastRxValid r
      then pretty i +:+ ":" +:+ pretty (lastRxMessageId r) +:+ "@" +:+ pretty (to_ms (now - lastRxTime r)) +:+ "ms"
      else pretty i +:+ ":-") 0 rx +:+ "]".

(** [now - lastTxTimeMs] is an int64_t subtraction. *)
Definition txSummary (nowMs : Z) (stats : list ConnSendStats) : string :=
  "tx=[" +:+ joined (fun i s =>
      if statsValid s
      then pretty i +:+ ":" +:+ pretty (lastTxMessageId s) +:+ "@" +:+ pretty (nowMs - lastTxTimeMs s)%Z +:+ "ms/n"
           +:+ pretty (txCount s) +:+ "/r" +:+ pretty (reenqueueCount s) +:+ "/s" +:+ pretty (slowSendCount s)
      else pretty i +:+ ":-") 0 stats +:+ "]".

(** The suspect's last sends, if its slot holds a connection. *)
Definition sendDiag (nowMs : Z) (conn : option TcpConnection) : string :=
  match conn with
  | None => ""
  | Some c =>
      if diagSendInFlight c
      then ", sendInFlight=true sendMsgId=" +:+ pretty (diagInFlightMessageIdVal c)
           +:+ " sendAgeMs=" +:+ pretty (nowMs - diagInFlightStartMsVal c)%Z
      else ", sendIdle lastSendMsgId=" +:+ pretty (diagLastSendCompletedMessageIdVal c)
  end.

(** A number with [digits] decimals, as the format specification .[digits]f has
    it: exact halves go to the even digit. *)
Definition round_even (num den : Z) : Z :=
  let q := (num / den)%Z in
  let r := (2 * (num mod den))%Z in
  if (r <? den)%Z then q else if (den <? r)%Z then (q + 1)%Z else (q + q mod 2)%Z.

Fixpoint zeros (n : nat) : string := match n with O => "" | S n => "0" +:+ zeros n end.

Definition pad_zeros (n : nat) (s : string) : string := zeros (n - String.length s) +:+ s.

Definition decimal (digits : nat) (n : Z) : string :=
  if (digits =? 0)%nat then pretty n
  else pretty (n / 10 ^ Z.of_nat digits)%Z +:+ "."
       +:+ pad_zeros digits (pretty (n mod 10 ^ Z.of_nat digits)%Z).

Definition scaled (digits : nat) (m e : Z) : Z :=
  if (0 <=? e)%Z then (m * 10 ^ Z.of_nat digits * 2 ^ e)%Z else round_even (m * 10 ^ Z.of_nat digits) (2 ^ (- e)).

Definition fixed (digits : nat) (d : double) : string :=
  match d with
  | S754_nan => "nan"
  | S754_infinity s => if s then "-inf" else "inf"
  | S754_zero s => (if s then "-" else "") +:+ decimal digits 0
  | S754_finite s m e => (if s then "-" else "") +:+ decimal digits (scaled digits (Zpos m) e)
  end.

(** NetworkScore::format *)
Definition format (s : NetworkScore) : string :=
  "[SCORE] overall=" +:+ pretty (overall s) +:+ " latency=" +:+ pretty (latency s)
  +:+ " throughput=" +:+ pretty (throughput s) +:+ " stability=" +:+ pretty (stability s)
  +:+ " queueHealth=" +:+ pretty (queueHealth s) +:+ " | rtt=" +:+ fixed 1 (avgRttMs s)
  +:+ "ms cwnd=" +:+ fixed 0 (avgCwndKB s) +:+ "KB tx=" +:+ pretty (totalTxCount s)
  +:+ " reenq=" +:+ pretty (totalReenqueueCount s) +:+ " degraded=" +:+ pretty (degradedCount s)
  +:+ " dead=" +:+ pretty (deadCount s) +:+ " alive=" +:+ pretty (aliveCount s)
  +:+ " qdepth=" +:+ pretty (sendQueueDepth s).

(** ** The warning of a timeout *)

(** [s] is the state in which the timer has run out; [elapsed] since it was
    started; [bytesAvailable] what SocketBytesAvailable gives for a slot. *)
Definition timeout_report (s : ReorderState) (elapsed now nowMs sendNowMs : Z) (slots : list (option TcpConnection))
  (bytesAvailable : TcpConnection -> Z) (stats : list ConnSendStats) : option string :=
  let keys := sorted_keys (receivedDataMap s) in
  match head keys, last keys with
  | Some firstBuf, Some lastBuf =>
      let missingStart := nextMessageId s in
      let missingEnd := if (0 <? firstBuf)%Z then (firstBuf - 1)%Z else 0%Z in
      let '(suspectConn, suspectLastRx, suspectAgeMs) := suspect_of now missingStart (lastRx s) in
      let conn := if (suspectConn <? 0)%Z then None else mjoin (slots !! Z.to_nat suspectConn) in
      let conn_of id := match receivedDataMap s !! id with Some it => ri_sourceConnIndex it | None => (-1)%Z end in
      Some ("Reorder timeout (" +:+ pretty (to_ms elapsed) +:+ "ms): skipping messageIds " +:+ pretty missingStart
            +:+ "-" +:+ pretty missingEnd +:+ ", advancing to " +:+ pretty firstBuf
            +:+ ". Buffered=" +:+ pretty (base.size (receivedDataMap s)) +:+ " (lastDeliveredConn="
            +:+ pretty (lastDeliveredConnIndex s) +:+ ", firstBuffered=" +:+ pretty firstBuf +:+ " conn="
            +:+ pretty (conn_of firstBuf) +:+ ", lastBuffered=" +:+ pretty lastBuf +:+ " conn="
            +:+ pretty (conn_of lastBuf) +:+ ", suspectConn=" +:+ pretty suspectConn +:+ " suspectRx="
            +:+ pretty (if (suspectConn =? -1)%Z then 0%Z else suspectLastRx) +:+ "@"
            +:+ pretty (if (suspectConn =? -1)%Z then 0%Z else suspectAgeMs) +:+ "ms pendingBytes="
            +:+ pretty (match conn with Some c => bytesAvailable c | None => (-1)%Z end) +:+ sendDiag sendNowMs conn
            +:+ ", " +:+ bufferedSummary (buffered_by_conn (length slots) (receivedDataMap s))
            +:+ ", " +:+ rxSummary now (lastRx s) +:+ ", " +:+ txSummary nowMs stats +:+ ")")
  | _, _ => None
  end.

(** ** The health log *)

Definition health_line (s : ReorderState) (queueDepth : nat) (now nowMs : Z) (stats : list ConnSendStats) : string :=
  "[VC] Health: nextMsgId=" +:+ pretty (nextMessageId s) +:+ " buffered=" +:+ pretty (base.size (receivedDataMap s))
  +:+ " queueDepth=" +:+ pretty queueDepth +:+ " gap=" +:+ (if gapTimerActive s then "active" else "none")
  +:+ ", " +:+ rxSummary now (lastRx s) +:+ ", " +:+ txSummary nowMs stats.
End texts.

Definition HEALTH_LOG_INTERVAL : Z := 10 * 1000000000.

(** lastHealthLogTime after an iteration at [now], and whether it logged. *)
Definition health_tick (now lastHealthLogTime : Z) : Z * bool :=
  let last := if lastHealthLogTime =? 0 then now else lastHealthLogTime in
  if HEALTH_LOG_INTERVAL <=? now - last then (now, true) else (last, false).

(** The times at which the thread logs, over the iterations at [times]. *)
Fixpoint health_logs (times : list Z) (last : Z) : list Z :=
  match times with
  | [] => []
  | now :: times =>
      let '(last', logs) := health_tick now last in
      (if logs then [now] else []) ++ health_logs times last'
  end.

(** ** The suspect *)

(** Staler: an older last message, or the same and longer ago. *)
Definition staler (now : Z) (a b : RxInfo) : Prop :=
  lastRxMessageId a < lastRxMessageId b
  \/ (lastRxMessageId a = lastRxMessageId b /\ to_ms (now - lastRxTime b) < to_ms (now - lastRxTime a)).

(** The outcome of the loop over [rx]. *)
Definition suspect_ok (now missingStart : Z) (rx : list RxInfo) (s : suspect) : Prop :=
  (s = (-1, 0, 0) /\ forall j y, rx !! j = Some y -> is_candidate missingStart y = false)
  \/ exists i x, rx !! i = Some x /\ is_candidate missingStart x = true
       /\ s = (Z.of_nat i, lastRxMessageId x, to_ms (now - lastRxTime x))
       /\ forall j y, rx !! j = Some y -> is_candidate missingStart y = true ->
            ~ staler now y x /\ ((j < i)%nat -> staler now x y).

Lemma find_suspect_snoc now missingStart i rx r s :
  find_suspect now missingStart i (rx ++ [r]) s
  = suspect_step now missingStart (i + Z.of_nat (length rx)) r (find_suspect now missingStart i rx s).
Proof.
  revert i s. induction rx as [|r0 rx IH]; intros i s; cbn [app find_suspect length].
  - by rewrite Z.add_0_r.
  - rewrite IH. f_equal. lia.
Qed.

Lemma suspect_step_ok now missingStart rx r s :
  suspect_ok now missingStart rx s ->
  suspect_ok now missingStart (rx ++ [r]) (suspect_step now missingStart (Z.of_nat (length rx)) r s).
Proof.
  assert (Hcases : forall j y, (rx ++ [r]) !! j = Some y -> rx !! j = Some y \/ (j = length rx /\ y = r)).
  { intros j y [Hj|[Hl Hj]]%lookup_app_Some; [by left|right].
    apply list_lookup_singleton_Some in Hj as [Hz <-]. split; [lia|done]. }
  assert (Hlast : (rx ++ [r]) !! length rx = Some r) by by apply list_lookup_middle.
  intros [[-> Hnone]|(i & x & Hi & Hx & -> & Hmin)]; unfold suspect_step;
    destruct (is_candidate missingStart r) eqn:Hr; cbn [negb].
  - cbn [orb Z.eqb Pos.eqb]. right. exists (length rx), r. split_and!; [done..|].
    intros j y [Hj|[-> ->]]%Hcases Hy; [by rewrite (Hnone _ _ Hj) in Hy|]. unfold staler. split; lia.
  - left. split; [done|]. intros j y [Hj|[-> ->]]%Hcases; [by eapply Hnone | done].
  - destruct (Z.eqb_spec (Z.of_nat i) (-1)); [lia|]. cbn [orb].
    destruct ((lastRxMessageId r <? lastRxMessageId x) || _) eqn:Hc.
    + right. exists (length rx), r. split_and!; [done..|]. intros j y [Hj|[-> ->]]%Hcases Hy; [|unfold staler; split; lia].
      destruct (Hmin j y Hj Hy) as [Hn _]. pose proof (lookup_lt_Some _ _ _ Hj). unfold staler in *. lia.
    + right. exists i, x. split_and!; [by apply lookup_app_l_Some | done | done|].
      pose proof (lookup_lt_Some _ _ _ Hi) as Hlt.
      intros j y [Hj|[-> ->]]%Hcases Hy; [by apply Hmin|]. unfold staler. lia.
  - right. exists i, x. split_and!; [by apply lookup_app_l_Some | done | done|].
    intros j y [Hj|[-> ->]]%Hcases Hy; [by apply Hmin | congruence].
Qed.

(** The connection a timeout report suspects is, of those that have received
    something but nothing from the gap on, the one whose last message is the
    oldest, received the longest ago; it names none only when there is none. *)
Theorem suspect_is_stalest (now missingStart : Z) (rx : list RxInfo) :
  suspect_ok now missingStart rx (suspect_of now missingStart rx).
Proof.
  unfold suspect_of. induction rx as [|r rx IH] using rev_ind.
  - left. split; [done|]. intros j y Hj. by rewrite lookup_nil in Hj.
  - rewrite find_suspect_snoc, Z.add_0_l. by apply suspect_step_ok.
Qed.

(** ** The counts *)

Lemma sum_alter l i : (i < length l)%nat -> sum_list (alter S i l) = S (sum_list l).
Proof.
  revert i. induction l as [|n l IH]; intros i Hi; [cbn in Hi; lia|]. destruct i as [|i]; cbn in *; [lia|].
  rewrite IH by lia. lia.
Qed.

Lemma count_buffered_sum items b u :
  let r := count_buffered items b u in (sum_list r.1 + r.2 = sum_list b + u + length items)%nat.
Proof.
  revert b u. induction items as [|it items IH]; intros b u; cbn [count_buffered length]; [cbn; lia|].
  destruct ((0 <=? ri_sourceConnIndex it) && (ri_sourceConnIndex it <? Z.of_nat (length b))) eqn:Hc.
  - specialize (IH (alter S (Z.to_nat (ri_sourceConnIndex it)) b) u). cbv zeta in *. rewrite IH, sum_alter by lia. lia.
  - specialize (IH b (S u)). cbv zeta in *. rewrite IH. lia.
Qed.

(** Every buffered message is counted for its connection or as unknown. *)
Lemma buffered_all_counted n m :
  let r := buffered_by_conn n m in (sum_list r.1 + r.2 = base.size m)%nat.
Proof.
  unfold buffered_by_conn. cbv zeta. rewrite count_buffered_sum, length_fmap, length_map_to_list.
  assert (E : sum_list (replicate n 0%nat) = 0%nat); [|lia]. induction n as [|n IH]; [done|]. exact IH.
Qed.

(** ** The report and the skip *)

(** The ids a report calls missing are the ones the skip gives up: none of them
    is buffered, and the first delivered message is the one after them. *)
Lemma report_names_what_is_skipped timeout now s s' items k ks :
  map_ok s -> sorted_keys (receivedDataMap s) = k :: ks ->
  gapTimerActive s = true -> timeout <= now - gapFirstSeen s -> gap_check timeout now s = Some (s', items) ->
  (forall id, nextMessageId s <= id <= k - 1 -> receivedDataMap s !! id = None)
  /\ (messageId <$> items) !! 0%nat = Some k.
Proof.
  intros Hok Ek Ha Ht E. destruct (sorted_keys_head _ _ _ Ek) as [Hk Hmin]. split.
  { intros id Hid. apply eq_None_not_Some. intros Hs%Hmin. lia. }
  unfold gap_check in E. rewrite Ek, Ha in E. cbn [negb] in E. destruct (Z.leb_spec timeout (now - gapFirstSeen s)); [|lia].
  set (s1 := set_gap _ _ _) in E.
  assert (Hok1 : map_ok s1).
  { destruct Hok as [H1 H2]. pose proof (H2 k Hk). split; cbn; [lia|]. intros id Hs. split; [by apply Hmin | by apply H2]. }
  destruct (drain_loop_spec _ _ _ _ Hok1 E) as (n & En & Eids & _ & _ & Hend & _).
  rewrite Eids. cbn [s1 set_gap set_stream nextMessageId receivedDataMap] in *.
  destruct n as [|n]; [|rewrite seqZ_cons by lia; done].
  exfalso. pose proof (drain_loop_spec _ _ _ _ Hok1 E) as (n' & En' & _ & _ & Hmap & Hend' & _).
  rewrite Hmap, En in Hend'. cbn in Hend'. rewrite decide_False in Hend' by (rewrite En in En'; cbn in En'; lia).
  rewrite Z.add_0_r in Hend'. destruct Hk as [x Hk]. congruence.
Qed.

(** ** The health log *)

Lemma health_logs_bounds times last :
  0 < last -> StronglySorted Z.le (last :: times) ->
  StronglySorted (fun a b => a + HEALTH_LOG_INTERVAL <= b) (health_logs times last)
  /\ Forall (fun t => last + HEALTH_LOG_INTERVAL <= t) (health_logs times last).
Proof.
  revert last. induction times as [|now times IH]; intros last Hl Hs; [split; constructor|].
  apply StronglySorted_inv in Hs as [Hs Hf]. apply Forall_cons in Hf as [Hn Hf].
  cbn [health_logs]. unfold health_tick. destruct (Z.eqb_spec last 0); [lia|].
  destruct (Z.leb_spec HEALTH_LOG_INTERVAL (now - last)); cbn [app].
  - destruct (IH now) as [H1 H2]; [lia | done|]. split; [by constructor|]. constructor; [lia|].
    eapply Forall_impl; [exact H2|]. cbn. intros t Ht. unfold HEALTH_LOG_INTERVAL in *. lia.
  - apply IH; [done|]. apply StronglySorted_inv in Hs as [Hs _]. by constructor.
Qed.

(** The health log is rate-limited: however often the thread iterates, two log
    lines are at least ten seconds apart, and the first comes at least ten
    seconds after the first iteration. *)
Theorem health_logs_spaced (t0 : Z) (times : list Z) :
  0 < t0 -> StronglySorted Z.le (t0 :: times) ->
  StronglySorted (fun a b => a + HEALTH_LOG_INTERVAL <= b) (health_logs (t0 :: times) 0)
  /\ Forall (fun t => t0 + HEALTH_LOG_INTERVAL <= t) (health_logs (t0 :: times) 0).
Proof.
  intros H0 Hs. cbn [health_logs]. unfold health_tick. cbn [Z.eqb]. rewrite Z.sub_diag.
  destruct (Z.leb_spec HEALTH_LOG_INTERVAL 0); [unfold HEALTH_LOG_INTERVAL in *; lia|].
  cbn [app]. by apply health_logs_bounds.
Qed.

(** ** Decimals *)

(** A printed number is nearest to the double. *)
Lemma round_even_nearest num den :
  0 < den -> Z.abs (2 * (round_even num den * den - num)) <= den.
Proof.
  intros Hd. unfold round_even. pose proof (Z.div_mod num den ltac:(lia)) as E.
  pose proof (Z.mod_pos_bound num den Hd) as Hm. pose proof (Z.mod_pos_bound (num / den) 2 ltac:(lia)) as Hp.
  destruct (Z.ltb_spec (2 * (num mod den)) den); [nia|].
  destruct (Z.ltb_spec den (2 * (num mod den))); [nia|]. nia.
Qed.

Lemma format_example :
  fixed 1 (lit 23 10) = "2.3"%string /\ fixed 0 (of_int 64) = "64"%string
  /\ fixed 6 (lit 5 100000) = "0.000050"%string /\ fixed 1 (lit 1 4) = "0.2"%string /\ fixed 1 (lit 5 1000) = "0.0"%string.
Proof. vm_compute. repeat split. Qed.
