(* ===== verification/Config.v ===== *)
(** * Settings (src/client/ClientConfiguration.cpp, src/server/ServerConfiguration.cpp,
    the argument loops of both main.cpp, the levels of src/common/Log.cpp)

    The JSON library and the configuration file are parameters. *)

From Stdlib Require Import Ascii.
From S2P Require Import Prelude.

Open Scope string_scope.

(** ** Log levels *)

Inductive LogLevel : Type := LOG_DEBUG | LOG_INFO | LOG_WARN | LOG_ERROR.

(** The enumerators' values, by which levels are compared. *)
Definition level_value (l : LogLevel) : Z :=
  match l with LOG_DEBUG => 0 | LOG_INFO => 1 | LOG_WARN => 2 | LOG_ERROR => 3 end.

Definition getLogLevelString (l : LogLevel) : string :=
  match l with
  | LOG_DEBUG => "DEBUG"
  | LOG_INFO => "INFO"
  | LOG_WARN => "WARNING"
  | LOG_ERROR => "ERROR"
  end.

Definition stringToLogLevel (s : string) : LogLevel :=
  if (s =? "DEBUG") || (s =? "debug") then LOG_DEBUG
  else if (s =? "INFO") || (s =? "info") then LOG_INFO
  else if (s =? "WARNING") || (s =? "warning") || (s =? "WARN") || (s =? "warn") then LOG_WARN
  else if (s =? "ERROR") || (s =? "error") then LOG_ERROR
  else LOG_INFO.

(** Whether log() writes a message. *)
Definition logged (currentLogLevel level : LogLevel) : bool :=
  negb (level_value level <? level_value currentLogLevel)%Z.

Lemma log_level_roundtrip l : stringToLogLevel (getLogLevelString l) = l.
Proof. by destruct l. Qed.

(** ** std::string and the number parsers *)

(** substr(n) *)
Fixpoint substr (n : nat) (s : string) : string :=
  match n, s with
  | S n, String _ s => substr n s
  | _, _ => s
  end.

(** find(p) == 0 *)
Definition starts_with (p s : string) : bool := String.prefix p s.

Definition code (c : ascii) : Z := Z.of_N (Ascii.N_of_ascii c).

Definition isspace (c : ascii) : bool := ((9 <=? code c) && (code c <=? 13) || (code c =? 32))%Z.
Definition isdigit (c : ascii) : bool := ((48 <=? code c) && (code c <=? 57))%Z.

Fixpoint skip_space (s : string) : string :=
  match s with
  | String c s' => if isspace c then skip_space s' else s
  | EmptyString => s
  end.

(** The value of the leading digits, [None] if there is none. *)
Fixpoint digits (acc : option Z) (s : string) : option Z :=
  match s with
  | String c s => if isdigit c then digits (Some (10 * default 0 acc + (code c - 48)))%Z s else acc
  | EmptyString => acc
  end.

(** Sign and magnitude; what follows the digits is ignored. *)
Definition strto (s : string) : option (bool * Z) :=
  match skip_space s with
  | String "-" s => option_map (pair true) (digits None s)
  | String "+" s => option_map (pair false) (digits None s)
  | s => option_map (pair false) (digits None s)
  end.

Inductive parsed : Type := Parsed (z : Z) | InvalidArgument | OutOfRange.

Definition stoi (s : string) : parsed :=
  match strto s with
  | None => InvalidArgument
  | Some (neg, m) =>
      let v := if neg then - m else m in
      if ((- 2 ^ 31 <=? v) && (v <? 2 ^ 31))%Z then Parsed v else OutOfRange
  end.

(** A minus sign negates in unsigned long. *)
Definition stoul (s : string) : parsed :=
  match strto s with
  | None => InvalidArgument
  | Some (neg, m) => if (2 ^ 64 <=? m)%Z then OutOfRange else Parsed (if neg then u64 (- m) else m)
  end.

Example stoi_ex : stoi " +7001x" = Parsed 7001 /\ stoi "port" = InvalidArgument
                  /\ stoi "99999999999" = OutOfRange /\ stoul "-1" = Parsed (2 ^ 64 - 1).
Proof. repeat split; reflexivity. Qed.

(** No argument begins with two of the options. *)
Lemma starts_with_excl p q s :
  starts_with p q || starts_with q p = false -> starts_with q s = true -> starts_with p s = false.
Proof.
  unfold starts_with. revert q s. induction p as [|a p IH]; intros q s Hc Hq; [by destruct q|].
  destruct q as [|b q]; [done|]. destruct s as [|c s]; [done|]. cbn in *.
  destruct (Ascii.ascii_dec b c) as [<-|]; [|done].
  destruct (Ascii.ascii_dec a b) as [<-|]; [|done].
  destruct (Ascii.ascii_dec a a); [|done]. eauto.
Qed.

Ltac arg_cases :=
  repeat match goal with
  | |- context [if starts_with ?q ?a then _ else _] =>
      let E := fresh "E" in
      destruct (starts_with q a) eqn:E;
      [ repeat match goal with
               | |- context [starts_with ?p a] => rewrite (starts_with_excl p q a eq_refl E)
               end
      | ]
  end.

Ltac arg_field_with unfolds :=
  intros ? [? ?] ?; unfolds;
  match goal with |- context [?a =? "--help"] => destruct (a =? "--help"); [done|] end;
  arg_cases; repeat case_match; intros; simplify_eq/=; done.

(** ** ServerConfiguration *)

Record ServerConfiguration : Type := mkServerConfiguration {
  server_portNumber : Z;
  server_udpTargetPort : Z;
}.

Definition defaultServerConfiguration : ServerConfiguration := mkServerConfiguration 7001 7001.

Definition server_setPortNumber (port : Z) (c : ServerConfiguration) : ServerConfiguration :=
  mkServerConfiguration port (server_udpTargetPort c).
Definition setUdpTargetPort (port : Z) (c : ServerConfiguration) : ServerConfiguration :=
  mkServerConfiguration (server_portNumber c) port.

(** ** The JSON library *)

(** What the getters use of nlohmann::json.  [find] is the lookup that
    operator[] const makes in an object. *)
Class Json (json : Type) := {
  null : json;
  empty_object : json;
  parse : string -> option json;          (* [None]: parse_error *)
  is_null : json -> bool;
  is_object : json -> bool;
  is_string : json -> bool;
  is_number_unsigned : json -> bool;
  find : string -> json -> option json;
  get_string : json -> string;
  get_unsigned : json -> Z;
}.

Class JsonLaws (json : Type) `{Json json} : Prop := {
  is_null_null : is_null null = true;
  is_null_empty : is_null empty_object = false;
  is_object_empty : is_object empty_object = true;
  find_empty k : find k empty_object = None;
  object_not_null j : is_object j = true -> is_null j = false;
}.

(** ** ClientConfiguration *)

Section client_configuration.
Context {json : Type} `{Json json}.

Record ClientConfiguration : Type := mkClientConfiguration {
  configJson : json;
  cliPeerAddress : option string;
  cliPeerTcpPort : option Z;
  cliLocalHostUdpPort : option Z;
  cliClientId : option Z;
}.

Definition newClientConfiguration : ClientConfiguration := mkClientConfiguration null None None None None.

Definition setSocketAddress (addr : string) (c : ClientConfiguration) : ClientConfiguration :=
  mkClientConfiguration (configJson c) (Some addr) (cliPeerTcpPort c) (cliLocalHostUdpPort c) (cliClientId c).
Definition setPortNumber (port : Z) (c : ClientConfiguration) : ClientConfiguration :=
  mkClientConfiguration (configJson c) (cliPeerAddress c) (Some port) (cliLocalHostUdpPort c) (cliClientId c).
Definition setLocalHostUdpPort (port : Z) (c : ClientConfiguration) : ClientConfiguration :=
  mkClientConfiguration (configJson c) (cliPeerAddress c) (cliPeerTcpPort c) (Some port) (cliClientId c).
Definition setClientId (id : Z) (c : ClientConfiguration) : ClientConfiguration :=
  mkClientConfiguration (configJson c) (cliPeerAddress c) (cliPeerTcpPort c) (cliLocalHostUdpPort c) (Some id).

(** [file]: what config.json holds, if it can be opened. *)
Definition LoadJsonConfig (file : option string) (c : ClientConfiguration) : ClientConfiguration :=
  let j := match file with
           | Some text => default empty_object (parse text)
           | None => empty_object
           end in
  mkClientConfiguration j (cliPeerAddress c) (cliPeerTcpPort c) (cliLocalHostUdpPort c) (cliClientId c).

Inductive setting (A : Type) : Type :=
| Value (a : A)
| Undefined        (* operator[] const with an absent key: its assertion *)
| TypeError.       (* operator[] on what is not an object throws *)
Arguments Value {A}.
Arguments Undefined {A}.
Arguments TypeError {A}.

(** The body the four getters share. *)
Definition json_setting {A} (key : string) (ok : json -> bool) (get : json -> A) (dflt : A)
  (cli : option A) (file : option string) (c : ClientConfiguration) : ClientConfiguration * setting A :=
  match cli with
  | Some v => (c, Value v)
  | None =>
      let c1 := if is_null (configJson c) then LoadJsonConfig file c else c in
      let j := configJson c1 in
      (c1, if is_null j then Value dflt
           else if negb (is_object j) then TypeError
           else match find key j with
                | None => Undefined
                | Some v => Value (if ok v then get v else dflt)
                end)
  end.

Definition getSocketAddress (file : option string) (c : ClientConfiguration) :=
  json_setting "peerAddress" is_string get_string "127.0.0.1" (cliPeerAddress c) file c.
Definition getPortNumber (file : option string) (c : ClientConfiguration) :=
  json_setting "peerTcpPort" is_number_unsigned (fun v => u16 (get_unsigned v)) 0%Z (cliPeerTcpPort c) file c.
Definition getLocalHostUdpPort (file : option string) (c : ClientConfiguration) :=
  json_setting "localHostUdpPort" is_number_unsigned (fun v => u16 (get_unsigned v)) 0%Z
    (cliLocalHostUdpPort c) file c.
Definition getClientId (file : option string) (c : ClientConfiguration) :=
  json_setting "clientId" is_number_unsigned (fun v => u32 (get_unsigned v)) 0%Z (cliClientId c) file c.

(** ** The argument loop of the client *)

(** [Throws]: stoi or stoul throws, which main does not catch. *)
Inductive arg_result (S : Type) : Type := Next (st : S) | PrintHelp | Throws.
Arguments Next {S}.
Arguments PrintHelp {S}.
Arguments Throws {S}.

Definition with_parsed {S} (r : parsed) (f : Z -> S) : arg_result S :=
  match r with Parsed v => Next (f v) | _ => Throws end.

Definition client_arg (arg : string) (st : LogLevel * ClientConfiguration)
  : arg_result (LogLevel * ClientConfiguration) :=
  let '(logLevel, c) := st in
  if arg =? "--help" then PrintHelp
  else if starts_with "--log-level=" arg then Next (stringToLogLevel (substr 12 arg), c)
  else if starts_with "--peer-address=" arg then Next (logLevel, setSocketAddress (substr 15 arg) c)
  else if starts_with "--peer-port=" arg then
    with_parsed (stoi (substr 12 arg)) (fun port => (logLevel, setPortNumber (u16 port) c))
  else if starts_with "--local-udp-port=" arg then
    with_parsed (stoi (substr 17 arg)) (fun port => (logLevel, setLocalHostUdpPort (u16 port) c))
  else if starts_with "--client-id=" arg then
    with_parsed (stoul (substr 12 arg)) (fun id => (logLevel, setClientId (u32 id) c))
  else Next st.

Fixpoint run_args {S} (step : string -> S -> arg_result S) (args : list string) (st : S) : arg_result S :=
  match args with
  | [] => Next st
  | arg :: args =>
      match step arg st with
      | Next st => run_args step args st
      | r => r
      end
  end.

Definition client_args (args : list string) : arg_result (LogLevel * ClientConfiguration) :=
  run_args client_arg args (LOG_INFO, newClientConfiguration).

(** ** The argument loop of the server *)

Definition server_arg (arg : string) (st : LogLevel * ServerConfiguration)
  : arg_result (LogLevel * ServerConfiguration) :=
  let '(logLevel, c) := st in
  if arg =? "--help" then PrintHelp
  else if starts_with "--log-level=" arg then Next (stringToLogLevel (substr 12 arg), c)
  else if starts_with "--port=" arg then
    with_parsed (stoi (substr 7 arg)) (fun port => (logLevel, server_setPortNumber port c))
  else if starts_with "--udp-target-port=" arg then
    with_parsed (stoi (substr 18 arg)) (fun port => (logLevel, setUdpTargetPort port c))
  else Next st.

Definition server_args (args : list string) : arg_result (LogLevel * ServerConfiguration) :=
  run_args server_arg args (LOG_INFO, defaultServerConfiguration).

(** ** What the options mean *)

(** The text of the last argument that begins with [p]. *)
Fixpoint last_option (p : string) (args : list string) : option string :=
  match args with
  | [] => None
  | a :: args =>
      match last_option p args with
      | Some v => Some v
      | None => if starts_with p a then Some (substr (String.length p) a) else None
      end
  end.

(** An option whose loop sets the field [get] by [f], whatever the other
    options do. *)
Lemma run_args_last {S A} (step : string -> S -> arg_result S) (get : S -> option A) p (f : string -> option A) :
  (forall a st st', step a st = Next st' ->
     get st' = if starts_with p a then f (substr (String.length p) a) else get st) ->
  (forall a st st', step a st = Next st' -> starts_with p a = true -> f (substr (String.length p) a) <> None) ->
  forall args st st', run_args step args st = Next st' ->
  get st' = match last_option p args with Some s => f s | None => get st end
  /\ forall s, last_option p args = Some s -> f s <> None.
Proof.
  intros Hstep Hf args. induction args as [|a args IH]; intros st st' Hr; cbn in Hr.
  - injection Hr as <-. by split.
  - destruct (step a st) as [st1| |] eqn:E; [|done|done].
    destruct (IH _ _ Hr) as [-> Hs]. cbn. destruct (last_option p args) as [s|]; [by split|].
    rewrite (Hstep _ _ _ E). pose proof (Hf _ _ _ E) as Hn. destruct (starts_with p a); [|by split].
    split; [done|]. intros ? [= <-]. auto.
Qed.

Definition parsed_value (g : Z -> Z) (r : parsed) : option Z :=
  match r with Parsed v => Some (g v) | _ => None end.

Lemma client_arg_address a st st' :
  client_arg a st = Next st' ->
  cliPeerAddress st'.2 = if starts_with "--peer-address=" a then Some (substr 15 a) else cliPeerAddress st.2.
Proof. revert a st st'. arg_field_with ltac:(unfold client_arg, with_parsed, parsed_value). Qed.

Lemma client_arg_port a st st' :
  client_arg a st = Next st' ->
  cliPeerTcpPort st'.2 = if starts_with "--peer-port=" a then parsed_value u16 (stoi (substr 12 a))
                         else cliPeerTcpPort st.2.
Proof. revert a st st'. arg_field_with ltac:(unfold client_arg, with_parsed, parsed_value). Qed.

Lemma client_arg_udp_port a st st' :
  client_arg a st = Next st' ->
  cliLocalHostUdpPort st'.2 = if starts_with "--local-udp-port=" a then parsed_value u16 (stoi (substr 17 a))
                              else cliLocalHostUdpPort st.2.
Proof. revert a st st'. arg_field_with ltac:(unfold client_arg, with_parsed, parsed_value). Qed.

Lemma client_arg_id a st st' :
  client_arg a st = Next st' ->
  cliClientId st'.2 = if starts_with "--client-id=" a then parsed_value u32 (stoul (substr 12 a))
                      else cliClientId st.2.
Proof. revert a st st'. arg_field_with ltac:(unfold client_arg, with_parsed, parsed_value). Qed.

Lemma client_arg_accepted a st st' :
  client_arg a st = Next st' ->
  (starts_with "--peer-port=" a = true -> parsed_value u16 (stoi (substr 12 a)) <> None)
  /\ (starts_with "--local-udp-port=" a = true -> parsed_value u16 (stoi (substr 17 a)) <> None)
  /\ (starts_with "--client-id=" a = true -> parsed_value u32 (stoul (substr 12 a)) <> None).
Proof.
  destruct st as [l c]. unfold client_arg, with_parsed, parsed_value.
  destruct (a =? "--help"); [done|].
  arg_cases; repeat case_match; intros; simplify_eq/=; repeat split; done.
Qed.

Lemma client_arg_json a st st' : client_arg a st = Next st' -> configJson st'.2 = configJson st.2.
Proof. revert a st st'. arg_field_with ltac:(unfold client_arg, with_parsed, parsed_value). Qed.

Lemma client_args_json args st st' :
  run_args client_arg args st = Next st' -> configJson st'.2 = configJson st.2.
Proof.
  revert st. induction args as [|a args IH]; intros st Hr; cbn in Hr; [by injection Hr as <-|].
  destruct (client_arg a st) as [st1| |] eqn:E; [|done|done]. by rewrite (IH _ Hr), (client_arg_json _ _ _ E).
Qed.

(** What the file gives when no option does. *)
Definition file_setting {A} (key : string) (ok : json -> bool) (get : json -> A) (dflt : A)
  (file : option string) : setting A :=
  match file ≫= parse with
  | None => Undefined
  | Some j =>
      if is_null j then Value dflt
      else if is_object j then
        match find key j with
        | None => Undefined
        | Some v => Value (if ok v then get v else dflt)
        end
      else TypeError
  end.

Definition option_or {A} (cli : option A) (f : setting A) : setting A :=
  match cli with Some v => Value v | None => f end.

Context {laws : JsonLaws json}.

Lemma json_setting_spec {A} key ok (get : json -> A) dflt cli file c :
  configJson c = null ->
  (json_setting key ok get dflt cli file c).2 = option_or cli (file_setting key ok get dflt file).
Proof.
  intros Hc. unfold json_setting, option_or, file_setting. destruct cli; [done|].
  rewrite Hc, is_null_null. unfold LoadJsonConfig. cbn.
  assert (Hu : forall x : setting A, (if is_null empty_object then x
            else if negb (is_object empty_object) then TypeError
            else match find key empty_object with None => Undefined | Some v => Value (if ok v then get v else dflt) end)
            = Undefined).
  { intros x. by rewrite is_null_empty, is_object_empty, find_empty. }
  destruct file as [text|]; cbn; [|apply Hu]. destruct (parse text) as [j|]; cbn; [|apply Hu].
  destruct (is_null j); [done|]. by destruct (is_object j).
Qed.

(** C34. What the client runs with.  If the argument loop of main gets through,
    each setting is the last option given for it, its number parsed and cut to
    the width of the setting; without one it comes from config.json: the value
    of the right type, the default when the type is wrong or the file holds null,
    and no defined behaviour when the file is missing, cannot be parsed or lacks
    the key. *)
Theorem client_settings (args : list string) (file : option string) (logLevel : LogLevel) (c : ClientConfiguration) :
  client_args args = Next (logLevel, c) ->
  (getSocketAddress file c).2
    = option_or (last_option "--peer-address=" args) (file_setting "peerAddress" is_string get_string "127.0.0.1" file)
  /\ (getPortNumber file c).2
    = option_or (last_option "--peer-port=" args ≫= fun s => parsed_value u16 (stoi s))
        (file_setting "peerTcpPort" is_number_unsigned (fun v => u16 (get_unsigned v)) 0%Z file)
  /\ (getLocalHostUdpPort file c).2
    = option_or (last_option "--local-udp-port=" args ≫= fun s => parsed_value u16 (stoi s))
        (file_setting "localHostUdpPort" is_number_unsigned (fun v => u16 (get_unsigned v)) 0%Z file)
  /\ (getClientId file c).2
    = option_or (last_option "--client-id=" args ≫= fun s => parsed_value u32 (stoul s))
        (file_setting "clientId" is_number_unsigned (fun v => u32 (get_unsigned v)) 0%Z file)
  /\ (forall s, last_option "--peer-port=" args = Some s -> parsed_value u16 (stoi s) <> None)
  /\ (forall s, last_option "--client-id=" args = Some s -> parsed_value u32 (stoul s) <> None).
Proof.
  intros Hr. pose proof (client_args_json _ _ _ Hr) as Hj. cbn in Hj.
  destruct (run_args_last client_arg (fun st => cliPeerAddress st.2) "--peer-address=" Some
              client_arg_address ltac:(done) _ _ _ Hr) as [Ea _].
  destruct (run_args_last client_arg (fun st => cliPeerTcpPort st.2) "--peer-port="
              (fun s => parsed_value u16 (stoi s)) client_arg_port
              (fun a st st' E => proj1 (client_arg_accepted a st st' E)) _ _ _ Hr) as [Ep Hp].
  destruct (run_args_last client_arg (fun st => cliLocalHostUdpPort st.2) "--local-udp-port="
              (fun s => parsed_value u16 (stoi s)) client_arg_udp_port
              (fun a st st' E => proj1 (proj2 (client_arg_accepted a st st' E))) _ _ _ Hr) as [Eu _].
  destruct (run_args_last client_arg (fun st => cliClientId st.2) "--client-id="
              (fun s => parsed_value u32 (stoul s)) client_arg_id
              (fun a st st' E => proj2 (proj2 (client_arg_accepted a st st' E))) _ _ _ Hr) as [Ei Hi].
  cbn in Ea, Ep, Eu, Ei.
  unfold getSocketAddress, getPortNumber, getLocalHostUdpPort, getClientId.
  rewrite !json_setting_spec, Ea, Ep, Eu, Ei by done.
  repeat split; try done; [by destruct (last_option "--peer-address=" args)|..];
    by destruct (last_option _ args).
Qed.
End client_configuration.

Arguments Value {A}.
Arguments Undefined {A}.
Arguments TypeError {A}.
Arguments Next {S}.
Arguments PrintHelp {S}.
Arguments Throws {S}.
Arguments ClientConfiguration : clear implicits.

(** ** A concrete JSON library *)

Module Demo.

Inductive value : Type :=
| VNull
| VString (s : string)
| VUnsigned (n : Z)
| VEmpty                                        (* the empty object *)
| VMember (key : string) (v object : value).

Fixpoint demo_find (k : string) (v : value) : option value :=
  match v with
  | VMember key v object => if key =? k then Some v else demo_find k object
  | _ => None
  end.

(** A parser for two texts. *)
Definition demo_parse (text : string) : option value :=
  if text =? "null" then Some VNull
  else if text =? "port" then Some (VMember "peerTcpPort" (VUnsigned 72537) (VMember "clientId" (VString "1") VEmpty))
  else None.

#[export] Instance demo_json : Json value := {
  null := VNull;
  empty_object := VEmpty;
  parse := demo_parse;
  is_null v := match v with VNull => true | _ => false end;
  is_object v := match v with VEmpty | VMember _ _ _ => true | _ => false end;
  is_string v := match v with VString _ => true | _ => false end;
  is_number_unsigned v := match v with VUnsigned _ => true | _ => false end;
  find := demo_find;
  get_string v := match v with VString s => s | _ => "" end;
  get_unsigned v := match v with VUnsigned n => n | _ => 0%Z end;
}.

#[export] Instance demo_laws : JsonLaws value.
Proof. constructor; try done. by intros []. Qed.
End Demo.
Import Demo.

(** The address and an id out of range from the command line, the port from
    the file cut to 16 bits, the UDP port from nowhere. *)
Lemma client_settings_witness :
  exists c : ClientConfiguration Demo.value,
    (getSocketAddress (Some "port") c).2 = Value "::1"
    /\ (getPortNumber (Some "port") c).2 = Value 7001%Z
    /\ (getLocalHostUdpPort (Some "port") c).2 = Undefined
    /\ (getClientId (Some "port") c).2 = Value (2 ^ 32 - 1)%Z.
Proof.
  pose (args := ["--peer-address=10.0.0.1"; "--client-id=-1"; "--peer-address=::1"; "--unknown"]).
  destruct (client_args (json := Demo.value) args) as [[l c]| |] eqn:E; [|discriminate|discriminate].
  exists c. destruct (client_settings args (Some "port") l c E) as (Ha & Hp & Hu & Hi & _).
  split; [exact Ha|]. split; [exact Hp|]. split; [exact Hu|exact Hi].
Defined.

(** Without the file, as with an unparsable one, a setting no option gives
    has no defined value, although the code means to fall back to a default. *)
Example missing_file :
  (getPortNumber None (newClientConfiguration (json := Demo.value))).2 = Undefined
  /\ (getSocketAddress (Some "{") (newClientConfiguration (json := Demo.value))).2 = Undefined
  /\ (getSocketAddress (Some "null") (newClientConfiguration (json := Demo.value))).2 = Value "127.0.0.1".
Proof. repeat split; reflexivity. Qed.

Lemma server_arg_udp_port a st st' :
  server_arg a st = Next st' ->
  Some (server_udpTargetPort st'.2)
  = if starts_with "--udp-target-port=" a then parsed_value (fun z => z) (stoi (substr 18 a))
    else Some (server_udpTargetPort st.2).
Proof. revert a st st'. arg_field_with ltac:(unfold server_arg, with_parsed, parsed_value). Qed.

Lemma server_arg_accepted a st st' :
  server_arg a st = Next st' ->
  starts_with "--udp-target-port=" a = true -> parsed_value (fun z => z) (stoi (substr 18 a)) <> None.
Proof. intros E%server_arg_udp_port H. rewrite H in E. by rewrite <- E. Qed.

(** The usage text says that the UDP target port defaults to the value of
    --port; it is 7001 whatever --port says. *)
Theorem udp_target_port_default (args : list string) (logLevel : LogLevel) (c : ServerConfiguration) :
  server_args args = Next (logLevel, c) ->
  server_udpTargetPort c
  = default 7001%Z (last_option "--udp-target-port=" args ≫= fun s => parsed_value (fun z => z) (stoi s)).
Proof.
  intros Hr.
  destruct (run_args_last server_arg (fun st => Some (server_udpTargetPort st.2)) "--udp-target-port="
              (fun s => parsed_value (fun z => z) (stoi s)) server_arg_udp_port server_arg_accepted
              _ _ _ Hr) as [E _].
  cbn in E. destruct (last_option _ args); cbn in *; [by rewrite <- E|congruence].
Qed.

Lemma udp_target_port_default_witness :
  exists l c, server_args ["--port=9000"] = Next (l, c) /\ server_portNumber c = 9000%Z
              /\ server_udpTargetPort c = 7001%Z.
Proof.
  destruct (server_args ["--port=9000"]) as [[l c]| |] eqn:E; [|discriminate|discriminate].
  exists l, c. split; [reflexivity|]. pose proof (udp_target_port_default _ _ _ E) as H.
  split; [|exact H]. vm_compute in E. by injection E as <- <-.
Defined.
