(* ===== verification/Log.v ===== *)
(** * The log (src/common/Log.h, Log.cpp)

    The logger object, the file it has open and the console.  The levels and
    their names are in Config.v.  The clock and the formatted local time are
    arguments. *)

From stdpp Require Import pretty.
From S2P Require Import Prelude Config.

#[local] Open Scope string_scope.

Record Log : Type := mkLog {
  currentLogLevel : LogLevel;
  logFile : option string;          (* the file open for appending *)
}.

Definition newLog : Log := mkLog LOG_INFO None.

(** Where text goes. *)
Record outputs : Type := mkOutputs {
  files : gmap string string;
  console : string;
}.

(** What the clock gives: "%Y-%m-%d %H:%M:%S" of the local time, and the
    milliseconds within the second. *)
Record stamp : Type := mkStamp { local_time : string; millis : Z }.

Definition setLogLevel (level : LogLevel) (l : Log) : Log := mkLog level (logFile l).

(** [opens]: whether the file can be opened; it is created if it does not exist. *)
Definition setLogFile (filename : string) (opens : bool) (l : Log) (o : outputs) : Log * outputs :=
  if opens
  then (mkLog (currentLogLevel l) (Some filename),
        mkOutputs (<[filename := default "" (files o !! filename)]> (files o)) (console o))
  else (mkLog (currentLogLevel l) None, o).

(** setw(3) with setfill('0'). *)
Definition pad3 (n : Z) : string :=
  let s := pretty n in
  match String.length s with
  | 0%nat => "000"
  | 1%nat => "00" +:+ s
  | 2%nat => "0" +:+ s
  | _ => s
  end.

Definition timestamp (t : stamp) : string := local_time t +:+ "." +:+ pad3 (millis t).

Definition newline : string := String (Ascii.ascii_of_nat 10) EmptyString.

(** The text of the two overloads of log(), with its end of line. *)
Definition plain_line (t : stamp) (level : LogLevel) (message : string) : string :=
  timestamp t +:+ " [" +:+ getLogLevelString level +:+ "] " +:+ message +:+ newline.

Definition located_line (file line : string) (t : stamp) (level : LogLevel) (message : string) : string :=
  file +:+ ":" +:+ line +:+ ": " +:+ plain_line t level message.

Definition write (text : string) (l : Log) (o : outputs) : outputs :=
  match logFile l with
  | Some f => mkOutputs (<[f := default "" (files o !! f) +:+ text]> (files o)) (console o)
  | None => mkOutputs (files o) (console o +:+ text)
  end.

Definition log (t : stamp) (level : LogLevel) (message : string) (l : Log) (o : outputs) : outputs :=
  if logged (currentLogLevel l) level then write (plain_line t level message) l o else o.

Definition log_at (t : stamp) (level : LogLevel) (file line message : string) (l : Log) (o : outputs) : outputs :=
  if logged (currentLogLevel l) level then write (located_line file line t level message) l o else o.

Definition debug t file line message := log_at t LOG_DEBUG file line message.
Definition info t file line message := log_at t LOG_INFO file line message.
Definition warning t file line message := log_at t LOG_WARN file line message.
Definition error t file line message := log_at t LOG_ERROR file line message.

(** ** What a sequence of calls writes *)

(** One of the four macros, as it was called. *)
Record entry : Type := mkEntry {
  en_stamp : stamp;
  en_level : LogLevel;
  en_file : string;
  en_line : string;
  en_message : string;
}.

Definition log_entry (l : Log) (o : outputs) (e : entry) : outputs :=
  log_at (en_stamp e) (en_level e) (en_file e) (en_line e) (en_message e) l o.

Definition entry_text (e : entry) : string :=
  located_line (en_file e) (en_line e) (en_stamp e) (en_level e) (en_message e).

Lemma log_entry_eq l o e :
  log_entry l o e = if logged (currentLogLevel l) (en_level e) then write (entry_text e) l o else o.
Proof. done. Qed.

(** The text the calls should leave: one line for each that passes the filter. *)
Definition expected (level : LogLevel) (es : list entry) : string :=
  foldr String.append "" (entry_text <$> filter (fun e => logged level (en_level e) = true) es).

(** What has been written to the log's destination. *)
Definition destination (l : Log) (o : outputs) : string :=
  match logFile l with Some f => default "" (files o !! f) | None => console o end.

Lemma string_app_nil_r (s : string) : s +:+ "" = s.
Proof. induction s as [|c s IH]; [done|]. change (String c (s +:+ "") = String c s). by rewrite IH. Qed.

Lemma string_app_assoc (a b c : string) : a +:+ (b +:+ c) = (a +:+ b) +:+ c.
Proof.
  induction a as [|x a IH]; [done|]. change (String x (a +:+ (b +:+ c)) = String x ((a +:+ b) +:+ c)). by rewrite IH.
Qed.

Lemma write_spec text l o :
  destination l (write text l o) = destination l o +:+ text
  /\ (forall f, logFile l <> Some f -> files (write text l o) !! f = files o !! f)
  /\ (logFile l <> None -> console (write text l o) = console o).
Proof.
  unfold destination, write. destruct (logFile l) as [f|]; cbn [files console]; [|done].
  rewrite lookup_insert_eq. split_and!; [done | | done]. intros g Hg. apply lookup_insert_ne. congruence.
Qed.

(** The log is complete and in order: a sequence of log calls appends to the
    open file, or to the console when none is open, one line for each call whose
    level passes the filter, in the order of the calls, and changes no other file
    and, with a file open, nothing on the console. *)
Theorem log_appends_in_order (l : Log) (es : list entry) (o : outputs) :
  let o' := foldl (log_entry l) o es in
  destination l o' = destination l o +:+ expected (currentLogLevel l) es
  /\ (forall f, logFile l <> Some f -> files o' !! f = files o !! f)
  /\ (logFile l <> None -> console o' = console o).
Proof.
  revert o. induction es as [|e es IH]; intros o; cbn [foldl].
  { unfold expected. cbn [filter list_filter fmap list_fmap foldr]. by rewrite string_app_nil_r. }
  destruct (IH (log_entry l o e)) as (Hd & Hf & Hc). rewrite Hd. unfold expected. rewrite filter_cons.
  rewrite log_entry_eq in *. destruct (logged (currentLogLevel l) (en_level e)) eqn:Hl.
  - rewrite decide_True by done. destruct (write_spec (entry_text e) l o) as (Wd & Wf & Wc).
    rewrite Wd. cbn [fmap list_fmap foldr]. rewrite string_app_assoc.
    split_and!; [done | intros f Hn; by rewrite Hf, Wf | intros Hn; by rewrite Hc, Wc].
  - rewrite decide_False by congruence. split_and!; done.
Qed.

(** A file that cannot be opened closes the one before and sends the log to the
    console. *)
Lemma failed_open_logs_to_console filename l o :
  logFile (setLogFile filename false l o).1 = None /\ (setLogFile filename false l o).2 = o.
Proof. done. Qed.

(** Going back to a file appends to what it held. *)
Lemma reopened_file_keeps_its_text filename l o :
  destination (setLogFile filename true l o).1 (setLogFile filename true l o).2
  = default "" (files o !! filename).
Proof. unfold destination. cbn. by rewrite lookup_insert_eq. Qed.

Lemma pad3_example : pad3 7 = "007" /\ pad3 42 = "042" /\ pad3 999 = "999".
Proof. vm_compute. auto. Qed.
