(* ===== verification/Protocol.v ===== *)
(** * UVT framing, the bind message and the connection registry
      (src/common/Protocol.h, Protocol.cpp)

    Multi-byte fields are as they lie in memory on a little-endian host: the
    size of a UvtHeader is stored in network order by htons, the members of
    MsgBind in host order with three padding bytes after slotIndex, whose value
    is unspecified and an argument. *)

From S2P Require Import Prelude Bytes.

Definition HEADER_SIZE : nat := 4.

(** xor_checksum: the loop over the buffer. *)
Definition xor_checksum (buffer : list byte) : Z :=
  foldl (fun acc b => Z.lxor acc (byte_val b)) 0 buffer.

Definition validateChecksum (buffer : list byte) (checksum : Z) : bool :=
  xor_checksum buffer =? checksum.

(** A uint16_t through htons, most significant byte first. *)
Definition be16 (z : Z) : list byte := [byte_of_Z (z / 2 ^ 8); byte_of_Z z].

Definition read_be16 (bs : list byte) : option Z :=
  match bs with
  | hi :: lo :: _ => Some (byte_val hi * 2 ^ 8 + byte_val lo)
  | _ => None
  end.

Definition encode_uvt_header (size id checksum : Z) : list byte :=
  be16 size ++ [byte_of_Z id; byte_of_Z checksum].

Definition AppendUdpData (data : list byte) (id : Z) (outputBuffer : list byte) : list byte :=
  outputBuffer ++ encode_uvt_header (u16 (Z.of_nat (length data))) id (xor_checksum data) ++ data.

Inductive extract_result : Type :=
| NotEnough                                         (* the input is returned as it is *)
| Extracted (payload rest : list byte)
| ChecksumError.                                    (* throws std::logic_error *)

Definition ExtractUdpData (data : list byte) : extract_result :=
  if (length data <? HEADER_SIZE)%nat then NotEnough
  else match read_be16 data, data !! 3%nat with
  | Some messageLength, Some checksum =>
      let n := (HEADER_SIZE + Z.to_nat messageLength)%nat in
      if (length data <? n)%nat then NotEnough
      else
        let messageData := take (Z.to_nat messageLength) (drop HEADER_SIZE data) in
        if xor_checksum messageData =? byte_val checksum
        then Extracted messageData (drop n data)
        else ChecksumError
  | _, _ => NotEnough
  end.

(** ** The checksum *)

Lemma xor_checksum_acc acc buffer :
  foldl (fun acc b => Z.lxor acc (byte_val b)) acc buffer = Z.lxor acc (xor_checksum buffer).
Proof.
  unfold xor_checksum. revert acc. induction buffer as [|b l IH]; intros acc; cbn [foldl].
  - by rewrite Z.lxor_0_r.
  - rewrite IH, (IH (Z.lxor 0 (byte_val b))), Z.lxor_0_l, Z.lxor_assoc. done.
Qed.

Lemma xor_checksum_cons b l : xor_checksum (b :: l) = Z.lxor (byte_val b) (xor_checksum l).
Proof. unfold xor_checksum at 1. cbn [foldl]. by rewrite xor_checksum_acc, Z.lxor_0_l. Qed.

Lemma xor_checksum_app l1 l2 : xor_checksum (l1 ++ l2) = Z.lxor (xor_checksum l1) (xor_checksum l2).
Proof.
  induction l1 as [|b l1 IH]; cbn [app]; [by rewrite Z.lxor_0_l|].
  by rewrite !xor_checksum_cons, IH, Z.lxor_assoc.
Qed.

Lemma lxor_u8 a b : is_u8 a -> is_u8 b -> is_u8 (Z.lxor a b).
Proof.
  unfold is_u8. intros Ha Hb. split; [apply Z.lxor_nonneg; lia|].
  destruct (decide (Z.lxor a b = 0)) as [->|Hne]; [lia|].
  assert (0 <= Z.lxor a b) by (apply Z.lxor_nonneg; lia).
  assert (Hl : Z.log2 (Z.lxor a b) < 8); [|apply Z.log2_lt_pow2; lia].
  eapply Z.le_lt_trans; [apply Z.log2_lxor; lia|].
  assert (forall x, 0 <= x < 256 -> Z.log2 x < 8).
  { intros x Hx. destruct (decide (x = 0)) as [->|]; [cbn; lia|]. apply Z.log2_lt_pow2; lia. }
  apply Z.max_lub_lt; auto.
Qed.

Lemma xor_checksum_u8 l : is_u8 (xor_checksum l).
Proof.
  induction l as [|b l IH]; [unfold is_u8; cbn; lia|].
  rewrite xor_checksum_cons. apply lxor_u8; [apply byte_val_range | done].
Qed.

Lemma read_be16_be16 n rest : 0 <= n < 2 ^ 16 -> read_be16 (be16 n ++ rest) = Some n.
Proof.
  intros Hn. cbn [be16 app read_be16]. f_equal. rewrite !byte_val_of_Z. unfold u8.
  rewrite (Z.mod_small (n / 2 ^ 8)).
  - rewrite Z.mul_comm. symmetry. apply Z.div_mod. lia.
  - split; [apply Z.div_pos; lia | apply Z.div_lt_upper_bound; lia].
Qed.

(** The header fields of an encoded frame. *)
Lemma extract_encoded size id data rest :
  0 <= size < 2 ^ 16 ->
  ExtractUdpData (encode_uvt_header size id (xor_checksum data) ++ rest)
  = if (length rest <? Z.to_nat size)%nat then NotEnough
    else if xor_checksum (take (Z.to_nat size) rest) =? xor_checksum data
         then Extracted (take (Z.to_nat size) rest) (drop (Z.to_nat size) rest) else ChecksumError.
Proof.
  intros Hs. unfold encode_uvt_header. rewrite <- app_assoc. unfold ExtractUdpData.
  rewrite read_be16_be16 by done.
  change (be16 size ++ [byte_of_Z id; byte_of_Z (xor_checksum data)] ++ rest)
    with ([byte_of_Z (size / 2 ^ 8); byte_of_Z size; byte_of_Z id; byte_of_Z (xor_checksum data)] ++ rest).
  set (h := [byte_of_Z (size / 2 ^ 8); byte_of_Z size; byte_of_Z id; byte_of_Z (xor_checksum data)]).
  rewrite length_app. change (length h) with HEADER_SIZE.
  destruct (Nat.ltb_spec (HEADER_SIZE + length rest) HEADER_SIZE); [lia|].
  replace ((h ++ rest) !! 3%nat) with (Some (byte_of_Z (xor_checksum data))) by done.
  rewrite byte_val_of_Z, u8_small by apply xor_checksum_u8.
  replace (drop HEADER_SIZE (h ++ rest)) with rest by done.
  replace (drop (HEADER_SIZE + Z.to_nat size) (h ++ rest)) with (drop (Z.to_nat size) rest) by done.
  destruct (Nat.ltb_spec (HEADER_SIZE + length rest) (HEADER_SIZE + Z.to_nat size));
    destruct (Nat.ltb_spec (length rest) (Z.to_nat size)); done || lia.
Qed.

(** C33. UVT round trip: a frame written by AppendUdpData for fewer than 65536
    bytes is extracted as exactly those bytes, leaving what follows it
    untouched; with fewer bytes than the frame nothing is consumed. *)
Theorem uvt_roundtrip (data rest : list byte) (id : Z) :
  Z.of_nat (length data) < 65536 ->
  ExtractUdpData (AppendUdpData data id [] ++ rest) = Extracted data rest
  /\ forall k, (k < length (AppendUdpData data id []))%nat ->
       ExtractUdpData (take k (AppendUdpData data id [])) = NotEnough.
Proof.
  intros Hl. assert (Hu : u16 (Z.of_nat (length data)) = Z.of_nat (length data))
    by (apply u16_small; unfold is_u16; lia).
  unfold AppendUdpData. cbn [app]. rewrite Hu. split.
  - rewrite <- app_assoc, extract_encoded by lia. rewrite Nat2Z.id, length_app.
    destruct (Nat.ltb_spec (length data + length rest) (length data)); [lia|].
    by rewrite take_app_length, drop_app_length, Z.eqb_refl.
  - intros k Hk. destruct (decide (k < HEADER_SIZE)%nat) as [Hs|Hs].
    + unfold ExtractUdpData. rewrite length_take.
      destruct (Nat.ltb_spec (k `min` length (encode_uvt_header (Z.of_nat (length data)) id (xor_checksum data) ++ data))
                  HEADER_SIZE); [done | lia].
    + assert (Eh : length (encode_uvt_header (Z.of_nat (length data)) id (xor_checksum data)) = HEADER_SIZE) by done.
      rewrite length_app, Eh in Hk. rewrite take_app_ge by lia. rewrite extract_encoded by lia.
      rewrite Nat2Z.id, length_take, Eh.
      destruct (Nat.ltb_spec ((k - HEADER_SIZE) `min` length data) (length data)); [done | lia].
Qed.

Lemma uvt_roundtrip_witness :
  ExtractUdpData (AppendUdpData [Byte.x41; Byte.x42] 1 [] ++ [Byte.x00]) = Extracted [Byte.x41; Byte.x42] [Byte.x00].
Proof. refine (proj1 (uvt_roundtrip [Byte.x41; Byte.x42] [Byte.x00] 1 _)). reflexivity. Defined.

(** The checksum catches every single-byte corruption of a payload: with
    one byte changed in transit ExtractUdpData throws. *)
Theorem corruption_detected (pre post : list byte) (x y : byte) (id : Z) (rest : list byte) :
  x <> y -> Z.of_nat (length (pre ++ x :: post)) < 65536 ->
  ExtractUdpData
    (encode_uvt_header (u16 (Z.of_nat (length (pre ++ x :: post)))) id (xor_checksum (pre ++ x :: post))
       ++ (pre ++ y :: post) ++ rest)
  = ChecksumError.
Proof.
  intros Hne Hl. rewrite u16_small by (unfold is_u16; lia). rewrite extract_encoded by lia.
  rewrite Nat2Z.id. assert (El : length (pre ++ x :: post) = length (pre ++ y :: post))
    by (rewrite !length_app; done).
  rewrite El, length_app, take_app_length.
  destruct (Nat.ltb_spec (length (pre ++ y :: post) + length rest) (length (pre ++ y :: post))); [lia|].
  destruct (Z.eqb_spec (xor_checksum (pre ++ y :: post)) (xor_checksum (pre ++ x :: post))) as [E|]; [|done].
  exfalso. apply Hne, byte_val_inj. rewrite !xor_checksum_app, !xor_checksum_cons in E.
  apply (f_equal (Z.lxor (xor_checksum pre))) in E.
  rewrite <- !Z.lxor_assoc, Z.lxor_nilpotent, !Z.lxor_0_l in E.
  apply (f_equal (fun z => Z.lxor z (xor_checksum post))) in E.
  by rewrite !Z.lxor_assoc, !Z.lxor_nilpotent, !Z.lxor_0_r in E.
Qed.

Lemma corruption_detected_witness :
  ExtractUdpData
    (encode_uvt_header 3 1 (xor_checksum [Byte.x41; Byte.x42; Byte.x43])
       ++ [Byte.x41; Byte.x40; Byte.x43] ++ [])
  = ChecksumError.
Proof.
  refine (corruption_detected [Byte.x41] [Byte.x43] Byte.x42 Byte.x40 1 [] _ _); [discriminate | reflexivity].
Defined.

(** The size field is 16 bits wide and AppendUdpData does not check it: a
    payload of 65536 bytes is announced as empty, so its frame is either refused
    or read as an empty message followed by the payload's bytes taken for
    further frames. *)
Theorem oversize_payload_truncated (data rest : list byte) (id : Z) :
  Z.of_nat (length data) = 65536 ->
  ExtractUdpData (AppendUdpData data id [] ++ rest)
  = if 0 =? xor_checksum data then Extracted [] (data ++ rest) else ChecksumError.
Proof.
  intros Hl. unfold AppendUdpData. cbn [app]. rewrite <- app_assoc.
  replace (u16 (Z.of_nat (length data))) with 0 by (by rewrite Hl).
  rewrite extract_encoded by lia. change (Z.to_nat 0) with 0%nat.
  rewrite take_0, drop_0. cbn [xor_checksum foldl]. done.
Qed.

Lemma oversize_payload_truncated_witness :
  ExtractUdpData (AppendUdpData (replicate (Z.to_nat 65536) Byte.x01) 1 [] ++ [])
  = if 0 =? xor_checksum (replicate (Z.to_nat 65536) Byte.x01)
    then Extracted [] (replicate (Z.to_nat 65536) Byte.x01 ++ []) else ChecksumError.
Proof. refine (oversize_payload_truncated _ [] 1 _). rewrite length_replicate. reflexivity. Defined.

(** ** MsgBind *)

Record MsgBind : Type := mkMsgBind {
  clientId : Z;       (* uint32_t *)
  slotIndex : Z;      (* int8_t *)
  connectionId : Z;   (* uint32_t *)
}.

Definition msg_bind_ok (m : MsgBind) : Prop :=
  is_u32 (clientId m) /\ is_i8 (slotIndex m) /\ is_u32 (connectionId m).

Definition sizeof_MsgBind : nat := 12.

Definition AppendMsgBind (pad : list byte) (bind : MsgBind) (outputBuffer : list byte) : list byte :=
  outputBuffer ++ le_split 4 (clientId bind) ++ le_split 1 (u8 (slotIndex bind)) ++ pad
    ++ le_split 4 (connectionId bind).

(** [None] when it returns false. *)
Definition ExtractMsgBind (data : list byte) : option MsgBind :=
  if (length data <? sizeof_MsgBind)%nat then None
  else match read_le 0 4 data, read_le 4 1 data, read_le 8 4 data with
  | Some c, Some s, Some k => Some (mkMsgBind c (i8 s) k)
  | _, _, _ => None
  end.

(** MsgBindResponse: one uint32_t. *)
Definition AppendMsgBindResponse (connectionId : Z) (outputBuffer : list byte) : list byte :=
  outputBuffer ++ le_split 4 connectionId.

Definition ExtractMsgBindResponse (data : list byte) : option Z :=
  if (length data <? 4)%nat then None else read_le 0 4 data.

Lemma msg_bind_encoded (pad rest : list byte) (m : MsgBind) :
  msg_bind_ok m -> length pad = 3%nat ->
  length (AppendMsgBind pad m []) = sizeof_MsgBind
  /\ ExtractMsgBind (AppendMsgBind pad m [] ++ rest) = Some m.
Proof.
  intros (Hc & Hs & Hk) Hp. unfold AppendMsgBind. cbn [app].
  assert (El : length (le_split 4 (clientId m) ++ le_split 1 (u8 (slotIndex m)) ++ pad
                       ++ le_split 4 (connectionId m)) = sizeof_MsgBind)
    by (rewrite !length_app, !length_le_split, Hp; done).
  split; [done|]. unfold ExtractMsgBind. rewrite length_app, El.
  destruct (Nat.ltb_spec (sizeof_MsgBind + length rest) sizeof_MsgBind); [lia|].
  rewrite <- !app_assoc.
  assert (E1 : read_le 0 4 (le_split 4 (clientId m) ++ le_split 1 (u8 (slotIndex m)) ++ pad
                            ++ le_split 4 (connectionId m) ++ rest) = Some (clientId m))
    by (apply (read_le_split [] 4); unfold is_u32 in Hc; lia).
  assert (E2 : read_le 4 1 (le_split 4 (clientId m) ++ le_split 1 (u8 (slotIndex m)) ++ pad
                            ++ le_split 4 (connectionId m) ++ rest) = Some (u8 (slotIndex m))).
  { pose proof (u8_range (slotIndex m)) as Hr. unfold is_u8 in Hr.
    rewrite <- (length_le_split 4 (clientId m)) at 1. apply read_le_split. lia. }
  assert (E3 : read_le 8 4 (le_split 4 (clientId m) ++ le_split 1 (u8 (slotIndex m)) ++ pad
                            ++ le_split 4 (connectionId m) ++ rest) = Some (connectionId m)).
  { assert (E8 : length (le_split 4 (clientId m) ++ le_split 1 (u8 (slotIndex m)) ++ pad) = 8%nat)
      by (rewrite !length_app, !length_le_split, Hp; done).
    pose proof (read_le_split (le_split 4 (clientId m) ++ le_split 1 (u8 (slotIndex m)) ++ pad)
                  4 (connectionId m) rest) as E.
    rewrite E8, <- !app_assoc in E. apply E. unfold is_u32 in Hk; lia. }
  rewrite E1, E2, E3, i8_u8 by done. by destruct m.
Qed.

(** The bind message survives the wire: what the server extracts is what
    the client put, negative slot indices included, whatever the padding bytes
    hold and whatever follows. *)
Theorem msg_bind_roundtrip (pad rest : list byte) (m : MsgBind) :
  msg_bind_ok m -> length pad = 3%nat ->
  length (AppendMsgBind pad m []) = sizeof_MsgBind
  /\ ExtractMsgBind (AppendMsgBind pad m [] ++ rest) = Some m.
Proof. apply msg_bind_encoded. Qed.

Lemma msg_bind_roundtrip_witness :
  ExtractMsgBind (AppendMsgBind [Byte.x00; Byte.xff; Byte.x00] (mkMsgBind 7 (-1) 4294967295) [] ++ [Byte.x01])
  = Some (mkMsgBind 7 (-1) 4294967295).
Proof.
  refine (proj2 (msg_bind_roundtrip [Byte.x00; Byte.xff; Byte.x00] [Byte.x01] (mkMsgBind 7 (-1) 4294967295) _ _)).
  - repeat split; cbn; lia.
  - reflexivity.
Defined.

(** ** ConnectionManager

    The Connection objects are never changed after creation, so the vector and
    the per-client index hold values; connectionIds is what generateConnectionId
    has handed out. *)

Record Connection : Type := mkConnection { conn_clientId : Z; conn_connectionId : Z }.

Record ConnectionManager : Type := mkConnectionManager {
  connections : list Connection;
  connectionIds : gset Z;
  clientConnections : gmap Z (list Connection);
}.

Definition newConnectionManager : ConnectionManager := mkConnectionManager [] ∅ ∅.

(** [rands] are the successive values of rand(); [None] when they run out. *)
Fixpoint generateConnectionId (rands : list Z) (ids : gset Z) : option Z :=
  match rands with
  | [] => None
  | r :: rands =>
      let connectionId := r mod 1000000 in
      if decide (connectionId ∈ ids) then generateConnectionId rands ids else Some connectionId
  end.

Definition createConnection (rands : list Z) (client : Z) (m : ConnectionManager)
  : option (ConnectionManager * Connection) :=
  match generateConnectionId rands (connectionIds m) with
  | None => None
  | Some id =>
      let c := mkConnection client id in
      Some (mkConnectionManager (connections m ++ [c]) ({[id]} ∪ connectionIds m)
              (<[client := default [] (clientConnections m !! client) ++ [c]]> (clientConnections m)), c)
  end.

(** Erase the first connection with the id. *)
Fixpoint erase_id (id : Z) (l : list Connection) : list Connection :=
  match l with
  | [] => []
  | c :: l => if conn_connectionId c =? id then l else c :: erase_id id l
  end.

Fixpoint find_id (id : Z) (l : list Connection) : option Connection :=
  match l with
  | [] => None
  | c :: l => if conn_connectionId c =? id then Some c else find_id id l
  end.

Definition removeConnection (id : Z) (m : ConnectionManager) : ConnectionManager * bool :=
  match find_id id (connections m) with
  | None => (m, false)
  | Some c =>
      let client := conn_clientId c in
      let clientConns := erase_id id (default [] (clientConnections m !! client)) in
      (mkConnectionManager (erase_id id (connections m)) (connectionIds m ∖ {[id]})
         (match clientConns with
          | [] => delete client (clientConnections m)
          | _ => <[client := clientConns]> (clientConnections m)
          end), true)
  end.

(** [clientConnections[clientId]] creates the entry when it is absent. *)
Definition getClientConnections (client : Z) (m : ConnectionManager) : ConnectionManager * list Connection :=
  let l := default [] (clientConnections m !! client) in
  (mkConnectionManager (connections m) (connectionIds m) (<[client := l]> (clientConnections m)), l).

Definition getClientConnectionCount (client : Z) (m : ConnectionManager) : ConnectionManager * nat :=
  let '(m', l) := getClientConnections client m in (m', length l).

Definition removeAllConnections (m : ConnectionManager) : ConnectionManager := newConnectionManager.

(** The index agrees with the vector, the ids are distinct and registered. *)
Record cm_inv (m : ConnectionManager) : Prop := {
  cm_nodup : NoDup (conn_connectionId <$> connections m);
  cm_ids : forall id, id ∈ connectionIds m <-> id ∈ conn_connectionId <$> connections m;
  cm_index : forall client, default [] (clientConnections m !! client)
                            = filter (fun c => conn_clientId c = client) (connections m);
}.

Lemma generate_fresh rands ids id : generateConnectionId rands ids = Some id -> ~ (id ∈ ids).
Proof.
  induction rands as [|r rands IH]; cbn; [done|]. case_decide; [done|]. by intros [= <-].
Qed.

Lemma find_id_Some id l c : find_id id l = Some c -> c ∈ l /\ conn_connectionId c = id.
Proof.
  induction l as [|x l IH]; cbn; [done|]. destruct (Z.eqb_spec (conn_connectionId x) id).
  - intros [= <-]. split; [by left | done].
  - intros [Hin Hc]%IH. split; [by right | done].
Qed.

(** With distinct ids erasing the first is erasing all. *)
Lemma erase_id_filter id l :
  NoDup (conn_connectionId <$> l) -> erase_id id l = filter (fun c => conn_connectionId c <> id) l.
Proof.
  induction l as [|c l IH]; [done|]. rewrite fmap_cons. intros [Hn Hnd]%NoDup_cons.
  cbn [erase_id]. rewrite filter_cons. destruct (Z.eqb_spec (conn_connectionId c) id) as [E|N].
  - rewrite decide_False by (intros Hx; by apply Hx). symmetry.
    apply list_filter_all. apply Forall_forall. intros x Hx Ex. apply Hn. rewrite E, <- Ex.
    by apply list_elem_of_fmap_2.
  - rewrite decide_True by done. by rewrite IH.
Qed.

Lemma find_id_None id l : find_id id l = None -> ~ (id ∈ conn_connectionId <$> l).
Proof.
  induction l as [|c l IH]; [intros _; by apply not_elem_of_nil|]. cbn [find_id].
  destruct (Z.eqb_spec (conn_connectionId c) id) as [|N]; [done|]. intros H%IH.
  rewrite fmap_cons. intros [E|]%elem_of_cons; [by apply N | by apply H].
Qed.

Lemma newConnectionManager_inv : cm_inv newConnectionManager.
Proof. split; [by apply NoDup_nil | set_solver | done]. Qed.

Lemma createConnection_inv rands client m m' c :
  cm_inv m -> createConnection rands client m = Some (m', c) -> cm_inv m'.
Proof.
  intros [Hn Hi Hx]. unfold createConnection.
  destruct (generateConnectionId rands (connectionIds m)) as [id|] eqn:G; [|done].
  intros [= <- <-]. apply generate_fresh in G. split; cbn [connections connectionIds clientConnections].
  - rewrite fmap_app. apply NoDup_app. split; [done|]. split; [|by apply NoDup_singleton].
    intros x Hxin ->%list_elem_of_singleton. by apply G, Hi.
  - intros k. rewrite fmap_app, elem_of_app, elem_of_union, elem_of_singleton, Hi.
    cbn [fmap list_fmap conn_connectionId]. rewrite list_elem_of_singleton. tauto.
  - intros k. rewrite filter_app. destruct (decide (client = k)) as [->|N].
    + rewrite lookup_insert_eq. cbn [default]. rewrite filter_cons_True by done. by rewrite Hx.
    + rewrite lookup_insert_ne, filter_cons_False, filter_nil, app_nil_r by done. apply Hx.
Qed.

Lemma ids_of_filter (P : Connection -> Prop) `{forall x, Decision (P x)} l :
  NoDup (conn_connectionId <$> l) -> NoDup (conn_connectionId <$> filter P l).
Proof.
  induction l as [|x l IH]; [done|]. rewrite fmap_cons. intros [Hx Hn]%NoDup_cons.
  rewrite filter_cons. case_decide; [|by apply IH]. rewrite fmap_cons. apply NoDup_cons.
  split; [|by apply IH]. rewrite list_elem_of_fmap. intros (y & E & Hy). apply Hx.
  apply list_elem_of_filter in Hy as [_ Hy]. rewrite E. by apply list_elem_of_fmap_2.
Qed.

(** With distinct ids two connections with the same id are the same one. *)
Lemma same_id_same l c d :
  NoDup (conn_connectionId <$> l) -> c ∈ l -> d ∈ l ->
  conn_connectionId c = conn_connectionId d -> c = d.
Proof.
  induction l as [|x l IH]; [intros _ []%not_elem_of_nil|]. rewrite fmap_cons.
  intros [Hx Hn]%NoDup_cons [->|Hc]%elem_of_cons [->|Hd]%elem_of_cons E; [done| | |by apply IH].
  - destruct Hx. rewrite E. by apply list_elem_of_fmap_2.
  - destruct Hx. rewrite <- E. by apply list_elem_of_fmap_2.
Qed.

(** Filtering first by what the second filter implies changes nothing. *)
Lemma filter_implied {A} (P Q : A -> Prop) `{forall x, Decision (P x)} `{forall x, Decision (Q x)} (l : list A) :
  (forall x, x ∈ l -> P x -> Q x) -> filter P (filter Q l) = filter P l.
Proof.
  induction l as [|x l IH]; intros HPQ; [done|].
  assert (IH' : filter P (filter Q l) = filter P l) by (apply IH; intros y Hy; apply HPQ; by right).
  rewrite (filter_cons Q), (filter_cons P x l). destruct (decide (Q x)) as [|Nq]; destruct (decide (P x)) as [Hp|].
  - by rewrite filter_cons_True, IH'.
  - by rewrite filter_cons_False.
  - destruct Nq. apply HPQ; [by left | done].
  - done.
Qed.

Lemma filter_swap {A} (P Q : A -> Prop) `{forall x, Decision (P x)} `{forall x, Decision (Q x)} (l : list A) :
  filter P (filter Q l) = filter Q (filter P l).
Proof. rewrite !list_filter_filter. apply list_filter_iff. tauto. Qed.

(** The two ways removeConnection leaves the client's entry. *)
Lemma client_entry (l : list Connection) (client k : Z) (idx : gmap Z (list Connection)) :
  default [] (match l with [] => delete client idx | _ => <[client := l]> idx end !! k)
  = if decide (k = client) then l else default [] (idx !! k).
Proof.
  case_decide as Hk; [subst k|].
  - destruct l; [by rewrite lookup_delete_eq | by rewrite lookup_insert_eq].
  - destruct l; [by rewrite lookup_delete_ne by congruence | by rewrite lookup_insert_ne by congruence].
Qed.

Lemma removeConnection_inv id m : cm_inv m -> cm_inv (fst (removeConnection id m)).
Proof.
  intros Hm. pose proof Hm as [Hn Hi Hx]. unfold removeConnection.
  destruct (find_id id (connections m)) as [c|] eqn:F; [|done].
  apply find_id_Some in F as [Hc Ec]. cbn [fst].
  rewrite Hx, !erase_id_filter by (done || by apply ids_of_filter).
  split; cbn [connections connectionIds clientConnections].
  - by apply ids_of_filter.
  - intros k. rewrite elem_of_difference, elem_of_singleton, Hi, !list_elem_of_fmap.
    setoid_rewrite list_elem_of_filter. naive_solver.
  - intros k. rewrite client_entry, Hx. case_decide as Hk; [subst k; apply filter_swap|].
    symmetry. apply filter_implied. intros d Hd Ed E. apply Hk. rewrite <- Ed.
    f_equal. apply (same_id_same (connections m)); [done..|]. congruence.
Qed.

Lemma getClientConnections_inv client m : cm_inv m -> cm_inv (fst (getClientConnections client m)).
Proof.
  intros [Hn Hi Hx]. split; [done..|]. intros k. cbn [getClientConnections fst clientConnections connections].
  destruct (decide (k = client)) as [->|N]; [by rewrite lookup_insert_eq; apply Hx|].
  rewrite lookup_insert_ne by congruence. apply Hx.
Qed.

(** The calls on the registry, and a sequence of them. *)
Inductive cm_op : Type :=
| CmCreate (rands : list Z) (client : Z)
| CmRemove (id : Z)
| CmGet (client : Z)
| CmRemoveAll.

(** A creation for which rand() has not yet left the used ids does not return. *)
Definition cm_run_op (m : ConnectionManager) (op : cm_op) : ConnectionManager :=
  match op with
  | CmCreate rands client =>
      match createConnection rands client m with Some (m', _) => m' | None => m end
  | CmRemove id => fst (removeConnection id m)
  | CmGet client => fst (getClientConnections client m)
  | CmRemoveAll => removeAllConnections m
  end.

Lemma cm_run_op_inv m op : cm_inv m -> cm_inv (cm_run_op m op).
Proof.
  intros Hm. destruct op; cbn [cm_run_op].
  - destruct (createConnection rands client m) as [[m' c]|] eqn:E; [|done].
    by eapply createConnection_inv.
  - by apply removeConnection_inv.
  - by apply getClientConnections_inv.
  - apply newConnectionManager_inv.
Qed.

(** C32. After any sequence of calls the registry's three structures agree: the
    ids are distinct, connectionIds is exactly the ids in use, a client's list is
    the registered connections of that client in creation order, a new
    connection gets an id nothing registered has, and removing an id reports
    true exactly for a registered one and unregisters it alone. *)
Theorem registry_consistent (ops : list cm_op) :
  let m := foldl cm_run_op newConnectionManager ops in
  NoDup (conn_connectionId <$> connections m)
  /\ (forall id, id ∈ connectionIds m <-> id ∈ conn_connectionId <$> connections m)
  /\ (forall client, snd (getClientConnections client m)
                     = filter (fun c => conn_clientId c = client) (connections m))
  /\ (forall rands client m' c, createConnection rands client m = Some (m', c) ->
        ~ (conn_connectionId c ∈ conn_connectionId <$> connections m)
        /\ connections m' = connections m ++ [c])
  /\ (forall id, (snd (removeConnection id m) = true <-> id ∈ connectionIds m)
        /\ connections (fst (removeConnection id m))
           = filter (fun c => conn_connectionId c <> id) (connections m)).
Proof.
  intros m. assert (Hm : cm_inv m).
  { unfold m. generalize newConnectionManager_inv. generalize newConnectionManager.
    induction ops as [|op ops IH]; intros m0 H0; [done|]. cbn [foldl]. by apply IH, cm_run_op_inv. }
  destruct Hm as [Hn Hi Hx]. split; [done|]. split; [done|]. split; [apply Hx|]. split.
  - intros rands client m' c. unfold createConnection.
    destruct (generateConnectionId rands (connectionIds m)) as [id|] eqn:G; [|done].
    intros [= <- <-]. split; [|done]. rewrite <- Hi. by eapply generate_fresh.
  - intros id. unfold removeConnection. rewrite Hi.
    destruct (find_id id (connections m)) as [c|] eqn:F; cbn [fst snd connections].
    + apply find_id_Some in F as [Hc <-]. split; [|by apply erase_id_filter].
      split; [intros _; by apply list_elem_of_fmap_2 | done].
    + apply find_id_None in F. split; [split; done|]. symmetry. apply list_filter_all.
      apply Forall_forall. intros c Hc E. apply F. rewrite <- E. by apply list_elem_of_fmap_2.
Qed.
