(* ===== verification/Peers.v ===== *)
(** * Peers, the channel registry and the slot policy
      (src/server/Peer.h, Peer.cpp, VcManager.h, VcManager.cpp,
      ReplaceSlotPolicy.h)

    The two registries are singletons guarded by one mutex each, so every
    operation is one atomic step; a channel is held by pointer, here its
    address.  SocketClose is an effect: the operations that call it return the
    descriptors closed, in order. *)

From S2P Require Import Prelude Socket VcProtocol.

(** ** Which slot a replacement socket goes to *)

Definition DecideReplaceSlot (connIdSlot slotIndex numSlots : Z) (deadSlots : list Z) : Z :=
  if 0 <=? connIdSlot then connIdSlot
  else if (0 <=? slotIndex) && (slotIndex <? numSlots) then slotIndex
  else match deadSlots with
       | d :: _ => d
       | [] => -1
       end.

(** The policy stays within the channel when its inputs do, and it never turns
    a socket away that names a valid slot. *)
Lemma DecideReplaceSlot_range connIdSlot slotIndex numSlots deadSlots :
  0 <= numSlots -> -1 <= connIdSlot < numSlots ->
  Forall (fun d => 0 <= d < numSlots) deadSlots ->
  -1 <= DecideReplaceSlot connIdSlot slotIndex numSlots deadSlots < numSlots.
Proof.
  intros Hn Hc Hd. unfold DecideReplaceSlot.
  destruct (Z.leb_spec 0 connIdSlot); [lia|].
  destruct (Z.leb_spec 0 slotIndex), (Z.ltb_spec slotIndex numSlots); cbn [andb]; try lia;
    (destruct Hd; lia).
Qed.

Lemma DecideReplaceSlot_reject connIdSlot slotIndex numSlots deadSlots :
  Forall (fun d => 0 <= d) deadSlots ->
  DecideReplaceSlot connIdSlot slotIndex numSlots deadSlots < 0 <->
  connIdSlot < 0 /\ ~ (0 <= slotIndex < numSlots) /\ deadSlots = [].
Proof.
  intros Hd. unfold DecideReplaceSlot.
  destruct (Z.leb_spec 0 connIdSlot), (Z.leb_spec 0 slotIndex), (Z.ltb_spec slotIndex numSlots), Hd as [|d l Hd _];
    cbn [andb]; (split; [intros; split_and!; done || lia | intros (? & ? & ?); done || lia]).
Qed.

(** ** VcManager *)

Module VcManager.

Abbreviation Vcs := (gmap Z nat).

Definition Add (clientId : Z) (vc : nat) (m : Vcs) : Vcs := <[clientId := vc]> m.
Definition Remove (clientId : Z) (m : Vcs) : Vcs := delete clientId m.
Definition Exists (clientId : Z) (m : Vcs) : bool := bool_decide (is_Some (m !! clientId)).
Definition Get (clientId : Z) (m : Vcs) : option nat := m !! clientId.

Lemma Exists_Get clientId m : Exists clientId m = true <-> is_Some (Get clientId m).
Proof. unfold Exists. by rewrite bool_decide_eq_true. Qed.

End VcManager.

(** ** Peer *)

Record Peer : Type := mkPeer {
  peer_clientId : Z;
  sockets : list SocketFd;
  udpSocket : SocketFd;
  udpAddress : option Z;        (* the port; not initialised by the constructor *)
}.

Definition newPeer (clientId : Z) : Peer := mkPeer clientId [] (-1) None.

Definition AddSocket (socket : SocketFd) (p : Peer) : Peer * list SocketFd :=
  if (VC_TCP_CONNECTIONS <=? length (sockets p))%nat then (p, [socket])
  else (mkPeer (peer_clientId p) (sockets p ++ [socket]) (udpSocket p) (udpAddress p), []).

Definition GetSocketCount (p : Peer) : nat := length (sockets p).
Definition GetSockets (p : Peer) : list SocketFd := sockets p.

Definition SetUdpSocket (socket : SocketFd) (p : Peer) : Peer :=
  mkPeer (peer_clientId p) (sockets p) socket (udpAddress p).

Definition SetUdpAddress (port : Z) (p : Peer) : Peer :=
  mkPeer (peer_clientId p) (sockets p) (udpSocket p) (Some port).

Definition RemoveAllSockets (p : Peer) : Peer * list SocketFd :=
  (mkPeer (peer_clientId p) [] (udpSocket p) (udpAddress p), sockets p).

(** ** PeerManager *)

Module PeerManager.

Abbreviation Peers := (gmap Z Peer).

Definition GetPeerById (clientId : Z) (ps : Peers) : option Peer := ps !! clientId.

(** An existing peer is flushed only while its channel is registered. *)
Definition AddPeer (clientId : Z) (vcExists : bool) (ps : Peers) : Peers * list SocketFd :=
  match ps !! clientId with
  | None => (<[clientId := newPeer clientId]> ps, [])
  | Some p =>
      if vcExists then let '(p', closed) := RemoveAllSockets p in (<[clientId := p']> ps, closed)
      else (ps, [])
  end.

Definition RemovePeer (clientId : Z) (ps : Peers) : Peers := delete clientId ps.

(** Every peer's TCP sockets and then its UDP socket, whatever the order of the
    unordered_map (here the map's own). *)
Definition CloseAllSockets (ps : Peers) : Peers * list SocketFd :=
  (∅, concat ((fun kv => sockets (snd kv) ++ [udpSocket (snd kv)]) <$> map_to_list ps)).

(** After AddPeer the client has a peer, holding what it held unless flushed. *)
Lemma AddPeer_lookup clientId b ps :
  (AddPeer clientId b ps).1 !! clientId
  = Some (match ps !! clientId with
          | None => newPeer clientId
          | Some p => if b then (RemoveAllSockets p).1 else p
          end).
Proof.
  unfold AddPeer. destruct (ps !! clientId) as [p|] eqn:E; [destruct b|]; cbn [fst RemoveAllSockets];
    rewrite ?lookup_insert_eq; done || exact E.
Qed.

Lemma AddPeer_other clientId b ps k : k <> clientId -> (AddPeer clientId b ps).1 !! k = ps !! k.
Proof.
  intros Hk. unfold AddPeer.
  destruct (ps !! clientId); [destruct b|]; cbn [fst RemoveAllSockets]; by rewrite ?lookup_insert_ne by congruence.
Qed.

End PeerManager.
