(* ===== verification/Server.v ===== *)
(** * The server's accept loop (src/server/Server.h, Server.cpp)

    One iteration of AcceptConnections is one function of what the system
    returns to it; the disconnect callback it installs on a channel is the
    other operation on the server's state.  Channel objects live at addresses
    of [channels]; each keeps its own connection objects.  The results list
    the descriptors the server itself passes to SocketClose, in order; those
    closed by a channel are the channel's affair (Channel.v). *)

From S2P Require Import Prelude Bytes VcProtocol Socket TcpConnection IoThread BlockingQueue SentCache.
From S2P Require Import Protocol Peers Channel.

Record Server : Type := mkServer {
  socketToConnId : gmap Z Z;
  clientConnSlots : gmap Z (gmap Z Z);
  peers : gmap Z Peer;                      (* PeerManager::peers *)
  vcs : gmap Z nat;                         (* VcManager::vcs *)
  channels : gmap nat Channel;              (* the channel objects *)
  callbacks : gmap nat (Z * SocketFd);      (* what a channel's disconnect callback captured *)
}.

Definition newServer : Server := mkServer ∅ ∅ ∅ ∅ ∅ ∅.

(** What one iteration gets from the system: the accepted descriptor, the
    successive recv results on it, the UDP socket (-1 on failure) and whether
    it could be bound, and the addresses of the objects it may create. *)
Record accept_io : Type := mkAcceptIo {
  io_fd : SocketFd;
  io_recv : list os_recv;
  io_udp : SocketFd;
  io_udp_bound : bool;
  io_udpTargetPort : Z;
  io_vc : nat;
  io_addr : nat;
}.

Inductive loop_control : Type := LoopContinue | LoopBreak.

(** ** Reading the bind message

    The buffer is sizeof(MsgBind) zero bytes and holds what was received. *)
Definition read_bind (rs : list os_recv) : option (option MsgBind) :=
  match RecvTcpDataWithSize rs sizeof_MsgBind with
  | None => None                                       (* still waiting *)
  | Some (received, got) =>
      if received <=? 0 then Some None
      else Some (ExtractMsgBind (got ++ replicate (sizeof_MsgBind - length got) Byte.x00))
  end.

(** ** Hot-swapping a slot of an existing channel *)

Definition lookup_connIdSlot (client connId : Z) (s : Server) : Z :=
  if connId =? 0 then -1
  else match clientConnSlots s !! client with
       | None => -1
       | Some slotMap => default (-1) (slotMap !! connId)
       end.

(** Drop the entries of the slot, then register the id for it. *)
Definition register_slot (connId targetSlot : Z) (slotMap : gmap Z Z) : gmap Z Z :=
  <[connId := targetSlot]> (filter (fun kv => kv.2 <> targetSlot) slotMap).

Definition replace_target (bind : MsgBind) (c : Channel) (s : Server) : Z :=
  DecideReplaceSlot (lookup_connIdSlot (clientId bind) (connectionId bind) s) (slotIndex bind)
    (Z.of_nat VC_TCP_CONNECTIONS) (getDeadSlots c).

Definition replace_slot (io : accept_io) (bind : MsgBind) (vc : nat) (c : Channel) (s : Server)
  : Server * list SocketFd :=
  let client := clientId bind in
  let targetSlot := replace_target bind c s in
  if targetSlot <? 0 then (s, [io_fd io])
  else
    (mkServer (socketToConnId s)
       (if connectionId bind =? 0 then clientConnSlots s
        else <[client := register_slot (connectionId bind) targetSlot
                           (default ∅ (clientConnSlots s !! client))]> (clientConnSlots s))
       (peers s) (vcs s)
       (<[vc := (replaceConnection targetSlot (io_fd io) (io_addr io) c).1]> (channels s))
       (callbacks s),
     []).

(** An initial bind while a channel is registered: close it and unregister it. *)
Definition tear_down_stale (client : Z) (vc : nat) (c : Channel) (s : Server) : Server :=
  mkServer (socketToConnId s) (clientConnSlots s) (peers s)
    (if VcManager.Exists client (vcs s) then VcManager.Remove client (vcs s) else vcs s)
    (<[vc := close c]> (channels s)) (callbacks s).

(** ** Accumulating the sockets of a new client *)

Definition accumulate (fd : SocketFd) (bind : MsgBind) (s : Server) : Server * option Peer * list SocketFd :=
  let client := clientId bind in
  let s2c := if connectionId bind =? 0 then socketToConnId s
             else <[fd := connectionId bind]> (socketToConnId s) in
  let '(ps, flushed) := PeerManager.AddPeer client (VcManager.Exists client (vcs s)) (peers s) in
  match PeerManager.GetPeerById client ps with
  | None => (mkServer s2c (clientConnSlots s) ps (vcs s) (channels s) (callbacks s), None, flushed ++ [fd])
  | Some peer =>
      let '(peer', excess) := AddSocket fd peer in
      (mkServer s2c (clientConnSlots s) (<[client := peer']> ps) (vcs s) (channels s) (callbacks s),
       Some peer', flushed ++ excess)
  end.

(** The loop moving the ids of [fds] from socketToConnId into the slot map;
    [i] is the slot of the first. *)
Fixpoint build_slot_map (i : Z) (fds : list SocketFd) (s2c slotMap : gmap Z Z) : gmap Z Z * gmap Z Z :=
  match fds with
  | [] => (s2c, slotMap)
  | fd :: fds =>
      match s2c !! fd with
      | Some connId => build_slot_map (i + 1) fds (delete fd s2c) (<[connId := i]> slotMap)
      | None => build_slot_map (i + 1) fds s2c slotMap
      end
  end.

Definition setDisconnectCallback (c : Channel) : Channel :=
  mkChannel (connections c) (heap c) (opened c) (lastSendMessageId c) (sendQueue c) (resendQueue c)
    (sentDataCache c) (messageTracker c) (connSendStats c) (socketStatuses c) (pendingResendIds c) true
    (ioRunning c) (sendRunning c) (reorderRunning c).

(** With enough sockets: the channel, its slot map, its UDP socket, its
    callbacks, and finally open(). *)
Definition build_channel (io : accept_io) (client : Z) (peer : Peer) (s : Server)
  : Server * list SocketFd * loop_control :=
  let fds := GetSockets peer in
  let vc := newChannel 0 fds ∅ false in
  let '(s2c, slotMap) :=
    build_slot_map 0 fds (socketToConnId s) (default ∅ (clientConnSlots s !! client)) in
  let slots := <[client := slotMap]> (clientConnSlots s) in
  let registered := VcManager.Add client (io_vc io) (vcs s) in
  let unopened := mkServer s2c slots (peers s) registered (<[io_vc io := vc]> (channels s)) (callbacks s) in
  if io_udp io =? -1 then (unopened, [], LoopBreak)
  else if negb (io_udp_bound io) then (unopened, [io_udp io], LoopBreak)
  else
    (mkServer s2c slots
       (<[client := SetUdpAddress (io_udpTargetPort io) (SetUdpSocket (io_udp io) peer)]> (peers s))
       registered (<[io_vc io := open (setDisconnectCallback vc)]> (channels s))
       (<[io_vc io := (client, io_udp io)]> (callbacks s)),
     [], LoopContinue).

Definition accept_new (io : accept_io) (bind : MsgBind) (s : Server)
  : Server * list SocketFd * loop_control :=
  match accumulate (io_fd io) bind s with
  | (s1, None, closed) => (s1, closed, LoopContinue)
  | (s1, Some peer, closed) =>
      if (VC_TCP_CONNECTIONS <=? GetSocketCount peer)%nat
      then let '(s2, closed2, ctl) := build_channel io (clientId bind) peer s1 in (s2, closed ++ closed2, ctl)
      else (s1, closed, LoopContinue)
  end.

(** The handling of a decoded bind message. *)
Definition handle_bind (io : accept_io) (bind : MsgBind) (s : Server)
  : Server * list SocketFd * loop_control :=
  match VcManager.Get (clientId bind) (vcs s) ≫= (fun vc => c ← channels s !! vc; Some (vc, c)) with
  | Some (vc, c) =>
      if slotIndex bind <? 0
      then accept_new io bind (tear_down_stale (clientId bind) vc c s)
      else let '(s', closed) := replace_slot io bind vc c s in (s', closed, LoopContinue)
  | None => accept_new io bind s
  end.

(** One iteration of AcceptConnections; [None] while it waits for the bind. *)
Definition accept_one (io : accept_io) (s : Server) : option (Server * list SocketFd * loop_control) :=
  if io_fd io <? 0 then Some (s, [], LoopContinue)
  else match read_bind (io_recv io) with
       | None => None
       | Some None => Some (s, [io_fd io], LoopContinue)
       | Some (Some bind) => Some (handle_bind io bind s)
       end.

(** The loop over successive iterations. *)
Fixpoint AcceptConnections (ios : list accept_io) (s : Server)
  : option (Server * list SocketFd * loop_control) :=
  match ios with
  | [] => Some (s, [], LoopContinue)
  | io :: ios =>
      match accept_one io s with
      | None => None
      | Some (s1, closed, LoopBreak) => Some (s1, closed, LoopBreak)
      | Some (s1, closed, LoopContinue) =>
          match AcceptConnections ios s1 with
          | None => None
          | Some (s2, closed2, ctl) => Some (s2, closed ++ closed2, ctl)
          end
      end
  end.

(** ** The installed callbacks *)

Definition disconnect_callback (client : Z) (udp : SocketFd) (s : Server) : Server * list SocketFd :=
  (mkServer (socketToConnId s) (delete client (clientConnSlots s))
     (PeerManager.RemovePeer client (peers s))
     (if VcManager.Exists client (vcs s) then VcManager.Remove client (vcs s) else vcs s)
     (channels s) (callbacks s),
   [udp]).

(** A channel's threads report a dead connection. *)
Definition channel_disconnectCB (vc : nat) (s : Server) : Server * list SocketFd :=
  match channels s !! vc with
  | None => (s, [])
  | Some c =>
      let '(c', notify) := disconnectCB c in
      let s1 := mkServer (socketToConnId s) (clientConnSlots s) (peers s) (vcs s)
                  (<[vc := c']> (channels s)) (callbacks s) in
      match callbacks s !! vc with
      | Some (client, udp) => if notify then disconnect_callback client udp s1 else (s1, [])
      | None => (s1, [])
      end
  end.

(** The loop of the UDP receive thread, one recv: [None] when the thread ends. *)
Definition udp_thread_step (r : os_recv) (c : Channel) : option (Channel * send_outcome) :=
  match r with
  | RecvErr _ | RecvOk [] => None
  | RecvOk data => send (Some data) c
  end.

(** ** Reading a bind message delivered in pieces *)

Definition delivers (io : accept_io) (bind : MsgBind) : Prop :=
  exists pad chunks, length pad = 3%nat /\ Forall (fun ch => ch <> []) chunks
    /\ concat chunks = AppendMsgBind pad bind [] /\ io_recv io = RecvOk <$> chunks.

Lemma recv_chunks chunks got n :
  Forall (fun ch => ch <> []) chunks -> (length got + length (concat chunks))%nat = n ->
  RecvTcpDataWithSize_loop (RecvOk <$> chunks) got n = Some (Z.of_nat n, got ++ concat chunks).
Proof.
  intros Hc. revert got. induction Hc as [|ch chunks Hne _ IH]; intros got Hn.
  - cbn [concat fmap list_fmap RecvTcpDataWithSize_loop] in *. cbn in Hn.
    destruct (Nat.leb_spec n (length got)); [|lia]. rewrite app_nil_r. do 2 f_equal. lia.
  - cbn [concat fmap list_fmap] in *. rewrite length_app in Hn.
    destruct ch as [|b ch]; [done|].
    cbn [RecvTcpDataWithSize_loop]. destruct (Nat.leb_spec n (length got)); [cbn [length] in Hn; lia|].
    rewrite IH, <- app_assoc; [done|]. rewrite length_app. lia.
Qed.

(** However TCP splits it, a complete bind message is read as it was sent. *)
Lemma read_bind_delivers io bind :
  msg_bind_ok bind -> delivers io bind -> read_bind (io_recv io) = Some (Some bind).
Proof.
  intros Hb (pad & chunks & Hp & Hne & Hc & ->). unfold read_bind, RecvTcpDataWithSize.
  destruct (msg_bind_encoded pad [] bind Hb Hp) as [Hl He].
  rewrite (recv_chunks _ [] sizeof_MsgBind) by (done || by rewrite Hc, Hl).
  rewrite Hc. cbn [app]. rewrite Hl, Nat.sub_diag. cbn [replicate]. by rewrite He.
Qed.

(** ** What the state always satisfies *)

Definition slots_in_range (m : gmap Z Z) : Prop :=
  forall id slot, m !! id = Some slot -> 0 <= slot < Z.of_nat VC_TCP_CONNECTIONS.

Record server_inv (s : Server) : Prop := {
  si_slots : forall client m, clientConnSlots s !! client = Some m -> slots_in_range m;
  si_vcs : forall client vc, vcs s !! client = Some vc -> is_Some (channels s !! vc);
  si_channels : forall vc c, channels s !! vc = Some c -> length (connections c) = VC_TCP_CONNECTIONS;
  si_peers : forall client p, peers s !! client = Some p -> (length (sockets p) <= VC_TCP_CONNECTIONS)%nat;
}.

Lemma newServer_inv : server_inv newServer.
Proof. split; intros ? ? H; destruct (lookup_empty_Some _ _ H). Qed.

Lemma length_replaceConnection i fd a c : length (connections (replaceConnection i fd a c).1) = length (connections c).
Proof.
  unfold replaceConnection. destruct (_ || _); [done|]. cbn [fst connections]. apply length_insert.
Qed.

Lemma connections_close c : connections (close c) = connections c.
Proof. unfold close. by destruct (opened c). Qed.

Lemma connections_disconnectCB c : connections (disconnectCB c).1 = connections c.
Proof. unfold disconnectCB. destruct (negb _); [done|]. by destruct (_ <? _)%nat. Qed.

Lemma length_newChannel base fds h b : length (connections (newChannel base fds h b)) = length fds.
Proof. cbn. by rewrite length_fmap, length_seq. Qed.

Lemma register_slot_lookup connId target m id slot :
  register_slot connId target m !! id = Some slot <->
  (id = connId /\ slot = target) \/ (id <> connId /\ slot <> target /\ m !! id = Some slot).
Proof.
  unfold register_slot. rewrite lookup_insert_Some, map_lookup_filter_Some. cbn. naive_solver.
Qed.

Lemma slots_in_range_empty : slots_in_range ∅.
Proof. intros ? ? H. by rewrite lookup_empty in H. Qed.

Lemma slots_in_range_default s client :
  server_inv s -> slots_in_range (default ∅ (clientConnSlots s !! client)).
Proof.
  intros H. destruct (clientConnSlots s !! client) as [m|] eqn:E; cbn;
    [by eapply si_slots | apply slots_in_range_empty].
Qed.

Lemma replace_target_range bind vc c s :
  server_inv s -> channels s !! vc = Some c ->
  -1 <= replace_target bind c s < Z.of_nat VC_TCP_CONNECTIONS.
Proof.
  intros H Hc. apply DecideReplaceSlot_range; [lia| |].
  - unfold lookup_connIdSlot. destruct (_ =? 0); [cbn; lia|].
    destruct (clientConnSlots s !! clientId bind) as [m|] eqn:E; [|cbn; lia].
    destruct (m !! connectionId bind) as [i|] eqn:Ei; cbn [default]; [|cbn; lia].
    pose proof (si_slots s H _ _ E _ _ Ei). unfold id. lia.
  - apply Forall_forall. intros d [Hd _]%elem_of_dead_slots. by rewrite (si_channels s H _ _ Hc) in Hd.
Qed.

(** Replacing one channel object by one with as many connections. *)
Lemma channels_insert_inv (chs : gmap nat Channel) vc c :
  (forall v c, chs !! v = Some c -> length (connections c) = VC_TCP_CONNECTIONS) ->
  length (connections c) = VC_TCP_CONNECTIONS ->
  forall v c', <[vc := c]> chs !! v = Some c' -> length (connections c') = VC_TCP_CONNECTIONS.
Proof. intros Hall Hc v c' [[<- <-]|[_ H]]%lookup_insert_Some; eauto. Qed.

Lemma replace_slot_inv io bind vc c s :
  server_inv s -> channels s !! vc = Some c -> server_inv (replace_slot io bind vc c s).1.
Proof.
  intros H Hc. pose proof (replace_target_range bind vc c s H Hc) as Ht. unfold replace_slot.
  destruct (Z.ltb_spec (replace_target bind c s) 0); [done|]. cbn [fst].
  split; cbn [clientConnSlots vcs channels peers].
  - destruct (connectionId bind =? 0); [apply (si_slots s H)|].
    intros client m [[<- <-]|[_ Hm]]%lookup_insert_Some; [|by eapply (si_slots s H)].
    intros id slot [[-> ->]|(_ & _ & Hs)]%register_slot_lookup; [lia|].
    by apply (slots_in_range_default s (clientId bind) H id).
  - intros client v Hv. destruct (si_vcs s H _ _ Hv) as [x Hx].
    destruct (decide (vc = v)) as [->|]; [rewrite lookup_insert_eq; eauto | rewrite lookup_insert_ne; eauto].
  - apply channels_insert_inv; [apply (si_channels s H)|].
    rewrite length_replaceConnection. by eapply si_channels.
  - apply (si_peers s H).
Qed.

(** Registered channels keep their objects when an object is put at an address. *)
Lemma vcs_insert_inv (vs : gmap Z nat) (chs : gmap nat Channel) a x :
  (forall k v, vs !! k = Some v -> is_Some (chs !! v)) ->
  forall k v, vs !! k = Some v -> is_Some (<[a := x]> chs !! v).
Proof.
  intros Hall k v Hv. destruct (decide (a = v)) as [->|];
    [rewrite lookup_insert_eq | rewrite lookup_insert_ne by done]; eauto.
Qed.

Lemma vcs_remove_inv (vs : gmap Z nat) (P : nat -> Prop) client :
  (forall k v, vs !! k = Some v -> P v) ->
  forall k v, (if VcManager.Exists client vs then VcManager.Remove client vs else vs) !! k = Some v -> P v.
Proof.
  intros Hall k v. unfold VcManager.Remove. destruct (VcManager.Exists client vs); [|apply Hall].
  intros [_ H]%lookup_delete_Some. by eapply Hall.
Qed.

Lemma tear_down_stale_inv client vc c s :
  server_inv s -> channels s !! vc = Some c -> server_inv (tear_down_stale client vc c s).
Proof.
  intros H Hc. split; cbn [tear_down_stale clientConnSlots vcs channels peers].
  - apply (si_slots s H).
  - apply vcs_remove_inv, vcs_insert_inv, (si_vcs s H).
  - apply channels_insert_inv; [apply (si_channels s H)|].
    rewrite connections_close. by eapply (si_channels s H).
  - apply (si_peers s H).
Qed.

Lemma AddSocket_length fd p :
  (length (sockets p) <= VC_TCP_CONNECTIONS)%nat ->
  (length (sockets (AddSocket fd p).1) <= VC_TCP_CONNECTIONS)%nat.
Proof.
  intros Hp. unfold AddSocket. destruct (Nat.leb_spec VC_TCP_CONNECTIONS (length (sockets p))); [done|].
  cbn [fst sockets]. rewrite length_app. cbn [length]. lia.
Qed.

Lemma AddPeer_inv client b ps :
  (forall k p, ps !! k = Some p -> (length (sockets p) <= VC_TCP_CONNECTIONS)%nat) ->
  forall k p, (PeerManager.AddPeer client b ps).1 !! k = Some p -> (length (sockets p) <= VC_TCP_CONNECTIONS)%nat.
Proof.
  intros Hall k p. destruct (decide (k = client)) as [->|N].
  - rewrite PeerManager.AddPeer_lookup. intros [= <-].
    destruct (ps !! client) as [q|] eqn:E; [destruct b|]; cbn; [lia | by eapply Hall | lia].
  - rewrite PeerManager.AddPeer_other by done. apply Hall.
Qed.

(** Accumulation always finds the peer, and only touches the peers and the ids
    of the accepted sockets. *)
Lemma accumulate_spec fd bind s :
  exists peer s2c closed,
    accumulate fd bind s
    = (mkServer s2c (clientConnSlots s)
         (<[clientId bind := peer]> (PeerManager.AddPeer (clientId bind)
              (VcManager.Exists (clientId bind) (vcs s)) (peers s)).1)
         (vcs s) (channels s) (callbacks s), Some peer, closed)
    /\ (server_inv s -> (length (sockets peer) <= VC_TCP_CONNECTIONS)%nat).
Proof.
  unfold accumulate, PeerManager.GetPeerById.
  pose proof (PeerManager.AddPeer_lookup (clientId bind) (VcManager.Exists (clientId bind) (vcs s)) (peers s)) as E.
  pose proof (AddPeer_inv (clientId bind) (VcManager.Exists (clientId bind) (vcs s)) (peers s)) as Hi.
  destruct (PeerManager.AddPeer _ _ _) as [ps flushed]. cbn [fst] in *. rewrite E.
  set (p := match _ with None => _ | Some _ => _ end) in *.
  pose proof (AddSocket_length fd p) as Hl. destruct (AddSocket fd p) as [peer' excess].
  do 3 eexists. split; [done|]. intros H. apply Hl. eapply Hi, E. apply (si_peers s H).
Qed.

Lemma build_slot_map_range fds i s2c m :
  0 <= i -> slots_in_range m -> i + Z.of_nat (length fds) <= Z.of_nat VC_TCP_CONNECTIONS ->
  slots_in_range (build_slot_map i fds s2c m).2.
Proof.
  revert i s2c m. induction fds as [|fd fds IH]; intros i s2c m Hi Hm Hl; [done|].
  cbn [build_slot_map length] in *. destruct (s2c !! fd) as [k|]; apply IH; try done || lia.
  intros x slot [[_ <-]|[_ H]]%lookup_insert_Some; [lia | by eapply Hm].
Qed.

Lemma build_channel_inv io client peer s :
  server_inv s -> length (sockets peer) = VC_TCP_CONNECTIONS ->
  server_inv (build_channel io client peer s).1.1.
Proof.
  intros H Hp. unfold build_channel, GetSockets.
  pose proof (build_slot_map_range (sockets peer) 0 (socketToConnId s)
                (default ∅ (clientConnSlots s !! client)) ltac:(lia) (slots_in_range_default s client H)
                ltac:(lia)) as Hr.
  destruct (build_slot_map _ _ _ _) as [s2c slotMap]. cbn [snd] in Hr.
  assert (H1 : forall k m, <[client := slotMap]> (clientConnSlots s) !! k = Some m -> slots_in_range m)
    by (intros k m [[_ <-]|[_ Hm]]%lookup_insert_Some; [done | by eapply (si_slots s H)]).
  assert (H2 : forall x k v, <[client := io_vc io]> (vcs s) !! k = Some v ->
            is_Some (<[io_vc io := x]> (channels s) !! v)).
  { intros x k v [[_ <-]|[_ Hv]]%lookup_insert_Some; [by rewrite lookup_insert_eq|].
    eapply vcs_insert_inv; [apply (si_vcs s H) | done]. }
  assert (H3 : forall x, length (connections x) = VC_TCP_CONNECTIONS -> forall v c,
            <[io_vc io := x]> (channels s) !! v = Some c -> length (connections c) = VC_TCP_CONNECTIONS)
    by (intros x Hx; apply channels_insert_inv; [apply (si_channels s H) | done]).
  assert (Hn : length (connections (newChannel 0 (sockets peer) ∅ false)) = VC_TCP_CONNECTIONS)
    by (by rewrite length_newChannel).
  destruct (_ =? -1); [|destruct (negb _)]; cbn [fst]; split;
    cbn [clientConnSlots vcs channels peers]; try done; try apply (si_peers s H);
    try (apply H2); try (by apply H3).
  intros k p [[_ <-]|[_ Hk]]%lookup_insert_Some; [cbn; lia | by eapply (si_peers s H)].
Qed.

Lemma accept_new_inv io bind s : server_inv s -> server_inv (accept_new io bind s).1.1.
Proof.
  intros H. unfold accept_new.
  destruct (accumulate_spec (io_fd io) bind s) as (peer & s2c & closed & -> & Hp).
  specialize (Hp H). set (s1 := mkServer _ _ _ _ _ _).
  assert (H1 : server_inv s1).
  { split; cbn [clientConnSlots vcs channels peers s1]; try apply H.
    intros k p [[_ <-]|[_ Hk]]%lookup_insert_Some; [done|]. eapply AddPeer_inv, Hk. apply (si_peers s H). }
  unfold GetSocketCount. destruct (Nat.leb_spec VC_TCP_CONNECTIONS (length (sockets peer))); [|done].
  pose proof (build_channel_inv io (clientId bind) peer s1 H1 ltac:(lia)) as Hb.
  by destruct (build_channel _ _ _ _) as [[s2 c2] ctl].
Qed.

Lemma handle_bind_inv io bind s : server_inv s -> server_inv (handle_bind io bind s).1.1.
Proof.
  intros H. unfold handle_bind, VcManager.Get.
  destruct (vcs s !! clientId bind) as [vc|] eqn:Ev; cbn [mbind option_bind]; [|by apply accept_new_inv].
  destruct (channels s !! vc) as [c|] eqn:Ec; cbn [mbind option_bind]; [|by apply accept_new_inv].
  destruct (slotIndex bind <? 0).
  - by apply accept_new_inv, tear_down_stale_inv.
  - pose proof (replace_slot_inv io bind vc c s H Ec) as Hr. by destruct (replace_slot _ _ _ _ _).
Qed.

Lemma channel_disconnectCB_inv vc s : server_inv s -> server_inv (channel_disconnectCB vc s).1.
Proof.
  intros H. unfold channel_disconnectCB. destruct (channels s !! vc) as [c|] eqn:Ec; [|done].
  pose proof (connections_disconnectCB c) as Hl. destruct (disconnectCB c) as [c' notify]. cbn [fst] in Hl.
  set (s1 := mkServer _ _ _ _ _ _). assert (H1 : server_inv s1).
  { split; cbn [clientConnSlots vcs channels peers s1]; try apply H.
    - apply vcs_insert_inv, (si_vcs s H).
    - apply channels_insert_inv; [apply (si_channels s H)|]. rewrite Hl. by eapply (si_channels s H). }
  destruct (callbacks s !! vc) as [[client udp]|]; [|done]. destruct notify; [|done].
  split; cbn [disconnect_callback clientConnSlots vcs channels peers fst]; try apply H1.
  - intros k m [_ Hm]%lookup_delete_Some. by eapply (si_slots s H).
  - apply vcs_remove_inv, (si_vcs s1 H1).
  - unfold PeerManager.RemovePeer. intros k p [_ Hp]%lookup_delete_Some. by eapply (si_peers s H).
Qed.

(** ** The accept loop and the callbacks in any order *)

Inductive server_op : Type :=
| SAccept (io : accept_io)
| SDisconnect (vc : nat).

Definition run_server_op (s : Server) (o : server_op) : Server :=
  match o with
  | SAccept io => match accept_one io s with Some (s', _, _) => s' | None => s end
  | SDisconnect vc => (channel_disconnectCB vc s).1
  end.

Lemma run_server_op_inv s o : server_inv s -> server_inv (run_server_op s o).
Proof.
  intros H. destruct o as [io|vc]; [|by apply channel_disconnectCB_inv].
  cbn [run_server_op]. unfold accept_one. destruct (io_fd io <? 0); [done|].
  destruct (read_bind (io_recv io)) as [[bind|]|]; [|done..].
  pose proof (handle_bind_inv io bind s H) as Hb. by destruct (handle_bind io bind s) as [[s' cl] ctl].
Qed.

Lemma run_server_ops_inv ops s : server_inv s -> server_inv (foldl run_server_op s ops).
Proof. revert s. induction ops as [|o ops IH]; intros s H; [done|]. cbn [foldl]. by apply IH, run_server_op_inv. Qed.

(** C12. Whatever clients connect, in whatever order, with whatever bind
    messages: every slot the server remembers is a slot of the channel, no peer
    holds more than 32 sockets, every registered channel exists and has exactly
    32 connections; so the slot chosen for a replacement is always one of the 32,
    and the socket is refused only when its id is unknown, its slot index is no
    slot and no slot is dead. *)
Theorem server_state_bounded (ops : list server_op) :
  let s := foldl run_server_op newServer ops in
  (forall client m id slot, clientConnSlots s !! client = Some m -> m !! id = Some slot -> 0 <= slot < 32)
  /\ (forall client p, peers s !! client = Some p -> (length (sockets p) <= 32)%nat)
  /\ (forall client vc, vcs s !! client = Some vc ->
        exists c, channels s !! vc = Some c /\ length (connections c) = 32%nat
          /\ forall bind, -1 <= replace_target bind c s < 32
             /\ (replace_target bind c s < 0 <->
                 lookup_connIdSlot (clientId bind) (connectionId bind) s < 0
                 /\ ~ (0 <= slotIndex bind < 32) /\ getDeadSlots c = [])).
Proof.
  intros s. assert (H : server_inv s) by apply run_server_ops_inv, newServer_inv.
  split; [intros client m id slot Hm; by apply (si_slots s H client m Hm)|].
  split; [apply (si_peers s H)|]. intros client vc Hv.
  destruct (si_vcs s H _ _ Hv) as [c Hc]. exists c. split; [done|].
  split; [by eapply (si_channels s H)|]. intros bind. split; [by eapply replace_target_range|].
  apply DecideReplaceSlot_reject. apply Forall_forall. intros d Hd%elem_of_dead_slots. lia.
Qed.

(** ** Hot-swapping *)

(** The connection a slot of a channel holds. *)
Definition slot_conn (c : Channel) (i : nat) : option TcpConnection :=
  mjoin (connections c !! i) ≫= (heap c !!.).

Definition addr_unused (a : nat) (c : Channel) : Prop :=
  heap c !! a = None /\ forall j, connections c !! j <> Some (Some a).

Lemma slot_conn_replace t fd a c i :
  addr_unused a c -> 0 <= t < Z.of_nat (length (connections c)) ->
  slot_conn (replaceConnection t fd a c).1 i
  = if decide (i = Z.to_nat t) then Some (newTcpConnection fd).1 else slot_conn c i.
Proof.
  intros [Hh Hj] Ht. unfold slot_conn, replaceConnection.
  destruct (Z.ltb_spec t 0), (Z.leb_spec (Z.of_nat (length (connections c))) t); cbn [orb]; try lia.
  cbn [fst connections heap]. case_decide as Hi; [subst i|].
  - rewrite list_lookup_insert_eq by lia. cbn. by rewrite lookup_insert_eq.
  - rewrite list_lookup_insert_ne by done.
    destruct (connections c !! i) as [[b|]|] eqn:E; [|done|done]. cbn.
    rewrite lookup_insert_ne; [done|]. intros <-. by apply (Hj i).
Qed.

(** C14. A bind message naming slot 0 to 31 of a registered channel: the socket
    becomes the connection of one slot -- the one its connection id was
    registered for, else the one it names -- every other slot keeps its
    connection, the server closes nothing and goes on, and afterwards the id is
    registered for that slot and no other id is. *)
Theorem bind_hot_swaps_one_slot (io : accept_io) (bind : MsgBind) (vc : nat) (c : Channel) (s : Server) :
  server_inv s -> 0 <= io_fd io -> msg_bind_ok bind -> delivers io bind ->
  vcs s !! clientId bind = Some vc -> channels s !! vc = Some c ->
  0 <= slotIndex bind < Z.of_nat VC_TCP_CONNECTIONS -> addr_unused (io_addr io) c ->
  let known := lookup_connIdSlot (clientId bind) (connectionId bind) s in
  let target := if 0 <=? known then known else slotIndex bind in
  exists s' c', accept_one io s = Some (s', [], LoopContinue)
    /\ vcs s' = vcs s /\ channels s' = <[vc := c']> (channels s)
    /\ (forall i, slot_conn c' i = if decide (i = Z.to_nat target) then Some (newTcpConnection (io_fd io)).1
                                   else slot_conn c i)
    /\ (connectionId bind <> 0 ->
        forall id, (exists m, clientConnSlots s' !! clientId bind = Some m /\ m !! id = Some target)
                   <-> id = connectionId bind).
Proof.
  intros H Hfd Hb Hd Hv Hc Hs Ha known target.
  assert (Et : replace_target bind c s = target).
  { unfold replace_target, DecideReplaceSlot, target. fold known. destruct (0 <=? known); [done|].
    destruct (Z.leb_spec 0 (slotIndex bind)), (Z.ltb_spec (slotIndex bind) (Z.of_nat VC_TCP_CONNECTIONS)); done || lia. }
  pose proof (replace_target_range bind vc c s H Hc) as Hr. rewrite Et in Hr.
  assert (0 <= target) by (unfold target; destruct (Z.leb_spec 0 known); lia).
  unfold accept_one. destruct (Z.ltb_spec (io_fd io) 0); [lia|].
  rewrite (read_bind_delivers _ _ Hb Hd). unfold handle_bind, VcManager.Get. rewrite Hv.
  cbn [mbind option_bind]. rewrite Hc. cbn [mbind option_bind].
  destruct (Z.ltb_spec (slotIndex bind) 0); [lia|]. unfold replace_slot. rewrite Et.
  destruct (Z.ltb_spec target 0); [lia|]. do 2 eexists. split; [done|]. split; [done|]. split; [done|].
  cbn [clientConnSlots]. split.
  - intros i. apply slot_conn_replace; [done|]. rewrite (si_channels s H _ _ Hc). lia.
  - intros Hid id. destruct (Z.eqb_spec (connectionId bind) 0); [done|].
    setoid_rewrite lookup_insert_eq. split.
    + intros (m & [= <-] & [[-> _]|(_ & ? & _)]%register_slot_lookup); done.
    + intros ->. eexists. split; [done|]. apply register_slot_lookup. by left.
Qed.

(** ** Building a channel from 32 initial connections *)

Lemma slot_conn_newChannel base fds b i fd :
  fds !! i = Some fd -> slot_conn (newChannel base fds ∅ b) i = Some (newTcpConnection fd).1.
Proof.
  intros Hi. pose proof (lookup_lt_Some _ _ _ Hi) as Hl. unfold slot_conn, newChannel.
  cbn [connections heap]. rewrite list_lookup_fmap, lookup_seq_lt by done. cbn.
  rewrite map_union_empty. apply elem_of_list_to_map_1.
  - rewrite fst_zip by (rewrite !length_fmap, length_seq; lia).
    apply NoDup_fmap_2; [intros x y E; lia | apply NoDup_seq].
  - apply list_elem_of_lookup_2 with (i := i). rewrite lookup_zip_with_Some.
    exists (base + i)%nat, (newTcpConnection fd).1. split; [done|].
    rewrite !list_lookup_fmap, lookup_seq_lt, Hi by done. done.
Qed.

(** The ids of distinct sockets go to their positions. *)
Lemma build_slot_map_lookup (pairs : list (SocketFd * Z)) i s2c m :
  NoDup pairs.*1 -> NoDup pairs.*2 -> (forall fd id, (fd, id) ∈ pairs -> s2c !! fd = Some id) ->
  (forall id, ~ (id ∈ pairs.*2) -> (build_slot_map i pairs.*1 s2c m).2 !! id = m !! id)
  /\ (forall j fd id, pairs !! j = Some (fd, id) ->
        (build_slot_map i pairs.*1 s2c m).2 !! id = Some (i + Z.of_nat j)).
Proof.
  revert i s2c m. induction pairs as [|[fd id] pairs IH]; intros i s2c m Hf Hd Hs;
    [split; [done | intros j ? ? E; by rewrite lookup_nil in E]|].
  rewrite fmap_cons in Hf, Hd. apply NoDup_cons in Hf as [Hf1 Hf2]. apply NoDup_cons in Hd as [Hd1 Hd2].
  cbn [fst snd] in Hf1, Hd1.
  change (((fd, id) :: pairs).*1) with (fd :: pairs.*1).
  change (((fd, id) :: pairs).*2) with (id :: pairs.*2).
  cbn [build_slot_map]. rewrite (Hs fd id) by (by left).
  destruct (IH (i + 1) (delete fd s2c) (<[id := i]> m) Hf2 Hd2) as [Hout Hin].
  { intros fd' id' Hin. rewrite lookup_delete_ne.
    - apply Hs. by right.
    - intros <-. apply Hf1. apply list_elem_of_fmap. by exists (fd, id'). }
  split.
  - intros k Hk. rewrite elem_of_cons in Hk. rewrite Hout by tauto.
    apply lookup_insert_ne. intros <-. tauto.
  - intros [|j] fd' id' Hj.
    + injection Hj as <- <-. rewrite Hout by done. rewrite lookup_insert_eq. f_equal. lia.
    + cbn in Hj. rewrite (Hin _ _ _ Hj). f_equal. lia.
Qed.

(** The server has accepted the sockets [pairs] (with their ids) of a client
    that has no channel yet. *)
Record accumulating (client : Z) (pairs : list (SocketFd * Z)) (s : Server) : Prop := {
  ac_vc : vcs s !! client = None;
  ac_slots : clientConnSlots s !! client = None;
  ac_peer : match peers s !! client with
            | None => pairs = []
            | Some p => sockets p = pairs.*1
            end;
  ac_ids : forall fd id, (fd, id) ∈ pairs -> socketToConnId s !! fd = Some id;
}.

Lemma accumulate_adds fd bind pairs s :
  accumulating (clientId bind) pairs s -> connectionId bind <> 0 ->
  (length pairs < VC_TCP_CONNECTIONS)%nat -> ~ (fd ∈ pairs.*1) ->
  exists s1 peer, accumulate fd bind s = (s1, Some peer, [])
    /\ sockets peer = (pairs ++ [(fd, connectionId bind)]).*1
    /\ accumulating (clientId bind) (pairs ++ [(fd, connectionId bind)]) s1.
Proof.
  intros [Hv Hs Hp Hi] Hid Hl Hfd. unfold accumulate, PeerManager.GetPeerById.
  destruct (Z.eqb_spec (connectionId bind) 0); [done|].
  assert (Hex : VcManager.Exists (clientId bind) (vcs s) = false).
  { unfold VcManager.Exists. rewrite Hv. apply bool_decide_eq_false. by intros [? ?]. }
  rewrite Hex. pose proof (PeerManager.AddPeer_lookup (clientId bind) false (peers s)) as E.
  assert (Ec : (PeerManager.AddPeer (clientId bind) false (peers s)).2 = [])
    by (unfold PeerManager.AddPeer; by destruct (peers s !! clientId bind)).
  destruct (PeerManager.AddPeer _ _ _) as [ps flushed]. cbn [fst snd] in E, Ec. subst flushed. rewrite E.
  set (p := match _ with None => _ | Some _ => _ end).
  assert (Ep : sockets p = pairs.*1).
  { unfold p. destruct (peers s !! clientId bind); [done|]. by rewrite Hp. }
  unfold AddSocket. rewrite Ep, length_fmap.
  destruct (Nat.leb_spec VC_TCP_CONNECTIONS (length pairs)); [lia|].
  do 2 eexists. split; [done|]. split; [cbn [sockets]; by rewrite fmap_app|].
  split; cbn [vcs clientConnSlots peers socketToConnId]; [done..| |].
  - rewrite lookup_insert_eq. cbn [sockets]. by rewrite fmap_app.
  - intros fd' id' [Hin|Hin]%elem_of_app.
    + rewrite lookup_insert_ne; [by apply Hi|]. intros <-. apply Hfd, list_elem_of_fmap. by exists (fd, id').
    + apply list_elem_of_singleton in Hin. injection Hin as -> ->. by rewrite lookup_insert_eq.
Qed.

Lemma handle_bind_fresh io bind s :
  vcs s !! clientId bind = None -> handle_bind io bind s = accept_new io bind s.
Proof. intros Hv. unfold handle_bind, VcManager.Get. by rewrite Hv. Qed.

(** The accept events of a client's initial connections. *)
Definition initial_connects (client : Z) (ios : list accept_io) (pairs : list (SocketFd * Z)) : Prop :=
  Forall2 (fun io p => io_fd io = p.1 /\ 0 <= p.1 /\ is_u32 p.2 /\ p.2 <> 0
                       /\ delivers io (mkMsgBind client (-1) p.2)) ios pairs.

Lemma accept_one_initial client io p s :
  is_u32 client -> vcs s !! client = None ->
  io_fd io = p.1 /\ 0 <= p.1 /\ is_u32 p.2 /\ p.2 <> 0 /\ delivers io (mkMsgBind client (-1) p.2) ->
  accept_one io s = Some (accept_new io (mkMsgBind client (-1) p.2) s).
Proof.
  intros Hc Hv (E & Hf & Hi & _ & Hd). unfold accept_one. destruct (Z.ltb_spec (io_fd io) 0); [lia|].
  rewrite (read_bind_delivers _ (mkMsgBind client (-1) p.2)) by (done || (split_and!; done)).
  f_equal. by apply handle_bind_fresh.
Qed.

Lemma accept_accumulates client ios pairs acc s :
  is_u32 client -> initial_connects client ios pairs -> accumulating client acc s ->
  (length acc + length pairs < VC_TCP_CONNECTIONS)%nat -> NoDup (acc ++ pairs).*1 ->
  exists s', AcceptConnections ios s = Some (s', [], LoopContinue) /\ accumulating client (acc ++ pairs) s'.
Proof.
  intros Hc Hios. revert acc s. induction Hios as [|io p ios pairs Hp _ IH]; intros acc s Ha Hl Hn.
  { exists s. by rewrite app_nil_r. }
  cbn [AcceptConnections]. rewrite (accept_one_initial client io p s Hc (ac_vc _ _ _ Ha) Hp).
  destruct Hp as (E & Hf & Hi & Hz & Hd).
  destruct (accumulate_adds (io_fd io) (mkMsgBind client (-1) p.2) acc s) as (s1 & peer & Eacc & Es & Ha1);
    [done | done | lia | |].
  { rewrite fmap_app, fmap_cons in Hn. apply NoDup_app in Hn as (_ & Hn & _). intros Hin.
    rewrite E in Hin. apply (Hn _ Hin). by left. }
  unfold accept_new. rewrite Eacc. unfold GetSocketCount. rewrite Es, length_fmap, length_app.
  cbn [length connectionId clientId] in *.
  destruct (Nat.leb_spec VC_TCP_CONNECTIONS (length acc + 1)); [lia|].
  rewrite E, <- surjective_pairing in Ha1.
  destruct (IH (acc ++ [p]) s1 Ha1) as (s' & -> & Ha'); [rewrite length_app; cbn; lia | by rewrite <- app_assoc |].
  exists s'. rewrite <- app_assoc in Ha'. done.
Qed.

Lemma AcceptConnections_snoc ios io s s1 r :
  AcceptConnections ios s = Some (s1, [], LoopContinue) -> accept_one io s1 = Some r ->
  AcceptConnections (ios ++ [io]) s = Some r.
Proof.
  revert s. induction ios as [|io0 ios IH]; intros s H Hr.
  - injection H as ->. cbn. rewrite Hr. destruct r as [[s2 cl] []]; [by rewrite app_nil_r | done].
  - cbn [AcceptConnections app] in *. destruct (accept_one io0 s) as [[[s2 cl] ctl]|]; [|done].
    destruct ctl; [|congruence].
    destruct (AcceptConnections ios s2) as [[[s3 cl3] ctl3]|] eqn:E; [|done].
    injection H as -> Hnil ->. apply app_eq_nil in Hnil as [-> ->].
    rewrite (IH s2 E Hr). destruct r as [[? ?] ?]. done.
Qed.

Lemma AcceptConnections_app ios1 ios2 s :
  AcceptConnections (ios1 ++ ios2) s
  = match AcceptConnections ios1 s with
    | Some (s1, closed1, LoopContinue) =>
        match AcceptConnections ios2 s1 with
        | Some (s2, closed2, ctl) => Some (s2, closed1 ++ closed2, ctl)
        | None => None
        end
    | r => r
    end.
Proof.
  revert s. induction ios1 as [|io ios IH]; intros s.
  - cbn. by destruct (AcceptConnections ios2 s) as [[[? ?] ?]|].
  - cbn [AcceptConnections app]. destruct (accept_one io s) as [[[s1 cl] []]|]; [|done|done].
    rewrite IH. destruct (AcceptConnections ios s1) as [[[s2 cl2] []]|]; [|done|done].
    destruct (AcceptConnections ios2 s2) as [[[s3 cl3] ctl]|]; [by rewrite app_assoc | done].
Qed.

(** What a registered channel and its slot map are once built from [pairs]. *)
Definition built_from (client : Z) (pairs : list (SocketFd * Z)) (s : Server) : Prop :=
  exists vc c m, vcs s !! client = Some vc /\ channels s !! vc = Some c /\ opened c = true
    /\ clientConnSlots s !! client = Some m
    /\ (exists p, peers s !! client = Some p /\ sockets p = pairs.*1)
    /\ (forall id, ~ (id ∈ pairs.*2) -> m !! id = None)
    /\ forall i fd id, pairs !! i = Some (fd, id) ->
         slot_conn c i = Some (newTcpConnection fd).1 /\ m !! id = Some (Z.of_nat i).

Lemma build_channel_built io client peer pairs s :
  accumulating client pairs s -> sockets peer = pairs.*1 -> NoDup pairs.*1 -> NoDup pairs.*2 ->
  io_udp io <> -1 -> io_udp_bound io = true ->
  exists s', build_channel io client peer s = (s', [], LoopContinue) /\ built_from client pairs s'.
Proof.
  intros [Hv Hsl Hp Hi] Ep Hf Hd Hu Hb. unfold build_channel, GetSockets. rewrite Ep, Hsl, Hb. cbn [default].
  destruct (build_slot_map_lookup pairs 0 (socketToConnId s) ∅ Hf Hd Hi) as [Hout Hm].
  destruct (build_slot_map _ _ _ _) as [s2c slotMap]. cbn [snd] in Hm, Hout.
  destruct (Z.eqb_spec (io_udp io) (-1)); [done|]. cbn [negb].
  eexists. split; [done|].
  exists (io_vc io), (open (setDisconnectCallback (newChannel 0 pairs.*1 ∅ false))), slotMap.
  cbn [vcs channels clientConnSlots]. unfold VcManager.Add. rewrite !lookup_insert_eq.
  split_and!; [done..| | |].
  { eexists. cbn [peers]. rewrite lookup_insert_eq. split; [done|]. exact Ep. }
  { intros id Hid. rewrite Hout by done. apply lookup_empty. }
  intros i fd id Hl. split; [|by apply Hm in Hl].
  change (slot_conn (newChannel 0 pairs.*1 ∅ false) i = Some (newTcpConnection fd).1).
  apply slot_conn_newChannel. by rewrite list_lookup_fmap, Hl.
Qed.

Lemma initial_connects_build (client : Z) (ios : list accept_io) (pairs : list (SocketFd * Z))
  (s : Server) :
  is_u32 client -> initial_connects client ios pairs -> length pairs = VC_TCP_CONNECTIONS ->
  NoDup pairs.*1 -> NoDup pairs.*2 -> accumulating client [] s ->
  Forall (fun io => io_udp io <> -1 /\ io_udp_bound io = true) ios ->
  exists s', AcceptConnections ios s = Some (s', [], LoopContinue) /\ built_from client pairs s'.
Proof.
  intros Hc Hios Hl Hf Hd Ha Hu.
  destruct pairs as [|p pairs _] using rev_ind; [done|].
  apply Forall2_app_inv_r in Hios as (ios1 & ios2 & Hios & Hlast & ->).
  apply Forall2_cons_inv_r in Hlast as (io & ios3 & Hp & Hnil & ->).
  apply Forall2_nil_inv_r in Hnil as ->.
  rewrite length_app in Hl. cbn [length] in Hl.
  assert (Hf' := Hf). rewrite fmap_app in Hf'. apply NoDup_app in Hf' as (Hf1 & Hf2 & _).
  destruct (accept_accumulates client ios1 pairs [] s Hc Hios Ha) as (s1 & E1 & Ha1);
    [cbn [length]; lia | done |]. cbn [app] in Ha1.
  assert (E2 := accept_one_initial client io p s1 Hc (ac_vc _ _ _ Ha1) Hp).
  destruct Hp as (Efd & Hpos & Hi & Hz & _).
  destruct (accumulate_adds (io_fd io) (mkMsgBind client (-1) p.2) pairs s1) as (s2 & peer & Eacc & Es & Ha2);
    [done | done | lia | |].
  { rewrite Efd. intros Hin. apply (Hf2 _ Hin). by left. }
  cbn [connectionId clientId] in *. rewrite Efd, <- surjective_pairing in Es, Ha2.
  apply Forall_app in Hu as [_ Hu]. apply Forall_cons in Hu as [[Hu1 Hu2] _].
  destruct (build_channel_built io client peer (pairs ++ [p]) s2) as (s' & Eb & Hbuilt); [done..|].
  exists s'. split; [|done]. apply (AcceptConnections_snoc _ _ _ s1); [done|]. rewrite E2.
  unfold accept_new. rewrite Eacc. cbn [clientId]. rewrite Eb. unfold GetSocketCount.
  rewrite Es, length_fmap, length_app. cbn [length].
  destruct (Nat.leb_spec VC_TCP_CONNECTIONS (length pairs + 1)); [done | lia].
Qed.

(** C9. A client's 32 initial connections make its channel: whichever way TCP
    splits the bind messages, after the 32nd the channel is registered and open,
    the server has closed nothing, slot [i] holds the [i]-th accepted socket and
    the id sent on it is registered for slot [i] -- the slot the client gives
    that id. *)
Theorem initial_connects_build_channel (client : Z) (ios : list accept_io) (pairs : list (SocketFd * Z))
  (s : Server) :
  is_u32 client -> initial_connects client ios pairs -> length pairs = VC_TCP_CONNECTIONS ->
  NoDup pairs.*1 -> NoDup pairs.*2 -> accumulating client [] s ->
  Forall (fun io => io_udp io <> -1 /\ io_udp_bound io = true) ios ->
  exists s', AcceptConnections ios s = Some (s', [], LoopContinue) /\ built_from client pairs s'.
Proof. apply initial_connects_build. Qed.

(** ** A client that comes back while its channel is registered *)

Lemma slot_conn_of_fds fds i :
  i < Z.of_nat (length fds) -> 0 <= i ->
  exists fd, fds !! Z.to_nat i = Some fd
    /\ slot_conn (newChannel 0 fds ∅ false) (Z.to_nat i) = Some (newTcpConnection fd).1.
Proof.
  intros Hi H0. destruct (lookup_lt_is_Some_2 fds (Z.to_nat i)) as [fd Hfd]; [lia|].
  exists fd. split; [done|]. by apply slot_conn_newChannel.
Qed.

(** What is disconnected stays so, and every listed connection becomes so. *)
Lemma disconnect_all_dead slots h a t :
  disconnect_all slots h !! a = Some t ->
  Some a ∈ slots \/ (exists t0, h !! a = Some t0 /\ TcpConnection.connected t0 = false) ->
  TcpConnection.connected t = false.
Proof.
  assert (Hd : forall x, TcpConnection.connected (disconnect x).1 = false).
  { intros x. unfold disconnect. destruct (TcpConnection.connected x) eqn:E; [done | exact E]. }
  revert h. induction slots as [|s slots IH]; intros h E Hin.
  - destruct Hin as [Hin|(t0 & E0 & H0)]; [by apply not_elem_of_nil in Hin|].
    cbn in E. congruence.
  - destruct s as [b|]; cbn [disconnect_all] in E; apply (IH _ E).
    + destruct (decide (a = b)) as [->|Hne].
      * right. destruct (h !! b) as [t0|] eqn:E0.
        { exists (disconnect t0).1. split; [by rewrite lookup_alter_eq, E0 | apply Hd]. }
        destruct Hin as [_|(t0 & ? & _)]; [|congruence].
        assert (Hn : forall slots h, h !! b = None -> disconnect_all slots h !! b = None).
        { clear. intros slots. induction slots as [|[x|] slots IH]; intros h Hh; cbn; [done | | by apply IH].
          apply IH. rewrite lookup_alter_None. done. }
        rewrite Hn in E; [done|]. by rewrite lookup_alter_None.
      * destruct Hin as [[Eq|Hin]%elem_of_cons|(t0 & E0 & H0)]; [congruence | by left|].
        right. exists t0. by rewrite lookup_alter_ne.
    + destruct Hin as [[Eq|Hin]%elem_of_cons|Hin]; [done | by left | by right].
Qed.

Lemma close_disconnects c i t :
  opened c = true -> slot_conn (close c) i = Some t -> TcpConnection.connected t = false.
Proof.
  intros Ho. unfold slot_conn, close. rewrite Ho. cbn [connections heap set_heap set_run].
  destruct (connections c !! i) as [[a|]|] eqn:E; [|done|done]. cbn. intros Ht.
  apply (disconnect_all_dead _ _ _ _ Ht). left. by apply list_elem_of_lookup_2 in E.
Qed.

(** C40. A client that starts over while the server still has its channel is
    not let in: close() does not run the disconnect callback, so the peer still
    holds the 32 old descriptors; the client's fresh socket is closed as excess,
    and the channel registered and opened in its place is made of the old
    descriptors, which the old channel has closed. *)
Theorem restart_rebuilds_from_old_sockets (client id : Z) (pairs : list (SocketFd * Z)) (io : accept_io)
  (s : Server) :
  is_u32 client -> is_u32 id -> 0 <= io_fd io -> delivers io (mkMsgBind client (-1) id) ->
  built_from client pairs s -> length pairs = VC_TCP_CONNECTIONS ->
  io_udp io <> -1 -> io_udp_bound io = true -> channels s !! io_vc io = None ->
  exists s' vc c c', accept_one io s = Some (s', [io_fd io], LoopContinue)
    /\ vcs s !! client = Some vc /\ channels s !! vc = Some c
    /\ channels s' !! vc = Some (close c)
    /\ (forall i t, slot_conn (close c) i = Some t -> TcpConnection.connected t = false)
    /\ vcs s' !! client = Some (io_vc io) /\ channels s' !! io_vc io = Some c' /\ opened c' = true
    /\ forall i fd, pairs.*1 !! i = Some fd -> slot_conn c' i = Some (newTcpConnection fd).1.
Proof.
  intros Hc Hid Hfd Hd (vc & c & m & Hv & Hch & Ho & Hm & (p & Hp & Ep) & _ & _) Hl Hu Hb Hfresh.
  assert (Hne : io_vc io <> vc) by congruence.
  unfold accept_one. destruct (Z.ltb_spec (io_fd io) 0); [lia|].
  rewrite (read_bind_delivers _ (mkMsgBind client (-1) id)) by (done || (split_and!; done)).
  unfold handle_bind, VcManager.Get. cbn [clientId slotIndex]. rewrite Hv. cbn [mbind option_bind].
  rewrite Hch. cbn [mbind option_bind]. change (-1 <? 0) with true. cbv iota.
  set (s1 := tear_down_stale client vc c s).
  assert (Hv1 : vcs s1 !! client = None).
  { unfold s1, tear_down_stale. cbn [vcs]. unfold VcManager.Exists, VcManager.Remove. rewrite Hv.
    rewrite bool_decide_eq_true_2 by done. apply lookup_delete_eq. }
  assert (Hex : VcManager.Exists client (vcs s1) = false)
    by (unfold VcManager.Exists; rewrite Hv1; apply bool_decide_eq_false; by intros [? ?]).
  unfold accept_new, accumulate, PeerManager.AddPeer, PeerManager.GetPeerById. cbn [clientId connectionId].
  change (peers s1) with (peers s). rewrite Hex, Hp, Hp. unfold AddSocket. rewrite Ep, length_fmap, Hl.
  cbn [Nat.leb VC_TCP_CONNECTIONS]. cbv iota. unfold GetSocketCount. rewrite Ep, length_fmap, Hl. cbv iota.
  unfold build_channel, GetSockets. rewrite Ep.
  destruct (build_slot_map _ _ _ _) as [s2c slotMap].
  destruct (Z.eqb_spec (io_udp io) (-1)); [done|]. rewrite Hb. cbn [negb].
  do 4 eexists. split; [done|]. split; [done|]. split; [done|].
  cbn [vcs channels s1 tear_down_stale]. unfold VcManager.Add. rewrite !lookup_insert_eq.
  rewrite lookup_insert_ne, lookup_insert_eq by done. split; [done|].
  split; [intros i t; by apply close_disconnects|].
  split_and!; [done..|]. intros i fd Hi. by apply (slot_conn_newChannel 0 pairs.*1 false).
Qed.

(** A peer that sends only its client id and closes is not refused: the
    missing bytes read as zero, and the message is taken for the reconnection of
    slot 0. *)
Theorem truncated_bind_names_slot_zero (client : Z) :
  is_u32 client ->
  read_bind [RecvOk (le_split 4 client); RecvOk []] = Some (Some (mkMsgBind client 0 0)).
Proof.
  intros Hc.
  destruct (msg_bind_encoded [Byte.x00; Byte.x00; Byte.x00] [] (mkMsgBind client 0 0)) as [_ He];
    [split_and!; done | done |]. rewrite app_nil_r in He.
  assert (E4 : length (le_split 4 client) = 4%nat) by apply length_le_split.
  assert (E : RecvTcpDataWithSize [RecvOk (le_split 4 client); RecvOk []] sizeof_MsgBind
              = Some (4, le_split 4 client)).
  { unfold RecvTcpDataWithSize. destruct (le_split 4 client) as [|b l]; [done|].
    cbn [RecvTcpDataWithSize_loop app]. by rewrite E4. }
  unfold read_bind. rewrite E, E4. rewrite <- He. done.
Qed.

(** ** The theorems at work: one client's 32 connections *)

Definition ex_pairs : list (SocketFd * Z) := (fun i => (10 + i, 1 + i)) <$> seqZ 0 32.

(** Each bind message arrives in two pieces. *)
Definition ex_io (p : SocketFd * Z) : accept_io :=
  let bytes := AppendMsgBind [Byte.x00; Byte.x00; Byte.x00] (mkMsgBind 7 (-1) p.2) [] in
  mkAcceptIo p.1 [RecvOk (take 5 bytes); RecvOk (drop 5 bytes)] 900 true 5001 0 100.

Lemma ex_io_delivers p : delivers (ex_io p) (mkMsgBind 7 (-1) p.2).
Proof.
  set (bytes := AppendMsgBind [Byte.x00; Byte.x00; Byte.x00] (mkMsgBind 7 (-1) p.2) []).
  exists [Byte.x00; Byte.x00; Byte.x00], [take 5 bytes; drop 5 bytes].
  split_and!; [done | by repeat constructor | | done].
  cbn [concat]. by rewrite app_nil_r, take_drop.
Qed.

Lemma ex_initial_connects pairs :
  Forall (fun p => 0 <= p.1 /\ is_u32 p.2 /\ p.2 <> 0) pairs ->
  initial_connects 7 (ex_io <$> pairs) pairs.
Proof.
  induction 1 as [|p pairs (H1 & H2 & H3) _ IH]; [constructor|].
  constructor; [|done]. split_and!; [done..|]. apply ex_io_delivers.
Qed.

Definition ex_pairs_ok (p : SocketFd * Z) : bool := (0 <=? p.1) && (0 <? p.2) && (p.2 <? 2 ^ 32).

Lemma ex_pairs_valid : Forall (fun p => 0 <= p.1 /\ is_u32 p.2 /\ p.2 <> 0) ex_pairs.
Proof.
  apply (Forall_impl (fun p => ex_pairs_ok p = true)); [by repeat constructor|].
  intros p Hp. unfold ex_pairs_ok, is_u32 in *. lia.
Qed.

Lemma initial_connects_build_channel_witness :
  exists s', AcceptConnections (ex_io <$> ex_pairs) newServer = Some (s', [], LoopContinue)
    /\ built_from 7 ex_pairs s'.
Proof.
  apply (initial_connects_build_channel 7 (ex_io <$> ex_pairs) ex_pairs newServer).
  - split; cbn; lia.
  - apply ex_initial_connects, ex_pairs_valid.
  - reflexivity.
  - apply (bool_decide_unpack _). vm_compute. exact I.
  - apply (bool_decide_unpack _). vm_compute. exact I.
  - constructor; try reflexivity. intros fd id []%not_elem_of_nil.
  - apply Forall_fmap, Forall_true. intros p. split; [discriminate | reflexivity].
Defined.

(** The server after those connections. *)
Definition ex_server : Server :=
  match AcceptConnections (ex_io <$> ex_pairs) newServer with
  | Some (s, _, _) => s
  | None => newServer
  end.

Lemma ex_server_built : built_from 7 ex_pairs ex_server.
Proof.
  destruct (initial_connects_build 7 (ex_io <$> ex_pairs) ex_pairs newServer) as (s & E & H).
  - split; cbn; lia.
  - apply ex_initial_connects, ex_pairs_valid.
  - reflexivity.
  - apply (bool_decide_unpack _). vm_compute. exact I.
  - apply (bool_decide_unpack _). vm_compute. exact I.
  - constructor; try reflexivity. intros fd id []%not_elem_of_nil.
  - apply Forall_fmap, Forall_true. intros p. split; [discriminate | reflexivity].
  - unfold ex_server. by rewrite E.
Qed.

Lemma AcceptConnections_inv ios s r : server_inv s -> AcceptConnections ios s = Some r -> server_inv r.1.1.
Proof.
  revert s r. induction ios as [|io ios IH]; intros s r H E; [injection E as <-; done|].
  cbn [AcceptConnections] in E. pose proof (run_server_op_inv s (SAccept io) H) as H1. cbn [run_server_op] in H1.
  destruct (accept_one io s) as [[[s1 cl] []]|]; [| injection E as <-; done | done].
  destruct (AcceptConnections ios s1) as [[[s2 cl2] ctl]|] eqn:E2; [|done].
  injection E as <-. by apply (IH _ _ H1 E2).
Qed.

Lemma ex_server_inv : server_inv ex_server.
Proof.
  unfold ex_server. destruct (AcceptConnections _ _) as [[[s cl] ctl]|] eqn:E; [|apply newServer_inv].
  apply (AcceptConnections_inv _ _ _ newServer_inv E).
Qed.

(** Reconnecting slot 5 with the id the server knows for it. *)
Definition ex_reconnect : accept_io :=
  mkAcceptIo 60 [RecvOk (AppendMsgBind [Byte.x00; Byte.x00; Byte.x00] (mkMsgBind 7 5 6) [])] (-1) false 0 1 100.

Lemma bind_hot_swaps_one_slot_witness :
  exists s' c', accept_one ex_reconnect ex_server = Some (s', [], LoopContinue)
    /\ channels s' !! 0%nat = Some c' /\ slot_conn c' 5 = Some (newTcpConnection 60).1.
Proof.
  destruct (channels ex_server !! 0%nat) as [c|] eqn:Ec; [|vm_compute in Ec; discriminate].
  destruct (bind_hot_swaps_one_slot ex_reconnect (mkMsgBind 7 5 6) 0 c ex_server) as (s' & c' & E & _ & Ech & Hs & _).
  - apply ex_server_inv.
  - discriminate.
  - split_and!; split; cbn; lia || done.
  - exists [Byte.x00; Byte.x00; Byte.x00], [AppendMsgBind [Byte.x00; Byte.x00; Byte.x00] (mkMsgBind 7 5 6) []].
    split_and!; [done | by repeat constructor | by cbn | done].
  - vm_compute. reflexivity.
  - exact Ec.
  - split; [discriminate | reflexivity].
  - vm_compute in Ec. injection Ec as <-. split; [reflexivity|]. intros j E.
    apply list_elem_of_lookup_2 in E. revert E. apply (bool_decide_unpack _). vm_compute. exact I.
  - exists s', c'. split; [exact E|]. rewrite Ech, lookup_insert_eq. split; [reflexivity|].
    rewrite Hs. vm_compute. reflexivity.
Defined.

(** The client starts over with a new socket. *)
Definition ex_restart : accept_io :=
  mkAcceptIo 70 [RecvOk (AppendMsgBind [Byte.x00; Byte.x00; Byte.x00] (mkMsgBind 7 (-1) 33) [])] 901 true 5001 1 200.

Lemma restart_rebuilds_from_old_sockets_witness :
  exists s', accept_one ex_restart ex_server = Some (s', [70], LoopContinue).
Proof.
  destruct (restart_rebuilds_from_old_sockets 7 33 ex_pairs ex_restart ex_server) as (s' & vc & c & c' & E & _).
  - split; cbn; lia.
  - split; cbn; lia.
  - discriminate.
  - exists [Byte.x00; Byte.x00; Byte.x00], [AppendMsgBind [Byte.x00; Byte.x00; Byte.x00] (mkMsgBind 7 (-1) 33) []].
    split_and!; [done | by repeat constructor | by cbn | done].
  - apply ex_server_built.
  - reflexivity.
  - discriminate.
  - reflexivity.
  - vm_compute. reflexivity.
  - exists s'. exact E.
Defined.

Lemma truncated_bind_names_slot_zero_witness :
  read_bind [RecvOk (le_split 4 7); RecvOk []] = Some (Some (mkMsgBind 7 0 0)).
Proof. apply (truncated_bind_names_slot_zero 7). split; cbn; lia. Defined.
