(* ===== verification/Client.v ===== *)
(** * The client (src/client/Client.h, Client.cpp)

    Establishing the channel, tearing it down, reconnecting it as a whole or
    slot by slot.  What the system and the configuration return is an
    argument; the results list the descriptors the client itself passes to
    SocketClose and the bind messages it sends, in order.  The watchdog thread
    object is its running flag and whether it is joinable; the channel is held
    by value, with its own connection objects. *)

From S2P Require Import Prelude Bytes VcProtocol Socket TcpConnection IoThread BlockingQueue SentCache.
From S2P Require Import Protocol Channel Peers Server.

Record Client : Type := mkClient {
  running : bool;
  tcpSockets : list SocketFd;
  tcpConnectionIds : list Z;
  nextConnectionId : Z;            (* uint32_t *)
  client_udpSocket : SocketFd;
  client_vc : option Channel;
  watchdogRunning : bool;
  watchdogJoinable : bool;
  reconnectEpoch : Z;
}.

Definition newClient : Client := mkClient false [] [] 1 (-1) None false false 0.

Definition set_bookkeeping (socks : list SocketFd) (ids : list Z) (next : Z) (c : Client) : Client :=
  mkClient (running c) socks ids next (client_udpSocket c) (client_vc c) (watchdogRunning c)
    (watchdogJoinable c) (reconnectEpoch c).

Definition set_vc (v : option Channel) (c : Client) : Client :=
  mkClient (running c) (tcpSockets c) (tcpConnectionIds c) (nextConnectionId c) (client_udpSocket c) v
    (watchdogRunning c) (watchdogJoinable c) (reconnectEpoch c).

Definition set_watchdog (run joinable : bool) (c : Client) : Client :=
  mkClient (running c) (tcpSockets c) (tcpConnectionIds c) (nextConnectionId c) (client_udpSocket c)
    (client_vc c) run joinable (reconnectEpoch c).

Definition set_running (b : bool) (c : Client) : Client :=
  mkClient b (tcpSockets c) (tcpConnectionIds c) (nextConnectionId c) (client_udpSocket c)
    (client_vc c) (watchdogRunning c) (watchdogJoinable c) (reconnectEpoch c).

Definition set_udp (fd : SocketFd) (c : Client) : Client :=
  mkClient (running c) (tcpSockets c) (tcpConnectionIds c) (nextConnectionId c) fd
    (client_vc c) (watchdogRunning c) (watchdogJoinable c) (reconnectEpoch c).

Definition bump_epoch (c : Client) : Client :=
  mkClient (running c) (tcpSockets c) (tcpConnectionIds c) (nextConnectionId c) (client_udpSocket c)
    (client_vc c) (watchdogRunning c) (watchdogJoinable c) (i32 (reconnectEpoch c + 1)).

(** The flag is cleared and the thread, if any, joined. *)
Definition StopWatchdog (c : Client) : Client := set_watchdog false false c.

(** [None]: the assertion against a thread still joinable. *)
Definition StartWatchdog (c : Client) : option Client :=
  if watchdogJoinable c then None else Some (set_watchdog true true c).

Definition TeardownVc (c : Client) : Client * list SocketFd :=
  let c1 := StopWatchdog c in
  let closed := match client_vc c1 with
                | Some _ => []
                | None => filter (fun fd => fd <> -1) (tcpSockets c1)
                end in
  (set_bookkeeping [] [] (nextConnectionId c1) (set_vc None c1), closed).

(** ** PrepareVC *)

(** SocketCreate, SocketConnect and the send of the bind message. *)
Record connect_io : Type := mkConnectIo { ci_socket : SocketFd; ci_connect : Z; ci_send : os_send }.

(** The loop from slot [i], [n] connections to go.  The flag is false when a
    step failed, after the teardown. *)
Fixpoint connect_loop (cid : Z) (io : nat -> connect_io) (n i : nat) (c : Client)
  : Client * list SocketFd * list (SocketFd * MsgBind) * bool :=
  match n with
  | O => (c, [], [], true)
  | S n =>
      let x := io i in
      let fd := ci_socket x in
      if fd =? -1 then let '(c', closed) := TeardownVc c in (c', closed, [], false)
      else if ci_connect x <? 0 then let '(c', closed) := TeardownVc c in (c', fd :: closed, [], false)
      else
        let connId := nextConnectionId c in
        let c1 := set_bookkeeping (tcpSockets c) (tcpConnectionIds c) (u32 (connId + 1)) c in
        let bind := mkMsgBind cid (-1) connId in
        if SendTcpData (ci_send x) <=? 0
        then let '(c', closed) := TeardownVc c1 in (c', fd :: closed, [], false)
        else
          let c2 := set_bookkeeping (tcpSockets c1 ++ [fd]) (tcpConnectionIds c1 ++ [connId])
                      (nextConnectionId c1) c1 in
          let '(c', closed, sent, ok) := connect_loop cid io n (i + 1) c2 in
          (c', closed, (fd, bind) :: sent, ok)
  end.

(** [None] is the failed assertion of StartWatchdog. *)
Definition PrepareVC (cid : Z) (io : nat -> connect_io) (c : Client)
  : option (Client * list SocketFd * list (SocketFd * MsgBind) * bool) :=
  let '(c0, closed0) := TeardownVc c in
  let '(c1, closed1, sent, ok) := connect_loop cid io VC_TCP_CONNECTIONS 0 c0 in
  if negb ok then Some (c1, closed0 ++ closed1, sent, false)
  else
    let newVc := setDisconnectCallback (newChannel 0 (tcpSockets c1) ∅ false) in
    match StartWatchdog (set_vc (Some (open newVc)) c1) with
    | None => None
    | Some c2 => Some (c2, closed0 ++ closed1, sent, true)
    end.

(** ** PrepareUdpSocket *)

(** The datagrams and errors recvfrom reports, and whether the client was still
    running before each; the loop forwards a datagram while a channel is open. *)
Fixpoint udp_receive_loop (rs : list os_recv) (c : Client) : Client :=
  match rs with
  | [] => c
  | r :: rs =>
      if negb (running c) then c
      else match r with
           | RecvErr _ => udp_receive_loop rs c        (* sleeps 10 s *)
           | RecvOk [] => c
           | RecvOk data =>
               match client_vc c with
               | Some v =>
                   if isOpen v then
                     match send (Some data) v with
                     | Some (v', _) => udp_receive_loop rs (set_vc (Some v') c)
                     | None => c
                     end
                   else udp_receive_loop rs c
               | None => udp_receive_loop rs c
               end
           end
  end.

Definition PrepareUdpSocket (udp : SocketFd) (bindResult : Z) (rs : list os_recv) (c : Client)
  : Client * list SocketFd * bool :=
  let c1 := set_udp udp c in
  if udp =? -1 then (c1, [], false)
  else if bindResult <? 0 then (c1, [udp], false)
  else (udp_receive_loop rs c1, [], true).

(** ** Start and Stop *)

Definition Stop (c : Client) : Client :=
  let c1 := StopWatchdog (set_running false c) in
  set_vc (close <$> client_vc c1) c1.

(** Start up to its main loop; the flag is whether it got there. *)
Definition Start (cid : Z) (io : nat -> connect_io) (udp : SocketFd) (bindResult : Z) (rs : list os_recv)
  (c : Client) : option (Client * list SocketFd * list (SocketFd * MsgBind) * bool) :=
  match PrepareVC cid io (set_running true c) with
  | None => None
  | Some (c1, closed1, sent, false) =>
      let '(c2, closed2) := TeardownVc c1 in Some (c2, closed1 ++ closed2, sent, false)
  | Some (c1, closed1, sent, true) =>
      let '(c2, closed2, ok) := PrepareUdpSocket udp bindResult rs c1 in
      if ok then Some (c2, closed1 ++ closed2, sent, true)
      else
        let '(c3, closed3) := TeardownVc c2 in
        let closed := closed1 ++ closed2 ++ closed3 in
        if negb (client_udpSocket c3 =? -1)
        then Some (set_udp (-1) c3, closed ++ [client_udpSocket c3], sent, false)
        else Some (c3, closed, sent, false)
  end.

(** ** Reconnecting the whole channel *)

(** One round of the loop: whether the client is still running after the wait
    check and after the attempt, and the attempt's system results. *)
Record attempt : Type := mkAttempt { at_wait : bool; at_io : nat -> connect_io; at_after : bool }.

Definition next_delay (initialBackoffMs retryCount : Z) : Z :=
  if retryCount =? 1 then initialBackoffMs else i32 (initialBackoffMs * Z.shiftl 1 (retryCount - 1)).

(** The retry loop: the waits made, in order, and the result. *)
Fixpoint reconnect_loop (cid : Z) (maxRetries initialBackoffMs retryCount delayMs : Z) (ats : list attempt)
  (c : Client) : option (Client * list Z * bool) :=
  if negb (running c && (retryCount <? maxRetries)) then Some (c, [], false)
  else match ats with
       | [] => None
       | a :: ats =>
           let c1 := set_bookkeeping [] [] (nextConnectionId c) (set_vc None c) in
           if negb (at_wait a) then Some (set_running false c1, [], false)
           else match PrepareVC cid (at_io a) c1 with
                | None => None
                | Some (c2, _, _, true) => Some (c2, [delayMs], true)
                | Some (c2, _, _, false) =>
                    if negb (at_after a) then Some (set_running false c2, [delayMs], false)
                    else
                      match reconnect_loop cid maxRetries initialBackoffMs (retryCount + 1)
                              (next_delay initialBackoffMs (retryCount + 1)) ats c2 with
                      | None => None
                      | Some (c3, waits, ok) => Some (c3, delayMs :: waits, ok)
                      end
                end
       end.

Definition ReconnectVC (cid maxRetries initialBackoffMs : Z) (ats : list attempt) (c : Client)
  : option (Client * list Z * bool) :=
  reconnect_loop cid maxRetries initialBackoffMs 0 3000 ats (StopWatchdog (bump_epoch c)).

(** ** Reconnecting one slot

    ReconnectSingleSlot runs in the watchdog thread beside the other threads;
    it reads the shared state at four points, and each stretch up to the next
    such point is one step.  [epoch] is epochAtStart. *)

Record slot_io : Type := mkSlotIo {
  si_socket : SocketFd;      (* SocketCreate *)
  si_connect : Z;            (* SocketConnectNonBlocking *)
  si_send : os_send;
  si_addr : nat;             (* address of the new connection object *)
}.

Inductive rs_state : Type :=
| RsStart
| RsConnect (epoch : Z) (fd : SocketFd)
| RsSend (epoch : Z) (fd : SocketFd) (oldConnId newConnId : Z)
| RsSwap (epoch : Z) (fd : SocketFd) (newConnId : Z)
| RsEnd (ok : bool).

Record rs_result : Type := mkRsResult {
  rs_client : Client;
  rs_next : rs_state;
  rs_closed : list SocketFd;
  rs_sent : list (SocketFd * MsgBind);
}.

(** Entry to SocketCreate. *)
Definition rs_start (io : slot_io) (c : Client) : rs_result :=
  if negb (watchdogRunning c) then mkRsResult c (RsEnd false) [] []
  else if si_socket io =? -1 then mkRsResult c (RsEnd false) [] []
  else mkRsResult c (RsConnect (reconnectEpoch c) (si_socket io)) [] [].

(** After the connect: the checks, and the two ids. *)
Definition rs_connected (slot : Z) (io : slot_io) (epoch : Z) (fd : SocketFd) (c : Client) : rs_result :=
  if si_connect io <? 0 then mkRsResult c (RsEnd false) [fd] []
  else if negb (watchdogRunning c) || negb (reconnectEpoch c =? epoch)
  then mkRsResult c (RsEnd false) [fd] []
  else
    let oldConnId := default 0 (tcpConnectionIds c !! Z.to_nat slot) in
    let newConnId := nextConnectionId c in
    mkRsResult (set_bookkeeping (tcpSockets c) (tcpConnectionIds c) (u32 (newConnId + 1)) c)
      (RsSend epoch fd oldConnId newConnId) [] [].

(** The check right before the send, and the send. *)
Definition rs_send_bind (cid slot : Z) (io : slot_io) (epoch : Z) (fd : SocketFd) (oldConnId newConnId : Z)
  (c : Client) : rs_result :=
  if negb (reconnectEpoch c =? epoch) then mkRsResult c (RsEnd false) [fd] []
  else if SendTcpData (si_send io) <=? 0 then mkRsResult c (RsEnd false) [fd] []
  else mkRsResult c (RsSwap epoch fd newConnId) [] [(fd, mkMsgBind cid (i8 slot) oldConnId)].

(** The swap under vcMutex. *)
Definition rs_swap (slot : Z) (io : slot_io) (epoch : Z) (fd : SocketFd) (newConnId : Z) (c : Client)
  : rs_result :=
  match client_vc c with
  | None => mkRsResult c (RsEnd false) [fd] []
  | Some v =>
      if negb (isOpen v) then mkRsResult c (RsEnd false) [fd] []
      else if negb (reconnectEpoch c =? epoch) then mkRsResult c (RsEnd false) [fd] []
      else
        mkRsResult
          (set_bookkeeping (<[Z.to_nat slot := fd]> (tcpSockets c))
             (<[Z.to_nat slot := newConnId]> (tcpConnectionIds c)) (nextConnectionId c)
             (set_vc (Some (replaceConnection slot fd (si_addr io) v).1) c))
          (RsEnd true) [] []
  end.

Definition rs_step (cid slot : Z) (io : slot_io) (st : rs_state) (c : Client) : rs_result :=
  match st with
  | RsStart => rs_start io c
  | RsConnect epoch fd => rs_connected slot io epoch fd c
  | RsSend epoch fd o n => rs_send_bind cid slot io epoch fd o n c
  | RsSwap epoch fd n => rs_swap slot io epoch fd n c
  | RsEnd ok => mkRsResult c (RsEnd ok) [] []
  end.

(** The function with [env k] done by the other threads before its [k]-th step. *)
Definition ReconnectSingleSlot (cid slot : Z) (io : slot_io) (env : nat -> Client -> Client) (c : Client)
  : rs_result :=
  let r1 := rs_step cid slot io RsStart (env 0%nat c) in
  let r2 := rs_step cid slot io (rs_next r1) (env 1%nat (rs_client r1)) in
  let r3 := rs_step cid slot io (rs_next r2) (env 2%nat (rs_client r2)) in
  let r4 := rs_step cid slot io (rs_next r3) (env 3%nat (rs_client r3)) in
  mkRsResult (rs_client r4) (rs_next r4)
    (rs_closed r1 ++ rs_closed r2 ++ rs_closed r3 ++ rs_closed r4)
    (rs_sent r1 ++ rs_sent r2 ++ rs_sent r3 ++ rs_sent r4).

(** ** The watchdog: one pass over the dead slots *)

(** The slots of one pass; [None] when there is no open channel. *)
Definition watchdog_slots (c : Client) : option (list Z) :=
  match client_vc c with
  | Some v => if isOpen v then Some (getDeadSlots v) else None
  | None => None
  end.

Fixpoint watchdog_pass (cid : Z) (slots : list Z) (io : Z -> slot_io) (c : Client)
  : Client * list SocketFd * list (SocketFd * MsgBind) :=
  match slots with
  | [] => (c, [], [])
  | slot :: slots =>
      if negb (watchdogRunning c) then (c, [], [])
      else
        let r := ReconnectSingleSlot cid slot (io slot) (fun _ c => c) c in
        let '(c', closed, sent) := watchdog_pass cid slots io (rs_client r) in
        (c', rs_closed r ++ closed, rs_sent r ++ sent)
  end.

(** ** PrepareVC *)

(** ** PrepareVC *)

(** The connection attempt succeeds. *)
Definition connect_ok (x : connect_io) : bool :=
  negb (ci_socket x =? -1) && (0 <=? ci_connect x) && (0 <? SendTcpData (ci_send x)).

(** [n] successive values of the counter. *)
Fixpoint fresh_ids (next : Z) (n : nat) : list Z :=
  match n with
  | O => []
  | S n => next :: fresh_ids (u32 (next + 1)) n
  end.

(** The counter after them. *)
Fixpoint ids_after (next : Z) (n : nat) : Z :=
  match n with
  | O => next
  | S n => ids_after (u32 (next + 1)) n
  end.

Lemma ids_after_small next n :
  0 <= next -> next + Z.of_nat n < 2 ^ 32 -> ids_after next n = next + Z.of_nat n.
Proof.
  revert next. induction n as [|n IH]; intros next H0 Hn; [cbn; lia|]. cbn [ids_after].
  rewrite u32_small by (unfold is_u32; lia). rewrite IH by lia. lia.
Qed.

Lemma length_fresh_ids next n : length (fresh_ids next n) = n.
Proof. revert next. induction n as [|n IH]; intros next; [done|]. cbn. by rewrite IH. Qed.

(** Below the wrap of the counter they are consecutive. *)
Lemma fresh_ids_seqZ next n :
  0 <= next -> next + Z.of_nat n <= 2 ^ 32 -> fresh_ids next n = seqZ next (Z.of_nat n).
Proof.
  revert next. induction n as [|n IH]; intros next H0 Hn; [done|].
  cbn [fresh_ids]. rewrite (seqZ_cons next) by lia. f_equal.
  destruct (decide (n = 0%nat)) as [->|]; [done|].
  rewrite u32_small by (unfold is_u32; lia). rewrite IH by lia. f_equal; lia.
Qed.

(** The sockets and the bind messages of connections [i .. i+n-1]. *)
Definition loop_sockets (io : nat -> connect_io) (i n : nat) : list SocketFd :=
  (fun k => ci_socket (io k)) <$> seq i n.

Definition initial_binds (cid : Z) (fds : list SocketFd) (ids : list Z) : list (SocketFd * MsgBind) :=
  zip_with (fun fd id => (fd, mkMsgBind cid (-1) id)) fds ids.

Lemma connect_loop_success cid io n i c :
  (forall k, (i <= k < i + n)%nat -> connect_ok (io k) = true) ->
    connect_loop cid io n i c
    = (set_bookkeeping (tcpSockets c ++ loop_sockets io i n)
         (tcpConnectionIds c ++ fresh_ids (nextConnectionId c) n) (ids_after (nextConnectionId c) n) c,
       [], initial_binds cid (loop_sockets io i n) (fresh_ids (nextConnectionId c) n), true).
Proof.
  revert i c. induction n as [|n IH]; intros i c Hok.
  - cbn. rewrite !app_nil_r. by destruct c.
  - pose proof (Hok i ltac:(lia)) as Hi. unfold connect_ok in Hi.
    apply andb_true_iff in Hi as [[H1 H2]%andb_true_iff H3]. cbn [connect_loop].
    destruct (Z.eqb_spec (ci_socket (io i)) (-1)); [done|].
    destruct (Z.ltb_spec (ci_connect (io i)) 0); [lia|].
    destruct (Z.leb_spec (SendTcpData (ci_send (io i))) 0); [lia|].
    match goal with |- context [connect_loop cid io n (i + 1) ?c2] => pose proof (IH (i + 1)%nat c2) as E end.
    rewrite E by (intros k Hk; apply Hok; lia). unfold set_bookkeeping. cbn [tcpSockets tcpConnectionIds nextConnectionId running
      client_udpSocket client_vc watchdogRunning watchdogJoinable reconnectEpoch]. unfold loop_sockets. rewrite Nat.add_1_r. cbn [seq fmap list_fmap fresh_ids].
    rewrite <- !app_assoc. done.
Qed.

(** The first failing step ends the loop with everything of it closed. *)
Definition no_channel (c : Client) : Prop :=
  client_vc c = None /\ tcpSockets c = [] /\ tcpConnectionIds c = []
  /\ watchdogRunning c = false /\ watchdogJoinable c = false.

Lemma TeardownVc_no_channel c : no_channel (TeardownVc c).1.
Proof. by repeat split. Qed.

Lemma connect_loop_failure cid io n i j c :
  client_vc c = None -> Forall (fun fd => fd <> -1) (tcpSockets c) ->
  (j < n)%nat -> connect_ok (io (i + j)%nat) = false ->
  (forall k, (i <= k < i + j)%nat -> connect_ok (io k) = true) ->
  exists c' sent,
    connect_loop cid io n i c
    = (c', (if ci_socket (io (i + j)%nat) =? -1 then [] else [ci_socket (io (i + j)%nat)])
             ++ tcpSockets c ++ loop_sockets io i j, sent, false)
    /\ no_channel c'.
Proof.
  revert i j c. induction n as [|n IH]; intros i j c Hv Hs Hj Hbad Hok; [lia|].
  cbn [connect_loop]. destruct j as [|j].
  - rewrite Nat.add_0_r in Hbad |- *. unfold connect_ok in Hbad. unfold loop_sockets. cbn [seq fmap list_fmap].
    rewrite app_nil_r. unfold TeardownVc, StopWatchdog, set_watchdog.
    cbn [client_vc tcpSockets nextConnectionId set_bookkeeping]. rewrite Hv, (list_filter_all _ _ Hs).
    destruct (Z.eqb_spec (ci_socket (io i)) (-1)) as [|]; [by do 2 eexists|].
    destruct (Z.ltb_spec (ci_connect (io i)) 0); [by do 2 eexists|].
    destruct (Z.leb_spec (SendTcpData (ci_send (io i))) 0); [by do 2 eexists|].
    destruct (Z.leb_spec 0 (ci_connect (io i))), (Z.ltb_spec 0 (SendTcpData (ci_send (io i)))); done || lia.
  - pose proof (Hok i ltac:(lia)) as Hi. unfold connect_ok in Hi.
    apply andb_true_iff in Hi as [[H1 H2]%andb_true_iff H3].
    destruct (Z.eqb_spec (ci_socket (io i)) (-1)) as [|Hne]; [done|].
    destruct (Z.ltb_spec (ci_connect (io i)) 0); [lia|].
    destruct (Z.leb_spec (SendTcpData (ci_send (io i))) 0); [lia|].
    match goal with |- context [connect_loop cid io n (i + 1) ?c2] =>
      destruct (IH (i + 1)%nat j c2) as (c' & sent & E & Hc') end;
      [done | apply Forall_app; by repeat constructor | lia | by replace (i + 1 + j)%nat with (i + S j)%nat by lia
       | intros k Hk; apply Hok; lia |].
    rewrite E. cbn [set_bookkeeping tcpSockets].
    replace (i + 1 + j)%nat with (i + S j)%nat by lia.
    do 2 eexists. split; [|exact Hc']. unfold loop_sockets. rewrite Nat.add_1_r. cbn [seq fmap list_fmap].
    by rewrite <- app_assoc.
Qed.

Lemma PrepareVC_success cid io c :
  (forall k, (k < VC_TCP_CONNECTIONS)%nat -> connect_ok (io k) = true) ->
  let fds := loop_sockets io 0 VC_TCP_CONNECTIONS in
  let ids := fresh_ids (nextConnectionId c) VC_TCP_CONNECTIONS in
  exists c' v, PrepareVC cid io c = Some (c', (TeardownVc c).2, initial_binds cid fds ids, true)
    /\ client_vc c' = Some v /\ opened v = true
    /\ (forall i fd, fds !! i = Some fd -> slot_conn v i = Some (newTcpConnection fd).1)
    /\ tcpSockets c' = fds /\ tcpConnectionIds c' = ids
    /\ watchdogRunning c' = true /\ watchdogJoinable c' = true
    /\ nextConnectionId c' = ids_after (nextConnectionId c) VC_TCP_CONNECTIONS.
Proof.
  intros Hok fds ids. unfold PrepareVC.
  pose proof (TeardownVc_no_channel c) as (Hv & Hs & Hi & Hw & Hj).
  assert (Hn : nextConnectionId (TeardownVc c).1 = nextConnectionId c) by done.
  destruct (TeardownVc c) as [c0 closed0]. cbn [fst snd] in *.
  rewrite (connect_loop_success cid io VC_TCP_CONNECTIONS 0 c0) by (intros k Hk; apply Hok; lia).
  rewrite Hs, Hi, Hn. cbn [negb app]. unfold StartWatchdog. cbn [set_vc set_bookkeeping watchdogJoinable].
  rewrite Hj, app_nil_r. do 2 eexists. split; [done|]. split; [done|]. split; [done|]. split; [|done].
  intros i fd Hfd. by apply (slot_conn_newChannel 0 fds false).
Qed.

(** C20. PrepareVC is all or nothing, whatever the client's state before it, and
    it never starts a second watchdog over a joinable one.  If the 32 connects
    and binds succeed the channel is open on them in order, the bind of slot [i]
    carried the id kept for slot [i], and the watchdog runs; if the [j]-th step
    is the first to fail, every socket of the attempt is closed exactly once and
    neither channel, ids nor watchdog remain. *)
Theorem prepare_all_or_nothing (cid : Z) (io : nat -> connect_io) (c : Client) :
  let fds := loop_sockets io 0 VC_TCP_CONNECTIONS in
  let ids := fresh_ids (nextConnectionId c) VC_TCP_CONNECTIONS in
  ((forall k, (k < VC_TCP_CONNECTIONS)%nat -> connect_ok (io k) = true) ->
     exists c' v, PrepareVC cid io c = Some (c', (TeardownVc c).2, initial_binds cid fds ids, true)
       /\ client_vc c' = Some v /\ opened v = true
       /\ (forall i fd, fds !! i = Some fd -> slot_conn v i = Some (newTcpConnection fd).1)
       /\ tcpSockets c' = fds /\ tcpConnectionIds c' = ids
       /\ watchdogRunning c' = true /\ watchdogJoinable c' = true)
  /\ (forall j, (j < VC_TCP_CONNECTIONS)%nat -> connect_ok (io j) = false ->
        (forall k, (k < j)%nat -> connect_ok (io k) = true) ->
        exists c' sent, PrepareVC cid io c
            = Some (c', (TeardownVc c).2
                          ++ (if ci_socket (io j) =? -1 then [] else [ci_socket (io j)])
                          ++ loop_sockets io 0 j, sent, false)
          /\ no_channel c').
Proof.
  intros fds ids. split.
  { intros Hok. destruct (PrepareVC_success cid io c Hok) as (c' & v & E & H). exists c', v.
    split; [done|]. by destruct_and! H. }
  intros j Hl Hbad Hok. unfold PrepareVC.
  pose proof (TeardownVc_no_channel c) as (Hv & Hs & _).
  destruct (TeardownVc c) as [c0 closed0]. cbn [fst snd] in *.
  destruct (connect_loop_failure cid io VC_TCP_CONNECTIONS 0 j c0) as (c' & sent & E & Hc');
    [done | by rewrite Hs | done | done | intros k Hk; apply Hok; lia |].
  rewrite E, Hs. by exists c', sent.
Qed.

(** ** ReconnectVC *)

Definition attempt_ok (a : attempt) : bool :=
  forallb (fun k => connect_ok (at_io a k)) (seq 0 VC_TCP_CONNECTIONS).

(** The loop's flag, and what it leaves alone. *)
Lemma connect_loop_flag cid io n i c :
  let '(c', _, _, ok) := connect_loop cid io n i c in
  ok = forallb (fun k => connect_ok (io k)) (seq i n) /\ running c' = running c
  /\ (watchdogJoinable c = false -> watchdogJoinable c' = false).
Proof.
  revert i c. induction n as [|n IH]; intros i c; [done|]. cbn [connect_loop seq forallb]. unfold connect_ok.
  destruct (Z.eqb_spec (ci_socket (io i)) (-1)); [done|]. cbn [negb andb].
  destruct (Z.ltb_spec (ci_connect (io i)) 0), (Z.leb_spec 0 (ci_connect (io i))); try lia; [done|].
  destruct (Z.leb_spec (SendTcpData (ci_send (io i))) 0), (Z.ltb_spec 0 (SendTcpData (ci_send (io i))));
    try lia; [done|]. cbn [andb].
  match goal with |- context [connect_loop cid io n (i + 1) ?c2] => specialize (IH (i + 1)%nat c2) end.
  destruct (connect_loop _ _ _ _ _) as [[[c' closed] sent] ok]. rewrite Nat.add_1_r in IH. exact IH.
Qed.

Lemma PrepareVC_flag cid io c :
  exists c' closed sent,
    PrepareVC cid io c = Some (c', closed, sent, forallb (fun k => connect_ok (io k)) (seq 0 VC_TCP_CONNECTIONS))
    /\ running c' = running c.
Proof.
  unfold PrepareVC. pose proof (connect_loop_flag cid io VC_TCP_CONNECTIONS 0 (TeardownVc c).1) as H.
  change (running (TeardownVc c).1) with (running c) in H.
  destruct (TeardownVc_no_channel c) as (_ & _ & _ & _ & Hj).
  destruct (TeardownVc c) as [c0 closed0]. cbn [fst] in *.
  destruct (connect_loop _ _ _ _ _) as [[[c1 closed1] sent] ok]. destruct H as (-> & Hr & Hw).
  destruct (forallb _ _); cbn [negb]; [|by do 3 eexists].
  unfold StartWatchdog. cbn [set_vc watchdogJoinable]. rewrite Hw by done. by do 3 eexists.
Qed.

(** The waits before the attempts from [retryCount] on. *)
Fixpoint backoff (initialBackoffMs retryCount delayMs : Z) (n : nat) : list Z :=
  match n with
  | O => []
  | S n => delayMs :: backoff initialBackoffMs (retryCount + 1) (next_delay initialBackoffMs (retryCount + 1)) n
  end.

Lemma reconnect_loop_spec cid maxRetries ib retry delay ats c :
  running c = true -> Forall (fun a => at_wait a = true /\ at_after a = true) ats ->
  retry <= maxRetries <= retry + Z.of_nat (length ats) ->
  let n := Z.to_nat (maxRetries - retry) in
  exists c',
    reconnect_loop cid maxRetries ib retry delay ats c
    = Some (c', match list_find (fun a => attempt_ok a = true) (take n ats) with
                | Some (k, _) => backoff ib retry delay (S k)
                | None => backoff ib retry delay n
                end,
            bool_decide (Exists (fun a => attempt_ok a = true) (take n ats))).
Proof.
  revert retry delay c. induction ats as [|a ats IH]; intros retry delay c Hr Hall Hn n;
    cbn [reconnect_loop]; rewrite Hr; cbn [andb].
  { cbn [length] in Hn. destruct (Z.ltb_spec retry maxRetries); [lia|].
    exists c. replace n with 0%nat by lia. done. }
  apply Forall_cons in Hall as [[Hw Ha] Hall]. cbn [length] in Hn.
  destruct (Z.ltb_spec retry maxRetries) as [Hlt|]; cbn [negb].
  2:{ exists c. replace n with 0%nat by lia. done. }
  rewrite Hw. cbn [negb].
  destruct (PrepareVC_flag cid (at_io a) (set_bookkeeping [] [] (nextConnectionId c) (set_vc None c)))
    as (c2 & closed & sent & -> & Hr2). change (running c2 = running c) in Hr2.
  fold (attempt_ok a). replace n with (S (Z.to_nat (maxRetries - (retry + 1)))) by lia.
  cbn [take list_find].
  destruct (attempt_ok a) eqn:Eok.
  - exists c2. rewrite decide_True by done. rewrite bool_decide_eq_true_2 by (by constructor). done.
  - rewrite Ha. cbn [negb]. destruct (IH (retry + 1) (next_delay ib (retry + 1)) c2) as [c' E];
      [congruence | done | lia |]. rewrite E. exists c'. rewrite decide_False by done.
    do 2 f_equal.
    + f_equal. destruct (list_find _ _) as [[k x]|]; done.
    + apply bool_decide_ext. rewrite Exists_cons, Eok. naive_solver.
Qed.

(** Reconnecting with the default arguments while the client keeps
    running: the waits are 3000, 1000, 2000, 4000 and 8000 ms, one before each
    attempt, up to the first attempt that succeeds; the result is true exactly
    when one of the five does. *)
Theorem reconnect_backoff (cid : Z) (ats : list attempt) (c : Client) :
  running c = true -> Forall (fun a => at_wait a = true /\ at_after a = true) ats ->
  length ats = 5%nat ->
  exists c',
    ReconnectVC cid 5 1000 ats c
    = Some (c', take (match list_find (fun a => attempt_ok a = true) ats with
                      | Some (k, _) => S k
                      | None => 5
                      end) [3000; 1000; 2000; 4000; 8000],
            bool_decide (Exists (fun a => attempt_ok a = true) ats)).
Proof.
  intros Hr Hall Hl. unfold ReconnectVC.
  destruct (reconnect_loop_spec cid 5 1000 0 3000 ats (StopWatchdog (bump_epoch c))) as [c' E]; [done.. | lia |].
  exists c'. rewrite E. change (Z.to_nat (5 - 0)) with 5%nat. rewrite take_ge by lia. do 3 f_equal.
  destruct (list_find _ ats) as [[k a]|] eqn:Ef; [|done].
  assert (k < 5)%nat by (apply list_find_Some in Ef as [?%lookup_lt_Some _]; lia).
  do 5 (destruct k as [|k]; [done|]). lia.
Qed.

(** ** A slot reconnect beside the other threads *)

(** The channel is there and open. *)
Definition vc_open (c : Client) : bool :=
  match client_vc c with Some v => isOpen v | None => false end.

(** nextConnectionId++ *)
Definition take_id (c : Client) : Client :=
  set_bookkeeping (tcpSockets c) (tcpConnectionIds c) (u32 (nextConnectionId c + 1)) c.

(** C15. ReconnectSingleSlot beside the other threads: [env k] is what they do
    before its [k]-th look at the shared state, and [c0] to [c3] are the states it
    sees then.  It succeeds exactly if the watchdog runs at the first two looks,
    the socket, the connect and the send work, no full reconnect has begun
    (reconnectEpoch is unchanged) at the second, third and fourth look and the
    channel is open at the last.  When it succeeds it has closed nothing, has
    sent one bind naming the slot and its old id, and the socket is in the slot
    of that open channel; when it fails it has closed the socket exactly once,
    if it created one.  No bind is sent once a full reconnect is seen at the
    second or third look. *)
Theorem slot_reconnect_settles_its_socket (cid slot : Z) (io : slot_io) (env : nat -> Client -> Client)
  (c : Client) :
  let r := ReconnectSingleSlot cid slot io env c in
  let c0 := env 0%nat c in
  let c1 := env 1%nat c0 in
  let c2 := env 2%nat (take_id c1) in
  let c3 := env 3%nat c2 in
  let same_epoch c := reconnectEpoch c =? reconnectEpoch c0 in
  let created := watchdogRunning c0 && negb (si_socket io =? -1) in
  let bound := created && (0 <=? si_connect io) && watchdogRunning c1 && same_epoch c1 && same_epoch c2
               && (0 <? SendTcpData (si_send io)) in
  let ok := bound && vc_open c3 && same_epoch c3 in
  rs_next r = RsEnd ok
  /\ rs_closed r = (if created && negb ok then [si_socket io] else [])
  /\ rs_sent r = (if bound then [(si_socket io, mkMsgBind cid (i8 slot) (default 0 (tcpConnectionIds c1 !! Z.to_nat slot)))]
                  else [])
  /\ (ok = true -> exists v, client_vc c3 = Some v
      /\ client_vc (rs_client r) = Some (replaceConnection slot (si_socket io) (si_addr io) v).1
      /\ tcpSockets (rs_client r) = <[Z.to_nat slot := si_socket io]> (tcpSockets c3)
      /\ tcpConnectionIds (rs_client r) = <[Z.to_nat slot := nextConnectionId c1]> (tcpConnectionIds c3)).
Proof.
  intros r c0 c1 c2 c3 same_epoch created bound ok. subst r created bound ok same_epoch.
  unfold ReconnectSingleSlot. cbn [rs_step]. fold c0. unfold rs_start.
  destruct (watchdogRunning c0); cbn [negb andb rs_next rs_step rs_closed rs_sent rs_client app]; [|done].
  destruct (Z.eqb_spec (si_socket io) (-1)); cbn [negb andb rs_next rs_step rs_closed rs_sent rs_client app]; [done|].
  fold c1. unfold rs_connected. destruct (Z.ltb_spec (si_connect io) 0), (Z.leb_spec 0 (si_connect io)); try lia;
    cbn [andb rs_next rs_step rs_closed rs_sent rs_client app]; [done|].
  destruct (watchdogRunning c1); cbn [negb orb andb rs_next rs_step rs_closed rs_sent rs_client app]; [|done].
  destruct (reconnectEpoch c1 =? reconnectEpoch c0); cbn [negb andb rs_next rs_step rs_closed rs_sent rs_client app]; [|done].
  fold (take_id c1). fold c2. unfold rs_send_bind.
  destruct (reconnectEpoch c2 =? reconnectEpoch c0); cbn [negb andb rs_next rs_step rs_closed rs_sent rs_client app]; [|done].
  destruct (Z.leb_spec (SendTcpData (si_send io)) 0), (Z.ltb_spec 0 (SendTcpData (si_send io))); try lia;
    cbn [andb rs_next rs_step rs_closed rs_sent rs_client app]; [done|].
  fold c3. unfold rs_swap, vc_open. destruct (client_vc c3) as [v|]; cbn [andb rs_next rs_closed rs_sent rs_client]; [|done].
  destruct (isOpen v); cbn [negb andb rs_next rs_closed rs_sent rs_client]; [|done].
  destruct (reconnectEpoch c3 =? reconnectEpoch c0); cbn [negb andb rs_next rs_closed rs_sent rs_client]; [|done].
  split_and!; [done..|]. intros _. by exists v.
Qed.

(** ** The watchdog repairs the channel *)

Definition slot_io_ok (io : slot_io) : Prop :=
  si_socket io <> -1 /\ 0 <= si_connect io /\ 0 < SendTcpData (si_send io).

Lemma slot_alive_conn v i :
  slot_alive v (mjoin (connections v !! i))
  = match slot_conn v i with Some t => TcpConnection.connected t | None => false end.
Proof. done. Qed.

Lemma addr_unused_replace a' t fd a v :
  a' <> a -> addr_unused a' v -> addr_unused a' (replaceConnection t fd a v).1.
Proof.
  intros Hne [Hh Hj]. unfold replaceConnection. destruct (_ || _); [done|]. cbn [fst].
  split; cbn [heap connections]; [by rewrite lookup_insert_ne by done|].
  intros j [(_ & E & _)|[_ E]]%list_lookup_insert_Some; [congruence | by apply (Hj j)].
Qed.

Lemma opened_replace t fd a v : opened (replaceConnection t fd a v).1 = opened v.
Proof. unfold replaceConnection. by destruct (_ || _). Qed.

(** Alone, with a working network, the reconnect succeeds. *)
Lemma reconnect_alone cid slot io c v :
  client_vc c = Some v -> opened v = true -> watchdogRunning c = true -> slot_io_ok io ->
  let r := ReconnectSingleSlot cid slot io (fun _ c => c) c in
  rs_closed r = [] /\ (exists old, rs_sent r = [(si_socket io, mkMsgBind cid (i8 slot) old)])
  /\ client_vc (rs_client r) = Some (replaceConnection slot (si_socket io) (si_addr io) v).1
  /\ watchdogRunning (rs_client r) = true.
Proof.
  intros Hv Ho Hw (Hs & Hc & Hsend) r. unfold r, ReconnectSingleSlot. cbn [rs_step]. unfold rs_start.
  rewrite Hw. cbn [negb]. destruct (Z.eqb_spec (si_socket io) (-1)); [done|].
  cbn [rs_next rs_step rs_client]. unfold rs_connected. destruct (Z.ltb_spec (si_connect io) 0); [lia|].
  rewrite Hw, Z.eqb_refl. cbn [negb orb rs_next rs_step rs_client]. unfold rs_send_bind.
  cbn [set_bookkeeping reconnectEpoch]. rewrite Z.eqb_refl. cbn [negb].
  destruct (Z.leb_spec (SendTcpData (si_send io)) 0); [lia|].
  cbn [rs_next rs_step rs_client]. unfold rs_swap, isOpen. cbn [set_bookkeeping client_vc reconnectEpoch].
  rewrite Hv, Ho, Z.eqb_refl. cbn. split_and!; [done | by eexists | done | done].
Qed.

Lemma watchdog_pass_spec cid slots io c v :
  client_vc c = Some v -> opened v = true -> watchdogRunning c = true ->
  Forall (fun s => 0 <= s < Z.of_nat (length (connections v))) slots ->
  Forall (fun s => slot_io_ok (io s) /\ addr_unused (si_addr (io s)) v) slots ->
  NoDup ((fun s => si_addr (io s)) <$> slots) ->
  exists c' sent v', watchdog_pass cid slots io c = (c', [], sent)
    /\ client_vc c' = Some v' /\ length (connections v') = length (connections v)
    /\ slotIndex <$> sent.*2 = i8 <$> slots
    /\ forall i, slot_conn v' i = if decide (Z.of_nat i ∈ slots)
                                  then Some (newTcpConnection (si_socket (io (Z.of_nat i)))).1
                                  else slot_conn v i.
Proof.
  revert c v. induction slots as [|s slots IH]; intros c v Hv Ho Hw Hr Hg Hn.
  - exists c, [], v. split_and!; [done..|]. intros i. rewrite decide_False; [done | by apply not_elem_of_nil].
  - apply Forall_cons in Hr as [Hrs Hr]. apply Forall_cons in Hg as [[Hok Ha] Hg].
    rewrite fmap_cons in Hn. apply NoDup_cons in Hn as [Hn1 Hn2].
    cbn [watchdog_pass]. rewrite Hw. cbn [negb].
    destruct (reconnect_alone cid s (io s) c v Hv Ho Hw Hok) as (Ecl & [old Esent] & Evc & Ew).
    destruct (ReconnectSingleSlot cid s (io s) _ c) as [c1 st cl sent1].
    cbn [rs_closed rs_sent rs_client] in *. subst cl sent1.
    set (v1 := (replaceConnection s (si_socket (io s)) (si_addr (io s)) v).1) in *.
    assert (Hl1 : length (connections v1) = length (connections v)) by apply length_replaceConnection.
    destruct (IH c1 v1) as (c' & sent & v' & E & Ev' & El & Esl & Hi); [done | | done | | | done |].
    { unfold v1. by rewrite opened_replace. }
    { by rewrite Hl1. }
    { apply Forall_forall. intros s' Hs'. rewrite Forall_forall in Hg. destruct (Hg s' Hs') as [? ?].
      split; [done|]. apply addr_unused_replace; [|done]. intros Eq. apply Hn1. rewrite <- Eq.
      by apply (list_elem_of_fmap_2 (fun s => si_addr (io s))). }
    exists c', ((si_socket (io s), mkMsgBind cid (i8 s) old) :: sent), v'. rewrite E.
    split; [done|]. split; [done|]. split; [congruence|]. split; [cbn; by f_equal|].
    intros i. rewrite Hi. destruct (decide (Z.of_nat i ∈ slots)) as [Hin|Hout].
    + by rewrite decide_True by (by right).
    + unfold v1. rewrite slot_conn_replace by done. destruct (decide (i = Z.to_nat s)) as [->|Hne].
      * rewrite decide_True by (rewrite Z2Nat.id by lia; by left). by rewrite Z2Nat.id by lia.
      * rewrite decide_False; [done|]. intros [Eq|]%elem_of_cons; [lia | done].
Qed.

(** C21. One pass of the watchdog with a working network brings the whole
    channel back: it visits exactly the dead slots, sends one bind per slot,
    closes nothing, leaves no dead slot and does not touch a live one. *)
Theorem watchdog_repairs_all (cid : Z) (io : Z -> slot_io) (c : Client) (v : Channel) :
  client_vc c = Some v -> opened v = true -> watchdogRunning c = true ->
  Forall (fun s => slot_io_ok (io s) /\ addr_unused (si_addr (io s)) v) (getDeadSlots v) ->
  NoDup ((fun s => si_addr (io s)) <$> getDeadSlots v) ->
  watchdog_slots c = Some (getDeadSlots v)
  /\ exists c' sent v', watchdog_pass cid (getDeadSlots v) io c = (c', [], sent)
    /\ slotIndex <$> sent.*2 = i8 <$> getDeadSlots v
    /\ client_vc c' = Some v' /\ getDeadSlots v' = []
    /\ forall i, ~ (Z.of_nat i ∈ getDeadSlots v) -> slot_conn v' i = slot_conn v i.
Proof.
  intros Hv Ho Hw Hg Hn. split; [unfold watchdog_slots, isOpen; by rewrite Hv, Ho|].
  destruct (watchdog_pass_spec cid (getDeadSlots v) io c v) as (c' & sent & v' & E & Ev & El & Es & Hi);
    [done..| | done | done |].
  { apply Forall_forall. by intros s [Hs _]%elem_of_dead_slots. }
  exists c', sent, v'. split_and!; [done..| |].
  - destruct (getDeadSlots v') as [|s l] eqn:Ed; [done|].
    assert (Hs : s ∈ getDeadSlots v') by (rewrite Ed; by left).
    apply elem_of_dead_slots in Hs as [Hr Ha]. rewrite slot_alive_conn, Hi, Z2Nat.id in Ha by lia.
    case_decide as Hd; [done|]. exfalso. apply Hd. apply elem_of_dead_slots. split; [lia|].
    by rewrite slot_alive_conn.
  - intros i Hd. rewrite Hi. by rewrite decide_False.
Qed.

(** ** A failed start *)

(** When the UDP port cannot be bound, Start closes the UDP descriptor a
    second time: PrepareUdpSocket has closed it and left it in udpSocket. *)
Theorem failed_udp_bind_closes_twice (cid : Z) (io : nat -> connect_io) (udp bindResult : Z)
  (rs : list os_recv) (c : Client) :
  (forall k, (k < VC_TCP_CONNECTIONS)%nat -> connect_ok (io k) = true) -> udp <> -1 -> bindResult < 0 ->
  exists c' sent, Start cid io udp bindResult rs c = Some (c', (TeardownVc c).2 ++ [udp; udp], sent, false).
Proof.
  intros Hok Hu Hb. unfold Start, PrepareVC.
  change ((TeardownVc (set_running true c)).2) with ((TeardownVc c).2).
  destruct (TeardownVc_no_channel (set_running true c)) as (_ & _ & _ & _ & Hj).
  assert (Ec : (TeardownVc (set_running true c)).2 = (TeardownVc c).2) by done.
  destruct (TeardownVc (set_running true c)) as [c0 closed0]. cbn [fst snd] in Hj, Ec.
  rewrite (connect_loop_success cid io VC_TCP_CONNECTIONS 0 c0) by (intros k Hk; apply Hok; lia).
  cbn [negb app]. unfold StartWatchdog. cbn [set_vc set_bookkeeping watchdogJoinable].
  rewrite Hj. unfold PrepareUdpSocket. destruct (Z.eqb_spec udp (-1)); [done|].
  destruct (Z.ltb_spec bindResult 0); [|lia].
  cbn [TeardownVc StopWatchdog set_watchdog set_udp set_vc set_bookkeeping client_vc client_udpSocket].
  destruct (Z.eqb_spec udp (-1)); [done|]. cbn [negb]. rewrite Ec. do 2 eexists.
  by rewrite app_nil_r, app_nil_r, <- app_assoc.
Qed.

(** ** The theorems at work *)

Definition ex_connects (base : Z) (k : nat) : connect_io := mkConnectIo (base + Z.of_nat k) 0 (SendOk 12).
Definition ex_refused (k : nat) : connect_io := mkConnectIo (50 + Z.of_nat k) (-1) (SendOk 12).

Lemma reconnect_backoff_witness :
  exists c', ReconnectVC 7 5 1000
      [mkAttempt true ex_refused true; mkAttempt true ex_refused true; mkAttempt true (ex_connects 100) true;
       mkAttempt true ex_refused true; mkAttempt true ex_refused true]
      (set_running true newClient)
    = Some (c', [3000; 1000; 2000], true).
Proof.
  destruct (reconnect_backoff 7
      [mkAttempt true ex_refused true; mkAttempt true ex_refused true; mkAttempt true (ex_connects 100) true;
       mkAttempt true ex_refused true; mkAttempt true ex_refused true] (set_running true newClient)) as [c' E].
  - reflexivity.
  - repeat constructor.
  - reflexivity.
  - exists c'. rewrite E. reflexivity.
Defined.

(** Two of four slots have died. *)
Definition ex_half_dead : Channel :=
  let v := open (newChannel 0 [10; 11; 12; 13] ∅ true) in
  set_heap (alter (fun t => (disconnect t).1) 1%nat (alter (fun t => (disconnect t).1) 3%nat (heap v))) v.

Definition ex_half_dead_client : Client :=
  set_watchdog true true (set_vc (Some ex_half_dead) (set_bookkeeping [10; 11; 12; 13] [1; 2; 3; 4] 5 newClient)).

Definition ex_slot_io (s : Z) : slot_io := mkSlotIo (20 + s) 0 (SendOk 12) (100 + Z.to_nat s).

Lemma ex_addr_unused s : 0 <= s < 4 -> addr_unused (100 + Z.to_nat s) ex_half_dead.
Proof.
  intros Hs. split.
  - assert (E : forall k, (k < 4)%nat -> heap ex_half_dead !! (100 + k)%nat = None)
      by (intros k Hk; do 4 (destruct k as [|k]; [vm_compute; reflexivity|]); lia).
    apply E. lia.
  - intros j E. apply list_elem_of_lookup_2 in E.
    change (connections ex_half_dead) with [Some 0%nat; Some 1%nat; Some 2%nat; Some 3%nat] in E.
    repeat (apply elem_of_cons in E as [E|E]; [injection E as E; lia|]). by apply not_elem_of_nil in E.
Qed.

Lemma watchdog_repairs_all_witness :
  exists c' sent v', watchdog_pass 7 (getDeadSlots ex_half_dead) ex_slot_io ex_half_dead_client = (c', [], sent)
    /\ client_vc c' = Some v' /\ getDeadSlots ex_half_dead = [1; 3] /\ getDeadSlots v' = [].
Proof.
  assert (Ed : getDeadSlots ex_half_dead = [1; 3]) by (vm_compute; reflexivity).
  destruct (watchdog_repairs_all 7 ex_slot_io ex_half_dead_client ex_half_dead) as [_ (c' & sent & v' & E & _ & Hv & Hd & _)].
  - reflexivity.
  - reflexivity.
  - reflexivity.
  - rewrite Ed. repeat constructor; try (cbn; lia); apply ex_addr_unused; lia.
  - rewrite Ed. apply (bool_decide_unpack _). vm_compute. exact I.
  - exists c', sent, v'. split; [exact E|]. split; [exact Hv|]. split; [exact Ed | exact Hd].
Defined.

Lemma failed_udp_bind_closes_twice_witness :
  exists c' sent, Start 7 (ex_connects 100) 9 (-1) [] newClient = Some (c', [9; 9], sent, false).
Proof.
  apply (failed_udp_bind_closes_twice 7 (ex_connects 100) 9 (-1) [] newClient).
  - intros k Hk. unfold connect_ok, ex_connects. cbn. destruct (Z.eqb_spec (100 + Z.of_nat k) (-1)); [lia|]. reflexivity.
  - lia.
  - lia.
Defined.
