(* ===== verification/Handshake.v ===== *)
(** * Client and server together: which slot is which
      (src/client/Client.cpp with src/server/Server.cpp)

    The client numbers its connections by the order it made them, the server by
    the order it accepted them, and a reconnected socket must replace the same
    slot on both sides although the id the server knows may be stale.  The two
    programs of Client.v and Server.v are composed here through the bind
    messages in flight. *)

From S2P Require Import Prelude Bytes VcProtocol Socket TcpConnection.
From S2P Require Import Protocol Channel Peers Server Client.

(** The server knows exactly the client's ids, each for its own slot. *)
Definition slots_match (cid : Z) (c : Client) (s : Server) : Prop :=
  exists m, clientConnSlots s !! cid = Some m
    /\ forall id slot, m !! id = Some slot <-> 0 <= slot /\ tcpConnectionIds c !! Z.to_nat slot = Some id.

(** ** The first handshake *)

Lemma slot_map_exact (pairs : list (SocketFd * Z)) (m : gmap Z Z) :
  (forall i fd id, pairs !! i = Some (fd, id) -> m !! id = Some (Z.of_nat i)) ->
  (forall id, ~ (id ∈ pairs.*2) -> m !! id = None) ->
  forall id slot, m !! id = Some slot <-> 0 <= slot /\ pairs.*2 !! Z.to_nat slot = Some id.
Proof.
  intros Hin Hout id slot. split.
  - intros Hm. destruct (decide (id ∈ pairs.*2)) as [Hd|Hd]; [|by rewrite Hout in Hm].
    apply list_elem_of_lookup_1 in Hd as [i Hi]. rewrite list_lookup_fmap in Hi.
    destruct (pairs !! i) as [[fd id']|] eqn:E; [|done]. injection Hi as ->.
    pose proof (Hin _ _ _ E) as E2. rewrite Hm in E2. injection E2 as ->.
    rewrite Nat2Z.id, list_lookup_fmap, E. split; [lia | done].
  - intros [H0 Hs]. rewrite list_lookup_fmap in Hs.
    destruct (pairs !! Z.to_nat slot) as [[fd id']|] eqn:E; [|done]. injection Hs as ->.
    rewrite (Hin _ _ _ E). f_equal. lia.
Qed.

(** The server's accept events carry the binds the client sent, in order. *)
Definition accepts_of (ios : list accept_io) (sent : list (SocketFd * MsgBind)) : Prop :=
  Forall2 (fun io b => 0 <= io_fd io /\ delivers io b.2) ios sent.

Lemma accepts_initial cid fds ids ios :
  length fds = length ids -> Forall (fun id => is_u32 id /\ id <> 0) ids ->
  accepts_of ios (initial_binds cid fds ids) ->
  initial_connects cid ios (zip (io_fd <$> ios) ids) /\ length ios = length ids.
Proof.
  revert ids ios. induction fds as [|fd fds IH]; intros [|id ids] ios Hl Hids Ha; cbn in Hl; try lia;
    cbn [initial_binds zip_with] in Ha.
  - apply Forall2_nil_inv_r in Ha as ->. split; [constructor | done].
  - apply Forall2_cons_inv_r in Ha as (io & ios' & [Hf Hd] & Ha & ->).
    apply Forall_cons in Hids as [[Hu Hz] Hids]. injection Hl as Hl.
    destruct (IH ids ios' Hl Hids Ha) as [IH1 IH2]. split; [|cbn; congruence].
    rewrite fmap_cons. constructor; [|done]. by split_and!.
Qed.

(** C11. The first handshake puts the two sides in agreement: a client whose 32
    connects succeed, and a server that accepts them in order, end with both
    channels open and with the server's slot map holding exactly the client's
    ids, each for the slot the client has it in. *)
Theorem handshake_agrees (cid : Z) (cio : nat -> connect_io) (c : Client) (ios : list accept_io) (s : Server) :
  is_u32 cid -> 0 < nextConnectionId c -> nextConnectionId c + Z.of_nat VC_TCP_CONNECTIONS < 2 ^ 32 ->
  (forall k, (k < VC_TCP_CONNECTIONS)%nat -> connect_ok (cio k) = true) ->
  accepts_of ios (initial_binds cid (loop_sockets cio 0 VC_TCP_CONNECTIONS)
                    (fresh_ids (nextConnectionId c) VC_TCP_CONNECTIONS)) ->
  NoDup (io_fd <$> ios) -> Forall (fun io => io_udp io <> -1 /\ io_udp_bound io = true) ios ->
  accumulating cid [] s ->
  exists c' closed sent v s' vc sv,
    PrepareVC cid cio c = Some (c', closed, sent, true) /\ client_vc c' = Some v /\ opened v = true
    /\ AcceptConnections ios s = Some (s', [], LoopContinue)
    /\ vcs s' !! cid = Some vc /\ channels s' !! vc = Some sv /\ opened sv = true
    /\ slots_match cid c' s'.
Proof.
  intros Hc H0 Hn Hok Ha Hfds Hu Hac.
  destruct (PrepareVC_success cid cio c Hok) as (c' & v & E & Hv & Ho & _ & _ & Hids & _).
  set (ids := fresh_ids (nextConnectionId c) VC_TCP_CONNECTIONS) in *.
  assert (Eids : ids = seqZ (nextConnectionId c) (Z.of_nat VC_TCP_CONNECTIONS)) by (apply fresh_ids_seqZ; lia).
  assert (Hlen : length ids = VC_TCP_CONNECTIONS) by apply length_fresh_ids.
  destruct (accepts_initial cid (loop_sockets cio 0 VC_TCP_CONNECTIONS) ids ios) as [Hi Hl]; [| |done|].
  { rewrite Hlen. unfold loop_sockets. by rewrite length_fmap, length_seq. }
  { rewrite Eids. apply Forall_forall. intros id Hid%elem_of_seqZ. unfold is_u32. lia. }
  assert (E1 : (zip (io_fd <$> ios) ids).*1 = io_fd <$> ios) by (apply fst_zip; rewrite length_fmap; lia).
  assert (E2 : (zip (io_fd <$> ios) ids).*2 = ids) by (apply snd_zip; rewrite length_fmap; lia).
  destruct (initial_connects_build cid ios (zip (io_fd <$> ios) ids) s) as (s' & Es & Hb); [done | done | | | | done | done |].
  { rewrite length_zip, length_fmap. lia. }
  { by rewrite E1. }
  { rewrite E2, Eids. apply NoDup_seqZ. }
  destruct Hb as (vc & sv & m & Hvc & Hch & Hop & Hm & _ & Hout & Hin).
  exists c', (TeardownVc c).2, (initial_binds cid (loop_sockets cio 0 VC_TCP_CONNECTIONS) ids), v, s', vc, sv.
  split_and!; [done..|]. exists m. split; [done|]. rewrite Hids, <- E2.
  apply slot_map_exact; [|done]. intros i fd id Hp. by apply Hin in Hp as [_ ?].
Qed.

(** ** Reconnections in any order *)

(** Client, bind messages in flight, server. *)
Record system : Type := mkSystem { sys_client : Client; sys_binds : list MsgBind; sys_server : Server }.

(** The other threads of the client may do anything between the steps of a
    slot reconnect, except that only the watchdog thread touches the ids (a full
    reconnect joins it first). *)
Definition id_state (c : Client) : list Z * Z := (tcpConnectionIds c, nextConnectionId c).

Definition keeps_ids (env : nat -> Client -> Client) : Prop := forall k c, id_state (env k c) = id_state c.

(** One event: the client tries to reconnect a slot, whatever comes of it; the
    server handles one of the binds in flight, not necessarily the oldest; or a
    bind is lost with its connection. *)
Inductive sys_step (cid : Z) : system -> system -> Prop :=
| step_reconnect slot io env c binds s :
    0 <= slot < Z.of_nat VC_TCP_CONNECTIONS -> keeps_ids env -> nextConnectionId c + 1 < 2 ^ 32 ->
    let r := ReconnectSingleSlot cid slot io env c in
    sys_step cid (mkSystem c binds s) (mkSystem (rs_client r) (binds ++ (rs_sent r).*2) s)
| step_accept io bind c binds1 binds2 s :
    sys_step cid (mkSystem c (binds1 ++ bind :: binds2) s)
                 (mkSystem c (binds1 ++ binds2) (handle_bind io bind s).1.1)
| step_lost bind c binds1 binds2 s :
    sys_step cid (mkSystem c (binds1 ++ bind :: binds2) s) (mkSystem c (binds1 ++ binds2) s).

(** The invariant: every id was given out for one slot, its [owner], and
    nobody has it for another. *)
Record owned (cid : Z) (owner : Z -> Z) (y : system) : Prop := {
  ow_next : 0 < nextConnectionId (sys_client y);
  ow_ids : forall i id, tcpConnectionIds (sys_client y) !! i = Some id ->
             0 < id < nextConnectionId (sys_client y) /\ owner id = Z.of_nat i;
  ow_binds : forall b, b ∈ sys_binds y ->
             clientId b = cid /\ 0 <= slotIndex b < Z.of_nat VC_TCP_CONNECTIONS
             /\ (connectionId b <> 0 -> connectionId b < nextConnectionId (sys_client y)
                                        /\ owner (connectionId b) = slotIndex b);
  ow_map : forall m id slot, clientConnSlots (sys_server y) !! cid = Some m -> m !! id = Some slot ->
             id < nextConnectionId (sys_client y) /\ owner id = slot;
  ow_server : server_inv (sys_server y);
  ow_vc : exists vc, vcs (sys_server y) !! cid = Some vc;
}.

(** What a slot reconnect can do to the ids, and what it sends. *)
Lemma reconnect_ids cid slot io env c :
  keeps_ids env ->
  let r := ReconnectSingleSlot cid slot io env c in
  let next := nextConnectionId c in
  let ids := tcpConnectionIds c in
  (id_state (rs_client r) = (ids, next) /\ rs_sent r = [])
  \/ (exists ids', id_state (rs_client r) = (ids', u32 (next + 1))
       /\ (ids' = ids \/ ids' = <[Z.to_nat slot := next]> ids)
       /\ (rs_sent r = [] \/
           rs_sent r = [(si_socket io, mkMsgBind cid (i8 slot) (default 0 (ids !! Z.to_nat slot)))])).
Proof.
  intros He r next ids. unfold r, ReconnectSingleSlot. cbn [rs_step].
  assert (E0 := He 0%nat c). set (c0 := env 0%nat c) in *. unfold rs_start.
  destruct (watchdogRunning c0); cbn [negb rs_next rs_step rs_sent rs_client];
    [|left; by rewrite !He].
  destruct (Z.eqb_spec (si_socket io) (-1)); cbn [rs_next rs_step rs_sent rs_client]; [left; by rewrite !He|].
  assert (E1 := He 1%nat c0). set (c1 := env 1%nat c0) in *. rewrite E0 in E1. unfold rs_connected.
  destruct (si_connect io <? 0); cbn [rs_next rs_step rs_sent rs_client]; [left; by rewrite !He, E1|].
  destruct (_ || _); cbn [rs_next rs_step rs_sent rs_client]; [left; by rewrite !He, E1|].
  right. injection E1 as Ei En. rewrite Ei, En.
  set (c1' := set_bookkeeping _ _ _ _). assert (E1' : id_state c1' = (ids, u32 (next + 1))) by done.
  assert (E2 := He 2%nat c1'). set (c2 := env 2%nat c1') in *. rewrite E1' in E2. unfold rs_send_bind.
  destruct (negb _); cbn [rs_next rs_step rs_sent rs_client app];
    [exists ids; rewrite He; split_and!; auto|].
  destruct (_ <=? 0); cbn [rs_next rs_step rs_sent rs_client app]; [exists ids; rewrite He; split_and!; auto|].
  assert (E3 := He 3%nat c2). set (c3 := env 3%nat c2) in *. rewrite E2 in E3. unfold rs_swap.
  destruct (client_vc c3) as [v|]; cbn [rs_sent rs_client app]; [|exists ids; split_and!; auto].
  destruct (negb _); cbn [rs_sent rs_client app]; [exists ids; split_and!; auto|].
  destruct (negb _); cbn [rs_sent rs_client app]; [exists ids; split_and!; auto|].
  injection E3 as E4 E5. exists (<[Z.to_nat slot := next]> ids).
  unfold id_state. cbn [set_bookkeeping tcpConnectionIds nextConnectionId]. rewrite E4, E5. split_and!; auto.
Qed.

(** The server sends a bind in flight to the slot it names. *)
Lemma owned_target cid owner y b c :
  owned cid owner y -> b ∈ sys_binds y -> replace_target b c (sys_server y) = slotIndex b.
Proof.
  intros H Hb. destruct (ow_binds _ _ _ H b Hb) as (Ecid & Hs & Hid).
  assert (Hk : lookup_connIdSlot (clientId b) (connectionId b) (sys_server y) = -1
               \/ lookup_connIdSlot (clientId b) (connectionId b) (sys_server y) = slotIndex b).
  { unfold lookup_connIdSlot. destruct (Z.eqb_spec (connectionId b) 0); [by left|]. rewrite Ecid.
    destruct (clientConnSlots (sys_server y) !! cid) as [m|] eqn:Em; [|by left].
    destruct (m !! connectionId b) as [j|] eqn:Ej; [|by left]. right. cbn.
    destruct (ow_map _ _ _ H m _ _ Em Ej) as [_ <-]. by apply Hid. }
  unfold replace_target, DecideReplaceSlot.
  destruct (Z.leb_spec 0 (lookup_connIdSlot (clientId b) (connectionId b) (sys_server y))); [lia|].
  destruct (Z.leb_spec 0 (slotIndex b)), (Z.ltb_spec (slotIndex b) (Z.of_nat VC_TCP_CONNECTIONS)); cbn [andb]; lia.
Qed.

Lemma owned_fewer_binds cid owner c l l' s :
  (forall b, b ∈ l' -> b ∈ l) -> owned cid owner (mkSystem c l s) -> owned cid owner (mkSystem c l' s).
Proof.
  intros Hsub H. split; [apply (ow_next _ _ _ H) | apply (ow_ids _ _ _ H) | | apply (ow_map _ _ _ H)
                        | apply (ow_server _ _ _ H) | apply (ow_vc _ _ _ H)].
  intros b Hb. apply (ow_binds _ _ _ H). by apply Hsub.
Qed.

(** Handling a bind of the client. *)
Lemma owned_handle_bind cid owner io b c binds s :
  owned cid owner (mkSystem c binds s) -> b ∈ binds ->
  exists vc v,
    vcs s !! cid = Some vc /\ channels s !! vc = Some v
    /\ handle_bind io b s = ((replace_slot io b vc v s).1, [], LoopContinue)
    /\ channels (replace_slot io b vc v s).1
       = <[vc := (replaceConnection (slotIndex b) (io_fd io) (io_addr io) v).1]> (channels s)
    /\ owned cid owner (mkSystem c binds (replace_slot io b vc v s).1).
Proof.
  intros H Hb. pose proof (owned_target cid owner (mkSystem c binds s) b) as Ht.
  destruct (ow_vc _ _ _ H) as [vc Hv]. cbn [sys_server] in *.
  destruct (si_vcs s (ow_server _ _ _ H) _ _ Hv) as [v Hc]. exists vc, v.
  destruct (ow_binds _ _ _ H b Hb) as (Ecid & Hs & Hid).
  specialize (Ht v H Hb). cbn [sys_server] in Ht.
  assert (Hinv := replace_slot_inv io b vc v s (ow_server _ _ _ H) Hc).
  unfold handle_bind, VcManager.Get. rewrite Ecid, Hv. cbn [mbind option_bind]. rewrite Hc.
  cbn [mbind option_bind]. destruct (Z.ltb_spec (slotIndex b) 0); [lia|].
  unfold replace_slot in *. rewrite Ht in *. destruct (Z.ltb_spec (slotIndex b) 0); [lia|].
  cbn [fst channels] in *. split_and!; [done..|].
  split; cbn [sys_client sys_binds sys_server]; [apply (ow_next _ _ _ H) | apply (ow_ids _ _ _ H)
    | apply (ow_binds _ _ _ H) | | exact Hinv | by exists vc].
  intros m id slot. cbn [clientConnSlots]. rewrite Ecid.
  destruct (Z.eqb_spec (connectionId b) 0); [apply (ow_map _ _ _ H)|].
  rewrite lookup_insert_eq. intros [= <-] [[-> ->]|(_ & _ & Hm)]%register_slot_lookup; [by apply Hid|].
  destruct (clientConnSlots s !! cid) as [m0|] eqn:E; cbn [default] in Hm;
    [by apply (ow_map _ _ _ H m0) | by rewrite lookup_empty in Hm].
Qed.

Lemma owned_reconnect cid owner slot io env c binds s :
  0 <= slot < Z.of_nat VC_TCP_CONNECTIONS -> keeps_ids env -> nextConnectionId c + 1 < 2 ^ 32 ->
  owned cid owner (mkSystem c binds s) ->
  let r := ReconnectSingleSlot cid slot io env c in
  exists owner', owned cid owner' (mkSystem (rs_client r) (binds ++ (rs_sent r).*2) s).
Proof.
  intros Hslot He Hn H r. pose proof (ow_next _ _ _ H) as H0. cbn [sys_client] in H0.
  assert (Hr := reconnect_ids cid slot io env c He). cbv zeta in Hr. fold r in Hr. clearbody r.
  destruct Hr as [[Eid Es]|(ids' & Eid & Hids & Hsent)].
  - injection Eid as E1 E2. exists owner. rewrite Es, app_nil_r.
    split; cbn [sys_client sys_binds sys_server]; rewrite ?E1, ?E2;
      [done | apply (ow_ids _ _ _ H) | apply (ow_binds _ _ _ H) | apply (ow_map _ _ _ H)
       | apply (ow_server _ _ _ H) | apply (ow_vc _ _ _ H)].
  - rewrite u32_small in Eid by (unfold is_u32; lia). injection Eid as E1 E2.
    exists (fun id => if id =? nextConnectionId c then slot else owner id).
    assert (Hold : forall id, id < nextConnectionId c ->
              (if id =? nextConnectionId c then slot else owner id) = owner id)
      by (intros id Hid; destruct (Z.eqb_spec id (nextConnectionId c)); [lia | done]).
    assert (Hown : forall i id, tcpConnectionIds c !! i = Some id ->
              0 < id < nextConnectionId c /\ owner id = Z.of_nat i) by apply (ow_ids _ _ _ H).
    split; cbn [sys_client sys_binds sys_server]; rewrite ?E2; [lia | | | | apply (ow_server _ _ _ H)
      | apply (ow_vc _ _ _ H)].
    + intros i id Hi. rewrite E1 in Hi. destruct Hids as [-> | ->].
      * destruct (Hown _ _ Hi). rewrite Hold by lia. split; [lia | done].
      * apply list_lookup_insert_Some in Hi as [(Ei & <- & _)|[_ Hi]].
        { rewrite Z.eqb_refl. lia. }
        destruct (Hown _ _ Hi). rewrite Hold by lia. split; [lia | done].
    + intros b [Hb|Hb]%elem_of_app.
      * destruct (ow_binds _ _ _ H b Hb) as (? & ? & Hid). split_and!; [done | lia | lia |]. intros Hz.
        destruct (Hid Hz) as [Hlt Hown']. cbn [sys_client] in Hlt. rewrite Hold by done. split; [lia | done].
      * destruct Hsent as [Es | Es]; rewrite Es in Hb; [by apply not_elem_of_nil in Hb|].
        apply list_elem_of_singleton in Hb as ->. cbn [snd clientId slotIndex connectionId].
        change (Z.of_nat VC_TCP_CONNECTIONS) with 32 in *.
        rewrite i8_small by (unfold is_i8; lia). split_and!; [done | lia | lia |].
        destruct (tcpConnectionIds c !! Z.to_nat slot) as [old|] eqn:Eo; cbn [default]; [|done].
        unfold id. intros _. destruct (Hown _ _ Eo). rewrite Hold by lia. split; lia.
    + intros m id j Hm Hj. destruct (ow_map _ _ _ H m id j Hm Hj) as [Hlt Hown']. cbn [sys_client] in Hlt.
      rewrite Hold by done. split; [lia | done].
Qed.

Lemma owned_step cid owner y y' :
  owned cid owner y -> sys_step cid y y' -> exists owner', owned cid owner' y'.
Proof.
  intros H Hs. destruct Hs as [slot io env c binds s Hslot He Hn r|io b c l1 l2 s|b c l1 l2 s].
  - by apply (owned_reconnect cid owner slot io env c binds s).
  - exists owner.
    assert (Hb : b ∈ l1 ++ b :: l2) by (apply elem_of_app; right; by left).
    destruct (owned_handle_bind cid owner io b c _ s H Hb) as (vc & v & _ & _ & -> & _ & H').
    eapply owned_fewer_binds, H'. intros b' [|]%elem_of_app; apply elem_of_app; [by left | right; by right].
  - exists owner. eapply owned_fewer_binds, H.
    intros b' [|]%elem_of_app; apply elem_of_app; [by left | right; by right].
Qed.

Lemma slots_match_owned cid c s :
  slots_match cid c s -> server_inv s -> (exists vc, vcs s !! cid = Some vc) ->
  Forall (fun id => 0 < id < nextConnectionId c) (tcpConnectionIds c) -> 0 < nextConnectionId c ->
  exists owner, owned cid owner (mkSystem c [] s).
Proof.
  intros (m & Hm & Hiff) Hinv Hvc Hids Hn. exists (fun id => default 0 (m !! id)).
  split; cbn [sys_client sys_binds sys_server]; [done | | | | done | done].
  - intros i id Hi. split; [exact (Forall_lookup_1 _ _ _ _ Hids Hi)|].
    assert (E : m !! id = Some (Z.of_nat i)) by (apply Hiff; rewrite Nat2Z.id; split; [lia | done]).
    by rewrite E.
  - intros b Hb. by apply not_elem_of_nil in Hb.
  - intros m' id slot Hm' Hs. rewrite Hm in Hm'. injection Hm' as <-. rewrite Hs. split; [|done].
    apply Hiff in Hs as [_ Hs]. pose proof (Forall_lookup_1 _ _ _ _ Hids Hs) as Hid. cbv beta in Hid. lia.
Qed.

(** C3. Client and server never disagree about a slot, although the server's
    ids are one step stale after a reconnect: from a state in which they match,
    whatever the order of the client's slot reconnects -- aborted ones included,
    with the other threads running in between -- of the binds handled by the
    server and of the binds lost, every bind in flight is for the client's slot
    it names, and the server, whenever it handles it, replaces exactly that slot
    with the new socket and closes nothing. *)
Theorem slots_never_disagree (cid : Z) (c : Client) (s : Server) (y : system) :
  slots_match cid c s -> server_inv s -> (exists vc, vcs s !! cid = Some vc) ->
  Forall (fun id => 0 < id < nextConnectionId c) (tcpConnectionIds c) -> 0 < nextConnectionId c ->
  rtc (sys_step cid) (mkSystem c [] s) y ->
  forall b io, b ∈ sys_binds y ->
    0 <= slotIndex b < Z.of_nat VC_TCP_CONNECTIONS
    /\ exists vc v s', vcs (sys_server y) !! cid = Some vc /\ channels (sys_server y) !! vc = Some v
       /\ handle_bind io b (sys_server y) = (s', [], LoopContinue)
       /\ channels s' = <[vc := (replaceConnection (slotIndex b) (io_fd io) (io_addr io) v).1]>
                          (channels (sys_server y)).
Proof.
  intros Hm Hinv Hvc Hids Hn Hr b io Hb.
  destruct (slots_match_owned cid c s Hm Hinv Hvc Hids Hn) as [owner H0].
  assert (H : exists owner', owned cid owner' y).
  { clear Hb Hm Hinv Hvc Hids Hn. revert owner H0. induction Hr as [y|y1 y2 y3 Hs _ IH]; intros owner H0; [by eexists|].
    destruct (owned_step cid owner y1 y2 H0 Hs) as [owner' H1]. by apply (IH owner'). }
  destruct H as [owner' H]. split; [by apply (ow_binds _ _ _ H)|].
  destruct y as [c' binds s0]. cbn [sys_binds sys_server] in *.
  destruct (owned_handle_bind cid owner' io b c' binds s0 H Hb) as (vc & v & Hv & Hc & E & Ech & _).
  by exists vc, v, (replace_slot io b vc v s0).1.
Qed.

(** ** The theorems at work *)

Lemma ex_accepts pairs fds :
  length fds = length pairs -> Forall (fun p => 0 <= p.1) pairs ->
  accepts_of (ex_io <$> pairs) (initial_binds 7 fds pairs.*2).
Proof.
  revert fds. induction pairs as [|p pairs IH]; intros [|fd fds] Hl Hp; try (cbn in Hl; lia); [constructor|].
  apply Forall_cons in Hp as [Hp Hps]. constructor.
  - split; [done|]. apply ex_io_delivers.
  - apply IH; [cbn in Hl; lia | done].
Qed.

Lemma handshake_agrees_witness :
  exists c' closed sent s', PrepareVC 7 (ex_connects 100) newClient = Some (c', closed, sent, true)
    /\ AcceptConnections (ex_io <$> ex_pairs) newServer = Some (s', [], LoopContinue) /\ slots_match 7 c' s'.
Proof.
  destruct (handshake_agrees 7 (ex_connects 100) newClient (ex_io <$> ex_pairs) newServer)
    as (c' & closed & sent & v & s' & vc & sv & E1 & _ & _ & E2 & _ & _ & _ & H).
  - split; cbn; lia.
  - reflexivity.
  - reflexivity.
  - intros k Hk. unfold connect_ok, ex_connects. cbn. destruct (Z.eqb_spec (100 + Z.of_nat k) (-1)); [lia|]. reflexivity.
  - apply (ex_accepts ex_pairs); [reflexivity|].
    apply (Forall_impl _ _ _ ex_pairs_valid). intros p Hp. apply Hp.
  - apply (bool_decide_unpack _). vm_compute. exact I.
  - apply Forall_fmap, Forall_true. intros p. split; [discriminate | reflexivity].
  - constructor; try reflexivity. intros fd id []%not_elem_of_nil.
  - exists c', closed, sent, s'. split; [exact E1|]. split; [exact E2 | exact H].
Defined.

(** The client those connections left, as far as the ids go. *)
Definition ex_client : Client :=
  set_watchdog true true (set_vc (Some (open (newChannel 0 (seqZ 100 32) ∅ true)))
    (set_bookkeeping (seqZ 100 32) (seqZ 1 32) 33 newClient)).

Lemma ex_slots_match : slots_match 7 ex_client ex_server.
Proof.
  destruct ex_server_built as (vc & sv & m & _ & _ & _ & Hm & _ & Hout & Hin). exists m. split; [done|].
  change (tcpConnectionIds ex_client) with (ex_pairs.*2). apply slot_map_exact; [|done].
  intros i fd id Hp. by apply Hin in Hp as [_ ?].
Qed.

Lemma slots_never_disagree_witness :
  exists s', handle_bind ex_reconnect (mkMsgBind 7 5 6) ex_server = (s', [], LoopContinue).
Proof.
  set (r := ReconnectSingleSlot 7 5 (ex_slot_io 5) (fun _ c => c) ex_client).
  destruct (slots_never_disagree 7 ex_client ex_server (mkSystem (rs_client r) ([] ++ (rs_sent r).*2) ex_server))
    with (b := mkMsgBind 7 5 6) (io := ex_reconnect) as (_ & vc & v & s' & _ & _ & E & _).
  - apply ex_slots_match.
  - apply ex_server_inv.
  - destruct ex_server_built as (vc & _ & _ & Hv & _). exists vc. exact Hv.
  - apply (bool_decide_unpack _). vm_compute. exact I.
  - reflexivity.
  - apply rtc_once. apply step_reconnect; [split; [discriminate | reflexivity] | intros k c; reflexivity | reflexivity].
  - apply list_elem_of_singleton. vm_compute. reflexivity.
  - exists s'. exact E.
Defined.
