(* ===== verification/Datagrams.v ===== *)
(** * Datagrams into the channel (src/client/Client.cpp, src/server/Server.cpp)

    The two loops that read a UDP socket and hand what they read to the channel,
    PrepareUdpSocket on the client and the UDP thread of the server, against what
    arrives on the socket.  recv gives one datagram, cut to the buffer. *)

From S2P Require Import Prelude Bytes VcProtocol Socket TcpConnection BlockingQueue SentCache.
From S2P Require Import Channel Server Client.

(** ** What arrives *)

Inductive arrival : Type :=
| Datagram (d : list byte)
| Failure (e : errno).

(** recv and recvfrom with a buffer of [capacity] bytes; the rest of a longer
    datagram is lost. *)
Definition read_arrival (capacity : nat) (a : arrival) : os_recv :=
  match a with
  | Datagram d => RecvOk (take capacity d)
  | Failure e => RecvErr e
  end.

(** [char buffer[2500]] on the client, and the buffer of the server's thread. *)
Definition client_buffer_size : nat := 2500.
Definition server_buffer_size : nat := VC_MAX_DATA_PAYLOAD_SIZE + VC_MIN_DATA_PACKET_SIZE.

(** The loop of the server's UDP thread; the flag tells whether it still runs. *)
Fixpoint udp_thread (rs : list os_recv) (c : Channel) : Channel * bool :=
  match rs with
  | [] => (c, true)
  | r :: rs =>
      match udp_thread_step r c with
      | None => (c, false)
      | Some (c', _) => udp_thread rs c'
      end
  end.

(** ** What is forwarded *)

Definition fits (d : list byte) : bool := (length d <=? VC_MAX_DATA_PAYLOAD_SIZE)%nat.

(** The datagrams a channel takes, of those that arrive. *)
Definition forwarded (arrivals : list arrival) : list (list byte) :=
  omap (fun a => match a with Datagram d => if fits d then Some d else None | Failure _ => None end) arrivals.

(** What ends the client's loop, and what ends the server's. *)
Definition ends_client (a : arrival) : bool := match a with Datagram [] => true | _ => false end.
Definition ends_server (a : arrival) : bool := match a with Datagram [] | Failure _ => true | _ => false end.

(** What is read before the loop ends. *)
Fixpoint read_until (ends : arrival -> bool) (arrivals : list arrival) : list arrival :=
  match arrivals with
  | [] => []
  | a :: arrivals => if ends a then [] else a :: read_until ends arrivals
  end.

(** A datagram read through a buffer larger than a payload is forwarded whole or
    not at all. *)
Lemma send_datagram capacity d c :
  sendable c -> d <> [] -> (VC_MAX_DATA_PAYLOAD_SIZE < capacity)%nat ->
  (length (queue (sendQueue c)) <= 1000)%nat -> lastSendMessageId c + 1 < 2 ^ 64 ->
  exists x r c' o, take capacity d = x :: r /\ send (Some (take capacity d)) c = Some (c', o) /\ sendable c'
    /\ lastSendMessageId c' = lastSendMessageId c + (if fits d then 1 else 0)
    /\ queue (sendQueue c') = queue (sendQueue c) ++ (if fits d then [encode_data (lastSendMessageId c) d] else []).
Proof.
  intros Hs Hne Hcap Hq Hid. destruct d as [|x d]; [done|].
  destruct capacity as [|cap]; [lia|]. exists x, (take cap d). unfold fits.
  destruct (Nat.leb_spec (length (x :: d)) VC_MAX_DATA_PAYLOAD_SIZE) as [Hl|Hl].
  - rewrite take_ge by lia.
    destruct (send_accepts (x :: d) c Hs Hne Hl Hq) as (c' & E & Hs' & Hi & Hq').
    exists c', (SendQueued (lastSendMessageId c)). split_and!; [by rewrite take_ge by (cbn in Hl; lia) | done | done | | done].
    rewrite Hi. apply u64_small. pose proof (sd_id c Hs). unfold is_u64 in *. lia.
  - exists c, SendTooBig. split; [done|]. split; [|split_and!; [done | lia | by rewrite app_nil_r]].
    unfold send. rewrite (sd_open c Hs). cbn [negb].
    destruct (take (S cap) (x :: d)) as [|y l] eqn:E; [done|].
    assert (HL : length (y :: l) = Nat.min (S cap) (length (x :: d))) by (rewrite <- E; apply length_take).
    destruct (Nat.ltb_spec VC_MAX_DATA_PAYLOAD_SIZE (length (y :: l))); [done | lia].
Qed.

(** The room the queue and the id space must have. *)
Definition room_for (n : nat) (c : Channel) : Prop :=
  (length (queue (sendQueue c)) + n <= 1001)%nat /\ lastSendMessageId c + Z.of_nat n < 2 ^ 64.

Lemma forwarded_le arrivals : (length (forwarded arrivals) <= length arrivals)%nat.
Proof.
  induction arrivals as [|a arrivals IH]; [done|]. cbn. destruct a as [d|e]; [destruct (fits d)|]; cbn; unfold forwarded in IH; lia.
Qed.

(** The state of the channel when the loop has handled [arrivals]. *)
Definition took (arrivals : list arrival) (c c' : Channel) : Prop :=
  sendable c' /\ lastSendMessageId c' = lastSendMessageId c + Z.of_nat (length (forwarded arrivals))
  /\ queue (sendQueue c') = queue (sendQueue c) ++ data_packets (lastSendMessageId c) (forwarded arrivals).

Lemma took_nil c : sendable c -> took [] c c.
Proof. intros Hs. split_and!; [done | cbn; lia | cbn; by rewrite app_nil_r]. Qed.

Lemma took_datagram d arrivals c c1 c' :
  sendable c1 -> lastSendMessageId c1 = lastSendMessageId c + (if fits d then 1 else 0) ->
  queue (sendQueue c1) = queue (sendQueue c) ++ (if fits d then [encode_data (lastSendMessageId c) d] else []) ->
  took arrivals c1 c' -> took (Datagram d :: arrivals) c c'.
Proof.
  intros Hs Hi Hq (Hs' & Hi' & Hq'). unfold took, forwarded. cbn. fold (forwarded arrivals).
  destruct (fits d); cbn [length data_packets].
  - split_and!; [done | rewrite Hi', Hi; lia|]. by rewrite Hq', Hq, Hi, <- app_assoc.
  - rewrite app_nil_r in Hq. rewrite Z.add_0_r in Hi. split_and!; [done | by rewrite Hi', Hi | by rewrite Hq', Hq, Hi].
Qed.

Lemma room_after d n c c1 :
  room_for (S n) c -> lastSendMessageId c1 = lastSendMessageId c + (if fits d then 1 else 0) ->
  queue (sendQueue c1) = queue (sendQueue c) ++ (if fits d then [encode_data (lastSendMessageId c) d] else []) ->
  room_for n c1.
Proof. intros [H1 H2] Hi Hq. split; [rewrite Hq, length_app; destruct (fits d); cbn; lia | rewrite Hi; destruct (fits d); lia]. Qed.

(** ** The client's loop *)

Lemma client_loop_takes arrivals c v :
  running c = true -> client_vc c = Some v -> sendable v -> room_for (length arrivals) v ->
  exists v', udp_receive_loop (read_arrival client_buffer_size <$> arrivals) c = set_vc (Some v') c
    /\ took (read_until ends_client arrivals) v v'.
Proof.
  revert c v. induction arrivals as [|a arrivals IH]; intros c v Hr Hv Hs Hroom.
  { exists v. split; [|by apply took_nil]. cbn. rewrite <- Hv. by destruct c. }
  rewrite fmap_cons. destruct a as [[|y d0]|e].
  - exists v. split; [|by apply took_nil]. cbn. rewrite Hr, <- Hv. by destruct c.
  - set (d := y :: d0) in *. change (read_until ends_client (Datagram d :: arrivals)) with (Datagram d :: read_until ends_client arrivals).
    cbn [read_arrival]. destruct (send_datagram client_buffer_size d v Hs ltac:(done)) as (x & r & v1 & o & Et & Es & Hs1 & Hi1 & Hq1);
      [unfold client_buffer_size, VC_MAX_DATA_PAYLOAD_SIZE; lia | destruct Hroom; cbn in *; lia
      | destruct Hroom; cbn in *; lia |].
    destruct (IH (set_vc (Some v1) c) v1) as (v' & E & Ht); [done | done | done | by eapply (room_after d) |].
    exists v'. split; [|by eapply took_datagram]. cbn [udp_receive_loop]. rewrite Hr. cbn [negb].
    rewrite Et in *. rewrite Hv. unfold isOpen. rewrite (sd_open v Hs), Es. rewrite E. by destruct c.
  - destruct (IH c v Hr Hv Hs) as (v' & E & Ht); [destruct Hroom; split; cbn in *; lia|].
    exists v'. split; [|exact Ht]. cbn [udp_receive_loop]. rewrite Hr. exact E.
Qed.

(** ** The server's thread *)

Lemma server_thread_takes arrivals v :
  sendable v -> room_for (length arrivals) v ->
  exists v', udp_thread (read_arrival server_buffer_size <$> arrivals) v = (v', negb (existsb ends_server arrivals))
    /\ took (read_until ends_server arrivals) v v'.
Proof.
  revert v. induction arrivals as [|a arrivals IH]; intros v Hs Hroom.
  { exists v. split; [done | by apply took_nil]. }
  rewrite fmap_cons. destruct a as [[|y d0]|e];
    [exists v; by split; [|apply took_nil] | | exists v; by split; [|apply took_nil]].
  set (d := y :: d0) in *. change (read_until ends_server (Datagram d :: arrivals)) with (Datagram d :: read_until ends_server arrivals).
  change (existsb ends_server (Datagram d :: arrivals)) with (existsb ends_server arrivals).
  cbn [read_arrival]. destruct (send_datagram server_buffer_size d v Hs ltac:(done)) as (x & r & v1 & o & Et & Es & Hs1 & Hi1 & Hq1);
    [apply Nat.ltb_lt; reflexivity | destruct Hroom; cbn in *; lia
    | destruct Hroom; cbn in *; lia |].
  destruct (IH v1 Hs1) as (v' & E & Ht); [by eapply (room_after d)|].
  exists v'. split; [|by eapply took_datagram]. cbn [udp_thread]. unfold udp_thread_step. rewrite Et in *. by rewrite Es, E.
Qed.

(** C13. No datagram is forwarded in part.  Whatever arrives on the UDP sockets,
    up to the room in the send queue, the channel is given exactly the datagrams
    of 1 to 2000 bytes that are read before the loop ends, complete, in order of
    arrival and under consecutive message ids; longer ones are dropped whole
    although both buffers cut them.  An empty datagram ends both loops, a failing
    receive ends the server's and is skipped by the client's; nothing after that
    is forwarded. *)
Theorem datagrams_forwarded_whole (arrivals : list arrival) (c : Client) (v : Channel) :
  running c = true -> client_vc c = Some v -> sendable v -> room_for (length arrivals) v ->
  (let taken := forwarded (read_until ends_client arrivals) in
   exists v', udp_receive_loop (read_arrival client_buffer_size <$> arrivals) c = set_vc (Some v') c
       /\ queue (sendQueue v') = queue (sendQueue v) ++ data_packets (lastSendMessageId v) taken
       /\ lastSendMessageId v' = lastSendMessageId v + Z.of_nat (length taken))
  /\ (let taken := forwarded (read_until ends_server arrivals) in
     exists v', udp_thread (read_arrival server_buffer_size <$> arrivals) v = (v', negb (existsb ends_server arrivals))
       /\ queue (sendQueue v') = queue (sendQueue v) ++ data_packets (lastSendMessageId v) taken
       /\ lastSendMessageId v' = lastSendMessageId v + Z.of_nat (length taken)).
Proof.
  intros Hr Hv Hs Hroom. cbv zeta. split.
  - destruct (client_loop_takes arrivals c v Hr Hv Hs Hroom) as (v' & E & _ & Hi & Hq). by exists v'.
  - destruct (server_thread_takes arrivals v Hs Hroom) as (v' & E & _ & Hi & Hq). by exists v'.
Qed.

(** An empty datagram, legal in UDP, ends both loops: nothing after it is read. *)
Lemma empty_datagram_ends_forwarding rs c v :
  running c = true ->
  udp_receive_loop (read_arrival client_buffer_size (Datagram []) :: rs) c = c
  /\ udp_thread (read_arrival server_buffer_size (Datagram []) :: rs) v = (v, false).
Proof. intros Hr. cbn. by rewrite Hr. Qed.

(** ** The theorem at work: a datagram, one that is too long, an error, and an empty one *)

Definition ex_channel : Channel := open (newChannel 0 (seqZ 10 32) ∅ false).

Definition ex_client_up : Client := set_running true (set_vc (Some ex_channel) newClient).

Definition ex_arrivals : list arrival :=
  [Datagram [Byte.x01; Byte.x02]; Datagram (replicate 2300 Byte.x07); Failure EINTR; Datagram [Byte.x03]; Datagram [];
   Datagram [Byte.x04]].

Lemma datagrams_forwarded_whole_witness :
  exists v', udp_receive_loop (read_arrival client_buffer_size <$> ex_arrivals) ex_client_up = set_vc (Some v') ex_client_up
    /\ queue (sendQueue v') = [encode_data 0 [Byte.x01; Byte.x02]; encode_data 1 [Byte.x03]].
Proof.
  destruct (datagrams_forwarded_whole ex_arrivals ex_client_up ex_channel) as [H _].
  - reflexivity.
  - reflexivity.
  - apply sendable_open; [vm_compute; lia | reflexivity | split; cbn; lia].
  - split; [vm_compute; lia | cbn; lia].
  - destruct H as (v' & E & Hq & _). exists v'. split; [exact E|]. rewrite Hq. reflexivity.
Defined.
