(* ===== verification/Utilities.v ===== *)
(** * Small components (src/common/PerformanceCounter, Counter, QueueManager,
      DataNotifier, DataProcessorContext, DataProcessorThread, the factories)

    Classes beside the tunnel: timing statistics, an atomic counter, the
    per-client queues, callbacks, and a reader loop with its interfaces. *)

From stdpp Require Import pretty.
From S2P Require Import Prelude Bytes Socket TcpConnection BlockingQueue SentCache Channel Server Double Diagnostics.

#[local] Open Scope Z_scope.

(** ** PerformanceCounter *)

Module PerformanceCounter.

Record PerformanceCounter : Type := mkPerformanceCounter {
  minTime : double;
  maxTime : double;
  totalTime : double;
  callCount : Z;              (* int *)
  startTime : double;
}.

Definition newPerformanceCounter : PerformanceCounter :=
  mkPerformanceCounter DBL_MAX DBL_LOWEST (of_int 0) 0 (of_int 0).

(** The clock readings are arguments, in seconds. *)
Definition Enter (now : double) (p : PerformanceCounter) : PerformanceCounter :=
  mkPerformanceCounter (minTime p) (maxTime p) (totalTime p) (callCount p) now.

(** The flag tells whether the warning is printed. *)
Definition Exit (endTime : double) (p : PerformanceCounter) : PerformanceCounter * bool :=
  let elapsedTime := dsub endTime (startTime p) in
  (mkPerformanceCounter
     (if dlt elapsedTime (minTime p) then elapsedTime else minTime p)
     (if dlt (maxTime p) elapsedTime then elapsedTime else maxTime p)
     (dadd (totalTime p) elapsedTime) (callCount p + 1) (startTime p),
   dlt (lit 2 100) elapsedTime).

Definition GetMinTime (p : PerformanceCounter) : double := if 0 <? callCount p then minTime p else of_int 0.
Definition GetMaxTime (p : PerformanceCounter) : double := if 0 <? callCount p then maxTime p else of_int 0.
Definition GetAverageTime (p : PerformanceCounter) : double :=
  if 0 <? callCount p then ddiv (totalTime p) (of_int (callCount p)) else of_int 0.
Definition GetCallCount (p : PerformanceCounter) : Z := callCount p.

(** The line printed. *)
Definition Report (p : PerformanceCounter) : string :=
  ("PerformanceCounter Report: Calls: " +:+ pretty (GetCallCount p) +:+ ", Min Time: " +:+ fixed 6 (GetMinTime p)
   +:+ "s, Max Time: " +:+ fixed 6 (GetMaxTime p) +:+ "s, Avg Time: " +:+ fixed 6 (GetAverageTime p) +:+ "s")%string.

(** A call of the measured function: the two clock readings. *)
Definition call (t : double * double) (p : PerformanceCounter) : PerformanceCounter := (Exit t.2 (Enter t.1 p)).1.

Definition elapsed (t : double * double) : double := dsub t.2 t.1.

Lemma call_fields t p :
  callCount (call t p) = callCount p + 1
  /\ minTime (call t p) = (if dlt (elapsed t) (minTime p) then elapsed t else minTime p)
  /\ maxTime (call t p) = (if dlt (maxTime p) (elapsed t) then elapsed t else maxTime p).
Proof. done. Qed.

(** Elapsed times are finite: they lie strictly between the initial extremes. *)
Definition in_range (d : double) : Prop := dlt d DBL_MAX = true /\ dlt DBL_LOWEST d = true.

Lemma calls_extremes ts p :
  let p' := foldl (fun p t => call t p) p ts in
  callCount p' = callCount p + Z.of_nat (length ts)
  /\ (minTime p' = minTime p \/ minTime p' ∈ elapsed <$> ts)
  /\ (maxTime p' = maxTime p \/ maxTime p' ∈ elapsed <$> ts)
  /\ Forall (fun d => dlt d (minTime p') = false /\ dlt (maxTime p') d = false) (elapsed <$> ts)
  /\ (forall d, dlt d (minTime p') = true -> dlt d (minTime p) = true)
  /\ (forall d, dlt (maxTime p') d = true -> dlt (maxTime p) d = true).
Proof.
  revert p. induction ts as [|t ts IH]; intros p; cbn [foldl fmap list_fmap length].
  { split_and!; [lia | by left | by left | constructor | done | done]. }
  destruct (IH (call t p)) as (Hc & Hm & HM & Hf & H1 & H2). destruct (call_fields t p) as (Ec & Em & EM).
  rewrite Em in Hm. rewrite EM in HM.
  assert (Hmin : forall d, dlt d (minTime (call t p)) = true -> dlt d (minTime p) = true /\ dlt d (elapsed t) = true \/
                           dlt d (minTime p) = true /\ dlt (elapsed t) (minTime p) = false).
  { intros d. rewrite Em. destruct (dlt (elapsed t) (minTime p)) eqn:E; [|by right].
    intros Hd. left. split; [by eapply dlt_trans | done]. }
  assert (Hmax : forall d, dlt (maxTime (call t p)) d = true -> dlt (maxTime p) d = true /\ dlt (elapsed t) d = true \/
                           dlt (maxTime p) d = true /\ dlt (maxTime p) (elapsed t) = false).
  { intros d. rewrite EM. destruct (dlt (maxTime p) (elapsed t)) eqn:E; [|by right].
    intros Hd. left. split; [by eapply dlt_trans | done]. }
  split_and!.
  - rewrite Hc, Ec. lia.
  - destruct Hm as [->|Hm]; [|right; by right].
    destruct (dlt _ (minTime p)); [right; by left | by left].
  - destruct HM as [->|HM]; [|right; by right].
    destruct (dlt (maxTime p) _); [right; by left | by left].
  - constructor; [|done]. split; apply not_true_is_false; intros E.
    + apply H1, Hmin in E as [[_ E]|[E E']]; [by rewrite dlt_irrefl in E | congruence].
    + apply H2, Hmax in E as [[_ E]|[E E']]; [by rewrite dlt_irrefl in E | congruence].
  - intros d Hd%H1%Hmin. by destruct Hd as [[? _]|[? _]].
  - intros d Hd%H2%Hmax. by destruct Hd as [[? _]|[? _]].
Qed.

(** After any number of measured calls the counter reports the number of
    calls, a shortest and a longest of the elapsed times, as IEEE doubles; before
    the first one every getter returns 0. *)
Theorem counter_reports_extremes (ts : list (double * double)) :
  Forall in_range (elapsed <$> ts) ->
  let p := foldl (fun p t => call t p) newPerformanceCounter ts in
  GetCallCount p = Z.of_nat (length ts)
  /\ (ts <> [] ->
        GetMinTime p ∈ elapsed <$> ts /\ GetMaxTime p ∈ elapsed <$> ts
        /\ Forall (fun d => dlt d (GetMinTime p) = false /\ dlt (GetMaxTime p) d = false) (elapsed <$> ts))
  /\ (ts = [] -> GetMinTime p = of_int 0 /\ GetMaxTime p = of_int 0 /\ GetAverageTime p = of_int 0).
Proof.
  intros Hr p. destruct (calls_extremes ts newPerformanceCounter) as (Hc & Hm & HM & Hf & _).
  fold p in Hc, Hm, HM, Hf. cbn in Hc. unfold GetCallCount. split; [done|]. split; [|by intros ->].
  intros Hne. unfold GetMinTime, GetMaxTime. destruct (Z.ltb_spec 0 (callCount p)); [|destruct ts; cbn in *; done || lia].
  destruct ts as [|t ts]; [done|].
  assert (H0 : in_range (elapsed t)) by (by apply Forall_cons in Hr as [? _]). destruct H0 as [Hlo Hhi].
  assert (Hf0 := Hf). apply Forall_cons in Hf0 as [[Hf1 Hf2] _]. split_and!; [| |done].
  - destruct Hm as [E|?]; [|done]. rewrite E in Hf1. cbn in Hf1. congruence.
  - destruct HM as [E|?]; [|done]. rewrite E in Hf2. cbn in Hf2. congruence.
Qed.

Lemma report_example :
  Report (call (of_int 5, of_int 7) (call (of_int 1, of_int 2) newPerformanceCounter))
  = "PerformanceCounter Report: Calls: 2, Min Time: 1.000000s, Max Time: 2.000000s, Avg Time: 1.500000s"%string.
Proof. vm_compute. reflexivity. Qed.

(** Enter overwrites the start of an enclosing call: the outer Exit measures
    from the inner Enter. *)
Lemma nested_calls_lose_the_start (t1 t2 t3 t4 : double) (p : PerformanceCounter) :
  (Exit t4 (Exit t3 (Enter t2 (Enter t1 p))).1).1 = (Exit t4 (Exit t3 (Enter t2 p)).1).1.
Proof. reflexivity. Qed.

End PerformanceCounter.

(** ** Counter *)

Section counter.
(** The width of T, an unsigned type; each operation is one atomic access. *)
Context (w : Z) (Hw : 0 <= w).

Definition wrap (z : Z) : Z := z `mod` 2 ^ w.

Inductive counter_op : Type := GetAndIncrement | IncrementAndGet | Reset | Get.

(** The counter after the operation and the value returned. *)
Definition counter_step (o : counter_op) (count : Z) : Z * option Z :=
  match o with
  | GetAndIncrement => (wrap (count + 1), Some count)
  | IncrementAndGet => (wrap (count + 1), Some (wrap (count + 1)))
  | Reset => (0, None)
  | Get => (count, Some count)
  end.

Fixpoint counter_run (os : list counter_op) (count : Z) : Z * list (option Z) :=
  match os with
  | [] => (count, [])
  | o :: os =>
      let '(c1, v) := counter_step o count in
      let '(c2, vs) := counter_run os c1 in
      (c2, v :: vs)
  end.

Lemma wrap_wrap_add a b : wrap (wrap a + b) = wrap (a + b).
Proof. unfold wrap. by rewrite Zplus_mod_idemp_l. Qed.

Lemma tickets_values n count :
  counter_run (replicate n GetAndIncrement) (wrap count)
  = (wrap (count + Z.of_nat n), (fun i => Some (wrap (count + i))) <$> seqZ 0 (Z.of_nat n)).
Proof.
  revert count. induction n as [|n IH]; intros count.
  - cbn. by rewrite Z.add_0_r.
  - cbn [replicate counter_run counter_step]. rewrite wrap_wrap_add, IH. f_equal; [f_equal; lia|].
    rewrite (seqZ_cons 0 (Z.of_nat (S n))) by lia. rewrite fmap_cons, Z.add_0_r. f_equal.
    replace (Z.pred (Z.of_nat (S n))) with (Z.of_nat n) by lia.
    rewrite <- (fmap_add_seqZ 1 0), <- list_fmap_compose. apply list_fmap_ext. intros i x _. cbn. do 2 f_equal. lia.
Qed.

(** As many threads as T has values may take a number by getAndIncrement, in any
    order, and no two get the same one. *)
Theorem tickets_distinct (n : nat) (count : Z) :
  Z.of_nat n <= 2 ^ w -> NoDup (counter_run (replicate n GetAndIncrement) (wrap count)).2.
Proof.
  intros Hn. rewrite tickets_values. cbn [snd]. apply NoDup_fmap_2_strong; [|apply NoDup_seqZ].
  pose proof (Z.pow_pos_nonneg 2 w ltac:(lia) Hw) as Hp. intros x y Hx Hy [= E]. apply elem_of_seqZ in Hx, Hy. unfold wrap in E.
  assert (Hz : (x - y) `mod` 2 ^ w = 0).
  { replace (x - y) with ((count + x) - (count + y)) by lia. rewrite Zminus_mod, E, Z.sub_diag. apply Zmod_0_l. }
  apply Z.mod_divide in Hz as [k Hk]; [|lia]. destruct (decide (k = 0)) as [->|]; [lia|]. nia.
Qed.
End counter.

(** ** QueueManager *)

Module QueueManager.

Abbreviation queue := (BlockingQueue (list byte)).

(** The queues live in [heap]; the maps hold their addresses. *)
Record QueueManager : Type := mkQueueManager {
  tcpToUdpQueues : gmap Z nat;
  udpToTcpQueues : gmap Z nat;
  heap : gmap nat queue;
}.

Definition newQueueManager : QueueManager := mkQueueManager ∅ ∅ ∅.

(** make_shared takes a fresh address. *)
Definition getQueueForClient (clientId : Z) (queueMap : gmap Z nat) (h : gmap nat queue)
  : gmap Z nat * gmap nat queue * nat :=
  match queueMap !! clientId with
  | Some a => (queueMap, h, a)
  | None => let a := fresh (dom h : gset nat) in (<[clientId := a]> queueMap, <[a := newBlockingQueue]> h, a)
  end.

Definition getTcpToUdpQueueForClient (clientId : Z) (m : QueueManager) : QueueManager * nat :=
  let '(qm, h, a) := getQueueForClient clientId (tcpToUdpQueues m) (heap m) in
  (mkQueueManager qm (udpToTcpQueues m) h, a).

Definition getUdpToTcpQueueForClient (clientId : Z) (m : QueueManager) : QueueManager * nat :=
  let '(qm, h, a) := getQueueForClient clientId (udpToTcpQueues m) (heap m) in
  (mkQueueManager (tcpToUdpQueues m) qm h, a).

Inductive direction : Type := TcpToUdp | UdpToTcp.

#[export] Instance direction_eq_dec : EqDecision direction.
Proof. solve_decision. Defined.

Definition queues_of (d : direction) (m : QueueManager) : gmap Z nat :=
  match d with TcpToUdp => tcpToUdpQueues m | UdpToTcp => udpToTcpQueues m end.

Inductive qm_op : Type :=
| GetQueue (d : direction) (clientId : Z)
| UseQueue (a : nat) (f : queue -> queue).       (* any use of a queue by its holder *)

Definition run_qm_op (m : QueueManager) (o : qm_op) : QueueManager :=
  match o with
  | GetQueue TcpToUdp c => (getTcpToUdpQueueForClient c m).1
  | GetQueue UdpToTcp c => (getUdpToTcpQueueForClient c m).1
  | UseQueue a f => mkQueueManager (tcpToUdpQueues m) (udpToTcpQueues m) (alter f a (heap m))
  end.

(** The address a call would return now. *)
Definition address (d : direction) (c : Z) (m : QueueManager) : nat :=
  match d with TcpToUdp => (getTcpToUdpQueueForClient c m).2 | UdpToTcp => (getUdpToTcpQueueForClient c m).2 end.

Record qm_inv (m : QueueManager) : Prop := {
  qi_heap : forall d c a, queues_of d m !! c = Some a -> is_Some (heap m !! a);
  qi_inj : forall d1 c1 d2 c2 a, queues_of d1 m !! c1 = Some a -> queues_of d2 m !! c2 = Some a -> d1 = d2 /\ c1 = c2;
}.

Lemma newQueueManager_inv : qm_inv newQueueManager.
Proof. split; intros []; intros *; cbn; by rewrite lookup_empty. Qed.

(** One statement for both directions. *)
Lemma get_spec d c m :
  match queues_of d m !! c with
  | Some a => run_qm_op m (GetQueue d c) = m /\ address d c m = a
  | None =>
      let a := fresh (dom (heap m) : gset nat) in
      address d c m = a /\ heap m !! a = None
      /\ heap (run_qm_op m (GetQueue d c)) = <[a := newBlockingQueue]> (heap m)
      /\ forall d', queues_of d' (run_qm_op m (GetQueue d c))
                    = if decide (d' = d) then <[c := a]> (queues_of d' m) else queues_of d' m
  end.
Proof.
  assert (Hf : heap m !! fresh (dom (heap m) : gset nat) = None) by apply not_elem_of_dom, is_fresh.
  destruct d; cbn [queues_of run_qm_op address];
    unfold getTcpToUdpQueueForClient, getUdpToTcpQueueForClient, getQueueForClient;
    (match goal with |- context [?q !! c] => destruct (q !! c) as [a|] end; [by destruct m|]);
    (split_and!; [done | done | done | by intros []]).
Qed.

Lemma run_qm_op_inv m o : qm_inv m -> qm_inv (run_qm_op m o).
Proof.
  intros [Hh Hi]. destruct o as [d c|a f].
  - pose proof (get_spec d c m) as H. destruct (queues_of d m !! c) as [a|] eqn:E; [by destruct H as [-> _]|].
    cbv zeta in H. set (a := fresh _) in H. destruct H as (_ & Hfresh & Eh & Eq).
    assert (Hne : forall d' c' b, queues_of d' m !! c' = Some b -> b <> a).
    { intros d' c' b Hb ->. destruct (Hh _ _ _ Hb) as [x Hx]. congruence. }
    split.
    + intros d' c' b. rewrite Eq, Eh. intros Hb. destruct (decide (b = a)) as [->|]; [by rewrite lookup_insert_eq|].
      rewrite lookup_insert_ne by done. apply (Hh d' c').
      destruct (decide (d' = d)); [|done]. by apply lookup_insert_Some in Hb as [[_ ?]|[_ ?]].
    + intros d1 c1 d2 c2 b. rewrite !Eq.
      destruct (decide (d1 = d)) as [->|], (decide (d2 = d)) as [->|]; rewrite ?lookup_insert_Some; intros H1 H2;
        destruct_or?; destruct_and?; subst;
        first [ done | by (exfalso; eapply Hne; [eassumption|]) | by eapply Hi ].
  - split; destruct m as [t u h]; cbn in *; [|exact Hi].
    intros d c b Hb. apply lookup_alter_is_Some. by eapply (Hh d c).
Qed.

Lemma run_qm_ops_inv ops m : qm_inv m -> qm_inv (foldl run_qm_op m ops).
Proof. revert m. induction ops as [|o ops IH]; intros m H; [done|]. apply IH. by apply run_qm_op_inv. Qed.

(** A registered queue stays registered. *)
Lemma run_qm_op_keeps m o d c a : queues_of d m !! c = Some a -> queues_of d (run_qm_op m o) !! c = Some a.
Proof.
  intros Hd. destruct o as [d' c'|a' f]; [|by destruct d, m].
  pose proof (get_spec d' c' m) as H. destruct (queues_of d' m !! c') as [a'|] eqn:E; [by destruct H as [-> _]|].
  cbv zeta in H. destruct H as (_ & _ & _ & ->). destruct (decide (d = d')) as [->|]; [|done].
  rewrite lookup_insert_ne; [done | congruence].
Qed.

Lemma run_qm_ops_keep ops m d c a : queues_of d m !! c = Some a -> queues_of d (foldl run_qm_op m ops) !! c = Some a.
Proof. revert m. induction ops as [|o ops IH]; intros m H; [done|]. apply IH. by apply run_qm_op_keeps. Qed.

Lemma get_registers d c m : queues_of d (run_qm_op m (GetQueue d c)) !! c = Some (address d c m).
Proof.
  pose proof (get_spec d c m) as H. destruct (queues_of d m !! c) as [a|] eqn:E; [by destruct H as [-> ->]|].
  cbv zeta in H. destruct H as (-> & _ & _ & ->). rewrite decide_True by done. by rewrite lookup_insert_eq.
Qed.

(** C39. A client keeps its queue: whatever calls and queue operations come
    between, by whichever threads, the same direction and client always get the
    same queue object, and different ones never share one. *)
Theorem queues_are_separate (ops ops' : list qm_op) (d1 d2 : direction) (c1 c2 : Z) :
  let m1 := foldl run_qm_op newQueueManager ops in
  let m2 := foldl run_qm_op (run_qm_op m1 (GetQueue d1 c1)) ops' in
  address d1 c1 m2 = address d1 c1 m1
  /\ (address d1 c1 m2 = address d2 c2 m2 <-> d1 = d2 /\ c1 = c2)
  /\ is_Some (heap m2 !! address d1 c1 m2).
Proof.
  intros m1 m2.
  assert (Hinv : qm_inv m2) by (apply run_qm_ops_inv, run_qm_op_inv, run_qm_ops_inv, newQueueManager_inv).
  assert (Hreg : queues_of d1 m2 !! c1 = Some (address d1 c1 m1)) by (apply run_qm_ops_keep, get_registers).
  assert (Ha : address d1 c1 m2 = address d1 c1 m1).
  { pose proof (get_spec d1 c1 m2) as H. rewrite Hreg in H. by destruct H. }
  rewrite Ha. split_and!; [done | | by eapply (qi_heap m2 Hinv)].
  split; [|intros [<- <-]; by rewrite Ha]. intros E.
  pose proof (get_spec d2 c2 m2) as H. destruct (queues_of d2 m2 !! c2) as [a|] eqn:E2.
  - destruct H as [_ H]. rewrite H in E. subst a. by eapply (qi_inj m2 Hinv).
  - cbv zeta in H. destruct H as (H & Hfresh & _). rewrite H in E. destruct (qi_heap m2 Hinv _ _ _ Hreg) as [x Hx].
    rewrite E in Hx. congruence.
Qed.

End QueueManager.

(** ** DataNotifier *)

Module DataNotifier.

(** A listener is a function of the id and of what listeners change. *)
Definition DataNotifier (W : Type) : Type := list (Z -> W -> W).

Definition addListener {W} (listener : Z -> W -> W) (n : DataNotifier W) : DataNotifier W := n ++ [listener].

Definition onDataReceived {W} (id : Z) (n : DataNotifier W) (w : W) : W := foldl (fun w l => l id w) w n.

(** A new listener is called last. *)
Lemma new_listener_called_last {W} (id : Z) (l : Z -> W -> W) (n : DataNotifier W) (w : W) :
  onDataReceived id (addListener l n) w = l id (onDataReceived id n w).
Proof. unfold onDataReceived, addListener. by rewrite foldl_app. Qed.

End DataNotifier.

(** ** DataProcessorContext *)

Module DataProcessorContext.

(** The interface of the states; [S] is the state object. *)
Class DataProcessorState (S : Type) : Type := {
  state_processData : list byte -> S -> S;
  state_transitionToNextState : S -> S;
  state_getStateName : S -> string;
}.

Section context.
Context {S : Type} `{DataProcessorState S}.

Inductive runtime_error : Type := NoStateSet.

Definition DataProcessorContext : Type := option S.     (* currentState *)

Definition setState (state : option S) (_ : DataProcessorContext) : DataProcessorContext := state.

Definition processData (data : list byte) (c : DataProcessorContext) : DataProcessorContext + runtime_error :=
  match c with Some s => inl (Some (state_processData data s)) | None => inr NoStateSet end.

Definition transitionToNextState (c : DataProcessorContext) : DataProcessorContext + runtime_error :=
  match c with Some s => inl (Some (state_transitionToNextState s)) | None => inr NoStateSet end.

Definition getCurrentStateName (c : DataProcessorContext) : string :=
  match c with Some s => state_getStateName s | None => "No State Set" end.

(** The calls throw exactly without a state, and a call that does not throw
    leaves a context that has one. *)
Lemma context_throws_iff (data : list byte) (c : DataProcessorContext) :
  (processData data c = inr NoStateSet <-> c = None)
  /\ (transitionToNextState c = inr NoStateSet <-> c = None)
  /\ forall c', processData data c = inl c' \/ transitionToNextState c = inl c' -> c' <> None.
Proof. destruct c; cbn; naive_solver. Qed.
End context.
End DataProcessorContext.

(** ** DataProcessorThread *)

Module DataProcessorThread.

Inductive read_result : Type :=
| ReadNull
| ReadData (data : list byte)
| ReadThrows.

(** What the loop meets in one pass: whether another thread has cleared the
    flag, hasMoreData(), readData(), and whether processData() throws. *)
Record pass : Type := mkPass {
  ps_stopped : bool;
  ps_more : bool;
  ps_read : read_result;
  ps_throws : bool;
}.

(** [running] is the thread's flag, [LoopOn] a loop that has not ended. *)
Inductive run_end : Type := Returned | Caught | LoopOn.

(** The flag at the end, the data passed to the processor in order, and how
    run() ended; a caught exception clears the flag. *)
Fixpoint run (ps : list pass) (running : bool) : bool * list (list byte) * run_end :=
  match ps with
  | [] => (running, [], LoopOn)
  | p :: ps =>
      let running := running && negb (ps_stopped p) in
      if negb (running && ps_more p) then (running, [], Returned)
      else
        match ps_read p with
        | ReadThrows => (false, [], Caught)
        | ReadNull => run ps running
        | ReadData [] => run ps running
        | ReadData data =>
            if ps_throws p then (false, [data], Caught)
            else let '(r, ds, e) := run ps running in (r, data :: ds, e)
        end
  end.

(** The data a pass has for the processor. *)
Definition offered (p : pass) : option (list byte) :=
  match ps_read p with ReadData (x :: d) => Some (x :: d) | _ => None end.

(** The processor gets the non-empty blocks of the passes before the end, in
    order and none twice; the flag is cleared exactly by another thread or by an
    exception. *)
Lemma run_processes_in_order (ps : list pass) :
  let '(running, ds, e) := run ps true in
  exists k, ds = omap offered (take k ps)
    /\ (e = LoopOn -> k = length ps) /\ (e = Caught -> running = false)
    /\ (e = Returned -> exists p, ps !! k = Some p /\ (ps_stopped p = true \/ ps_more p = false)).
Proof.
  induction ps as [|p ps IH]; cbn [run]; [by exists 0%nat|]. cbn [andb].
  destruct (ps_stopped p) eqn:Est; cbn [negb andb].
  { exists 0%nat. split_and!; [done..|]. intros _. exists p. auto. }
  destruct (ps_more p) eqn:Em; cbn [negb].
  2: { exists 0%nat. split_and!; [done..|]. intros _. exists p. auto. }
  destruct (run ps true) as [[r ds] e]. destruct IH as (k & -> & H1 & H2 & H3).
  destruct (ps_read p) as [|[|x d]|] eqn:Er.
  - exists (S k). cbn. unfold offered at 2. rewrite Er. split_and!; [done | intros; f_equal; auto | done | done].
  - exists (S k). cbn. unfold offered at 2. rewrite Er. split_and!; [done | intros; f_equal; auto | done | done].
  - destruct (ps_throws p).
    + exists 1%nat. cbn. unfold offered. rewrite Er. split_and!; done.
    + exists (S k). cbn. unfold offered at 2. rewrite Er. split_and!; [done | intros; f_equal; auto | done | done].
  - exists 0%nat. split_and!; done.
Qed.

End DataProcessorThread.

(** ** VirtualChannel and the factories *)

Module Factories.

(** VirtualChannelFactory::create makes a TcpVirtualChannel on the sockets in
    their order; the callbacks are not set. *)
Definition VirtualChannelFactory_create (base : nat) (fds : list SocketFd) : Channel :=
  newChannel base fds ∅ false.

Definition TcpConnectionFactory_create (fd : SocketFd) : TcpConnection * list conn_event := newTcpConnection fd.

(** The receive and disconnect callbacks of the base class: the last one set. *)
Record VirtualChannel (W : Type) : Type := mkVirtualChannel {
  receiveCallback : option (list byte -> W -> W);
  disconnectCallback : option (W -> W);
}.
Arguments mkVirtualChannel {W}.
Arguments receiveCallback {W}.
Arguments disconnectCallback {W}.

Definition newVirtualChannel {W} : VirtualChannel W := mkVirtualChannel None None.

Definition setReceiveCallback {W} (f : option (list byte -> W -> W)) (v : VirtualChannel W) : VirtualChannel W :=
  mkVirtualChannel f (disconnectCallback v).
Definition setDisconnectCallback {W} (f : option (W -> W)) (v : VirtualChannel W) : VirtualChannel W :=
  mkVirtualChannel (receiveCallback v) f.

(** A channel from the factory is not open yet, and its slot [i] is a connection
    object on the [i]-th socket. *)
Lemma factory_channel (base : nat) (fds : list SocketFd) (i : nat) (fd : SocketFd) :
  fds !! i = Some fd ->
  opened (VirtualChannelFactory_create base fds) = false
  /\ slot_conn (VirtualChannelFactory_create base fds) i = Some (TcpConnectionFactory_create fd).1.
Proof. intros Hi. split; [done|]. by apply slot_conn_newChannel. Qed.

End Factories.
