(* ===== verification/Programs.v ===== *)
(** * The two programs (src/server/main.cpp, Server.h, Server::Listen, src/client/main.cpp)

    The server process around the accept loop of Server.v: its arguments, the
    listening socket, start, stop and the signal handler.  Of the client
    process: its signal handler, and PrepareVC of Client.v one connect at a time
    beside a second one.  As there, what the system returns is an argument and
    the calls made are a list of events. *)

From S2P Require Import Prelude Bytes VcProtocol Socket SocketSetup TcpConnection IoThread BlockingQueue SentCache.
From S2P Require Import Config Protocol Peers Channel Server Client.

#[local] Open Scope list_scope.
#[local] Open Scope Z_scope.

(** ** The server process *)

Module ServerMain.

Inductive event : Type :=
| EvSocketInit
| EvReuseAddress (fd : SocketFd)
| EvBind (fd : SocketFd) (port : Z)
| EvListen (fd : SocketFd)
| EvClose (fd : SocketFd)
| EvSleep (ms : Z)
| EvCleanup.

(** The Server object: the flag, the listening socket and what Server.v models. *)
Record Service : Type := mkService {
  running : bool;
  serverSocket : SocketFd;
  core : Server;
}.

(** [Server server;] at file scope: serverSocket has no initialiser and is zero. *)
Definition server : Service := mkService false 0 newServer.

Definition set_core (c : Server) (s : Service) : Service := mkService (running s) (serverSocket s) c.

Record listen_io : Type := mkListenIo { li_socket : SocketFd; li_bind : Z; li_listen : Z }.

Definition Listen (port : Z) (io : listen_io) (s : Service) : Service * list event * bool :=
  let fd := (SocketCreate Linux (li_socket io)).1 in
  let s1 := mkService (running s) fd (core s) in
  if fd =? -1 then (s1, [], false)
  else if (SocketBind (li_bind io)).1 <? 0
  then (s1, [EvReuseAddress fd; EvBind fd (u16 port); EvClose fd], false)
  else if SocketListen (li_listen io) <? 0
  then (s1, [EvReuseAddress fd; EvBind fd (u16 port); EvListen fd; EvClose fd], false)
  else (s1, [EvReuseAddress fd; EvBind fd (u16 port); EvListen fd], true).

(** [None]: the accept loop waits for the bind message of a connection.  The
    flag tells whether start() has returned. *)
Definition start (port : Z) (lio : listen_io) (ios : list accept_io) (s : Service)
  : option (Service * list event * bool) :=
  let '(s1, evs, ok) := Listen port lio (mkService true (serverSocket s) (core s)) in
  if negb ok then Some (s1, EvSocketInit :: evs, true)
  else
    match AcceptConnections ios (core s1) with
    | None => None
    | Some (c, closed, ctl) =>
        Some (set_core c s1, EvSocketInit :: evs ++ (EvClose <$> closed),
              match ctl with LoopBreak => true | LoopContinue => false end)
    end.

Definition stop (s : Service) : Service * list event :=
  (mkService false (-1) (core s),
   (if serverSocket s =? -1 then [] else [EvClose (serverSocket s)]) ++ [EvCleanup]).

(** Up to exit(0). *)
Definition signalHandler (s : Service) : Service * list event :=
  let c := core s in
  let '(ps, closed) := PeerManager.CloseAllSockets (peers c) in
  let '(s1, evs) := stop (set_core (mkServer (socketToConnId c) (clientConnSlots c) ps (vcs c) (channels c) (callbacks c)) s) in
  (s1, (EvClose <$> closed) ++ [EvSleep 4000] ++ evs).

Inductive status : Type :=
| Serving
| Exited (code : Z)
| Terminated.            (* an exception main does not catch *)

Definition set_target (port : Z) (io : accept_io) : accept_io :=
  mkAcceptIo (io_fd io) (io_recv io) (io_udp io) (io_udp_bound io) port (io_vc io) (io_addr io).

(** [throws]: an exception leaves the accept loop after [ios]. *)
Definition main (args : list string) (lio : listen_io) (ios : list accept_io) (throws : bool)
  : option (Service * list event * status) :=
  match server_args args with
  | PrintHelp => Some (server, [], Exited 0)
  | Throws => Some (server, [], Terminated)
  | Next (_, cfg) =>
      match start (server_portNumber cfg) lio (set_target (server_udpTargetPort cfg) <$> ios) server with
      | None => None
      | Some (s, evs, true) => Some (s, evs, Exited 0)
      | Some (s, evs, false) =>
          if throws then let '(s1, evs1) := stop s in Some (s1, evs ++ evs1, Exited 0)
          else Some (s, evs, Serving)
      end
  end.

(** ** The listening socket *)

Definition listen_ok (io : listen_io) : bool := (0 <=? li_socket io) && (0 <=? li_bind io) && (0 <=? li_listen io).

(** The descriptors closed, in order. *)
Definition closed (evs : list event) : list SocketFd :=
  omap (fun e => match e with EvClose fd => Some fd | _ => None end) evs.

Lemma closed_app e1 e2 : closed (e1 ++ e2) = closed e1 ++ closed e2.
Proof. apply omap_app. Qed.

Lemma closed_closes fds : closed (EvClose <$> fds) = fds.
Proof. induction fds as [|fd fds IH]; [done|]. cbn. by f_equal. Qed.

Lemma Listen_ok port io s :
  listen_ok io = true ->
  exists evs, Listen port io s = (mkService (running s) (li_socket io) (core s), evs, true) /\ closed evs = [].
Proof.
  intros H. unfold listen_ok in H. apply andb_true_iff in H as [[H1 H2]%andb_true_iff H3].
  unfold Listen, SocketCreate, SocketBind, SocketListen.
  destruct (Z.ltb_spec (li_socket io) 0); [lia|]. cbn [fst].
  destruct (Z.eqb_spec (li_socket io) (-1)); [lia|]. destruct (Z.ltb_spec (li_bind io) 0); [lia|].
  destruct (Z.ltb_spec (li_listen io) 0); [lia|]. by eexists.
Qed.

Lemma Listen_failed port io s :
  listen_ok io = false ->
  exists s1 evs, Listen port io s = (s1, evs, false) /\ core s1 = core s
    /\ closed evs = (if li_socket io <? 0 then [] else [li_socket io]).
Proof.
  intros H. unfold listen_ok in H. unfold Listen, SocketCreate, SocketBind, SocketListen.
  destruct (Z.ltb_spec (li_socket io) 0); [by do 2 eexists|]. cbn [fst].
  destruct (Z.eqb_spec (li_socket io) (-1)); [lia|]. destruct (Z.ltb_spec (li_bind io) 0); [by do 2 eexists|].
  destruct (Z.ltb_spec (li_listen io) 0); [by do 2 eexists|]. lia.
Qed.

(** What the server process comes to.  If the listening socket cannot be
    set up, it exits with status 0, nothing accepted and the descriptor closed
    once.  Otherwise it serves; it exits with status 0 when the accept loop is
    left, closing the listening socket after an exception but not after a break. *)
Theorem server_main_outcomes (args : list string) (lvl : LogLevel) (cfg : ServerConfiguration) (lio : listen_io)
  (ios : list accept_io) (throws : bool) :
  server_args args = Next (lvl, cfg) ->
  (listen_ok lio = false ->
     exists s evs, main args lio ios throws = Some (s, evs, Exited 0) /\ core s = newServer
       /\ closed evs = (if li_socket lio <? 0 then [] else [li_socket lio]))
  /\ (listen_ok lio = true -> forall c cl ctl,
        AcceptConnections (set_target (server_udpTargetPort cfg) <$> ios) newServer = Some (c, cl, ctl) ->
        exists s evs st, main args lio ios throws = Some (s, evs, st) /\ core s = c
          /\ match ctl, throws with
             | LoopBreak, _ => st = Exited 0 /\ closed evs = cl /\ serverSocket s = li_socket lio
             | LoopContinue, true => st = Exited 0 /\ closed evs = cl ++ [li_socket lio] /\ serverSocket s = -1
             | LoopContinue, false => st = Serving /\ closed evs = cl /\ serverSocket s = li_socket lio
             end).
Proof.
  intros Ha. unfold main, start. rewrite Ha. split.
  - intros Hl. destruct (Listen_failed (server_portNumber cfg) lio (mkService true 0 newServer) Hl) as (s1 & evs & E & Hc & Hcl).
    cbn [server serverSocket core]. rewrite E. cbn [negb]. do 2 eexists. split_and!; [done | by rewrite Hc | done].
  - intros Hl c cl ctl HA.
    destruct (Listen_ok (server_portNumber cfg) lio (mkService true 0 newServer) Hl) as (evs & E & Hcl).
    cbn [server serverSocket core]. rewrite E. cbn [negb core running]. rewrite HA.
    assert (Hpos : (li_socket lio =? -1) = false) by (unfold listen_ok in Hl; lia).
    destruct ctl; [destruct throws|]; cbn [stop set_core serverSocket]; rewrite ?Hpos; do 3 eexists;
      (split; [reflexivity|]); (split; [reflexivity|]); cbn [closed]; (split; [done|]);
      rewrite ?closed_app; cbn; rewrite ?closed_app, ?closed_closes, Hcl; done.
Qed.

(** ** Connections that stop the service *)

(** A recv that does not return leaves the server in its accept loop. *)
Lemma read_bind_waits io : io_recv io = [] -> read_bind (io_recv io) = None.
Proof. by intros ->. Qed.

(** One connection that sends nothing keeps every later client out: the accept
    loop waits for its bind message without a time limit. *)
Lemma silent_connection_blocks (ios1 ios2 : list accept_io) (io : accept_io) (s0 s : Server) (cl : list SocketFd) :
  AcceptConnections ios1 s0 = Some (s, cl, LoopContinue) -> 0 <= io_fd io -> io_recv io = [] ->
  AcceptConnections (ios1 ++ io :: ios2) s0 = None.
Proof.
  intros E Hfd Hr. rewrite AcceptConnections_app, E. cbn [AcceptConnections]. unfold accept_one.
  destruct (Z.ltb_spec (io_fd io) 0); [lia|]. by rewrite Hr.
Qed.

Lemma set_target_delivers port io bind : delivers io bind -> delivers (set_target port io) bind.
Proof. done. Qed.

(** The last of a client's 32 connections when no UDP socket can be had. *)
Lemma accept_one_no_udp client id pairs io s :
  is_u32 client -> is_u32 id -> id <> 0 -> accumulating client pairs s ->
  length pairs = 31%nat -> 0 <= io_fd io -> ~ (io_fd io ∈ pairs.*1) -> delivers io (mkMsgBind client (-1) id) ->
  io_udp io = -1 \/ io_udp_bound io = false ->
  exists s' closed vc, accept_one io s = Some (s', closed, LoopBreak)
    /\ vcs s' !! client = Some (io_vc io) /\ channels s' = <[io_vc io := vc]> (channels s) /\ opened vc = false.
Proof.
  intros Hc Hi Hz Ha Hl Hfd Hin Hd Hu.
  rewrite (accept_one_initial client io (io_fd io, id) s Hc (ac_vc _ _ _ Ha)) by (split_and!; done).
  destruct (accumulate_adds (io_fd io) (mkMsgBind client (-1) id) pairs s) as (s1 & peer & E & Es & Ha1);
    [done | done | rewrite Hl; unfold VC_TCP_CONNECTIONS; lia | done |].
  assert (Hch : channels s1 = channels s).
  { destruct (accumulate_spec (io_fd io) (mkMsgBind client (-1) id) s) as (p & s2c & cl & E' & _).
    rewrite E in E'. by injection E' as -> _ _. }
  unfold accept_new. cbn [snd]. rewrite E. unfold GetSocketCount. rewrite Es, length_fmap, length_app, Hl.
  cbn [Nat.leb VC_TCP_CONNECTIONS length Nat.add clientId connectionId].
  unfold build_channel. destruct (build_slot_map _ _ _ _) as [s2c sm].
  destruct (Z.eqb_spec (io_udp io) (-1)) as [|Hne].
  - do 3 eexists. split; [done|]. cbn [vcs channels]. unfold VcManager.Add. rewrite lookup_insert_eq, Hch.
    split_and!; [done | reflexivity | done].
  - destruct Hu as [|Hb]; [done|]. rewrite Hb. cbn [negb].
    do 3 eexists. split; [done|]. cbn [vcs channels]. unfold VcManager.Add. rewrite lookup_insert_eq, Hch.
    split_and!; [done | reflexivity | done].
Qed.

(** C38. One client can end the service of all.  When no UDP socket can be created
    or bound for a client whose 32nd connection arrives, [break] leaves the accept
    loop and main returns 0, whatever connections follow: the other clients'
    channels are as they were, in a process that ends, and the client's own
    channel is registered but was never opened. *)
Theorem missing_udp_socket_ends_server (args : list string) (lvl : LogLevel) (cfg : ServerConfiguration)
  (lio : listen_io) (ios1 ios2 : list accept_io) (io : accept_io) (throws : bool) (s : Server)
  (cl : list SocketFd) (client id : Z) (pairs : list (SocketFd * Z)) :
  server_args args = Next (lvl, cfg) -> listen_ok lio = true ->
  AcceptConnections (set_target (server_udpTargetPort cfg) <$> ios1) newServer = Some (s, cl, LoopContinue) ->
  is_u32 client -> is_u32 id -> id <> 0 -> accumulating client pairs s -> length pairs = 31%nat ->
  0 <= io_fd io -> ~ (io_fd io ∈ pairs.*1) -> delivers io (mkMsgBind client (-1) id) ->
  io_udp io = -1 \/ io_udp_bound io = false ->
  exists s' evs v, main args lio (ios1 ++ io :: ios2) throws = Some (s', evs, Exited 0)
    /\ (forall vc, vc <> io_vc io -> channels (core s') !! vc = channels s !! vc)
    /\ vcs (core s') !! client = Some (io_vc io) /\ channels (core s') !! io_vc io = Some v /\ opened v = false.
Proof.
  intros Ha Hl HA Hc Hi Hz Hac Hlen Hfd Hin Hd Hu.
  destruct (accept_one_no_udp client id pairs (set_target (server_udpTargetPort cfg) io) s Hc Hi Hz Hac Hlen Hfd Hin Hd Hu)
    as (s1 & cl1 & v & E1 & Hv & Hch & Ho).
  destruct (server_main_outcomes args lvl cfg lio (ios1 ++ io :: ios2) throws Ha) as [_ Hmain].
  destruct (Hmain Hl s1 (cl ++ cl1) LoopBreak) as (s' & evs & st & E & Hs & -> & _ & _).
  { rewrite fmap_app, fmap_cons, AcceptConnections_app, HA. cbn [AcceptConnections]. by rewrite E1. }
  exists s', evs, v. split; [done|]. rewrite Hs, Hch. split_and!; [| done | apply lookup_insert_eq | done].
  intros vc Hne. by apply lookup_insert_ne.
Qed.

(** ** Signals *)

(** The handler closes every descriptor of every registered peer and the
    listening one, and nothing else, and forgets them. *)
Theorem signal_closes_everything (s : Service) :
  serverSocket s <> -1 ->
  let r := signalHandler s in
  (forall fd, fd ∈ closed r.2 <->
     fd = serverSocket s \/ exists client p, peers (core s) !! client = Some p /\ (fd ∈ sockets p \/ fd = udpSocket p))
  /\ peers (core r.1) = ∅ /\ serverSocket r.1 = -1 /\ running r.1 = false.
Proof.
  intros Hne r. unfold r, signalHandler, stop. cbn [PeerManager.CloseAllSockets set_core serverSocket core].
  destruct (Z.eqb_spec (serverSocket s) (-1)); [done|]. cbn [fst snd]. split_and!; [|done..].
  intros fd. rewrite !closed_app, closed_closes. cbn. rewrite elem_of_app, list_elem_of_singleton, (list_elem_of_In (concat _)), in_concat.
  split.
  - intros [(l & Hl & Hfd)|?]; [right|by left].
    apply list_elem_of_In in Hfd. apply list_elem_of_In in Hl. apply list_elem_of_fmap in Hl as ([client p] & -> & Hp).
    apply elem_of_map_to_list in Hp. cbn in Hfd. exists client, p. split; [done|].
    apply elem_of_app in Hfd as [?|?%list_elem_of_singleton]; auto.
  - intros [?|(client & p & Hp & Hfd)]; [by right|left]. exists (sockets p ++ [udpSocket p]). rewrite <- !list_elem_of_In. split.
    2: apply elem_of_app; destruct Hfd as [?| ->]; [by left | right; by left].
    apply list_elem_of_fmap. exists (client, p). split; [done|]. by apply elem_of_map_to_list.
Qed.

(** A signal that arrives before Listen has run closes descriptor 0. *)
Lemma early_signal_closes_stdin : closed (signalHandler server).2 = [0].
Proof. reflexivity. Qed.

(** After a Listen that failed, stop() closes the descriptor a second time. *)
Lemma stop_after_failed_listen port io s :
  listen_ok io = false -> 0 <= li_socket io ->
  let '(s1, evs, _) := Listen port io s in closed (evs ++ (stop s1).2) = [li_socket io; li_socket io].
Proof.
  intros H Hs. unfold listen_ok in H. unfold Listen, SocketCreate, SocketBind, SocketListen.
  destruct (Z.ltb_spec (li_socket io) 0); [lia|]. cbn [fst].
  assert (E : (li_socket io =? -1) = false) by lia. rewrite E.
  destruct (Z.ltb_spec (li_bind io) 0).
  { unfold stop. cbn [serverSocket]. by rewrite E. }
  destruct (Z.ltb_spec (li_listen io) 0); [|lia]. unfold stop. cbn [serverSocket]. by rewrite E.
Qed.

End ServerMain.

(** ** The client process

    main calls Start in an endless loop, one second apart, and Stop when Start
    throws; Start and Stop are in Client.v. *)

Module ClientMain.

(** SIGINT and the like, had main installed it; then exit(0). *)
Definition signalHandler (c : Client) : Client := Stop c.

(** *** Two PrepareVC at once

    main's loop calls Start again after one that failed to bind its UDP socket,
    while the detached thread of the disconnect callback may still be in
    ReconnectVC: both then run PrepareVC, on the same members.  A step is the
    teardown, one connect, the creation and opening of the channel, or
    StartWatchdog. *)

Inductive prepare_pc : Type :=
| Tearing
| Connecting (i : nat)
| Guarding                     (* before StartWatchdog *)
| Finished (ok : bool).

(** One round of the connect loop: the descriptors it closes, and whether it
    succeeded; on failure the teardown is done. *)
Definition connect_one (cid : Z) (x : connect_io) (c : Client) : Client * list SocketFd * bool :=
  let fd := ci_socket x in
  if fd =? -1 then let '(c', closed) := TeardownVc c in (c', closed, false)
  else if ci_connect x <? 0 then let '(c', closed) := TeardownVc c in (c', fd :: closed, false)
  else
    let connId := nextConnectionId c in
    let c1 := set_bookkeeping (tcpSockets c) (tcpConnectionIds c) (u32 (connId + 1)) c in
    if SendTcpData (ci_send x) <=? 0
    then let '(c', closed) := TeardownVc c1 in (c', fd :: closed, false)
    else (set_bookkeeping (tcpSockets c1 ++ [fd]) (tcpConnectionIds c1 ++ [connId]) (nextConnectionId c1) c1, [], true).

(** [None]: the assertion in StartWatchdog failed. *)
Definition prepare_step (cid : Z) (io : nat -> connect_io) (pc : prepare_pc) (c : Client)
  : option (prepare_pc * Client * list SocketFd) :=
  match pc with
  | Tearing => let '(c', closed) := TeardownVc c in Some (Connecting 0, c', closed)
  | Connecting i =>
      if (i <? VC_TCP_CONNECTIONS)%nat then
        let '(c', closed, ok) := connect_one cid (io i) c in
        Some (if ok then Connecting (S i) else Finished false, c', closed)
      else
        let newVc := setDisconnectCallback (newChannel 0 (tcpSockets c) ∅ false) in
        Some (Guarding, set_vc (Some (open newVc)) c, [])
  | Guarding => c' ← StartWatchdog c; Some (Finished true, c', [])
  | Finished _ => Some (pc, c, [])
  end.

Fixpoint run_prepare (cid : Z) (io : nat -> connect_io) (n : nat) (pc : prepare_pc) (c : Client)
  : option (prepare_pc * Client * list SocketFd) :=
  match n with
  | O => Some (pc, c, [])
  | S n =>
      '(pc1, c1, closed1) ← prepare_step cid io pc c;
      '(pc2, c2, closed2) ← run_prepare cid io n pc1 c1;
      Some (pc2, c2, closed1 ++ closed2)
  end.

(** Two threads; the schedule says whose step is next. *)
Fixpoint run_both (cid : Z) (ioA ioB : nat -> connect_io) (sched : list bool) (pa pb : prepare_pc) (c : Client)
  : option (prepare_pc * prepare_pc * Client) :=
  match sched with
  | [] => Some (pa, pb, c)
  | true :: sched => '(pa', c', _) ← prepare_step cid ioA pa c; run_both cid ioA ioB sched pa' pb c'
  | false :: sched => '(pb', c', _) ← prepare_step cid ioB pb c; run_both cid ioA ioB sched pa pb' c'
  end.

(** Teardown, 32 connects, the channel and the watchdog. *)
Definition prepare_steps : nat := 35.

Lemma connect_loop_one cid io n i c :
  (connect_loop cid io (S n) i c).1.1.1
    = (let '(c1, _, ok) := connect_one cid (io i) c in if ok then (connect_loop cid io n (i + 1) c1).1.1.1 else c1)
  /\ (connect_loop cid io (S n) i c).1.1.2
    = (let '(c1, closed, ok) := connect_one cid (io i) c in if ok then (connect_loop cid io n (i + 1) c1).1.1.2 else closed)
  /\ (connect_loop cid io (S n) i c).2
    = (let '(c1, _, ok) := connect_one cid (io i) c in if ok then (connect_loop cid io n (i + 1) c1).2 else false).
Proof.
  cbn [connect_loop]. unfold connect_one, TeardownVc. cbv zeta.
  destruct (_ =? -1); [done|]. destruct (_ <? 0); [done|]. destruct (_ <=? 0); [done|].
  match goal with |- context [connect_loop cid io n (i + 1) ?c2] => destruct (connect_loop cid io n (i + 1) c2) as [[[? ?] ?] ?] end.
  done.
Qed.

Lemma run_finished cid io n ok c : run_prepare cid io n (Finished ok) c = Some (Finished ok, c, []).
Proof. induction n as [|n IH]; [done|]. cbn [run_prepare prepare_step]. cbn. by rewrite IH. Qed.

(** Alone, the steps are PrepareVC. *)
Lemma prepare_alone cid io c c' closed sent ok :
  PrepareVC cid io c = Some (c', closed, sent, ok) ->
  run_prepare cid io prepare_steps Tearing c = Some (Finished ok, c', closed).
Proof.
  assert (Hloop : forall n i c, (i + n = VC_TCP_CONNECTIONS)%nat ->
    run_prepare cid io (S (S n)) (Connecting i) c
    = (if (connect_loop cid io n i c).2 then
         c2 ← StartWatchdog (set_vc (Some (open (setDisconnectCallback
                (newChannel 0 (tcpSockets (connect_loop cid io n i c).1.1.1) ∅ false)))) (connect_loop cid io n i c).1.1.1);
         Some (Finished true, c2, (connect_loop cid io n i c).1.1.2)
       else Some (Finished false, (connect_loop cid io n i c).1.1.1, (connect_loop cid io n i c).1.1.2))).
  { clear. intros n. induction n as [|n IH]; intros i c Hi.
    - rewrite Nat.add_0_r in Hi. subst i. cbn [run_prepare prepare_step]. rewrite Nat.ltb_irrefl. cbn.
      by destruct (StartWatchdog _).
    - destruct (connect_loop_one cid io n i c) as (E1 & E2 & E3). rewrite E1, E2, E3. clear E1 E2 E3.
      set (m := S (S n)). cbn [run_prepare prepare_step].
      destruct (Nat.ltb_spec i VC_TCP_CONNECTIONS); [|lia].
      assert (Hone : (connect_one cid (io i) c).2 = true -> (connect_one cid (io i) c).1.2 = []).
      { unfold connect_one, TeardownVc. destruct (_ =? -1); [done|]. destruct (_ <? 0); [done|]. by destruct (_ <=? 0). }
      destruct (connect_one cid (io i) c) as [[c1 cl] []]; cbn [fst snd] in Hone; cbn [mbind option_bind].
      + rewrite Hone by done. unfold m. rewrite (IH (S i) c1) by lia. rewrite Nat.add_1_r.
        destruct (connect_loop cid io n (S i) c1) as [[[c2 cl2] se] []]; cbn [fst snd]; [|done].
        by destruct (StartWatchdog _).
      + rewrite run_finished. cbn. by rewrite app_nil_r. }
  unfold PrepareVC, prepare_steps. intros Hp. change 35%nat with (S (S (S VC_TCP_CONNECTIONS))).
  remember (S (S VC_TCP_CONNECTIONS)) as m. cbn [run_prepare prepare_step]. subst m.
  destruct (TeardownVc c) as [c0 closed0]. cbn [mbind option_bind].
  rewrite Hloop by done. destruct (connect_loop cid io VC_TCP_CONNECTIONS 0 c0) as [[[c1 cl1] se] []]; cbn [fst snd negb] in *.
  - destruct (StartWatchdog _) as [c2|]; [|done]. by injection Hp as <- <- _ <-.
  - by injection Hp as <- <- _ <-.
Qed.

(** Past its teardown no thread joins the watchdog again, unless it fails. *)
Record both_inv (pa pb : prepare_pc) (c : Client) : Prop := {
  bi_a : pa <> Tearing;
  bi_b : pb <> Tearing;
  bi_guarded_a : pa = Finished true -> pb = Finished false \/ watchdogJoinable c = true;
  bi_guarded_b : pb = Finished true -> pa = Finished false \/ watchdogJoinable c = true;
  bi_one : ~ (pa = Finished true /\ pb = Finished true);
}.

Lemma both_inv_sym pa pb c : both_inv pa pb c -> both_inv pb pa c.
Proof. intros [H1 H2 H3 H4 H5]. constructor; try done. naive_solver. Qed.

Lemma both_inv_step cid io pa pb c pa' c' cl :
  both_inv pa pb c -> prepare_step cid io pa c = Some (pa', c', cl) -> both_inv pa' pb c'.
Proof.
  intros [H1 H2 H3 H4 H5] Hs. destruct pa as [|i| |ok]; cbn [prepare_step] in Hs; [done| | |].
  - destruct (i <? VC_TCP_CONNECTIONS)%nat.
    + destruct (connect_one cid (io i) c) as [[c1 cl1] []] eqn:E; injection Hs as <- <- <-.
      * assert (Ej : watchdogJoinable c1 = watchdogJoinable c).
        { revert E. unfold connect_one, TeardownVc. destruct (_ =? -1); [done|]. destruct (_ <? 0); [done|].
          destruct (_ <=? 0); [done|]. by intros [= <- _]. }
        constructor; try done; rewrite ?Ej; naive_solver.
      * constructor; try done; naive_solver.
    + injection Hs as <- <- <-. constructor; try done; cbn; naive_solver.
  - unfold StartWatchdog in Hs. destruct (watchdogJoinable c) eqn:Ej; [done|]. injection Hs as <- <- <-.
    assert (Hb : pb <> Finished true) by (intros Hb; by destruct (H4 Hb)).
    constructor; try done; cbn; naive_solver.
  - injection Hs as <- <- <-. by constructor.
Qed.

Definition steps_left (pc : prepare_pc) : nat :=
  match pc with Tearing => 35 | Connecting i => 34 - i | Guarding => 1 | Finished _ => 0 end.

(** With every connect up, a thread comes nearer to its end and does not fail. *)
Definition on_course (pc : prepare_pc) : Prop :=
  match pc with Connecting i => (i <= VC_TCP_CONNECTIONS)%nat | Finished ok => ok = true | _ => True end.

Lemma prepare_step_progress cid io pc c pc' c' cl :
  (forall k, (k < VC_TCP_CONNECTIONS)%nat -> connect_ok (io k) = true) -> on_course pc ->
  prepare_step cid io pc c = Some (pc', c', cl) -> on_course pc' /\ steps_left pc' = pred (steps_left pc).
Proof.
  intros Hok Hc Hs. destruct pc as [|i| |ok]; cbn [prepare_step] in Hs.
  - injection Hs as <- <- <-. cbn. unfold VC_TCP_CONNECTIONS. by split; [lia|].
  - destruct (Nat.ltb_spec i VC_TCP_CONNECTIONS) as [Hi|Hi].
    + specialize (Hok i Hi). unfold connect_ok in Hok. apply andb_true_iff in Hok as [[H1 H2]%andb_true_iff H3].
      unfold connect_one in Hs. destruct (Z.eqb_spec (ci_socket (io i)) (-1)); [done|].
      destruct (Z.ltb_spec (ci_connect (io i)) 0); [lia|]. destruct (Z.leb_spec (SendTcpData (ci_send (io i))) 0); [lia|].
      injection Hs as <- <- <-. cbn in *. split; lia.
    + injection Hs as <- <- <-. cbn in *. unfold VC_TCP_CONNECTIONS in *. split; [done|]. replace i with 32%nat by lia. done.
  - apply bind_Some in Hs as (c2 & _ & [= <- <- <-]). done.
  - by injection Hs as <- <- <-.
Qed.

(** C22. Two PrepareVC that overlap end the process.  Once both threads are past
    their teardown, in whatever order they then connect, open their channels and
    start their watchdogs, they never both succeed; and if every connect and bind
    succeeds, any order that lets both finish runs StartWatchdog over the other
    thread's joinable watchdog, whose assertion fails.  Alone, the steps are
    PrepareVC ([prepare_alone]), which always ends (Client.prepare_all_or_nothing). *)
Theorem overlapping_prepares_abort (cid : Z) (ioA ioB : nat -> connect_io) (sched : list bool) (c : Client) :
  (forall pa pb c', run_both cid ioA ioB sched (Connecting 0) (Connecting 0) c = Some (pa, pb, c') ->
     ~ (pa = Finished true /\ pb = Finished true))
  /\ ((forall k, (k < VC_TCP_CONNECTIONS)%nat -> connect_ok (ioA k) = true) ->
      (forall k, (k < VC_TCP_CONNECTIONS)%nat -> connect_ok (ioB k) = true) ->
      (prepare_steps <= count_occ bool_dec sched true)%nat -> (prepare_steps <= count_occ bool_dec sched false)%nat ->
      run_both cid ioA ioB sched (Connecting 0) (Connecting 0) c = None).
Proof.
  assert (H0 : both_inv (Connecting 0) (Connecting 0) c) by (constructor; naive_solver).
  assert (Hinv : forall sched pa pb c pa' pb' c', both_inv pa pb c ->
    run_both cid ioA ioB sched pa pb c = Some (pa', pb', c') -> both_inv pa' pb' c').
  { clear. intros sched. induction sched as [|[] sched IH]; intros pa pb c pa' pb' c' Hi Hr; cbn [run_both] in Hr.
    - by injection Hr as <- <- <-.
    - apply bind_Some in Hr as ([[pa1 c1] cl] & E & Hr). eapply IH; [|exact Hr]. by eapply both_inv_step.
    - apply bind_Some in Hr as ([[pb1 c1] cl] & E & Hr). eapply IH; [|exact Hr].
      apply both_inv_sym. eapply both_inv_step; [by apply both_inv_sym | exact E]. }
  split.
  { intros pa pb c' Hr. by apply (bi_one _ _ _ (Hinv _ _ _ _ _ _ _ H0 Hr)). }
  intros Ha Hb Hna Hnb. destruct (run_both _ _ _ _ _ _ _) as [[[pa pb] c']|] eqn:Hr; [exfalso|done].
  apply (bi_one _ _ _ (Hinv _ _ _ _ _ _ _ H0 Hr)).
  assert (Hp : forall sched pa pb c pa' pb' c', on_course pa -> on_course pb ->
    run_both cid ioA ioB sched pa pb c = Some (pa', pb', c') ->
    on_course pa' /\ on_course pb' /\ steps_left pa' = (steps_left pa - count_occ bool_dec sched true)%nat
    /\ steps_left pb' = (steps_left pb - count_occ bool_dec sched false)%nat).
  { clear -Ha Hb. intros sched. induction sched as [|[] sched IH]; intros pa pb c pa' pb' c' Oa Ob Hr; cbn [run_both] in Hr.
    - injection Hr as <- <- <-. cbn. split_and!; [done | done | lia | lia].
    - apply bind_Some in Hr as ([[pa1 c1] cl] & E & Hr). destruct (prepare_step_progress _ _ _ _ _ _ _ Ha Oa E) as [O1 E1].
      destruct (IH _ _ _ _ _ _ O1 Ob Hr) as (? & ? & E2 & E3). cbn. split_and!; [done | done | lia | done].
    - apply bind_Some in Hr as ([[pb1 c1] cl] & E & Hr). destruct (prepare_step_progress _ _ _ _ _ _ _ Hb Ob E) as [O1 E1].
      destruct (IH _ _ _ _ _ _ Oa O1 Hr) as (? & ? & E2 & E3). cbn. split_and!; [done | done | done | lia]. }
  destruct (Hp sched (Connecting 0) (Connecting 0) c pa pb c') as (Oa & Ob & Ea & Eb); [by cbn; lia..|exact Hr|].
  unfold prepare_steps in *. cbn in Ea, Eb.
  assert (Hfin : forall pc, on_course pc -> steps_left pc = 0%nat -> pc = Finished true).
  { intros [|i| |ok] Ho Hs; cbn in *; try done; [unfold VC_TCP_CONNECTIONS in Ho; lia | by subst]. }
  split; apply Hfin; done || lia.
Qed.

(** The client a round leaves has no channel sockets of its own to close. *)
Definition nothing_owned (c : Client) : Prop := client_vc c = None -> tcpSockets c = [].

Lemma TeardownVc_owned c : nothing_owned c -> (TeardownVc c).2 = [].
Proof.
  unfold nothing_owned, TeardownVc, StopWatchdog. cbn [client_vc set_watchdog tcpSockets].
  destruct (client_vc c); [done|]. intros H. by rewrite H.
Qed.

Lemma udp_receive_loop_keeps rs c udp :
  client_vc c <> None -> client_udpSocket c = udp ->
  client_vc (udp_receive_loop rs c) <> None /\ client_udpSocket (udp_receive_loop rs c) = udp.
Proof.
  revert c. induction rs as [|[[|x d]|e] rs IH]; intros c Hv Hu; [done|..]; cbn [udp_receive_loop];
    (destruct (negb (running c)); [done|]); [done| |by apply IH].
  destruct (client_vc c) as [v|] eqn:Ev; [|done]. destruct (isOpen v); [|by apply IH; rewrite ?Ev].
  destruct (send (Some (x :: d)) v) as [[v' o]|]; [|by rewrite Ev]. by apply IH.
Qed.

(** The UDP socket of a round is never closed: after the restart its number is
    overwritten by that of a new one. *)
Theorem restart_leaks_udp_socket (cid : Z) (io : nat -> connect_io) (udp b : Z) (c : Client) (rs : list os_recv) :
  (forall k, (k < VC_TCP_CONNECTIONS)%nat -> connect_ok (io k) = true) ->
  udp <> -1 -> 0 <= b -> nothing_owned c ->
  exists c' sent, Start cid io udp b rs c = Some (c', [], sent, true)
    /\ nothing_owned (Stop c') /\ client_udpSocket (Stop c') = udp.
Proof.
  intros Hok Hu Hb Hn. unfold Start.
  destruct (PrepareVC_success cid io (set_running true c) Hok) as (c1 & v & E & Hv & _).
  rewrite E. assert (Et : (TeardownVc (set_running true c)).2 = []) by (by apply TeardownVc_owned).
  rewrite Et. unfold PrepareUdpSocket. destruct (Z.eqb_spec udp (-1)); [done|]. destruct (Z.ltb_spec b 0); [lia|].
  do 2 eexists. split; [done|].
  assert (Hk : client_vc (udp_receive_loop rs (set_udp udp c1)) <> None
              /\ client_udpSocket (udp_receive_loop rs (set_udp udp c1)) = udp).
  { apply udp_receive_loop_keeps; [|done]. cbn. by rewrite Hv. }
  destruct Hk as [Hvc Hud]. split; [|exact Hud]. unfold nothing_owned, Stop. cbn.
  destruct (client_vc (udp_receive_loop rs (set_udp udp c1))); done.
Qed.

End ClientMain.

(** ** The theorems at work *)

Import ServerMain.

Definition ex_listen : listen_io := mkListenIo 3 0 0.
Definition ex_port_taken : listen_io := mkListenIo 3 (-1) 0.

Lemma server_main_outcomes_witness :
  (exists s evs, main ["--port=9000"%string] ex_port_taken [] false = Some (s, evs, Exited 0) /\ closed evs = [3])
  /\ exists s evs st, main ["--port=9000"%string] ex_listen [] true = Some (s, evs, st) /\ st = Exited 0 /\ closed evs = [3].
Proof.
  destruct (server_args ["--port=9000"%string]) as [[lvl cfg]| |] eqn:Ea; [|discriminate|discriminate]. split.
  - destruct (server_main_outcomes _ lvl cfg ex_port_taken [] false Ea) as [H _].
    destruct (H eq_refl) as (s & evs & E & _ & Hc). exists s, evs. split; [exact E | exact Hc].
  - destruct (server_main_outcomes _ lvl cfg ex_listen [] true Ea) as [_ H].
    destruct (H eq_refl newServer [] LoopContinue eq_refl) as (s & evs & st & E & _ & Hst & Hc & _).
    exists s, evs, st. split; [exact E|]. split; [exact Hst | exact Hc].
Defined.

(** 31 connections of client 7, and the last without a UDP socket for it. *)
Definition ex_first : list (SocketFd * Z) := take 31 ex_pairs.

Definition ex_last : accept_io :=
  mkAcceptIo 41 [RecvOk (AppendMsgBind [Byte.x00; Byte.x00; Byte.x00] (mkMsgBind 7 (-1) 32) [])] (-1) false 0 0 100.

Lemma ex_first_accepted port :
  exists s, AcceptConnections (set_target port <$> (ex_io <$> ex_first)) newServer = Some (s, [], LoopContinue)
    /\ accumulating 7 ex_first s.
Proof.
  apply (accept_accumulates 7 (set_target port <$> (ex_io <$> ex_first)) ex_first [] newServer).
  - split; cbn; lia.
  - pose proof (ex_initial_connects ex_first) as H. unfold initial_connects in *. apply Forall2_fmap_l.
    eapply Forall2_impl; [apply H | intros io p Hp; exact Hp].
    apply Forall_take, ex_pairs_valid.
  - constructor; try reflexivity. intros fd id []%not_elem_of_nil.
  - cbn [length Nat.add]. vm_compute. lia.
  - apply (bool_decide_unpack _). vm_compute. exact I.
Qed.

Lemma missing_udp_socket_ends_server_witness :
  exists s evs, main [] ex_listen ((ex_io <$> ex_first) ++ ex_last :: []) false = Some (s, evs, Exited 0)
    /\ vcs (core s) !! 7 = Some 0%nat.
Proof.
  destruct (ex_first_accepted 7001) as (s & E & Ha).
  destruct (missing_udp_socket_ends_server [] LOG_INFO defaultServerConfiguration ex_listen (ex_io <$> ex_first) []
              ex_last false s [] 7 32 ex_first) as (s' & evs & v & Em & _ & Hv & _).
  - reflexivity.
  - reflexivity.
  - exact E.
  - split; cbn; lia.
  - split; cbn; lia.
  - discriminate.
  - exact Ha.
  - reflexivity.
  - discriminate.
  - apply (bool_decide_unpack _). vm_compute. exact I.
  - exists [Byte.x00; Byte.x00; Byte.x00], [AppendMsgBind [Byte.x00; Byte.x00; Byte.x00] (mkMsgBind 7 (-1) 32) []].
    split_and!; [done | by repeat constructor | by cbn | done].
  - left. reflexivity.
  - exists s', evs. split; [exact Em | exact Hv].
Defined.

(** Two threads in turn, every connect up. *)
Definition turns : list bool := concat (replicate 35 [true; false]).

Lemma overlapping_prepares_abort_witness :
  ClientMain.run_both 7 (ex_connects 100) (ex_connects 200) turns (ClientMain.Connecting 0) (ClientMain.Connecting 0) newClient = None.
Proof.
  apply (ClientMain.overlapping_prepares_abort 7 (ex_connects 100) (ex_connects 200) turns newClient).
  - intros k _. unfold connect_ok. cbn -[Z.add Z.eqb]. destruct (Z.eqb_spec (100 + Z.of_nat k) (-1)); [lia | done].
  - intros k _. unfold connect_ok. cbn -[Z.add Z.eqb]. destruct (Z.eqb_spec (200 + Z.of_nat k) (-1)); [lia | done].
  - vm_compute. lia.
  - vm_compute. lia.
Defined.
